(** * Verification of the XML parser runtime ([module_template.c])

    A shallow embedding of the C template that the parser generator
    instantiates: the perfect-hash name resolver, the frozen list and its
    iterator, the tuple-row builder, the attribute / child dispatch of the
    generated node classes, the record constructors and the Expat driver.

    Conventions of the embedding.
    - A C string is the sequence of [char]s before its terminator, a Rocq
      [string]; a string literal can also be indexed at its terminator.
    - [int] and [long] values are [Z]; an operation whose mathematical result
      leaves the range of the type is undefined behaviour.
    - A computation that runs into undefined behaviour (out of bounds read,
      signed overflow, call through an uninitialised pointer) yields [None].
    - Memory allocation is assumed to succeed; reference counts are not
      modelled. *)

From Stdlib Require Import ZArith Lia Bool Ascii String DecimalString.
From stdpp Require Import base option list.

Local Open Scope string_scope.
Local Open Scope Z_scope.

(** ** C integers, characters and arrays *)

Module C.

Definition INT_MIN : Z := - 2 ^ 31.
Definition INT_MAX : Z := 2 ^ 31 - 1.
Definition LONG_MIN : Z := - 2 ^ 63.
Definition LONG_MAX : Z := 2 ^ 63 - 1.

(** The result of an [int] operation: defined only inside the range. *)
Definition int_of (z : Z) : option Z :=
  if (INT_MIN <=? z) && (z <=? INT_MAX) then Some z else None.

(** [a % b] truncates towards zero; [b = 0] is undefined. *)
Definition rem (a b : Z) : option Z :=
  if b =? 0 then None else Some (Z.rem a b).

(** [arr[i]] for an array of known length. *)
Definition index {A} (arr : list A) (i : Z) : option A :=
  if i <? 0 then None else arr !! Z.to_nat i.

Definition byte_value (c : ascii) : Z := Z.of_N (N_of_ascii c).

(** The value of a [char] holding the byte [c]: whether plain [char] is
    signed is fixed by the platform ABI. *)
Definition char_value (char_signed : bool) (c : ascii) : Z :=
  let n := byte_value c in
  if char_signed && (127 <? n) then n - 256 else n.

(** ["literal"[i]]: the characters, then the terminator. *)
Fixpoint literal_at (char_signed : bool) (s : string) (i : nat) : option Z :=
  match s, i with
  | EmptyString, O => Some 0
  | EmptyString, S _ => None
  | String c _, O => Some (char_value char_signed c)
  | String _ s', S i' => literal_at char_signed s' i'
  end.

Definition strlen (s : string) : Z := Z.of_nat (String.length s).

(** [strcmp(a,b) == 0] *)
Definition streq (a b : string) : bool := String.eqb a b.

End C.

(** ** The name resolver *)

Module NameResolver.

(** The perfect-hash parameters that the schema compiler hands to the
    template ([hash_info.salt1], [hash_info.salt2], [hash_info.g]). *)
Record hash_info := HashInfo {
  salt1 : string;
  salt2 : string;
  g : list Z
}.

Definition salt_length (h : hash_info) : Z := C.strlen (salt1 h).
Definition g_length (h : hash_info) : Z := Z.of_nat (length (g h)).

(** [find_str_in_array] *)
Fixpoint find_str_in_array_from (str : string) (array : list string) (i : Z) : Z :=
  match array with
  | [] => -1
  | a :: array' =>
      if C.streq str a then i else find_str_in_array_from str array' (i + 1)
  end.

Definition find_str_in_array (str : string) (array : list string) : Z :=
  find_str_in_array_from str array 0.

Section Lookup.

Variable char_signed : bool.

(** The loop [for(i=0; key[i] && i<salt_length; i++)] of the [hash_lookup]
    macro; [key] is the part of the key from position [i] on. *)
Fixpoint hash_loop (h : hash_info) (key : string) (i : nat) (f1 f2 : Z)
  : option (Z * Z) :=
  match key with
  | EmptyString => Some (f1, f2)
  | String k key' =>
      if Z.of_nat i <? salt_length h then
        a ← C.literal_at char_signed (salt1 h) i;
        b ← C.literal_at char_signed (salt2 h) i;
        f1' ← C.int_of (f1 + a * C.char_value char_signed k);
        f2' ← C.int_of (f2 + b * C.char_value char_signed k);
        hash_loop h key' (S i) f1' f2'
      else Some (f1, f2)
  end.

(** [i = (g[f1 % g_length] + g[f2 % g_length]) % g_length] *)
Definition hash_index (h : hash_info) (f1 f2 : Z) : option Z :=
  r1 ← C.rem f1 (g_length h);
  r2 ← C.rem f2 (g_length h);
  g1 ← C.index (g h) r1;
  g2 ← C.index (g h) r2;
  s ← C.int_of (g1 + g2);
  C.rem s (g_length h).

(** The macro [hash_lookup(f_name,hash_info,count,names,type,default)]:
    [count] is the number of entries of [names]. *)
Definition hash_lookup (hash : option hash_info) (names : list string)
    (default : Z) (key : string) : option Z :=
  match hash with
  | Some h =>
      '(f1, f2) ← hash_loop h key 0 0 0;
      i ← hash_index h f1 f2;
      if i <? Z.of_nat (length names) then
        n ← C.index names i;
        if C.streq key n then Some i else Some default
      else Some default
  | None => Some (find_str_in_array key names)
  end.

(** [py_field_lookup]: the key is a Python string, given by its code points
    ([Py_UCS4], an unsigned type). *)
Fixpoint py_field_loop (h : hash_info) (buffer : list N) (i : nat) (f1 f2 : Z)
  : option (option (Z * Z)) :=
  match buffer with
  | [] => Some (Some (f1, f2))
  | c :: buffer' =>
      if (127 <? c)%N then Some None
      else
        a ← C.literal_at char_signed (salt1 h) i;
        b ← C.literal_at char_signed (salt2 h) i;
        f1' ← C.int_of (f1 + a * Z.of_N c);
        f2' ← C.int_of (f2 + b * Z.of_N c);
        py_field_loop h buffer' (S i) f1' f2'
  end.

(** [PyUnicode_CompareWithASCIIString(key,name) == 0] *)
Definition compare_with_ascii (key : list N) (name : string) : bool :=
  bool_decide (key = map N_of_ascii (list_ascii_of_string name)).

Definition py_field_lookup (h : hash_info) (names : list string) (other : Z)
    (key : list N) : option Z :=
  if salt_length h <? Z.of_nat (length key) then Some other
  else
    fs ← py_field_loop h key 0 0 0;
    match fs with
    | None => Some other
    | Some (f1, f2) =>
        i ← hash_index h f1 f2;
        if i <? Z.of_nat (length names) then
          n ← C.index names i;
          if compare_with_ascii key n then Some i else Some other
        else Some other
    end.

End Lookup.

End NameResolver.

(** ** Python objects and the heap *)

Module Py.

Abbreviation addr := nat (only parsing).

(** A non-NULL [PyObject*].  Immutable objects are given by their value; the
    containers that the parser fills in place live in the heap. *)
#[warnings="-register-all"]
Inductive val :=
| VNone
| VTrue
| VFalse
| VLong (z : Z)
| VStr (s : string)
| VEnumValue (enum : nat) (i : Z)
| VSeq (items : list val)
| VOpaque (id : nat)
| VRef (a : addr).

(** [PyObject*]: NULL or an object. *)
Abbreviation ptr := (option val) (only parsing).

Definition is_str (p : ptr) : bool :=
  match p with Some (VStr _) => true | _ => false end.

Inductive class_index :=
| CLASS_FROZEN_LIST
| CLASS_FROZEN_LIST_ITR
| CLASS_TAGGED_VALUE
| CLASS_ (type : string)
| CLASS_ITEM_ (type : string).

(** [frozen_list]: [size] is the length of [content]; the slots between
    [size] and [capacity] are allocated but hold nothing. *)
Record frozen_list := FrozenList {
  capacity : nat;
  content : list ptr
}.

Definition size (fl : frozen_list) : nat := length (content fl).

Inductive obj :=
| OFrozenList (fl : frozen_list)
| OTaggedValue (v0 v1 : ptr)
| ONodeTagonly (cls : class_index) (fields : list ptr)
| ONodeList (cls : class_index) (base : frozen_list) (fields : list ptr)
| OFrozenListItr (i : nat) (fl : option addr).

Abbreviation heap := (list obj) (only parsing).

(** [PyObject**]: where a value is to be stored. *)
Inductive slot :=
| SlotRoot
| SlotField (a : addr) (i : nat)
| SlotContent (a : addr) (i : nat)
| SlotTagged (a : addr) (i : nat).

(** The exceptions the module raises.  [ParseError] carries the message and
    the line ([None] is Python's [None]); a [ParseWarning] turned into an
    exception by the warnings filter has the text
    "Warning on line [lineno]: [message]".  [SystemError] is the one the
    interpreter raises when a call returns a result with an exception
    already set.  The last five are the [TypeError]s of the [raise_*]
    functions of the constructors, with the arguments of their format
    strings. *)
Inductive exc :=
| ParseError (message : option string) (lineno : option Z)
| ParseWarning (lineno : Z) (message : string)
| SystemError
| TypeError (text : string)
| ValueError (text : string)
| IndexError (text : string)
| InvalidKeywordArg (func : string) (key : list N)
| TooManyArgsCount (func : string) (given maximum : Z)
| NeedsValueArg (func key : string)
| NeedsPosArg (func : string) (i : Z)
| DupField (name : string).

Definition init_frozen_list : frozen_list := FrozenList 0 [].

(** [frozen_list_push_object]: the capacity starts at [initial_cap] and
    doubles. *)
Definition frozen_list_push_object (fl : frozen_list) (o : ptr) (initial_cap : nat)
  : frozen_list :=
  let cap :=
    if (size fl =? capacity fl)%nat then
      if (capacity fl =? 0)%nat then initial_cap else (capacity fl * 2)%nat
    else capacity fl in
  FrozenList cap (content fl ++ [o])%list.

Definition as_frozen_list (o : obj) : option frozen_list :=
  match o with
  | OFrozenList fl => Some fl
  | ONodeList _ fl _ => Some fl
  | _ => None
  end.

Definition with_frozen_list (o : obj) (fl : frozen_list) : option obj :=
  match o with
  | OFrozenList _ => Some (OFrozenList fl)
  | ONodeList c _ fs => Some (ONodeList c fl fs)
  | _ => None
  end.

Definition obj_fields (o : obj) : option (list ptr) :=
  match o with
  | ONodeTagonly _ fs => Some fs
  | ONodeList _ _ fs => Some fs
  | _ => None
  end.

Definition with_fields (o : obj) (fs : list ptr) : option obj :=
  match o with
  | ONodeTagonly c _ => Some (ONodeTagonly c fs)
  | ONodeList c fl _ => Some (ONodeList c fl fs)
  | _ => None
  end.

(** Storing through an index that is out of range is undefined. *)
Definition store {A} (l : list A) (i : nat) (x : A) : option (list A) :=
  if (i <? length l)%nat then Some (<[i := x]> l) else None.

End Py.

(** ** The compiled schema

    What the template receives from the schema compiler.  Names are kept with
    the codes the template derives from them ([ELEMENT__x], [ATTRIBUTE__x],
    [PY_FIELD__x], [FIELD__t__x], [TAGGED_UNION_NAME__x] are the positions in
    the respective tables). *)

Module Schema.

Import NameResolver.

(** Element types with a [node_start_*] function of their own, or a
    generated class. *)
Inductive type_ref :=
| T_string
| T_empty
| T_spType
| T_class (type : nat).

(** Attribute types: the three with a [set_*_attribute] function, or an
    enumeration / character enumeration with a [parse__*] function. *)
Inductive attr_type :=
| A_string
| A_integer
| A_DoxBool
| A_enum (enum : nat)
| A_char_enum (enum : nat).

Record attribute_ref := AttributeRef {
  attr_name : string;
  attr_code : Z;
  attr_py_name : string;
  attr_py_field : Z;
  attr_field : nat;
  attr_ty : attr_type;
  attr_optional : bool
}.

Record child_ref := ChildRef {
  child_name : string;
  child_code : Z;
  child_py_name : string;
  child_py_field : Z;
  child_field : nat;
  child_is_list : bool;
  child_min_items : nat;
  child_ty : type_ref
}.

Record content_ref := ContentRef {
  content_name : string;
  content_code : Z;
  content_tag : nat;
  content_ty : type_ref;
  content_appends_str : bool
}.

Inductive content_kind :=
| content_none
| content_tuple
| content_union
| content_bare.

(** One entry of [types].  In an instantiation that compiles, a base type
    carries no fields (the calls the template emits for a base with fields
    do not match the prototypes), so bases only contribute content. *)
#[warnings="-register-all"]
Inductive type_desc := TypeDesc {
  t_name : string;
  t_bases : list type_desc;
  t_list_e : bool;
  t_field_count : nat;
  t_attributes : list attribute_ref;
  t_children : list child_ref;
  t_content_kind : content_kind;
  t_content : list content_ref;
  t_other_attr_error : bool;
  t_allow_text : bool
}.

Record enum_desc := EnumDesc {
  enum_name : string;
  enum_hash : option hash_info;
  enum_value_str : list string
}.

Record root_ref := RootRef {
  root_code : Z;
  root_tag : nat;
  root_type : nat
}.

Record schema := {
  char_signed : bool;
  e_hash : option hash_info;
  element_names : list string;
  a_hash : option hash_info;
  attribute_names : list string;
  py_f_hash : hash_info;
  py_field_names : list string;
  tagged_union_names : list string;
  types : list type_desc;
  enums : list enum_desc;
  char_enums : list string;
  root_elements : list root_ref
}.

Definition ELEMENT_COUNT (S : schema) : Z := Z.of_nat (length (element_names S)).
Definition ELEMENT_OTHER (S : schema) : Z := ELEMENT_COUNT S + 1.
Definition ATTRIBUTE_COUNT (S : schema) : Z := Z.of_nat (length (attribute_names S)).
Definition ATTRIBUTE_OTHER (S : schema) : Z := ATTRIBUTE_COUNT S + 1.
Definition PY_FIELD_COUNT (S : schema) : Z := Z.of_nat (length (py_field_names S)).
Definition PY_FIELD_OTHER (S : schema) : Z := PY_FIELD_COUNT S + 1.

Definition element_lookup (S : schema) (key : string) : option Z :=
  hash_lookup (char_signed S) (e_hash S) (element_names S) (ELEMENT_OTHER S) key.

Definition attribute_lookup (S : schema) (key : string) : option Z :=
  hash_lookup (char_signed S) (a_hash S) (attribute_names S) (ATTRIBUTE_OTHER S) key.

Definition field_lookup (S : schema) (key : list N) : option Z :=
  py_field_lookup (char_signed S) (py_f_hash S) (py_field_names S) (PY_FIELD_OTHER S) key.

Definition enum_value_lookup (S : schema) (e : enum_desc) (key : string) : option Z :=
  hash_lookup (char_signed S) (enum_hash e) (enum_value_str e) (-1) key.

(** The template's tests on a type. *)
Definition has_attributes (t : type_desc) : bool :=
  negb (bool_decide (t_attributes t = [])).
Definition has_children (t : type_desc) : bool :=
  negb (bool_decide (t_children t = [])).
Definition has_content (t : type_desc) : bool :=
  negb (bool_decide (t_content t = [])).
Definition is_content_tuple (t : type_desc) : bool :=
  match t_content_kind t with content_tuple => true | _ => false end.

Fixpoint has_children_or_content (t : type_desc) : bool :=
  has_children t || has_content t
  || existsb has_children_or_content (t_bases t).

Definition has_children_or_tuple_content (t : type_desc) : bool :=
  has_children t || is_content_tuple t.

End Schema.

(** ** The parse state and the monad of the handlers *)

Module Parser.

Import Py Schema NameResolver.

Inductive child_start_callback :=
| toplevel_start_fn
| node_class_child_start_fn (type : nat).

Inductive text_callback :=
| node_string_text_fn
| node_list_common_text_fn.

Inductive finish_callback :=
| node_string_end_fn
| node_class_finish_fn (type : nat).

(** A function pointer member: NULL, a function, or never assigned. *)
Inductive fnptr (A : Type) :=
| Null
| Fn (f : A)
| Uninit.
Arguments Null {A}.
Arguments Fn {A} f.
Arguments Uninit {A}.

Record parse_callbacks := ParseCallbacks {
  value : option slot;
  cs_call : fnptr child_start_callback;
  t_call : fnptr text_callback;
  f_call : fnptr finish_callback
}.

(** [parse_state], with what the handlers reach through it: the frames (the
    top one first; the blocks they are stored in are not modelled), the
    heap, the local [r_obj] of [parse], the error indicator of the
    interpreter and, once [XML_StopParser] was called, the line at which the
    parser was stopped. *)
Record parse_state := ParseState {
  stack : list parse_callbacks;
  ignore_level : Z;
  heap : Py.heap;
  r_obj : ptr;
  py_err : option exc;
  stopped : option Z
}.

(** What the handlers read but do not change: the position and error code
    of the Expat parser, and whether the warnings filter turns a
    [ParseWarning] into an exception. *)
Record context := Context {
  line : Z;
  error_string : option string;
  warnings_raise : bool
}.

(** An emitted [ParseWarning]: "Warning on line [w_line]: [w_text]". *)
Record warning := Warning {
  w_line : Z;
  w_text : string
}.

Definition M (A : Type) : Type :=
  context → parse_state → option (A * parse_state * list warning).

Definition ret {A} (a : A) : M A := λ _ s, Some (a, s, []).

Definition bind {A B} (m : M A) (k : A → M B) : M B :=
  λ c s,
    match m c s with
    | None => None
    | Some (a, s', w) =>
        match k a c s' with
        | None => None
        | Some (b, s'', w') => Some (b, s'', (w ++ w')%list)
        end
    end.

#[global] Instance M_ret : MRet M := @ret.
#[global] Instance M_bind : MBind M := λ A B k m, bind m k.

(** Undefined behaviour. *)
Definition ub {A} : M A := λ _ _, None.

Definition get : M parse_state := λ _ s, Some (s, s, []).
Definition put (s : parse_state) : M unit := λ _ _, Some (tt, s, []).
Definition ask : M context := λ c s, Some (c, s, []).
Definition tell (w : warning) : M unit := λ _ s, Some (tt, s, [w]).

Definition lift {A} (o : option A) : M A :=
  match o with Some a => ret a | None => ub end.

Definition set_stack (st : list parse_callbacks) (s : parse_state) :=
  ParseState st (ignore_level s) (heap s) (r_obj s) (py_err s) (stopped s).
Definition set_ignore_level (n : Z) (s : parse_state) :=
  ParseState (stack s) n (heap s) (r_obj s) (py_err s) (stopped s).
Definition set_heap (h : Py.heap) (s : parse_state) :=
  ParseState (stack s) (ignore_level s) h (r_obj s) (py_err s) (stopped s).
Definition set_r_obj (r : ptr) (s : parse_state) :=
  ParseState (stack s) (ignore_level s) (heap s) r (py_err s) (stopped s).
Definition set_py_err (e : option exc) (s : parse_state) :=
  ParseState (stack s) (ignore_level s) (heap s) (r_obj s) e (stopped s).
Definition set_stopped (b : option Z) (s : parse_state) :=
  ParseState (stack s) (ignore_level s) (heap s) (r_obj s) (py_err s) b.

Definition modify (f : parse_state → parse_state) : M unit :=
  λ _ s, Some (tt, f s, []).

(** *** The frame stack *)

Definition push_callbacks (cb : parse_callbacks) : M unit :=
  modify (λ s, set_stack (cb :: stack s) s).

Definition top_callbacks : M parse_callbacks :=
  s ← get;
  match stack s with
  | cb :: _ => ret cb
  | [] => ub
  end.

Definition pop_callbacks : M unit :=
  s ← get;
  match stack s with
  | _ :: st => put (set_stack st s)
  | [] => ub
  end.

(** *** Errors and warnings *)

Definition PyErr_SetObject (e : exc) : M unit :=
  modify (set_py_err (Some e)).

(** What [PyObject_CallFunction] on the class [ParseError] leaves and
    returns.  The class is called whether or not an exception is pending;
    the interpreter refuses a result that is returned with an exception
    set: it drops the result, puts [SystemError] in the place of the
    pending exception, and the call returns NULL. *)
Definition call_parse_error (pending : option exc) (message : option string)
    (lineno : option Z) : option exc * option exc :=
  match pending with
  | Some _ => (Some SystemError, None)
  | None => (None, Some (ParseError message lineno))
  end.

(** The call, and [if(exc == NULL) return; PyErr_SetObject(...,exc);]. *)
Definition raise_parse_error (message : option string) (lineno : option Z) : M unit :=
  s ← get;
  let '(pending, exc) := call_parse_error (py_err s) message lineno in
  modify (set_py_err pending) ;;
  match exc with
  | None => ret tt
  | Some e => PyErr_SetObject e
  end.

(** [set_parse_error] builds the exception from [XML_ErrorString] of the
    parser's error code; its [msg] parameter is not used. *)
Definition set_parse_error (msg : string) : M unit :=
  c ← ask;
  raise_parse_error (error_string c) (Some (line c)).

Definition set_parse_error_format (msg : string) : M unit :=
  c ← ask;
  raise_parse_error (Some msg) (Some (line c)).

(** [PyErr_WarnFormat] for [ParseWarning]: 0, or -1 with the warning raised
    as an exception. *)
Definition set_parse_warning (msg : string) : M Z :=
  c ← ask;
  if warnings_raise c then
    PyErr_SetObject (ParseWarning (line c) msg) ;; ret (-1)
  else
    tell (Warning (line c) msg) ;; ret 0.

Definition XML_StopParser : M unit :=
  c ← ask; modify (set_stopped (Some (line c))).

(** The text of a "%s" between double quotes. *)
Definition dquote : string := String (ascii_of_nat 34) "".
Definition quoted (s : string) : string := dquote ++ s ++ dquote.

Definition warn_unexpected_attribute (name : string) : M Z :=
  set_parse_warning ("unexpected attribute " ++ quoted name).
Definition warn_duplicate_attribute (name : string) : M Z :=
  set_parse_warning ("duplicate attribute " ++ quoted name).
Definition raise_missing_attribute_error (name : string) : M unit :=
  set_parse_error_format ("missing " ++ quoted name ++ " attribute").
Definition raise_duplicate_element_error (name : string) : M unit :=
  set_parse_error_format (quoted name ++ " cannot appear more than once in this context").
Definition raise_missing_element_error (name : string) : M unit :=
  set_parse_error_format ("missing " ++ quoted name ++ " child").
Definition raise_empty_list_element_error (name : string) : M unit :=
  set_parse_error_format ("at least one " ++ quoted name ++ " child is required").
Definition raise_invalid_enum_error (v : string) : M unit :=
  set_parse_error_format (quoted v ++ " is not one of the allowed enumeration values").
Definition raise_invalid_char_enum_error (c : ascii) (allowed : string) : M unit :=
  set_parse_error_format
    (quoted (String c "") ++ " is not one of the allowed character values; must be one of "
     ++ quoted allowed).

(** *** Slots and heap objects *)

Definition load (h : Py.heap) (r : ptr) (p : slot) : option ptr :=
  match p with
  | SlotRoot => Some r
  | SlotField a i => o ← h !! a; fs ← obj_fields o; fs !! i
  | SlotContent a i => o ← h !! a; fl ← as_frozen_list o; content fl !! i
  | SlotTagged a i =>
      o ← h !! a;
      match o, i with
      | OTaggedValue v0 _, 0%nat => Some v0
      | OTaggedValue _ v1, 1%nat => Some v1
      | _, _ => None
      end
  end.

Definition store_obj (h : Py.heap) (a : addr) (o : obj) : option Py.heap :=
  Py.store h a o.

Definition store_slot (s : parse_state) (p : slot) (v : ptr) : option parse_state :=
  match p with
  | SlotRoot => Some (set_r_obj v s)
  | SlotField a i =>
      o ← heap s !! a; fs ← obj_fields o; fs' ← Py.store fs i v;
      o' ← with_fields o fs'; h ← store_obj (heap s) a o'; Some (set_heap h s)
  | SlotContent a i =>
      o ← heap s !! a; fl ← as_frozen_list o; c ← Py.store (content fl) i v;
      o' ← with_frozen_list o (FrozenList (capacity fl) c);
      h ← store_obj (heap s) a o'; Some (set_heap h s)
  | SlotTagged a i =>
      o ← heap s !! a;
      o' ← match o, i with
           | OTaggedValue _ v1, 0%nat => Some (OTaggedValue v v1)
           | OTaggedValue v0 _, 1%nat => Some (OTaggedValue v0 v)
           | _, _ => None
           end;
      h ← store_obj (heap s) a o'; Some (set_heap h s)
  end.

(** [*p] *)
Definition read (p : slot) : M ptr :=
  s ← get; lift (load (heap s) (r_obj s) p).

(** [*p = v] *)
Definition write (p : slot) (v : ptr) : M unit :=
  s ← get; s' ← lift (store_slot s p v); put s'.

(** [PyObject_GC_New] and initialisation: the new object's address. *)
Definition alloc (o : obj) : M addr :=
  s ← get;
  put (set_heap (heap s ++ [o])%list s) ;;
  ret (length (heap s)).

Definition get_obj (a : addr) : M obj :=
  s ← get; lift (heap s !! a).

Definition put_obj (a : addr) (o : obj) : M unit :=
  s ← get; h ← lift (store_obj (heap s) a o); put (set_heap h s).

(** The [frozen_list] at [a], be it a list or the base of a list node. *)
Definition get_frozen_list (a : addr) : M frozen_list :=
  o ← get_obj a; lift (as_frozen_list o).

Definition put_frozen_list (a : addr) (fl : frozen_list) : M unit :=
  o ← get_obj a; o' ← lift (with_frozen_list o fl); put_obj a o'.

(** The node that the value of the top frame points to. *)
Definition top_node : M addr :=
  cb ← top_callbacks;
  p ← lift (value cb);
  v ← read p;
  match v with
  | Some (VRef a) => ret a
  | _ => ub
  end.

(** *** Scalars *)

Definition NODE_LIST_INITIAL_CAPACITY : nat := 5.

Definition is_blank (c : ascii) : bool :=
  let n := nat_of_ascii c in
  (n =? 32)%nat || (n =? 9)%nat || (n =? 10)%nat || (n =? 13)%nat || (n =? 11)%nat.

(** The loop of [non_whitespace]: [iters] is what is left of [i < len]. *)
Fixpoint non_whitespace_loop (s : string) (iters : nat) (len : Z) {struct iters} : Z :=
  match iters with
  | O => 0
  | S iters' =>
      match s with
      | EmptyString => if 0 <=? len then 1 else 0
      | String c s' =>
          if is_blank c then non_whitespace_loop s' iters' len
          else if (nat_of_ascii c =? 0)%nat then (if 0 <=? len then 1 else 0)
          else 1
      end
  end.

Definition non_whitespace (s : string) (len : Z) : Z :=
  non_whitespace_loop s (Z.to_nat len) len.

(** [strtol(str,&end,10)]: white space, an optional sign, decimal digits.
    The result is the value, the rest of the string and whether [errno]
    was set ([ERANGE], with the value clamped); without digits the value is
    0, [end] is [str] and [errno] is left alone. *)
Definition isspace (c : ascii) : bool :=
  let n := nat_of_ascii c in
  (n =? 32)%nat || ((9 <=? n)%nat && (n <=? 13)%nat).

Fixpoint skip_space (s : string) : string :=
  match s with
  | String c s' => if isspace c then skip_space s' else s
  | EmptyString => s
  end.

Definition digit_value (c : ascii) : option Z :=
  let n := nat_of_ascii c in
  if (48 <=? n)%nat && (n <=? 57)%nat then Some (Z.of_nat n - 48) else None.

Fixpoint read_digits (s : string) (acc : Z) : Z * string :=
  match s with
  | String c s' =>
      match digit_value c with
      | Some d => read_digits s' (acc * 10 + d)
      | None => (acc, s)
      end
  | EmptyString => (acc, s)
  end.

Definition starts_with_digit (s : string) : bool :=
  match s with
  | String c _ => bool_decide (is_Some (digit_value c))
  | EmptyString => false
  end.

Definition strtol (str : string) : Z * string * bool :=
  let s := skip_space str in
  let '(neg, s1) :=
    match s with
    | String "-" s' => (true, s')
    | String "+" s' => (false, s')
    | _ => (false, s)
    end in
  if starts_with_digit s1 then
    let '(n, rest) := read_digits s1 0 in
    let v := if neg then - n else n in
    if v <? C.LONG_MIN then (C.LONG_MIN, rest, true)
    else if C.LONG_MAX <? v then (C.LONG_MAX, rest, true)
    else (v, rest, false)
  else (0, str, false).

(** [parse_integer]: the return code and [*value]. *)
Definition parse_integer (str : string) : M (Z * Z) :=
  let '(v, rest, errno) := strtol str in
  if errno || negb (non_whitespace rest (-1) =? 0) then
    set_parse_error "cannot parse integer" ;; ret (-1, v)
  else ret (0, v).

(** *** Attribute setters *)

Abbreviation attribute := (string * string)%type (only parsing).

Definition set_string_attribute (field : slot) (attr : attribute) : M Z :=
  f ← read field;
  if bool_decide (f ≠ None) then warn_duplicate_attribute (fst attr)
  else write field (Some (VStr (snd attr))) ;; ret 0.

Definition set_integer_attribute (field : slot) (attr : attribute) : M Z :=
  f ← read field;
  if bool_decide (f ≠ None) then warn_duplicate_attribute (fst attr)
  else
    '(r, v) ← parse_integer (snd attr);
    if negb (r =? 0) then ret (-1)
    else write field (Some (VLong v)) ;; ret 0.

Definition set_DoxBool_attribute (field : slot) (attr : attribute) : M Z :=
  f ← read field;
  if bool_decide (f ≠ None) then warn_duplicate_attribute (fst attr)
  else if C.streq (snd attr) "yes" then write field (Some VTrue) ;; ret 0
  else if C.streq (snd attr) "no" then write field (Some VFalse) ;; ret 0
  else
    set_parse_error_format (quoted (fst attr) ++ " must be " ++ quoted "yes"
                            ++ " or " ++ quoted "no") ;;
    ret (-1).

(** *** Leaf elements *)

(** [append_str_obj]: the destination holds a string (asserted). *)
Definition append_str_obj (dest : slot) (src : string) : M Z :=
  d ← read dest;
  match d with
  | Some (VStr a) => write dest (Some (VStr (a ++ src))) ;; ret 0
  | _ => ub
  end.

Definition node_string_text (str : string) : M Z :=
  cb ← top_callbacks;
  dest ← lift (value cb);
  d ← read dest;
  match d with
  | None => write dest (Some (VStr str)) ;; ret 0
  | Some (VStr a) => write dest (Some (VStr (a ++ str))) ;; ret 0
  | Some _ =>
      PyErr_SetObject (TypeError "can only concatenate str") ;; ret (-1)
  end.

Definition node_string_end : M Z :=
  cb ← top_callbacks;
  dest ← lift (value cb);
  d ← read dest;
  match d with
  | None => write dest (Some (VStr "")) ;; ret 0
  | Some _ => ret 0
  end.

(** The loop [for(; *attr != NULL; attr += 2)] of the leaves without
    attributes. *)
Fixpoint unexpected_attributes (attr : list attribute) : M Z :=
  match attr with
  | [] => ret 0
  | a :: attr' =>
      r ← warn_unexpected_attribute (fst a);
      if negb (r =? 0) then ret (-1) else unexpected_attributes attr'
  end.

Definition node_start_string (dest : slot) (attr : list attribute) : M Z :=
  r ← unexpected_attributes attr;
  if negb (r =? 0) then ret (-1)
  else
    write dest None ;;
    push_callbacks (ParseCallbacks (Some dest) Null (Fn node_string_text_fn)
                      (Fn node_string_end_fn)) ;;
    ret 1.

Definition node_start_empty (dest : slot) (attr : list attribute) : M Z :=
  r ← unexpected_attributes attr;
  if negb (r =? 0) then ret (-1)
  else
    push_callbacks (ParseCallbacks None Null Null Null) ;;
    write dest (Some VNone) ;;
    ret 1.

(** The attribute loop of [node_start_spType]; [c] is the character so
    far.  The result is the return code and [c]. *)
Fixpoint spType_attributes (attr : list attribute) (c : Z) : M (Z * Z) :=
  match attr with
  | [] => ret (0, c)
  | a :: attr' =>
      r ← (if negb (C.streq (fst a) "value")
           then warn_unexpected_attribute (fst a) else ret 0);
      if negb (r =? 0) then ret (-1, c)
      else
        '(r', v) ← parse_integer (snd a);
        if negb (r' =? 0) then ret (-1, c)
        else if (v <? 0) || (127 <? v) then
          set_parse_error (quoted "value" ++ " must be between 0 and 127") ;;
          ret (-1, c)
        else spType_attributes attr' v
  end.

Definition char_string (c : Z) : string := String (ascii_of_nat (Z.to_nat c)) "".

Definition node_start_spType (dest : slot) (attr : list attribute) : M Z :=
  '(r, c) ← spType_attributes attr 32;
  if negb (r =? 0) then ret (-1)
  else
    d ← read dest;
    r' ← (if bool_decide (d = None)
          then write dest (Some (VStr (char_string c))) ;; ret 0
          else append_str_obj dest (char_string c));
    if negb (r' =? 0) then ret (-1)
    else
      push_callbacks (ParseCallbacks None Null Null Null) ;;
      ret 1.

(** *** Lists under construction *)

(** The cast to [node_list_common]: only a list node has this layout. *)
Definition node_list_base (a : addr) : M frozen_list :=
  o ← get_obj a;
  match o with
  | ONodeList _ fl _ => ret fl
  | _ => ub
  end.

(** [frozen_list_push_object(fl,o,initial_cap)] on the list at [a]; the
    result is the slot [fl->content + (fl->size-1)]. *)
Definition push_object (a : addr) (o : ptr) (initial_cap : nat) : M slot :=
  fl ← get_frozen_list a;
  put_frozen_list a (frozen_list_push_object fl o initial_cap) ;;
  ret (SlotContent a (size fl)).

Definition last_content (fl : frozen_list) : option ptr :=
  content fl !! (size fl - 1)%nat.

Definition node_list_common_text (str : string) : M Z :=
  a ← top_node;
  n ← node_list_base a;
  if negb (size n =? 0)%nat && is_str (mjoin (last_content n)) then
    append_str_obj (SlotContent a (size n - 1)) str
  else
    push_object a (Some (VStr str)) NODE_LIST_INITIAL_CAPACITY ;; ret 0.

Definition frozen_list_push_tagged_value (tag_names : list string) (name : nat)
    (a : addr) (initial_cap : nat) : M slot :=
  tv ← alloc (OTaggedValue None None);
  push_object a (Some (VRef tv)) initial_cap ;;
  tag ← lift (tag_names !! name);
  write (SlotTagged tv 0) (Some (VStr tag)) ;;
  ret (SlotTagged tv 1).

(** The fields of the tuple item [fl->content[fl->size-1]]. *)
Definition last_tuple_item (fl : frozen_list) : M (addr * list ptr) :=
  l ← lift (last_content fl);
  match l with
  | Some (VRef t) =>
      o ← get_obj t;
      match o with
      | ONodeTagonly _ fs => ret (t, fs)
      | _ => ub
      end
  | _ => ub
  end.

(** [field_names[i]] as the argument of a "%s". *)
Definition field_name (field_names : list string) (i : nat) : M string :=
  lift (field_names !! i).

(** [((tuple_item)last)->fields[i] == NULL] for the last item of [fl]. *)
Definition last_field_is_null (fl : frozen_list) (i : nat) : M bool :=
  '(_, fs) ← last_tuple_item fl;
  f ← lift (fs !! i);
  ret (bool_decide (f = None)).

(** [frozen_list_push_tuple_item]: the slot of the requested field, or NULL
    with the error set. *)
Definition frozen_list_push_tuple_item (tuple_i tuple_size : nat)
    (field_names : list string) (cls : class_index) (a : addr)
    (initial_cap : nat) : M (option slot) :=
  if (tuple_size =? 0)%nat then ub
  else
    fl ← get_frozen_list a;
    if (tuple_i =? 0)%nat then
      blocked ← (if (size fl =? 0)%nat then ret false
                 else last_field_is_null fl (tuple_size - 1));
      if (blocked : bool) then
        n0 ← field_name field_names 0;
        nl ← field_name field_names (tuple_size - 1);
        set_parse_error_format
          (quoted n0 ++ " element can only come after " ++ quoted nl
           ++ " element or be the first in its group") ;;
        ret None
      else
        t ← alloc (ONodeTagonly cls (replicate tuple_size None));
        push_object a (Some (VRef t)) initial_cap ;;
        ret (Some (SlotField t 0))
    else
      blocked ← (if (size fl =? 0)%nat then ret true
                 else last_field_is_null fl (tuple_i - 1));
      if (blocked : bool) then
        ni ← field_name field_names tuple_i;
        np ← field_name field_names (tuple_i - 1);
        set_parse_error_format
          (quoted ni ++ " element can only come after " ++ quoted np ++ " element") ;;
        ret None
      else
        '(t, _) ← last_tuple_item fl;
        ret (Some (SlotField t tuple_i)).

(** The loop [while(last->fields[i-1] == NULL) --i;] *)
Fixpoint last_filled (fields : list ptr) (i : nat) : option nat :=
  match i with
  | O => None
  | S i' =>
      f ← fields !! i';
      match f with
      | None => last_filled fields i'
      | Some _ => Some i
      end
  end.

Definition frozen_list_check_complete_tuple (tuple_size : nat)
    (field_names : list string) (a : addr) : M Z :=
  fl ← get_frozen_list a;
  if (size fl =? 0)%nat then ret 0
  else
    '(_, fs) ← last_tuple_item fl;
    i ← lift (last_filled fs tuple_size);
    if negb (i =? tuple_size)%nat then
      ni ← field_name field_names i;
      np ← field_name field_names (i - 1);
      set_parse_error_format
        (quoted ni ++ " element must come after " ++ quoted np ++ " element") ;;
      ret (-1)
    else ret 0.

(** *** The generated node classes *)

Section Handlers.

Variable S : schema.

(** [parse__T] for an enumeration: the member, or NULL with the error set. *)
Definition parse_enum (e : nat) (str : string) : M ptr :=
  d ← lift (enums S !! e);
  i ← lift (enum_value_lookup S d str);
  if i <? 0 then raise_invalid_enum_error str ;; ret None
  else ret (Some (VEnumValue e i)).

(** [parse__T] for a character enumeration with the values [allowed]. *)
Definition parse_char_enum (e : nat) (str : string) : M ptr :=
  allowed ← lift (char_enums S !! e);
  match str with
  | String c EmptyString =>
      if existsb (Ascii.eqb c) (list_ascii_of_string allowed)
      then ret (Some (VStr (String c "")))
      else raise_invalid_char_enum_error c allowed ;; ret None
  | _ => set_parse_error "value must be a single character" ;; ret None
  end.

(** The macro [handle_attr], followed by [return 1]. *)
Definition handle_attr (n : addr) (a : attribute_ref) (attr : attribute) : M Z :=
  let field := SlotField n (attr_field a) in
  let builtin (set : slot → attribute → M Z) : M Z :=
    r ← set field attr; if negb (r =? 0) then ret (-1) else ret 1 in
  let parsed (parse : string → M ptr) : M Z :=
    f ← read field;
    if bool_decide (f ≠ None) then
      r ← warn_duplicate_attribute (attr_py_name a);
      if negb (r =? 0) then ret (-1) else ret 1
    else
      v ← parse (snd attr);
      write field v ;;
      if bool_decide (v = None) then ret (-1) else ret 1 in
  match attr_ty a with
  | A_string => builtin set_string_attribute
  | A_integer => builtin set_integer_attribute
  | A_DoxBool => builtin set_DoxBool_attribute
  | A_enum e => parsed (parse_enum e)
  | A_char_enum e => parsed (parse_char_enum e)
  end.

(** [node_class_attr__T]: the [switch(attr_index)]. *)
Definition node_class_attr (t : type_desc) (n : addr) (attr_index : Z)
    (attr : attribute) : M Z :=
  match find (λ a, attr_code a =? attr_index) (t_attributes t) with
  | Some a => handle_attr n a attr
  | None => ret 0
  end.

(** [node_class_attr_end__T], one attribute after the other. *)
Fixpoint attr_end_loop (n : addr) (refs : list attribute_ref) : M Z :=
  match refs with
  | [] => ret 0
  | a :: refs' =>
      f ← read (SlotField n (attr_field a));
      if bool_decide (f = None) then
        if attr_optional a then
          write (SlotField n (attr_field a)) (Some VNone) ;;
          attr_end_loop n refs'
        else raise_missing_attribute_error (attr_name a) ;; ret (-1)
      else attr_end_loop n refs'
  end.

Definition node_class_attr_end (t : type_desc) (n : addr) : M Z :=
  attr_end_loop n (t_attributes t).

(** The attribute loop of [node_class_start__T]. *)
Fixpoint start_attributes (t : type_desc) (n : addr) (attr : list attribute) : M Z :=
  match attr with
  | [] => ret 0
  | a :: attr' =>
      r ← (if has_attributes t then
             attr_index ← lift (attribute_lookup S (fst a));
             r ← node_class_attr t n attr_index a;
             if t_other_attr_error t then
               if r <? 0 then ret (-1)
               else if r =? 0 then
                 w ← warn_unexpected_attribute (fst a);
                 if negb (w =? 0) then ret (-1) else ret 0
               else ret 0
             else if r <? 0 then ret (-1) else ret 0
           else
             w ← warn_unexpected_attribute (fst a);
             if negb (w =? 0) then ret (-1) else ret 0);
      if negb (r =? 0) then ret (-1) else start_attributes t n attr'
  end.

(** The lists of the repeated children, created before the attributes are
    read. *)
Fixpoint create_child_lists (n : addr) (refs : list child_ref) : M unit :=
  match refs with
  | [] => ret tt
  | c :: refs' =>
      (if child_is_list c then
         fl ← alloc (OFrozenList init_frozen_list);
         write (SlotField n (child_field c)) (Some (VRef fl))
       else ret tt) ;;
      create_child_lists n refs'
  end.

Definition new_node (t : type_desc) : obj :=
  if t_list_e t
  then ONodeList (CLASS_ (t_name t)) init_frozen_list (replicate (t_field_count t) None)
  else ONodeTagonly (CLASS_ (t_name t)) (replicate (t_field_count t) None).

(** [node_class_start__T]; [ti] is the position of [t] in [types]. *)
Definition node_class_start (ti : nat) (t : type_desc) (dest : slot)
    (attr : list attribute) : M Z :=
  n ← alloc (new_node t);
  write dest (Some (VRef n)) ;;
  create_child_lists n (t_children t) ;;
  r ← (if has_attributes t || t_other_attr_error t
       then start_attributes t n attr else ret 0);
  if negb (r =? 0) then ret (-1)
  else
    r' ← (if has_attributes t then node_class_attr_end t n else ret 0);
    if negb (r' =? 0) then ret (-1)
    else
      push_callbacks
        (ParseCallbacks (Some dest)
           (if has_children_or_content t then Fn (node_class_child_start_fn ti) else Null)
           (if t_allow_text t then Fn node_list_common_text_fn else Null)
           (if has_children_or_tuple_content t then Fn (node_class_finish_fn ti) else Null)) ;;
      ret 1.

(** [node_start_T] or [node_class_start__T], as the template chooses by the
    type of the child. *)
Definition node_start (ty : type_ref) (dest : slot) (attr : list attribute) : M Z :=
  match ty with
  | T_string => node_start_string dest attr
  | T_empty => node_start_empty dest attr
  | T_spType => node_start_spType dest attr
  | T_class ti => t ← lift (types S !! ti); node_class_start ti t dest attr
  end.

(** The position of the first element that satisfies [p]. *)
Fixpoint find_index {A} (p : A → bool) (l : list A) : option (nat * A) :=
  match l with
  | [] => None
  | x :: l' =>
      if p x then Some (0%nat, x)
      else '(i, y) ← find_index p l'; Some (Datatypes.S i, y)
  end.

(** A [case ELEMENT__c:] of a child of the type. *)
Definition child_case (n : addr) (c : child_ref) (attr : list attribute) : M Z :=
  let field := SlotField n (child_field c) in
  if child_is_list c then
    f ← read field;
    match f with
    | Some (VRef fl) =>
        dest ← push_object fl None NODE_LIST_INITIAL_CAPACITY;
        node_start (child_ty c) dest attr
    | _ => ub
    end
  else
    f ← read field;
    if bool_decide (f ≠ None) then
      raise_duplicate_element_error (child_name c) ;; ret (-1)
    else node_start (child_ty c) field attr.

(** A [case ELEMENT__c:] of the content of the type; [i] is
    [TUPLE_ITEM_FIELD__T__c]. *)
Definition content_case (t : type_desc) (i : nat) (c : content_ref)
    (attr : list attribute) : M Z :=
  n ← top_node;
  base ← node_list_base n;
  match t_content_kind t with
  | content_tuple =>
      dest ← frozen_list_push_tuple_item i (length (t_content t))
               (map content_name (t_content t)) (CLASS_ITEM_ (t_name t)) n
               NODE_LIST_INITIAL_CAPACITY;
      match dest with
      | None => ret (-1)
      | Some d => node_start (content_ty c) d attr
      end
  | content_union =>
      dest ← (if content_appends_str c
                 && negb (size base =? 0)%nat && is_str (mjoin (last_content base))
              then ret (SlotContent n (size base - 1))
              else frozen_list_push_tagged_value (tagged_union_names S)
                     (content_tag c) n NODE_LIST_INITIAL_CAPACITY);
      node_start (content_ty c) dest attr
  | _ =>
      dest ← push_object n None NODE_LIST_INITIAL_CAPACITY;
      node_start (content_ty c) dest attr
  end.

(** [node_class_child__T]: the bases first, then the [switch(e_index)]. *)
Fixpoint node_class_child (t : type_desc) (n : addr) (e_index : Z)
    (attr : list attribute) {struct t} : M Z :=
  r ← (fix bases (bs : list type_desc) : M Z :=
         match bs with
         | [] => ret 0
         | b :: bs' =>
             if has_children_or_content b then
               r ← node_class_child b n e_index attr;
               if negb (r =? 0) then ret r else bases bs'
             else bases bs'
         end) (t_bases t);
  if negb (r =? 0) then ret r
  else
    match find (λ c, child_code c =? e_index) (t_children t) with
    | Some c => child_case n c attr
    | None =>
        match find_index (λ c, content_code c =? e_index) (t_content t) with
        | Some (i, c) => content_case t i c attr
        | None => ret 0
        end
    end.

Definition node_class_child_start (t : type_desc) (child_name : string)
    (attr : list attribute) : M Z :=
  n ← top_node;
  e ← lift (element_lookup S child_name);
  node_class_child t n e attr.

(** [node_class_finish_fields__T], one child after the other. *)
Fixpoint finish_fields_loop (n : addr) (refs : list child_ref) : M Z :=
  match refs with
  | [] => ret 0
  | c :: refs' =>
      let field := SlotField n (child_field c) in
      if negb (child_min_items c =? 0)%nat then
        if child_is_list c then
          f ← read field;
          match f with
          | Some (VRef a) =>
              fl ← get_frozen_list a;
              if (size fl <? 1)%nat then
                raise_empty_list_element_error (child_name c) ;; ret (-1)
              else finish_fields_loop n refs'
          | _ => ub
          end
        else
          f ← read field;
          if bool_decide (f = None) then
            raise_missing_element_error (child_name c) ;; ret (-1)
          else finish_fields_loop n refs'
      else if negb (child_is_list c) then
        f ← read field;
        (if bool_decide (f = None) then write field (Some VNone) else ret tt) ;;
        finish_fields_loop n refs'
      else finish_fields_loop n refs'
  end.

Definition node_class_finish_fields (t : type_desc) (n : addr) : M Z :=
  finish_fields_loop n (t_children t).

Definition node_class_finish (t : type_desc) : M Z :=
  n ← top_node;
  r ← (if has_children t then node_class_finish_fields t n else ret 0);
  if negb (r =? 0) then ret (-1)
  else if is_content_tuple t && (1 <? length (t_content t))%nat then
    frozen_list_check_complete_tuple (length (t_content t))
      (map content_name (t_content t)) n
  else ret 0.

(** [toplevel_start]: after [set_parse_error] the function goes on. *)
Definition toplevel_start (child_name : string) (attr : list attribute) : M Z :=
  cb ← top_callbacks;
  e ← lift (element_lookup S child_name);
  match find (λ r, root_code r =? e) (root_elements S) with
  | Some r =>
      p ← lift (value cb);
      v ← read p;
      (if bool_decide (v ≠ None)
       then set_parse_error "cannot have more than one root element"
       else ret tt) ;;
      tv ← alloc (OTaggedValue None None);
      write p (Some (VRef tv)) ;;
      tag ← lift (tagged_union_names S !! root_tag r);
      write (SlotTagged tv 0) (Some (VStr tag)) ;;
      t ← lift (types S !! root_type r);
      node_class_start (root_type r) t (SlotTagged tv 1) attr
  | None => ret 0
  end.

(** *** Calls through the function pointers of a frame *)

Definition call_cs (f : child_start_callback) (name : string)
    (attr : list attribute) : M Z :=
  match f with
  | toplevel_start_fn => toplevel_start name attr
  | node_class_child_start_fn ti =>
      t ← lift (types S !! ti); node_class_child_start t name attr
  end.

Definition call_t (f : text_callback) (str : string) : M Z :=
  match f with
  | node_string_text_fn => node_string_text str
  | node_list_common_text_fn => node_list_common_text str
  end.

Definition call_f (f : finish_callback) : M Z :=
  match f with
  | node_string_end_fn => node_string_end
  | node_class_finish_fn ti => t ← lift (types S !! ti); node_class_finish t
  end.

(** *** The Expat handlers *)

Definition start_element (name : string) (attrs : list attribute) : M unit :=
  s ← get;
  pc ← top_callbacks;
  if negb (ignore_level s =? 0) then
    modify (set_ignore_level (ignore_level s + 1))
  else
    r ← match cs_call pc with
        | Null => ret 0
        | Fn f => call_cs f name attrs
        | Uninit => ub
        end;
    if r <? 0 then XML_StopParser
    else if negb (r =? 0) then ret tt
    else
      w ← set_parse_warning ("unexpected element " ++ quoted name);
      if negb (w =? 0) then XML_StopParser
      else modify (set_ignore_level 1).

Definition end_element : M unit :=
  s ← get;
  pc ← top_callbacks;
  if negb (ignore_level s =? 0) then
    modify (set_ignore_level (ignore_level s - 1))
  else
    r ← match f_call pc with
        | Null => ret 0
        | Fn f => call_f f
        | Uninit => ub
        end;
    (if negb (r =? 0) then XML_StopParser else ret tt) ;;
    pop_callbacks.

Definition character_data (str : string) : M unit :=
  s ← get;
  pc ← top_callbacks;
  if negb (ignore_level s =? 0) then ret tt
  else
    match t_call pc with
    | Fn f =>
        r ← call_t f str;
        if negb (r =? 0) then XML_StopParser else ret tt
    | Null =>
        if negb (non_whitespace str (C.strlen str) =? 0) then
          w ← set_parse_warning "unexpected character data";
          if negb (w =? 0) then XML_StopParser else ret tt
        else ret tt
    | Uninit => ub
    end.

End Handlers.

End Parser.

(** ** The driver *)

Module Driver.

Import Py Schema Parser.

(** What the tokenizer reports for one token.  For a start tag, an end tag
    and a run of character data it calls one handler, and it returns after
    the token if the handler has stopped it.  For an empty-element tag
    "<name/>" it calls the start handler and then the end handler, the
    second whether or not the first has stopped the parser, and with the
    position moved to the end of the tag: [end_line] is
    [XML_GetCurrentLineNumber] during the second call. *)
Inductive event :=
| StartElement (name : string) (attrs : list attribute)
| EndElement (name : string)
| CharacterData (str : string)
| EmptyElement (name : string) (attrs : list attribute) (end_line : Z).

(** An event with [XML_GetCurrentLineNumber] at the time of the call. *)
Abbreviation located := (Z * event)%type (only parsing).

Inductive XML_Status :=
| XML_STATUS_OK
| XML_STATUS_ERROR (error_string : option string) (error_line : Z).

Definition EXPAT_BUFFER_SIZE : Z := 4096.
Definition EXPAT_CHUNK_SIZE : Z := 2 ^ 20.

(** What [parse_str] accepts. *)
Inductive py_data :=
| PyUnicode (utf8 : string)
| PyBytes (bytes : string)
| PyByteArray (bytes : string)
| PyOther.

(** What [parse] hands back to the interpreter: the returned pointer, the
    heap it points into and the error indicator. *)
Record result := Result {
  returned : ptr;
  objects : Py.heap;
  raised : option exc
}.

Section WithTokenizer.

Variable S : schema.

(** Whether the warnings filter raises [ParseWarning]. *)
Variable warnings_raise : bool.

(** The Expat parser: its state, and what one call of [XML_Parse] /
    [XML_ParseBuffer] does with a chunk: the handler calls it makes, in
    order, and the status it returns if no handler stops it. *)
Variable XML_Parser : Type.
Variable XML_ParserCreate : XML_Parser.
Variable XML_SetEncoding_utf8 : XML_Parser → XML_Parser.
Variable XML_Parse : XML_Parser → string → bool → XML_Parser * list located * XML_Status.

(** While a handler runs the parser has no error: [XML_ErrorString] of its
    error code is NULL. *)
Definition handler_context (ln : Z) : context := Context ln None warnings_raise.

Definition handle (e : located) (s : parse_state)
  : option (parse_state * list warning) :=
  match snd e with
  | StartElement name attrs =>
      '(_, s', w) ← start_element S name attrs (handler_context (fst e)) s; Some (s', w)
  | EndElement _ =>
      '(_, s', w) ← end_element S (handler_context (fst e)) s; Some (s', w)
  | CharacterData str =>
      '(_, s', w) ← character_data str (handler_context (fst e)) s; Some (s', w)
  | EmptyElement name attrs end_line =>
      '(_, s1, w1) ← start_element S name attrs (handler_context (fst e)) s;
      '(_, s2, w2) ← end_element S (handler_context end_line) s1;
      Some (s2, (w1 ++ w2)%list)
  end.

(** The handler calls of one chunk: the tokenizer returns after the token
    during which the parser was stopped. *)
Fixpoint deliver (es : list located) (s : parse_state)
  : option (parse_state * list warning) :=
  match es with
  | [] => Some (s, [])
  | e :: es' =>
      if bool_decide (stopped s ≠ None) then Some (s, [])
      else
        '(s1, w1) ← handle e s;
        '(s2, w2) ← deliver es' s1;
        Some (s2, (w1 ++ w2)%list)
  end.

Definition XML_ERROR_ABORTED : option string := Some "parsing aborted".

(** [XML_Parse] with the handlers installed: the new parser, the new state
    and the status. *)
Definition xml_parse (p : XML_Parser) (chunk : string) (final : bool)
    (s : parse_state)
  : option (XML_Parser * parse_state * list warning * XML_Status) :=
  let '(p', es, status) := XML_Parse p chunk final in
  '(s', w) ← deliver es s;
  match stopped s' with
  | Some ln => Some (p', s', w, XML_STATUS_ERROR XML_ERROR_ABORTED ln)
  | None => Some (p', s', w, status)
  end.

(** [raise_expat_error] *)
Definition raise_expat_error (status : XML_Status) (s : parse_state) : parse_state :=
  match py_err s, status with
  | None, XML_STATUS_ERROR msg ln => set_py_err (Some (ParseError msg (Some ln))) s
  | _, _ => s
  end.

(** [parse_file]: [reads] is what the successive calls of [file.read] return
    before the file only returns the empty string. *)
Fixpoint parse_file (reads : list string) (p : XML_Parser) (s : parse_state)
  : option (Z * parse_state * list warning) :=
  let chunk := match reads with [] => "" | c :: _ => c end in
  if EXPAT_BUFFER_SIZE <? C.strlen chunk then
    Some (-1,
          set_py_err
            (Some (ValueError
               ("read() returned too much data: "
                ++ NilZero.string_of_int (Z.to_int EXPAT_BUFFER_SIZE)
                ++ " bytes requested, "
                ++ NilZero.string_of_int (Z.to_int (C.strlen chunk))
                ++ " returned"))) s,
          [])
  else
    '(p', s', w, status) ← xml_parse p chunk (C.strlen chunk =? 0) s;
    match status with
    | XML_STATUS_ERROR _ _ => Some (-1, raise_expat_error status s', w)
    | XML_STATUS_OK =>
        match reads with
        | [] => Some (0, s', w)
        | c :: reads' =>
            if C.strlen c =? 0 then Some (0, s', w)
            else
              '(r, s'', w') ← parse_file reads' p' s';
              Some (r, s'', (w ++ w')%list)
        end
    end.

Fixpoint take_string (n : nat) (s : string) : string :=
  match n, s with
  | Datatypes.S n', String c s' => String c (take_string n' s')
  | _, _ => ""
  end.

Fixpoint drop_string (n : nat) (s : string) : string :=
  match n, s with
  | Datatypes.S n', String _ s' => drop_string n' s'
  | _, _ => s
  end.

(** The loop [while(len > EXPAT_CHUNK_SIZE)] of [parse_str] and the final
    call; [fuel] bounds the number of iterations. *)
Fixpoint parse_str_loop (fuel : nat) (str : string) (p : XML_Parser)
    (s : parse_state) : option (Z * parse_state * list warning) :=
  if EXPAT_CHUNK_SIZE <? C.strlen str then
    match fuel with
    | O => None
    | Datatypes.S fuel' =>
        '(p', s', w, status) ←
          xml_parse p (take_string (Z.to_nat EXPAT_CHUNK_SIZE) str) false s;
        match status with
        | XML_STATUS_ERROR _ _ => Some (-1, raise_expat_error status s', w)
        | XML_STATUS_OK =>
            '(r, s'', w') ←
              parse_str_loop fuel' (drop_string (Z.to_nat EXPAT_CHUNK_SIZE) str) p' s';
            Some (r, s'', (w ++ w')%list)
        end
    end
  else
    '(p', s', w, status) ← xml_parse p str true s;
    match status with
    | XML_STATUS_ERROR _ _ => Some (-1, raise_expat_error status s', w)
    | XML_STATUS_OK => Some (0, s', w)
    end.

Definition parse_str (data : py_data) (p : XML_Parser) (s : parse_state)
  : option (Z * parse_state * list warning) :=
  match data with
  | PyUnicode str =>
      parse_str_loop (String.length str) str (XML_SetEncoding_utf8 p) s
  | PyBytes str => parse_str_loop (String.length str) str p s
  | PyByteArray str => parse_str_loop (String.length str) str p s
  | PyOther =>
      Some (-1,
            set_py_err
              (Some (TypeError
                 ("argument to " ++ quoted "parse_str"
                  ++ " must be an instance of str, bytes or bytearray"))) s,
            [])
  end.

Inductive expat_source :=
| EXPAT_SOURCE_STR (data : py_data)
| EXPAT_SOURCE_FILE (reads : list string).

(** The state [parse] starts from: one frame, whose value is [&r_obj] and
    whose child handler is [toplevel_start]; its other two members are
    never assigned. *)
Definition initial_state : parse_state :=
  ParseState [ParseCallbacks (Some SlotRoot) (Fn toplevel_start_fn) Uninit Uninit]
    0 [] None None None.

Definition parse (source : expat_source) : option (result * list warning) :=
  '(r, s, w) ← match source with
               | EXPAT_SOURCE_STR data => parse_str data XML_ParserCreate initial_state
               | EXPAT_SOURCE_FILE reads => parse_file reads XML_ParserCreate initial_state
               end;
  if negb (r =? 0) then Some (Result None (heap s) (py_err s), w)
  else if bool_decide (r_obj s = None) then
    let '(pending, exc) :=
      call_parse_error (py_err s) (Some "document without a recognized root element")
        None in
    Some (Result None (heap s) (match exc with Some e => Some e | None => pending end), w)
  else Some (Result (r_obj s) (heap s) (py_err s), w).

End WithTokenizer.

End Driver.

(** ** The Python side: frozen lists and record constructors *)

Module Api.

Import Py Schema.

(** What a function called from Python does: it returns, raises, or has
    undefined behaviour. *)
Inductive outcome (A : Type) :=
| Done (a : A)
| Raised (e : exc)
| Undefined.
Arguments Done {A} a.
Arguments Raised {A} e.
Arguments Undefined {A}.

Definition of_option {A} (o : option A) : outcome A :=
  match o with Some a => Done a | None => Undefined end.

Definition obind {A B} (m : outcome A) (k : A → outcome B) : outcome B :=
  match m with
  | Done a => k a
  | Raised e => Raised e
  | Undefined => Undefined
  end.

#[global] Instance outcome_ret : MRet outcome := @Done.
#[global] Instance outcome_bind : MBind outcome := λ A B k m, obind m k.

(** *** [FrozenList] *)

Definition frozen_list_at (h : heap) (a : addr) : option frozen_list :=
  o ← h !! a; as_frozen_list o.

Definition frozen_list_size (h : heap) (self : addr) : option Z :=
  fl ← frozen_list_at h self; Some (Z.of_nat (size fl)).

Definition frozen_list_item (h : heap) (self : addr) (i : Z) : outcome val :=
  fl ← of_option (frozen_list_at h self);
  if (i <? 0) || (Z.of_nat (size fl) <=? i) then Raised (IndexError "index out of range")
  else of_option (mjoin (content fl !! Z.to_nat i)).

(** [frozen_list_tp_iter]: the heap with the new iterator, and its address. *)
Definition frozen_list_tp_iter (h : heap) (self : addr) : option (heap * addr) :=
  fl ← frozen_list_at h self;
  let r := OFrozenListItr 0 (if (size fl =? 0)%nat then None else Some self) in
  Some ((h ++ [r])%list, length h).

(** [frozen_list_itr_tp_next]: NULL ends the iteration. *)
Definition frozen_list_itr_tp_next (h : heap) (self : addr) : option (heap * ptr) :=
  o ← h !! self;
  match o with
  | OFrozenListItr i None => Some (h, None)
  | OFrozenListItr i (Some a) =>
      fl ← frozen_list_at h a;
      r ← mjoin (content fl !! i);
      let i' := Datatypes.S i in
      Some (<[self := OFrozenListItr i' (if (i' =? size fl)%nat then None else Some a)]> h,
            Some r)
  | _ => None
  end.

(** [frozen_list_itr_length_hint]; the subtraction is one of [size_t], and
    [i] is below the size while the iterator holds the list. *)
Definition frozen_list_itr_length_hint (h : heap) (self : addr) : option Z :=
  o ← h !! self;
  match o with
  | OFrozenListItr i None => Some 0
  | OFrozenListItr i (Some a) =>
      fl ← frozen_list_at h a;
      if (i <=? size fl)%nat then Some (Z.of_nat (size fl) - Z.of_nat i) else None
  | _ => None
  end.

(** One pass of a [for] loop over the iterator: what it yields until NULL.
    [fuel] bounds the number of calls of [tp_iternext]. *)
Fixpoint drain (fuel : nat) (h : heap) (itr : addr) : option (heap * list val) :=
  match fuel with
  | O => None
  | Datatypes.S fuel' =>
      '(h', r) ← frozen_list_itr_tp_next h itr;
      match r with
      | None => Some (h', [])
      | Some v => '(h'', vs) ← drain fuel' h' itr; Some (h'', v :: vs)
      end
  end.

(** [iter(self)] and one pass over it. *)
Definition iterate (fuel : nat) (h : heap) (self : addr) : option (heap * list val) :=
  '(h', itr) ← frozen_list_tp_iter h self; drain fuel h' itr.

(** *** Record constructors *)

(** The interpreter's part in reading an argument that is to be iterated.
    What an object answers depends on its type, which may be any type of
    the program that calls the module, and the answer may run code of that
    program: both functions take the heap and give the heap they leave.
    [PyObject_Size] gives the length, or nothing when it fails.
    [PyObject_iterate] stands for [PyObject_GetIter], the calls of
    [PyIter_Next] until it returns NULL, and [PyErr_Occurred] after them:
    the items in order, or the exception raised by one of the three. *)
Record interpreter := Interpreter {
  PyObject_Size : heap → val → heap * option nat;
  PyObject_iterate : heap → val → outcome (heap * list val)
}.

Section WithInterpreter.

Variable py : interpreter.

(** [frozen_list_fill]: a failure of [PyObject_Size] is cleared and stands
    for the length [NODE_LIST_INITIAL_CAPACITY]; an argument of length 0 is
    not iterated. *)
Definition frozen_list_fill (h : heap) (fl : frozen_list) (iterable : val)
  : outcome (heap * frozen_list) :=
  let '(h0, len) := PyObject_Size py h iterable in
  let initial_size :=
    match len with
    | Some n => n
    | None => Parser.NODE_LIST_INITIAL_CAPACITY
    end in
  if (initial_size =? 0)%nat then Done (h0, fl)
  else
    '(h1, items) ← PyObject_iterate py h0 iterable;
    Done (h1, foldl (λ l v, frozen_list_push_object l (Some v) initial_size) fl items).

(** [frozen_list_tp_new]: the new heap and the address of the list. *)
Definition frozen_list_tp_new (h : heap) (args : list val) (kwds : list (list N * val))
  : outcome (heap * addr) :=
  if negb (length kwds =? 0)%nat then
    Raised (TypeError "FrozenList.__new__ does not take any keyword arguments")
  else if negb (length args =? 1)%nat then
    Raised (TypeError "FrozenList.__new__ takes exactly one argument")
  else
    a0 ← of_option (args !! 0%nat);
    '(h1, fl) ← frozen_list_fill h init_frozen_list a0;
    Done ((h1 ++ [OFrozenList fl])%list, length h1).

Definition is_frozen_list_instance (h : heap) (v : val) : bool :=
  match v with
  | VRef a => bool_decide (is_Some (frozen_list_at h a))
  | _ => false
  end.

(** [node_set_py_field]: the return code, the fields and the heap. *)
Definition node_set_py_field (h : heap) (fields : list ptr) (i : nat) (v : val)
    (name : string) : outcome (Z * list ptr * heap) :=
  f ← of_option (fields !! i);
  if bool_decide (f ≠ None) then Raised (DupField name)
  else Done (1, <[i := Some v]> fields, h).

Definition node_set_py_field_frozen_list (h : heap) (fields : list ptr) (i : nat)
    (v : val) (name : string) : outcome (Z * list ptr * heap) :=
  f ← of_option (fields !! i);
  if bool_decide (f ≠ None) then Raised (DupField name)
  else if is_frozen_list_instance h v then Done (1, <[i := Some v]> fields, h)
  else
    '(h1, fl) ← frozen_list_fill h init_frozen_list v;
    Done (1, <[i := Some (VRef (length h1))]> fields, (h1 ++ [OFrozenList fl])%list).

(** [node_class_new_set_fields__T]: the [switch] falls through from the
    case of the number of positional arguments down to [case 1]. *)
Fixpoint assign_down (k : nat) (fields : list ptr) (args : list val) (start_i : nat)
  : option (list ptr) :=
  match k with
  | O => Some fields
  | Datatypes.S k' =>
      a ← args !! (k' + start_i)%nat;
      fields' ← Py.store fields k' (Some a);
      assign_down k' fields' args start_i
  end.

Definition node_class_new_set_fields (t : type_desc) (fields : list ptr)
    (args : list val) (start_i : nat) : option (list ptr) :=
  let c := (length args - start_i)%nat in
  if (0 <? c)%nat then
    assign_down (if (c <? t_field_count t)%nat then c else t_field_count t)
      fields args start_i
  else Some fields.

(** [node_class_new_set_kw_field__T]: the [switch(field)]. *)
Definition node_class_new_set_kw_field (t : type_desc) (h : heap)
    (fields : list ptr) (field : Z) (v : val) : outcome (Z * list ptr * heap) :=
  match find (λ a, attr_py_field a =? field) (t_attributes t) with
  | Some a => node_set_py_field h fields (attr_field a) v (attr_py_name a)
  | None =>
      match find (λ c, child_py_field c =? field) (t_children t) with
      | Some c =>
          if child_is_list c
          then node_set_py_field_frozen_list h fields (child_field c) v (child_py_name c)
          else node_set_py_field h fields (child_field c) v (child_py_name c)
      | None => Done (0, fields, h)
      end
  end.

Definition func_name (t : type_desc) : string := "Node_" ++ t_name t ++ ".__new__".

(** The loop [while(PyDict_Next(kwds,&pos,&key,&value))]. *)
Fixpoint new_set_kw_fields (S : schema) (t : type_desc) (h : heap)
    (fields : list ptr) (kwds : list (list N * val)) : outcome (list ptr * heap) :=
  match kwds with
  | [] => Done (fields, h)
  | (key, v) :: kwds' =>
      field ← of_option (field_lookup S key);
      '(r, fields', h') ← node_class_new_set_kw_field t h fields field v;
      if r =? 0 then Raised (InvalidKeywordArg (func_name t) key)
      else new_set_kw_fields S t h' fields' kwds'
  end.

(** [node_class_new_fields_end__T]: the attributes, then the children. *)
Fixpoint new_attributes_end (t : type_desc) (fields : list ptr)
    (refs : list attribute_ref) : outcome (list ptr) :=
  match refs with
  | [] => Done fields
  | a :: refs' =>
      f ← of_option (fields !! attr_field a);
      if bool_decide (f = None) then
        if attr_optional a
        then new_attributes_end t (<[attr_field a := Some VNone]> fields) refs'
        else Raised (NeedsValueArg (func_name t) (attr_py_name a))
      else new_attributes_end t fields refs'
  end.

Fixpoint new_children_end (t : type_desc) (h : heap) (fields : list ptr)
    (refs : list child_ref) : outcome (list ptr * heap) :=
  match refs with
  | [] => Done (fields, h)
  | c :: refs' =>
      f ← of_option (fields !! child_field c);
      if bool_decide (f = None) then
        if child_is_list c then
          new_children_end t (h ++ [OFrozenList init_frozen_list])%list
            (<[child_field c := Some (VRef (length h))]> fields) refs'
        else if (child_min_items c =? 0)%nat then
          new_children_end t h (<[child_field c := Some VNone]> fields) refs'
        else Raised (NeedsValueArg (func_name t) (child_py_name c))
      else new_children_end t h fields refs'
  end.

Definition node_class_new_fields_end (t : type_desc) (h : heap) (fields : list ptr)
  : outcome (list ptr * heap) :=
  fields' ← new_attributes_end t fields (t_attributes t);
  new_children_end t h fields' (t_children t).

(** [node_class_tp_new__T]: the new heap and the address of the node. *)
Definition node_class_tp_new (S : schema) (t : type_desc) (h : heap)
    (args : list val) (kwds : list (list N * val)) : outcome (heap * addr) :=
  let p_arg_count := Z.of_nat (length args) in
  let kw_arg_count := Z.of_nat (length kwds) in
  let maximum := Z.of_nat (t_field_count t) + (if t_list_e t then 1 else 0) in
  if maximum <? p_arg_count + kw_arg_count then
    Raised (TooManyArgsCount (func_name t) (p_arg_count + kw_arg_count) maximum)
  else if t_list_e t && (p_arg_count <? 1) then Raised (NeedsPosArg (func_name t) 0)
  else
    '(h0, base) ← (if t_list_e t then
                     a0 ← of_option (args !! 0%nat);
                     frozen_list_fill h init_frozen_list a0
                   else Done (h, init_frozen_list));
    let fields0 := replicate (t_field_count t) None in
    '(fields, h') ←
      (if (t_field_count t =? 0)%nat then Done (fields0, h0)
       else
         fields1 ← of_option (node_class_new_set_fields t fields0 args
                                (if t_list_e t then 1%nat else 0%nat));
         '(fields2, h2) ← new_set_kw_fields S t h0 fields1 kwds;
         node_class_new_fields_end t h2 fields2);
    let n := if t_list_e t
             then ONodeList (CLASS_ (t_name t)) base fields
             else ONodeTagonly (CLASS_ (t_name t)) fields in
    Done ((h' ++ [n])%list, length h').

End WithInterpreter.

(** *** [ParseError] *)

(** The [args] of the exceptions that the module raises: the message and
    the line. *)
Definition parse_error_args (message : option string) (lineno : option Z) : val :=
  VSeq [match message with Some m => VStr m | None => VNone end;
        match lineno with Some l => VLong l | None => VNone end].

(** [PyObject_Str], the "%S" of [PyUnicode_FromFormat], on the values that
    such [args] hold. *)
Definition py_str (v : val) : option string :=
  match v with
  | VNone => Some "None"
  | VStr s => Some s
  | VLong z => Some (NilZero.string_of_int (Z.to_int z))
  | _ => None
  end.

(** [parse_error_get_args] *)
Definition parse_error_get_args (args : val) : outcome (list val) :=
  let bad :=
    TypeError (Parser.quoted "self.args"
               ++ " is supposed to be a tuple with a length of 2") in
  match args with
  | VSeq items => if (length items <? 2)%nat then Raised bad else Done items
  | _ => Raised bad
  end.

(** [parse_error_tp_str]: with [lineno] None the format has one "%S", which
    takes the first of the two arguments passed, [lineno]. *)
Definition parse_error_tp_str (args : val) : outcome string :=
  items ← parse_error_get_args args;
  lineno ← of_option (items !! 1%nat);
  message ← of_option (items !! 0%nat);
  match lineno with
  | VNone =>
      l ← of_option (py_str lineno);
      Done ("Error: " ++ l)
  | _ =>
      l ← of_option (py_str lineno);
      m ← of_option (py_str message);
      Done ("Error on line " ++ l ++ ": " ++ m)
  end.

(** [parse_error_get]: the getters [message] (0) and [lineno] (1). *)
Definition parse_error_get (args : val) (i : nat) : outcome val :=
  items ← parse_error_get_args args;
  of_option (items !! i).

End Api.

(** ** A small schema

    A document [doc] with repeated [point] children (integer attributes [x]
    and [y], an optional [label]), an optional [title], a required [name],
    an optional [listing] of (term, desc) rows and repeated [para] children
    of mixed content.  The hash tables are perfect for the name tables. *)

Module Example.

Import NameResolver Py Schema Parser Driver.

Definition e_names : list string :=
  ["doc"; "point"; "title"; "name"; "listing"; "term"; "desc"; "para"; "b"; "sp"].
Definition a_names : list string := ["x"; "y"; "label"].
Definition f_names : list string :=
  ["x"; "y"; "label"; "point"; "title"; "name"; "listing"; "para"].

Definition e_table : hash_info :=
  HashInfo "LmFg8Qy" "sGFbuN3" [0; 8; 10; 11; 7; 7; 4; 4; 10; 11; 0; 9].
Definition a_table : hash_info :=
  HashInfo "fPKPv" "8oy9t" [0; 1; 1; 0; 0; 0; 0].
Definition f_table : hash_info :=
  HashInfo "8qDHkiX" "i5TCxtW" [0; 0; 0; 9; 5; 0; 10; 11; 7; 0; 7; 6; 4].

Definition point : type_desc :=
  TypeDesc "point" [] false 3
    [AttributeRef "x" 0 "x" 0 0 A_integer false;
     AttributeRef "y" 1 "y" 1 1 A_integer false;
     AttributeRef "label" 2 "label" 2 2 A_string true]
    [] content_none [] true false.

Definition listing : type_desc :=
  TypeDesc "listing" [] true 0 [] [] content_tuple
    [ContentRef "term" 5 0 T_string false; ContentRef "desc" 6 0 T_string false]
    false false.

Definition para : type_desc :=
  TypeDesc "para" [] true 0 [] [] content_union
    [ContentRef "b" 8 1 T_string false; ContentRef "sp" 9 2 T_spType true]
    false true.

Definition doc : type_desc :=
  TypeDesc "doc" [] false 5 []
    [ChildRef "point" 1 "point" 3 0 true 1 (T_class 0);
     ChildRef "title" 2 "title" 4 1 false 0 T_string;
     ChildRef "name" 3 "name" 5 2 false 1 T_string;
     ChildRef "listing" 4 "listing" 6 3 false 0 (T_class 2);
     ChildRef "para" 7 "para" 7 4 true 0 (T_class 3)]
    content_none [] false false.

(** Plain [char] is signed, as on x86-64. *)
Definition schema : Schema.schema := {|
  char_signed := true;
  e_hash := Some e_table;
  element_names := e_names;
  a_hash := Some a_table;
  attribute_names := a_names;
  py_f_hash := f_table;
  py_field_names := f_names;
  tagged_union_names := ["doc"; "b"; "sp"];
  types := [point; doc; listing; para];
  enums := [];
  char_enums := [];
  root_elements := [RootRef 0 0 1]
|}.

(** A tokenizer for tests: every byte is one handler call. *)
Definition glyph (c : ascii) : located :=
  (1,
   if Ascii.eqb c "D" then StartElement "doc" []
   else if Ascii.eqb c "P" then StartElement "point" [("x", "3"); ("y", "4")]
   else if Ascii.eqb c "N" then StartElement "name" []
   else if Ascii.eqb c "?" then StartElement "junk" []
   else if Ascii.eqb c "/" then EndElement ""
   else CharacterData (String c "")).

Definition glyph_parse (p : unit) (chunk : string) (final : bool)
  : unit * list located * XML_Status :=
  (p, map glyph (list_ascii_of_string chunk), XML_STATUS_OK).

End Example.

(** ** Notions used in the statements *)

Module Spec.

Import NameResolver Py Schema Parser Driver Api.

(** The salts of a table are usable: ASCII, of one length, and short enough
    for the checksums to stay inside [int]. *)
Definition ascii7 (c : ascii) : bool := C.byte_value c <? 128.

Definition salts_ok (h : hash_info) : bool :=
  forallb ascii7 (list_ascii_of_string (salt1 h))
  && forallb ascii7 (list_ascii_of_string (salt2 h))
  && (String.length (salt1 h) =? String.length (salt2 h))%nat
  && (salt_length h <=? 65536).

(** The displacement array is not empty and holds small natural numbers. *)
Definition g_ok (h : hash_info) : bool :=
  negb (length (g h) =? 0)%nat
  && forallb (λ x, (0 <=? x) && (x <? 2 ^ 30)) (g h).

(** The bytes of a key keep their value as [char]: they are below 128, or
    [char] is unsigned. *)
Definition key_ok (char_signed : bool) (key : string) : bool :=
  negb char_signed || forallb ascii7 (list_ascii_of_string key).

(** A lookup on tables as the schema compiler makes them, of a key whose
    bytes keep their value; the linear search needs nothing. *)
Definition lookup_ok (char_signed : bool) (hash : option hash_info) (key : string)
  : bool :=
  match hash with
  | Some h => salts_ok h && g_ok h && key_ok char_signed key
  | None => true
  end.

(** The code points of a name, as [PyUnicode_AsUCS4] gives them. *)
Definition code_points (name : string) : list N :=
  map N_of_ascii (list_ascii_of_string name).

(** A string of decimal digits and the number it writes. *)
Definition is_digit (c : ascii) : bool :=
  (48 <=? nat_of_ascii c)%nat && (nat_of_ascii c <=? 57)%nat.

Definition all_digits (s : string) : bool := forallb is_digit (list_ascii_of_string s).

Definition number (ds : string) : Z :=
  foldl (λ acc c, acc * 10 + (Z.of_nat (nat_of_ascii c) - 48)) 0 (list_ascii_of_string ds).

(** Every field of a type belongs to one of its attributes or children. *)
Definition fields_covered (t : type_desc) : bool :=
  forallb (λ i, existsb (λ a, (attr_field a =? i)%nat) (t_attributes t)
                || existsb (λ c, (child_field c =? i)%nat) (t_children t))
    (seq 0 (t_field_count t)).

(** The fields that are set stay set, and none is added, from [fs] to
    [fs']. *)
Definition grows (fs fs' : list ptr) : Prop :=
  length fs' = length fs
  ∧ ∀ i, (∃ v, fs !! i = Some (Some v)) → ∃ v, fs' !! i = Some (Some v).

(** The values that are set stay what they are, from [fs] to [fs']. *)
Definition kept (fs fs' : list ptr) : Prop :=
  length fs' = length fs
  ∧ ∀ (i : nat) w, fs !! i = Some (Some w) → fs' !! i = Some (Some w).

(** The lists of [h] are in [h'] with the same content. *)
Definition lists_kept (h h' : Py.heap) : Prop :=
  ∀ a fl, frozen_list_at h a = Some fl → frozen_list_at h' a = Some fl.

(** What the constructors need of the interpreter: the code that reading an
    argument runs leaves the lists as they are.  A [FrozenList] has no
    method that changes it. *)
Definition keeps_lists (py : interpreter) : Prop :=
  ∀ h v,
    lists_kept h (PyObject_Size py h v).1
    ∧ ∀ h1 items, PyObject_iterate py h v = Done (h1, items) → lists_kept h h1.

(** The field that the [case] of a field code sets in the constructor of
    [t], and whether it is the field of a repeated child. *)
Definition field_target (t : type_desc) (f : Z) : option (nat * bool) :=
  match find (λ a, attr_py_field a =? f) (t_attributes t) with
  | Some a => Some (attr_field a, false)
  | None =>
      c ← find (λ c, child_py_field c =? f) (t_children t);
      Some (child_field c, child_is_list c)
  end.

Definition kw_target (S : schema) (t : type_desc) (key : list N)
  : option (nat * bool) :=
  f ← field_lookup S key; field_target t f.

(** The first positional argument of a list node is its content. *)
Definition first_field_arg (t : type_desc) : nat := if t_list_e t then 1 else 0.

(** Field [i] is given a value by the call. *)
Definition given (S : schema) (t : type_desc) (args : list val)
    (kwds : list (list N * val)) (i : nat) : Prop :=
  (i + first_field_arg t < length args)%nat
  ∨ ∃ key v l, (key, v) ∈ kwds ∧ kw_target S t key = Some (i, l).

(** Field [i] is the field of a repeated child. *)
Definition is_list_field (t : type_desc) (i : nat) : bool :=
  existsb (λ c, child_is_list c && (child_field c =? i)%nat) (t_children t).

(** No two attributes or children of a type share a field. *)
Definition fields_distinct (t : type_desc) : Prop :=
  NoDup ((attr_field <$> t_attributes t) ++ (child_field <$> t_children t))%list.

(** The frame that [node_start_string] pushes. *)
Definition string_frame (dest : slot) : parse_callbacks :=
  ParseCallbacks (Some dest) Null (Fn node_string_text_fn) (Fn node_string_end_fn).

(** The text that a destination holds so far. *)
Definition collected (p : ptr) : option string :=
  match p with
  | None => Some ""
  | Some (VStr a) => Some a
  | Some _ => None
  end.

(** A computation does not clear the error indicator and does not stop the
    parser. *)
Definition err_kept {A} (m : M A) : Prop :=
  ∀ c s a s' w,
    m c s = Some (a, s', w) →
    (py_err s ≠ None → py_err s' ≠ None) ∧ stopped s' = stopped s.

(** A computation leaves the error indicator set whenever its result is one
    of the [bad] ones; it does not clear it and does not stop the parser. *)
Definition raises_on {A} (bad : A → bool) (m : M A) : Prop :=
  ∀ c s a s' w,
    m c s = Some (a, s', w) →
    (py_err s ≠ None ∨ bad a = true → py_err s' ≠ None) ∧ stopped s' = stopped s.

(** A computation always leaves the error indicator set, and does not stop
    the parser. *)
Definition always_sets {A} (m : M A) : Prop :=
  ∀ c s a s' w,
    m c s = Some (a, s', w) → py_err s' ≠ None ∧ stopped s' = stopped s.

(** A handler stops the parser only with the error indicator set, and does
    not clear the indicator. *)
Definition stop_ok (m : M unit) : Prop :=
  ∀ c s s' w,
    m c s = Some (tt, s', w) →
    (stopped s = None → stopped s' ≠ None → py_err s' ≠ None)
    ∧ (py_err s ≠ None → py_err s' ≠ None).

(** A computation leaves the frames of the open elements and the depth of
    the ignored subtree as they are. *)
Definition frames_kept {A} (m : M A) : Prop :=
  ∀ c s a s' w,
    m c s = Some (a, s', w) →
    stack s' = stack s ∧ ignore_level s' = ignore_level s.

(** A start function pushes no frame when it answers 0 and one frame when it
    answers a positive code. *)
Definition pushes_one (m : M Z) : Prop :=
  ∀ c s r s' w,
    m c s = Some (r, s', w) →
    ignore_level s' = ignore_level s
    ∧ (r = 0 → stack s' = stack s)
    ∧ (0 < r → ∃ cb, stack s' = cb :: stack s).

(** The results that stand for failure. *)
Definition is_failure (r : Z) : bool := negb (r =? 0).
Definition is_negative (r : Z) : bool := r <? 0.
Definition null_result {A} (r : option A) : bool :=
  match r with None => true | Some _ => false end.
Definition first_nonzero (r : Z * Z) : bool := negb (r.1 =? 0).

(** The [case PY_FIELD__x:] labels of a type are codes of field names. *)
Definition fields_declared (S : schema) (t : type_desc) : bool :=
  forallb (λ a, attr_py_field a <? PY_FIELD_COUNT S) (t_attributes t)
  && forallb (λ c, child_py_field c <? PY_FIELD_COUNT S) (t_children t).

(** The UTF-8 bytes of U+00E9 (e with acute accent), as Expat delivers the
    name of an element so called. *)
Definition e_acute : string := String (ascii_of_nat 195) (String (ascii_of_nat 169) "").

(** The exception that is set after [ParseError] was called to raise it in
    the state [s]: the [ParseError], or [SystemError] in the place of an
    exception that was pending. *)
Definition raised_by_call (message : option string) (lineno : option Z)
    (s : parse_state) : exc :=
  match py_err s with
  | None => ParseError message lineno
  | Some _ => SystemError
  end.

(** The state after a validation error with the text [msg] was raised. *)
Definition validation_error (c : context) (msg : string) (s : parse_state)
  : parse_state :=
  set_py_err (Some (raised_by_call (Some msg) (Some (line c)) s)) s.

(** The state after [set_parse_error]. *)
Definition tokenizer_error (c : context) (s : parse_state) : parse_state :=
  set_py_err (Some (raised_by_call (error_string c) (Some (line c)) s)) s.

(** The fields of the node at [n]. *)
Definition node_fields (s : parse_state) (n : addr) : option (list ptr) :=
  o ← heap s !! n; obj_fields o.






(** The name in the duplicate-attribute warning: the name as written in the
    document for the three built-in types, the field name for the
    enumerations. *)
Definition warned_name (a : attribute_ref) (attr : string * string) : string :=
  match attr_ty a with
  | A_enum _ | A_char_enum _ => attr_py_name a
  | _ => fst attr
  end.

Definition duplicate_warning (c : context) (a : attribute_ref)
    (attr : string * string) : warning :=
  Warning (line c) ("duplicate attribute " ++ quoted (warned_name a attr)).

(** The result of a handler with one more warning in front. *)
Definition after_warning {A} (w : warning)
    (r : option (A * parse_state * list warning))
  : option (A * parse_state * list warning) :=
  match r with
  | Some (a, s, ws) => Some (a, s, w :: ws)
  | None => None
  end.

(** What [node_start_spType] makes of the value of an attribute: the number
    [strtol] reads, acceptable when [errno] stays clear and the number is in
    the range of the check. *)
Definition sp_value (value : string) : Z := (strtol value).1.1.

Definition sp_value_ok (value : string) : bool :=
  negb (strtol value).2 && (0 <=? sp_value value) && (sp_value value <=? 127).

(** The character after the attributes: from the last one, whatever its
    name. *)
Definition sp_char (attrs : list (string * string)) (ch : Z) : Z :=
  foldl (λ _ a, sp_value (snd a)) ch attrs.

(** One warning for every attribute not called "value". *)
Definition sp_warnings (c : context) (attrs : list (string * string)) : list warning :=
  flat_map (λ a, if C.streq (fst a) "value" then []
                 else [Warning (line c) ("unexpected attribute " ++ quoted (fst a))])
    attrs.

(** The frame of a leaf without content. *)
Definition leaf_frame : parse_callbacks := ParseCallbacks None Null Null Null.

(** Events that open and close elements in matching pairs: the content of
    an element, with all its descendants, written with a start and an end
    tag or with an empty-element tag, and their character data. *)
Inductive balanced : list (Z * event) → Prop :=
| balanced_nil : balanced []
| balanced_text ln str es :
    balanced es → balanced ((ln, CharacterData str) :: es)
| balanced_empty ln name attrs end_line es :
    balanced es → balanced ((ln, EmptyElement name attrs end_line) :: es)
| balanced_element ln name attrs body ln' name' es :
    balanced body → balanced es →
    balanced ((ln, StartElement name attrs) :: body ++ (ln', EndElement name') :: es)%list.

(** The outcome of a run with one more warning in front. *)
Definition with_warning (w : warning) (r : option (parse_state * list warning))
  : option (parse_state * list warning) :=
  match r with
  | Some (s, ws) => Some (s, w :: ws)
  | None => None
  end.

(** The top frame does not take the element: it has no child handler, or
    its child handler answers 0. *)
Definition unrecognized (S : schema) (pc : parse_callbacks) (name : string)
    (attrs : list (string * string)) (c : context) (s : parse_state) : Prop :=
  cs_call pc = Null
  ∨ ∃ f s' ws, cs_call pc = Fn f ∧ call_cs S f name attrs c s = Some (0, s', ws).

(** Adjacent pieces of character data on one line, put together: how a
    run of text is cut into calls of the character data handler depends on
    where the chunks end. *)
Definition join (e : Z * event) (es : list (Z * event)) : list (Z * event) :=
  match e, es with
  | (l, CharacterData a), (l', CharacterData b) :: rest =>
      if l =? l' then (l, CharacterData (a ++ b)) :: rest else e :: es
  | _, _ => e :: es
  end.

Fixpoint coalesce (es : list (Z * event)) : list (Z * event) :=
  match es with
  | [] => []
  | e :: es' => join e (coalesce es')
  end.

(** Two runs end in the same state (the warnings apart). *)
Definition same_state (r1 r2 : option (parse_state * list warning)) : Prop :=
  fst <$> r1 = fst <$> r2.

(** Two calls of [parse] return the same value and raise the same error. *)
Definition same_outcome (r1 r2 : option (result * list warning)) : Prop :=
  fst <$> r1 = fst <$> r2.

Section Feeding.

Variable XML_Parser : Type.
Variable XML_Parse : XML_Parser → string → bool → XML_Parser * list (Z * event) * XML_Status.

(** The handler calls and the status of a sequence of calls of [XML_Parse],
    each with its chunk and its [isFinal] flag, if no handler intervenes:
    the calls end at the first error. *)
Fixpoint tokenize (p : XML_Parser) (feeds : list (string * bool))
  : list (Z * event) * XML_Status :=
  match feeds with
  | [] => ([], XML_STATUS_OK)
  | (chunk, final) :: feeds' =>
      let '(p', es, status) := XML_Parse p chunk final in
      match status with
      | XML_STATUS_OK =>
          let '(es', status') := tokenize p' feeds' in ((es ++ es')%list, status')
      | XML_STATUS_ERROR _ _ => (es, status)
      end
  end.

(** A document fed in chunks: every call but the last has [isFinal] clear. *)
Definition feed (chunks : list string) (last : string) : list (string * bool) :=
  (map (λ c, (c, false)) chunks ++ [(last, true)])%list.

Definition fed (feeds : list (string * bool)) : string :=
  String.concat "" (map fst feeds).

(** What the driver relies on: the handler calls, up to the cutting of
    character data, and the status depend on the document, not on the
    chunks it arrives in. *)
Definition chunking_invariant (create : XML_Parser) : Prop :=
  ∀ chunks1 last1 chunks2 last2,
    fed (feed chunks1 last1) = fed (feed chunks2 last2) →
    coalesce (tokenize create (feed chunks1 last1)).1
    = coalesce (tokenize create (feed chunks2 last2)).1
    ∧ (tokenize create (feed chunks1 last1)).2
      = (tokenize create (feed chunks2 last2)).2.

End Feeding.

(** The state a handler leaves, the warnings apart. *)
Definition state_of {A} (r : option (A * parse_state * list warning))
  : option (A * parse_state) :=
  match r with Some (a, s, _) => Some (a, s) | None => None end.

(** The state that the character data handler leaves. *)
Definition text_step (str : string) (c : context) (s : parse_state) : option parse_state :=
  pc ← head (stack s);
  if negb (ignore_level s =? 0) then Some s
  else
    match t_call pc with
    | Fn f =>
        '(r, s1) ← state_of (call_t f str c s);
        Some (if negb (r =? 0) then set_stopped (Some (line c)) s1 else s1)
    | Null =>
        if negb (non_whitespace str (C.strlen str) =? 0) && warnings_raise c then
          Some (set_stopped (Some (line c))
                  (set_py_err (Some (ParseWarning (line c) "unexpected character data")) s))
        else Some s
    | Uninit => None
    end.

(** What a sequence of calls of [XML_Parse] that made the handler calls
    [tok.1] and ended with the status [tok.2] leaves, as [parse_file] and
    [parse_str] see it: their result and the state. *)
Definition settle (S : schema) (wr : bool) (tok : list (Z * event) * XML_Status)
    (s : parse_state) : option (Z * parse_state) :=
  s1 ← fst <$> deliver S wr tok.1 s;
  match stopped s1 with
  | Some ln => Some (-1, raise_expat_error (XML_STATUS_ERROR XML_ERROR_ABORTED ln) s1)
  | None =>
      match tok.2 with
      | XML_STATUS_OK => Some (0, s1)
      | XML_STATUS_ERROR _ _ => Some (-1, raise_expat_error tok.2 s1)
      end
  end.

(** The pieces that [parse_str] hands to [XML_Parse]: the ones of
    [EXPAT_CHUNK_SIZE] bytes, and the rest for the final call. *)
Fixpoint str_chunks (fuel : nat) (str : string) : list string * string :=
  if EXPAT_CHUNK_SIZE <? C.strlen str then
    match fuel with
    | O => ([], str)
    | Datatypes.S fuel' =>
        let '(cs, last) := str_chunks fuel' (drop_string (Z.to_nat EXPAT_CHUNK_SIZE) str) in
        (take_string (Z.to_nat EXPAT_CHUNK_SIZE) str :: cs, last)
    end
  else ([], str).

(** A list is sealed when none of its slots is a reserved (NULL) one. *)
Definition sealed (fl : frozen_list) : Prop := Forall (λ p : ptr, p ≠ None) (content fl).

(** The cursor that [tp_iter] and [tp_next] leave at position [i]. *)
Definition cursor (a : addr) (len i : nat) : obj :=
  OFrozenListItr i (if (i =? len)%nat then None else Some a).

End Spec.

(** ** States used as concrete instances *)

Module Samples.

Import Py Schema Parser Driver Api.

(** The interpreter on the arguments that the samples pass: a tuple has its
    length and yields its items; [None] and an integer have no length and
    are not iterable.  The samples pass no other argument. *)
Definition interp : interpreter :=
  Interpreter
    (λ h v,
       (h, match v with VSeq items => Some (length items) | _ => None end))
    (λ h v,
       match v with
       | VSeq items => Done (h, items)
       | VNone => Raised (TypeError "'NoneType' object is not iterable")
       | VLong _ => Raised (TypeError "'int' object is not iterable")
       | _ => Undefined
       end).




(** A [point] node with the given fields, being built for the root. *)
Definition point_node (fs : list ptr) : parse_state :=
  ParseState [ParseCallbacks (Some SlotRoot) Null Null Null] 0
    [ONodeTagonly (CLASS_ "point") fs] (Some (VRef 0)) None None.

(** A [doc] node with the given [point] children, and title and name
    fields, being built for the root. *)
Definition doc_node (points : list ptr) (title name : ptr) : parse_state :=
  ParseState [ParseCallbacks (Some SlotRoot) Null Null Null] 0
    [ONodeTagonly (CLASS_ "doc") [Some (VRef 1); title; name; None; Some (VRef 2)];
     OFrozenList (FrozenList 5 points);
     OFrozenList (FrozenList 0 [])]
    (Some (VRef 0)) None None.

(** The state in which the root value is still to be made. *)
Definition fresh : parse_state :=
  ParseState [ParseCallbacks (Some SlotRoot) Null Null Null] 0 [] None None None.

(** The events of a complete [doc] element that starts on line [l]. *)
Definition one_doc (l : Z) : list (Z * event) :=
  [(l, StartElement "doc" []);
   (l + 1, StartElement "point" [("x", "3"); ("y", "4")]);
   (l + 1, EndElement "point");
   (l + 2, StartElement "name" []);
   (l + 2, CharacterData "n");
   (l + 2, EndElement "name");
   (l + 3, EndElement "doc")].

(** A document with two root elements, on one line, and what Expat does
    with it: the handler calls for the first element, then, at the start
    tag of the second, the error XML_ERROR_JUNK_AFTER_DOC_ELEMENT, for which
    no handler is called. *)
Definition two_roots : string :=
  "<doc><point x='3' y='4'/><name>n</name></doc><doc><name>m</name></doc>".

Definition expat_two_roots (p : unit) (chunk : string) (final : bool)
  : unit * list (Z * event) * XML_Status :=
  (p,
   [(1, StartElement "doc" []);
    (1, EmptyElement "point" [("x", "3"); ("y", "4")] 1);
    (1, StartElement "name" []);
    (1, CharacterData "n");
    (1, EndElement "name");
    (1, EndElement "doc")],
   XML_STATUS_ERROR (Some "junk after document element") 1).

(** A document with an attribute that [point] does not have, and what
    Expat does with it when the warning is raised as an exception: the start
    handler stops the parser in the empty-element tag, the end handler of
    the tag is still called, and no handler after it. *)
Definition stray_attribute : string := "<doc><point z='5'/><name>n</name></doc>".

Definition expat_stray_attribute (p : unit) (chunk : string) (final : bool)
  : unit * list (Z * event) * XML_Status :=
  (p,
   [(1, StartElement "doc" []);
    (1, EmptyElement "point" [("z", "5")] 1)],
   XML_STATUS_ERROR (Some "parsing aborted") 1).

(** A document whose only element is an empty-element tag that is not a
    root element, and the two handler calls that Expat makes for it. *)
Definition empty_junk : string := "<junk/>".

Definition expat_empty_junk (p : unit) (chunk : string) (final : bool)
  : unit * list (Z * event) * XML_Status :=
  (p, [(1, EmptyElement "junk" [] 1)], XML_STATUS_OK).

(** The state after the start tag of a [doc] element, as the handlers leave
    it. *)
Definition in_doc : parse_state :=
  Eval vm_compute in
    match deliver Example.schema false [(1, StartElement "doc" [])] initial_state with
    | Some (s, _) => s
    | None => initial_state
    end.

(** The schema of [Example] with an enumeration looked up by linear
    search. *)
Definition with_enum : schema :=
  {| char_signed := char_signed Example.schema;
     e_hash := e_hash Example.schema;
     element_names := element_names Example.schema;
     a_hash := a_hash Example.schema;
     attribute_names := attribute_names Example.schema;
     py_f_hash := py_f_hash Example.schema;
     py_field_names := py_field_names Example.schema;
     tagged_union_names := tagged_union_names Example.schema;
     types := types Example.schema;
     enums := [EnumDesc "DoxProtectionKind" None ["public"; "protected"; "private"]];
     char_enums := char_enums Example.schema;
     root_elements := root_elements Example.schema |}.

(** A tokenizer that hands over each run of text of a chunk in one call, so
    that a run cut by the end of a chunk arrives in two. *)
Definition run_parse (p : unit) (chunk : string) (final : bool)
  : unit * list (Z * event) * XML_Status :=
  (p, Spec.coalesce (map Example.glyph (list_ascii_of_string chunk)), XML_STATUS_OK).

End Samples.

(** * Theorems *)

(** ** Frozen lists *)

Module FrozenListProofs.
Import Py Api Spec.

Lemma sealed_values fl :
  sealed fl → ∃ vs : list val, content fl = Some <$> vs.
Proof.
  unfold sealed. induction (content fl) as [|p l IH]; intros H.
  - by exists [].
  - inversion H as [|? ? Hp Hl]; subst. destruct (IH Hl) as [vs ->].
    destruct p as [v|]; [|done]. by exists (v :: vs).
Qed.

Lemma frozen_list_at_insert_itr h a it i o fl :
  frozen_list_at h a = Some fl →
  h !! it = Some (OFrozenListItr i o) →
  ∀ j o', frozen_list_at (<[it := OFrozenListItr j o']> h) a = Some fl.
Proof.
  unfold frozen_list_at. intros Ha Hit j o'.
  destruct (decide (a = it)) as [->|Hne].
  - rewrite Hit in Ha. done.
  - by rewrite list_lookup_insert_ne.
Qed.

Lemma tp_next_yield h a it i fl v :
  frozen_list_at h a = Some fl →
  h !! it = Some (OFrozenListItr i (Some a)) →
  content fl !! i = Some (Some v) →
  frozen_list_itr_tp_next h it
  = Some (<[it := OFrozenListItr (Datatypes.S i)
                    (if (Datatypes.S i =? size fl)%nat then None else Some a)]> h,
          Some v).
Proof.
  intros Ha Hit Hv. unfold frozen_list_itr_tp_next.
  rewrite Hit. simpl. rewrite Ha. simpl. rewrite Hv. done.
Qed.

Lemma tp_next_stop h it i :
  h !! it = Some (OFrozenListItr i None) →
  frozen_list_itr_tp_next h it = Some (h, None).
Proof. intros Hit. unfold frozen_list_itr_tp_next. by rewrite Hit. Qed.

(** A cursor at position [i] of a sealed list yields the elements from [i]
    on and then stops, changing nothing but itself. *)
Lemma drain_from (vs : list val) (a it : addr) (fl : frozen_list) :
  content fl = Some <$> vs →
  ∀ (k i fuel : nat) (h : heap),
    frozen_list_at h a = Some fl →
    h !! it = Some (cursor a (length vs) i) →
    (i + k = length vs)%nat →
    (k < fuel)%nat →
    drain fuel h it = Some (<[it := cursor a (length vs) (length vs)]> h, drop i vs).
Proof.
  intros Hc.
  assert (Hsz : size fl = length vs) by (unfold size; rewrite Hc; by rewrite length_fmap).
  induction k as [|k IH]; intros i fuel h Ha Hit Hi Hf;
    (destruct fuel as [|fuel]; [lia|]); simpl.
  - assert (i = length vs) as -> by lia.
    unfold cursor in *. rewrite Nat.eqb_refl in *.
    rewrite (tp_next_stop _ _ _ Hit). simpl.
    rewrite drop_ge by lia. by rewrite list_insert_id.
  - destruct (lookup_lt_is_Some_2 vs i) as [v Hv]; [lia|].
    unfold cursor in Hit.
    replace (i =? length vs)%nat with false in Hit
      by (symmetry; apply Nat.eqb_neq; lia).
    rewrite (tp_next_yield _ _ _ _ _ v Ha Hit)
      by (by rewrite Hc, list_lookup_fmap, Hv).
    simpl. rewrite Hsz. fold (cursor a (length vs) (Datatypes.S i)).
    rewrite (IH (Datatypes.S i)); try lia.
    + simpl. by rewrite list_insert_insert_eq, (drop_S _ _ _ Hv).
    + eapply frozen_list_at_insert_itr; eauto.
    + rewrite list_lookup_insert_eq; [done|]. eapply lookup_lt_Some; eauto.
Qed.

Lemma iterate_sealed (h : heap) (a : addr) (fl : frozen_list) (vs : list val) (fuel : nat) :
  frozen_list_at h a = Some fl →
  content fl = Some <$> vs →
  (length vs < fuel)%nat →
  iterate fuel h a
  = Some ((h ++ [cursor a (length vs) (length vs)])%list, vs).
Proof.
  intros Ha Hc Hf.
  assert (Hsz : size fl = length vs) by (unfold size; rewrite Hc; by rewrite length_fmap).
  assert (Hlt : (a < length h)%nat).
  { unfold frozen_list_at in Ha. destruct (h !! a) eqn:E; [|done].
    eapply lookup_lt_Some; eauto. }
  unfold iterate, frozen_list_tp_iter. rewrite Ha. simpl. rewrite Hsz.
  rewrite (drain_from vs a (length h) fl Hc (length vs) 0%nat); try lia.
  - rewrite drop_0. f_equal. f_equal.
    replace (length h) with (length h + 0)%nat at 1 by lia.
    by rewrite insert_app_r.
  - unfold frozen_list_at. by rewrite lookup_app_l by lia.
  - rewrite lookup_app_r by lia. rewrite Nat.sub_diag. simpl. unfold cursor.
    by rewrite (Nat.eqb_sym 0).
Qed.

(** C8: every iteration request on a sealed frozen list gives a fresh cursor;
    each pass yields exactly the elements in order, the same as indexed
    access 0..size-1, and leaves the list as it was: a second pass, and a
    second cursor made before the first was used up, yield the same
    elements again. *)
Theorem frozen_list_iteration_repeatable
    (h : heap) (a : addr) (fl : frozen_list) (fuel : nat) :
  frozen_list_at h a = Some fl →
  sealed fl →
  (size fl < fuel)%nat →
  ∃ (vs : list val) (h1 h2 : heap),
    content fl = Some <$> vs
    ∧ iterate fuel h a = Some (h1, vs)
    ∧ iterate fuel h1 a = Some (h2, vs)
    ∧ frozen_list_at h2 a = Some fl
    ∧ (∀ i : nat, (i < size fl)%nat →
         frozen_list_item h a (Z.of_nat i) = of_option (vs !! i))
    ∧ (∃ (ha hb hc hd : heap) (it1 it2 : addr),
         frozen_list_tp_iter h a = Some (ha, it1)
         ∧ frozen_list_tp_iter ha a = Some (hb, it2)
         ∧ it1 ≠ it2
         ∧ drain fuel hb it1 = Some (hc, vs)
         ∧ drain fuel hc it2 = Some (hd, vs)).
Proof.
  intros Ha Hs Hf. destruct (sealed_values fl Hs) as [vs Hc].
  assert (Hsz : size fl = length vs) by (unfold size; rewrite Hc; by rewrite length_fmap).
  assert (Hlt : (a < length h)%nat).
  { unfold frozen_list_at in Ha. destruct (h !! a) eqn:E; [|done].
    eapply lookup_lt_Some; eauto. }
  set (c := cursor a (length vs) (length vs)).
  assert (Hgrow : ∀ l : heap, frozen_list_at (h ++ l)%list a = Some fl).
  { intros l. unfold frozen_list_at in *. by rewrite lookup_app_l by lia. }
  exists vs, (h ++ [c])%list, ((h ++ [c]) ++ [c])%list.
  split; [done|]. split; [apply (iterate_sealed h a fl vs fuel); auto; lia|].
  split; [apply (iterate_sealed _ a fl vs fuel); auto; lia|].
  split; [rewrite <- app_assoc; apply Hgrow|].
  split.
  - intros i Hi. unfold frozen_list_item. rewrite Ha. simpl.
    replace ((Z.of_nat i <? 0) || (Z.of_nat (size fl) <=? Z.of_nat i)) with false
      by (symmetry; apply orb_false_iff; split; [apply Z.ltb_ge|apply Z.leb_gt]; lia).
    rewrite Nat2Z.id, Hc, list_lookup_fmap.
    by destruct (vs !! i).
  - set (c0 := cursor a (length vs) 0).
    exists (h ++ [c0])%list, ((h ++ [c0]) ++ [c0])%list,
      (<[length h := c]> ((h ++ [c0]) ++ [c0]))%list,
      (<[Datatypes.S (length h) := c]> (<[length h := c]> ((h ++ [c0]) ++ [c0])))%list,
      (length h), (Datatypes.S (length h)).
    assert (Hc0 : OFrozenListItr 0 (if (size fl =? 0)%nat then None else Some a) = c0).
    { unfold c0, cursor. by rewrite Hsz, (Nat.eqb_sym 0). }
    split; [unfold frozen_list_tp_iter; by rewrite Ha; simpl; rewrite Hc0|].
    split.
    { unfold frozen_list_tp_iter. rewrite Hgrow. simpl.
      rewrite Hc0, length_app. simpl. do 2 f_equal. lia. }
    split; [lia|].
    split.
    + rewrite (drain_from vs a (length h) fl Hc (length vs) 0%nat); try lia.
      * by rewrite drop_0.
      * rewrite <- app_assoc. apply Hgrow.
      * rewrite <- app_assoc. rewrite lookup_app_r by lia.
        by rewrite Nat.sub_diag.
    + rewrite (drain_from vs a (Datatypes.S (length h)) fl Hc (length vs) 0%nat); try lia.
      * by rewrite drop_0.
      * unfold frozen_list_at. rewrite list_lookup_insert_ne by lia.
        rewrite <- app_assoc. by rewrite lookup_app_l by lia.
      * rewrite list_lookup_insert_ne by lia.
        rewrite lookup_app_r by (rewrite length_app; simpl; lia).
        rewrite length_app. simpl.
        by replace (Datatypes.S (length h) - (length h + 1))%nat with 0%nat by lia.
Qed.

Lemma frozen_list_iteration_repeatable_witness :
  ∃ (vs : list val) (h1 h2 : heap),
    content (FrozenList 5 [Some (VLong 1); Some (VLong 2); Some (VLong 3)]) = Some <$> vs
    ∧ iterate 4 [OFrozenList (FrozenList 5 [Some (VLong 1); Some (VLong 2); Some (VLong 3)])] 0
      = Some (h1, vs)
    ∧ iterate 4 h1 0 = Some (h2, vs)
    ∧ frozen_list_at h2 0
      = Some (FrozenList 5 [Some (VLong 1); Some (VLong 2); Some (VLong 3)])
    ∧ (∀ i : nat,
         (i < size (FrozenList 5 [Some (VLong 1); Some (VLong 2); Some (VLong 3)]))%nat →
         frozen_list_item
           [OFrozenList (FrozenList 5 [Some (VLong 1); Some (VLong 2); Some (VLong 3)])] 0
           (Z.of_nat i)
         = of_option (vs !! i))
    ∧ (∃ (ha hb hc hd : heap) (it1 it2 : addr),
         frozen_list_tp_iter
           [OFrozenList (FrozenList 5 [Some (VLong 1); Some (VLong 2); Some (VLong 3)])] 0
         = Some (ha, it1)
         ∧ frozen_list_tp_iter ha 0 = Some (hb, it2)
         ∧ it1 ≠ it2
         ∧ drain 4 hb it1 = Some (hc, vs)
         ∧ drain 4 hc it2 = Some (hd, vs)).
Proof.
  apply (frozen_list_iteration_repeatable
           [OFrozenList (FrozenList 5 [Some (VLong 1); Some (VLong 2); Some (VLong 3)])]
           0%nat (FrozenList 5 [Some (VLong 1); Some (VLong 2); Some (VLong 3)]) 4%nat).
  - reflexivity.
  - unfold sealed. simpl. repeat constructor; discriminate.
  - unfold size. simpl. lia.
Defined.

End FrozenListProofs.

(** ** The name resolver *)

Module NameResolverProofs.

Import NameResolver Py Schema Api Spec.

Lemma char_value_ascii7 cs c :
  ascii7 c = true → 0 ≤ C.char_value cs c ≤ 127.
Proof.
  unfold ascii7, C.char_value. intros H%Z.ltb_lt.
  replace (127 <? C.byte_value c) with false by (symmetry; apply Z.ltb_ge; lia).
  rewrite andb_false_r. unfold C.byte_value in *. lia.
Qed.

Lemma literal_at_ascii cs (s : string) :
  forallb ascii7 (list_ascii_of_string s) = true →
  ∀ i : nat, (i < String.length s)%nat →
    ∃ a, C.literal_at cs s i = Some a ∧ 0 ≤ a ≤ 127.
Proof.
  induction s as [|c s IH]; simpl; intros Hs i Hi; [lia|].
  apply andb_true_iff in Hs as [Hc Hs].
  destruct i as [|i].
  - eexists; split; [done|]. by apply char_value_ascii7.
  - apply IH; [done|lia].
Qed.

Lemma int_of_in_range z :
  C.INT_MIN ≤ z ≤ C.INT_MAX → C.int_of z = Some z.
Proof.
  intros [H1 H2]. unfold C.int_of.
  apply Z.leb_le in H1, H2. by rewrite H1, H2.
Qed.

(** [py_field_loop] leaves at the first code point above 127, before the
    hash is evaluated. *)
Lemma py_field_loop_non_ascii cs (h : hash_info) :
  salts_ok h = true →
  ∀ (buffer : list N) (i : nat) (f1 f2 : Z),
    (i + length buffer ≤ String.length (salt1 h))%nat →
    0 ≤ f1 ≤ Z.of_nat i * 16129 →
    0 ≤ f2 ≤ Z.of_nat i * 16129 →
    Exists (λ c, (127 < c)%N) buffer →
    py_field_loop cs h buffer i f1 f2 = Some None.
Proof.
  unfold salts_ok. intros Hok.
  repeat (apply andb_true_iff in Hok as [Hok ?]).
  rename Hok into Hs1, H into Hlen, H0 into Heq, H1 into Hs2.
  apply Z.leb_le in Hlen. apply Nat.eqb_eq in Heq.
  unfold salt_length, C.strlen in Hlen.
  induction buffer as [|c buffer IH]; intros i f1 f2 Hi Hf1 Hf2 Hex.
  - inversion Hex.
  - simpl in *. destruct (127 <? c)%N eqn:Hc; [done|].
    apply N.ltb_ge in Hc.
    inversion Hex as [? ? Hbad|? ? Hrest]; subst; [lia|].
    destruct (literal_at_ascii cs (salt1 h) Hs1 i) as (a & -> & Ha); [lia|].
    destruct (literal_at_ascii cs (salt2 h) Hs2 i) as (b & -> & Hb); [lia|].
    simpl.
    assert (0 ≤ Z.of_N c ≤ 127) by lia.
    assert (Z.of_nat i < 65536) by lia.
    rewrite (int_of_in_range (f1 + a * Z.of_N c)) by (unfold C.INT_MIN, C.INT_MAX; nia).
    simpl.
    rewrite (int_of_in_range (f2 + b * Z.of_N c)) by (unfold C.INT_MIN, C.INT_MAX; nia).
    simpl. apply IH; [lia|nia|nia|done].
Qed.

Lemma field_lookup_other (S : schema) (key : list N) :
  salts_ok (py_f_hash S) = true →
  salt_length (py_f_hash S) < Z.of_nat (length key) ∨ Exists (λ c, (127 < c)%N) key →
  field_lookup S key = Some (PY_FIELD_OTHER S).
Proof.
  intros Hok Hkey. unfold field_lookup, py_field_lookup.
  destruct (salt_length (py_f_hash S) <? Z.of_nat (length key)) eqn:Hlen; [done|].
  apply Z.ltb_ge in Hlen. destruct Hkey as [?|Hex]; [lia|].
  unfold salt_length, C.strlen in Hlen.
  rewrite (py_field_loop_non_ascii _ _ Hok); [done|lia|lia|lia|done].
Qed.

Lemma find_none_forallb {A} (p q : A → bool) (l : list A) :
  forallb q l = true → (∀ x, q x = true → p x = false) → find p l = None.
Proof.
  intros Hq Hpq. induction l as [|x l IH]; simpl in *; [done|].
  apply andb_true_iff in Hq as [Hx Hl]. rewrite (Hpq x Hx). auto.
Qed.

Lemma set_kw_field_other (py : interpreter) (S : schema) (t : type_desc) h fields v :
  fields_declared S t = true →
  node_class_new_set_kw_field py t h fields (PY_FIELD_OTHER S) v = Done (0, fields, h).
Proof.
  unfold fields_declared. intros [Ha Hc]%andb_true_iff.
  unfold node_class_new_set_kw_field.
  rewrite (find_none_forallb _ _ _ Ha), (find_none_forallb _ _ _ Hc); [done| |];
    intros x Hx%Z.ltb_lt; apply Z.eqb_neq; unfold PY_FIELD_OTHER; lia.
Qed.

Lemma kw_loop_not_done (py : interpreter) (S : schema) (t : type_desc) (key : list N) v post :
  field_lookup S key = Some (PY_FIELD_OTHER S) →
  fields_declared S t = true →
  ∀ pre h fields r, new_set_kw_fields py S t h fields (pre ++ (key, v) :: post) ≠ Done r.
Proof.
  intros Hk Ht. induction pre as [|[k w] pre IH]; intros h fields r; simpl.
  - rewrite Hk. simpl. rewrite set_kw_field_other by done. simpl. done.
  - destruct (field_lookup S k) as [f|]; simpl; [|done].
    destruct (node_class_new_set_kw_field py t h fields f w) as [[[c fs] h']| |]; simpl;
      [|done|done].
    destruct (c =? 0); [done|]. apply IH.
Qed.

Lemma obind_not_done {A B} (m : outcome A) (k : A → outcome B) (r : B) :
  (∀ a, k a ≠ Done r) → m ≫= k ≠ Done r.
Proof. intros Hk. destruct m; simpl; [apply Hk|done|done]. Qed.

Lemma obind_not_done_l {A B} (m : outcome A) (k : A → outcome B) (r : B) :
  (∀ a, m ≠ Done a) → m ≫= k ≠ Done r.
Proof. intros Hm. destruct m as [a| |]; simpl; [by destruct (Hm a)|done|done]. Qed.

Lemma tp_new_not_done (py : interpreter) (S : schema) (t : type_desc) (key : list N) v :
  field_lookup S key = Some (PY_FIELD_OTHER S) →
  fields_declared S t = true →
  ∀ h args pre post r,
    node_class_tp_new py S t h args (pre ++ (key, v) :: post) ≠ Done r.
Proof.
  intros Hk Ht h args pre post r. unfold node_class_tp_new.
  set (kwds := (pre ++ (key, v) :: post)%list).
  assert (Hkw : 1 ≤ Z.of_nat (length kwds)).
  { unfold kwds. rewrite length_app. simpl. lia. }
  destruct (_ <? _) eqn:Hmax; [done|]. apply Z.ltb_ge in Hmax.
  destruct (t_list_e t && (Z.of_nat (length args) <? 1)) eqn:Hpos; [done|].
  apply obind_not_done. intros [h0 base].
  apply obind_not_done_l. intros [fields h'].
  destruct (t_field_count t =? 0)%nat eqn:Hfc.
  - apply Nat.eqb_eq in Hfc. rewrite Hfc in Hmax. simpl in Hmax.
    destruct (t_list_e t); simpl in *; [|lia].
    apply Z.ltb_ge in Hpos. lia.
  - apply obind_not_done. intros fields1.
    apply obind_not_done_l. intros [fields2 h2].
    by apply kw_loop_not_done.
Qed.

(** C10: for a key longer than the salt of the field-name table, or with a
    code point above 127, [py_field_lookup] returns [PY_FIELD_OTHER]
    whatever the displacement array is; that code matches no case of a
    constructor, which assigns nothing, raises the invalid-keyword error at
    the key and never returns an object when the key is among the keyword
    arguments. *)
Theorem field_lookup_rejects_long_or_non_ascii_key
    (py : interpreter) (S : schema) (t : type_desc) (key : list N) :
  salts_ok (py_f_hash S) = true →
  fields_declared S t = true →
  salt_length (py_f_hash S) < Z.of_nat (length key) ∨ Exists (λ c, (127 < c)%N) key →
  field_lookup S key = Some (PY_FIELD_OTHER S)
  ∧ (∀ h fields v,
       node_class_new_set_kw_field py t h fields (PY_FIELD_OTHER S) v = Done (0, fields, h))
  ∧ (∀ h fields v kwds,
       new_set_kw_fields py S t h fields ((key, v) :: kwds)
       = Raised (InvalidKeywordArg (func_name t) key))
  ∧ (∀ h args pre v post r,
       node_class_tp_new py S t h args (pre ++ (key, v) :: post) ≠ Done r).
Proof.
  intros Hs Ht Hkey.
  pose proof (field_lookup_other S key Hs Hkey) as Hk.
  split; [done|]. split; [intros; by apply set_kw_field_other|].
  split.
  - intros h fields v kwds. simpl. rewrite Hk. simpl.
    by rewrite set_kw_field_other.
  - intros h args pre v post r. by apply tp_new_not_done.
Qed.

Lemma field_lookup_rejects_long_or_non_ascii_key_witness :
  field_lookup Example.schema [233%N] = Some (PY_FIELD_OTHER Example.schema)
  ∧ (∀ h fields v,
       node_class_new_set_kw_field Samples.interp Example.point h fields
         (PY_FIELD_OTHER Example.schema) v = Done (0, fields, h))
  ∧ (∀ h fields v kwds,
       new_set_kw_fields Samples.interp Example.schema Example.point h fields (([233%N], v) :: kwds)
       = Raised (InvalidKeywordArg (func_name Example.point) [233%N]))
  ∧ (∀ h args pre v post r,
       node_class_tp_new Samples.interp Example.schema Example.point h args
         (pre ++ ([233%N], v) :: post) ≠ Done r).
Proof.
  apply (field_lookup_rejects_long_or_non_ascii_key Samples.interp Example.schema
           Example.point [233%N]).
  - vm_compute. reflexivity.
  - vm_compute. reflexivity.
  - right. constructor. vm_compute. reflexivity.
Defined.

(** C1: on a platform where plain [char] is signed, the element lookup of
    the example schema, given the UTF-8 name of an element called U+00E9,
    computes negative checksums; their remainders are negative and index
    the displacement array out of bounds, so the lookup has undefined
    behaviour instead of returning a code or [ELEMENT_OTHER]. *)
Theorem element_lookup_non_ascii_name_undefined :
  hash_loop true Example.e_table e_acute 0 0 0 = Some (-14119, -13192)
  ∧ C.rem (-14119) (g_length Example.e_table) = Some (-7)
  ∧ C.index (g Example.e_table) (-7) = None
  ∧ hash_index Example.e_table (-14119) (-13192) = None
  ∧ element_lookup Example.schema e_acute = None.
Proof. repeat split; vm_compute; reflexivity. Qed.

End NameResolverProofs.

(** ** Running the handlers *)

Module Run.

Import Py Schema Parser Api Spec.

Lemma bind_run {A B} (m : M A) (k : A → M B) c s :
  (m ≫= k) c s
  = match m c s with
    | None => None
    | Some (a, s', w) =>
        match k a c s' with
        | None => None
        | Some (b, s'', w') => Some (b, s'', (w ++ w')%list)
        end
    end.
Proof. reflexivity. Qed.

(** A step that emits no warning can be replaced by its result. *)
Lemma bind_quiet {A B} (m : M A) (k : A → M B) c s a s' :
  m c s = Some (a, s', []) → (m ≫= k) c s = k a c s'.
Proof.
  intros H. rewrite bind_run, H. simpl.
  by destruct (k a c s') as [[[b s''] w']|].
Qed.

Lemma bind_undefined {A B} (m : M A) (k : A → M B) c s :
  m c s = None → (m ≫= k) c s = None.
Proof. intros H. by rewrite bind_run, H. Qed.

Lemma ret_run {A} (a : A) c s : ret a c s = Some (a, s, []).
Proof. reflexivity. Qed.

Lemma lift_run {A} (o : option A) (a : A) c s :
  o = Some a → lift o c s = Some (a, s, []).
Proof. by intros ->. Qed.

Lemma get_run c s : get c s = Some (s, s, []).
Proof. reflexivity. Qed.



Lemma read_run p v c s :
  load (heap s) (r_obj s) p = Some v → read p c s = Some (v, s, []).
Proof.
  intros H. unfold read. rewrite (bind_quiet _ _ _ _ _ _ (get_run c s)).
  by apply lift_run.
Qed.

Lemma write_run p v c s s' :
  store_slot s p v = Some s' → write p v c s = Some (tt, s', []).
Proof.
  intros H. unfold write. rewrite (bind_quiet _ _ _ _ _ _ (get_run c s)).
  by rewrite (bind_quiet _ _ _ _ _ _ (lift_run _ _ c s H)).
Qed.

Lemma raise_parse_error_run message lineno c s :
  raise_parse_error message lineno c s
  = Some (tt, set_py_err (Some (raised_by_call message lineno s)) s, []).
Proof.
  unfold raise_parse_error, raised_by_call. rewrite (bind_quiet _ _ _ _ _ _ (get_run c s)).
  destruct s as [st il h r [e|] sp]; reflexivity.
Qed.


Lemma set_parse_error_format_run msg c s :
  set_parse_error_format msg c s = Some (tt, validation_error c msg s, []).
Proof.
  unfold set_parse_error_format.
  rewrite (bind_quiet ask _ c s c s eq_refl). apply raise_parse_error_run.
Qed.

Lemma set_parse_error_run msg c s :
  set_parse_error msg c s = Some (tt, tokenizer_error c s, []).
Proof.
  unfold set_parse_error.
  rewrite (bind_quiet ask _ c s c s eq_refl). apply raise_parse_error_run.
Qed.

Lemma top_callbacks_run cb st c s :
  stack s = cb :: st → top_callbacks c s = Some (cb, s, []).
Proof.
  intros H. unfold top_callbacks.
  rewrite (bind_quiet _ _ _ _ _ _ (get_run c s)). by rewrite H.
Qed.



(** Tactics for goals about concrete lists. *)
Ltac not_in_list :=
  let H := fresh in
  intros H;
  repeat (apply elem_of_cons in H as [H|H]; [discriminate H|]);
  by apply elem_of_nil in H.



End Run.

(** ** Tuple rows *)

Module TupleProofs.

Import Py Schema Parser Api Spec Run.


Section Rows.

Context (c : context) (s : parse_state) (a t : addr) (fl : frozen_list)
  (cls : class_index) (fs : list ptr) (names : list string) (tuple_size : nat).

Hypothesis Hfl : frozen_list_at (heap s) a = Some fl.
Hypothesis Hlast : last_content fl = Some (Some (VRef t)).
Hypothesis Ht : heap s !! t = Some (ONodeTagonly cls fs).
Hypothesis Hfs : length fs = tuple_size.
Hypothesis Hnames : length names = tuple_size.





End Rows.




End TupleProofs.

(** ** Required and optional fields *)

Module FieldProofs.

Import Py Schema Parser Api Spec Run.

(** What a write to a field of [n] keeps: the error indicator, the stack,
    the lists of the heap. *)
Definition fields_only (s s' : parse_state) : Prop :=
  py_err s' = py_err s ∧ stack s' = stack s ∧ ignore_level s' = ignore_level s
  ∧ stopped s' = stopped s ∧ r_obj s' = r_obj s
  ∧ ∀ l, frozen_list_at (heap s') l = frozen_list_at (heap s) l.



Lemma read_field_run n fs i f c s :
  node_fields s n = Some fs → fs !! i = Some f →
  read (SlotField n i) c s = Some (f, s, []).
Proof.
  unfold node_fields. intros Hn Hf. apply read_run. simpl.
  destruct (heap s !! n) as [o|]; [|done]. simpl in *.
  by rewrite Hn.
Qed.

Lemma write_field_run n fs i v c s :
  node_fields s n = Some fs → (i < length fs)%nat →
  ∃ s', write (SlotField n i) v c s = Some (tt, s', [])
        ∧ node_fields s' n = Some (<[i := v]> fs)
        ∧ fields_only s s'.
Proof.
  unfold node_fields. intros Hn Hi.
  destruct (heap s !! n) as [o|] eqn:Ho; [|done]. simpl in Hn.
  assert (Hlt : (n < length (heap s))%nat) by (eapply lookup_lt_Some; eauto).
  assert (∃ o', with_fields o (<[i := v]> fs) = Some o'
                ∧ obj_fields o' = Some (<[i := v]> fs)
                ∧ as_frozen_list o' = as_frozen_list o) as (o' & Ho' & Hfs' & Hfl').
  { destruct o; try done; simpl; eauto. }
  exists (set_heap (<[n := o']> (heap s)) s). split; [|split].
  - apply write_run. simpl. rewrite Ho. simpl. rewrite Hn. simpl.
    unfold Py.store. replace (i <? length fs)%nat with true
      by (symmetry; apply Nat.ltb_lt; lia).
    simpl. rewrite Ho'. simpl. unfold store_obj, Py.store.
    replace (n <? length (heap s))%nat with true
      by (symmetry; apply Nat.ltb_lt; lia).
    done.
  - simpl. rewrite list_lookup_insert_eq by done. done.
  - repeat split. intros l. simpl. unfold frozen_list_at.
    destruct (decide (l = n)) as [->|Hne].
    + rewrite list_lookup_insert_eq by done. rewrite Ho. simpl. done.
    + by rewrite list_lookup_insert_ne.
Qed.



Section AttrEnd.

Context (c : context) (n : addr).



End AttrEnd.



Section FinishFields.

Context (c : context) (n : addr).





End FinishFields.



End FieldProofs.

(** ** Duplicate attributes *)

Module AttributeProofs.

Import Py Schema Parser Api Spec Run FieldProofs.

Lemma bind_warn {A B} (m : M A) (k : A → M B) c s a s' w :
  m c s = Some (a, s', [w]) → (m ≫= k) c s = after_warning w (k a c s').
Proof.
  intros H. rewrite bind_run, H.
  by destruct (k a c s') as [[[b s''] w']|].
Qed.

Lemma warn_duplicate_run name c s :
  warnings_raise c = false →
  warn_duplicate_attribute name c s
  = Some (0, s, [Warning (line c) ("duplicate attribute " ++ quoted name)]).
Proof.
  intros Hw. unfold warn_duplicate_attribute, set_parse_warning.
  rewrite bind_run. simpl. by rewrite Hw.
Qed.

Lemma bind_inv {A B} (m : M A) (k : A → M B) c s b s' w :
  (m ≫= k) c s = Some (b, s', w) →
  ∃ a s1 w1 w2, m c s = Some (a, s1, w1) ∧ k a c s1 = Some (b, s', w2)
                ∧ w = (w1 ++ w2)%list.
Proof.
  rewrite bind_run. destruct (m c s) as [[[a s1] w1]|]; [|done].
  destruct (k a c s1) as [[[b' s2] w2]|] eqn:Hk; [|done].
  intros [= -> -> <-]. by exists a, s1, w1, w2.
Qed.

(** A field that holds a value keeps it. *)
Definition keeps_filled (n : addr) (s s' : parse_state) : Prop :=
  ∀ fs, node_fields s n = Some fs →
    ∃ fs', node_fields s' n = Some fs'
           ∧ ∀ (j : nat) v, fs !! j = Some (Some v) → fs' !! j = Some (Some v).

Lemma keeps_filled_refl n s : keeps_filled n s s.
Proof. intros fs Hn. by exists fs. Qed.

Lemma keeps_filled_trans n s1 s2 s3 :
  keeps_filled n s1 s2 → keeps_filled n s2 s3 → keeps_filled n s1 s3.
Proof.
  intros H12 H23 fs Hn. destruct (H12 fs Hn) as (fs2 & Hn2 & Hk2).
  destruct (H23 fs2 Hn2) as (fs3 & Hn3 & Hk3). exists fs3. split; [done|].
  intros j v Hj. apply Hk3, Hk2, Hj.
Qed.

Lemma keeps_filled_same_heap n s s' :
  heap s' = heap s → keeps_filled n s s'.
Proof. intros Hh fs Hn. exists fs. unfold node_fields in *. by rewrite Hh. Qed.

(** The actions that leave the heap alone. *)
Definition heap_kept {A} (m : M A) : Prop :=
  ∀ c s a s' w, m c s = Some (a, s', w) → heap s' = heap s.

Lemma heap_kept_bind {A B} (m : M A) (k : A → M B) :
  heap_kept m → (∀ a, heap_kept (k a)) → heap_kept (m ≫= k).
Proof.
  intros Hm Hk c s b s' w (a & s1 & w1 & w2 & H1 & H2 & _)%bind_inv.
  rewrite (Hk _ _ _ _ _ _ H2). by apply (Hm _ _ _ _ _ H1).
Qed.

Lemma heap_kept_ret {A} (a : A) : heap_kept (ret a).
Proof. by intros c s a' s' w [= _ <- _]. Qed.

Lemma heap_kept_lift {A} (o : option A) : heap_kept (lift o).
Proof. destruct o; [apply heap_kept_ret|done]. Qed.

Lemma heap_kept_set_err e : heap_kept (PyErr_SetObject e).
Proof. by intros c s a s' w [= _ <- _]. Qed.

Lemma heap_kept_error msg : heap_kept (set_parse_error msg).
Proof. intros c s a s' w. rewrite set_parse_error_run. by intros [= _ <- _]. Qed.

Lemma heap_kept_error_format msg : heap_kept (set_parse_error_format msg).
Proof. intros c s a s' w. rewrite set_parse_error_format_run. by intros [= _ <- _]. Qed.

Lemma heap_kept_warning msg : heap_kept (set_parse_warning msg).
Proof.
  intros c s a s' w. unfold set_parse_warning. rewrite bind_run. simpl.
  destruct (warnings_raise c); by intros [= _ <- _].
Qed.

Lemma heap_kept_read p : heap_kept (read p).
Proof.
  intros c s a s' w. unfold read. rewrite bind_run. simpl.
  destruct (load _ _ _); [|done]. by intros [= _ <- _].
Qed.

Lemma heap_kept_parse_integer str : heap_kept (parse_integer str).
Proof.
  unfold parse_integer. destruct (strtol str) as [[v rest] errno].
  destruct (_ || _); [|apply heap_kept_ret].
  apply heap_kept_bind; [apply heap_kept_error|intros; apply heap_kept_ret].
Qed.

Lemma heap_kept_parse_enum S e str : heap_kept (parse_enum S e str).
Proof.
  unfold parse_enum. apply heap_kept_bind; [apply heap_kept_lift|intros d].
  apply heap_kept_bind; [apply heap_kept_lift|intros i].
  destruct (i <? 0); [|apply heap_kept_ret].
  apply heap_kept_bind; [apply heap_kept_error_format|intros; apply heap_kept_ret].
Qed.

Lemma heap_kept_parse_char_enum S e str : heap_kept (parse_char_enum S e str).
Proof.
  unfold parse_char_enum. apply heap_kept_bind; [apply heap_kept_lift|intros allowed].
  destruct str as [|ch [|]];
    try (apply heap_kept_bind; [apply heap_kept_error|intros; apply heap_kept_ret]).
  destruct (existsb _ _); [apply heap_kept_ret|].
  apply heap_kept_bind; [apply heap_kept_error_format|intros; apply heap_kept_ret].
Qed.

(** Filling a field that is NULL keeps the filled ones. *)
Lemma write_null_keeps n i v c s s' fs :
  node_fields s n = Some fs → fs !! i = Some None →
  write (SlotField n i) v c s = Some (tt, s', []) →
  keeps_filled n s s'.
Proof.
  intros Hn Hf Hw fs0 Hn0. rewrite Hn in Hn0. injection Hn0 as <-.
  destruct (write_field_run n fs i v c s Hn) as (s1 & Hw1 & Hn1 & _);
    [by eapply lookup_lt_Some|].
  rewrite Hw in Hw1. injection Hw1 as <-.
  exists (<[i := v]> fs). split; [done|]. intros j x Hj.
  rewrite list_lookup_insert_ne; [done|]. intros <-. congruence.
Qed.

Definition keeps {A} (n : addr) (m : M A) : Prop :=
  ∀ c s a s' w, m c s = Some (a, s', w) → keeps_filled n s s'.

Lemma keeps_bind {A B} n (m : M A) (k : A → M B) :
  keeps n m → (∀ a, keeps n (k a)) → keeps n (m ≫= k).
Proof.
  intros Hm Hk c s b s' w (a & s1 & w1 & w2 & H1 & H2 & _)%bind_inv.
  eapply keeps_filled_trans; [by eapply Hm|by eapply Hk].
Qed.

Lemma keeps_heap_kept {A} n (m : M A) : heap_kept m → keeps n m.
Proof. intros Hm c s a s' w H. apply keeps_filled_same_heap. by eapply Hm. Qed.

Lemma keeps_ret {A} n (a : A) : keeps n (ret a).
Proof. apply keeps_heap_kept, heap_kept_ret. Qed.

Lemma read_field_none n fs i c s :
  node_fields s n = Some fs → fs !! i = None → read (SlotField n i) c s = None.
Proof.
  unfold node_fields. intros Hn Hf. unfold read. rewrite bind_run. simpl.
  destruct (heap s !! n) as [o|]; [|done]. simpl in *. rewrite Hn. simpl.
  by rewrite Hf.
Qed.

(** What an action may do while field [i] of [n] is still NULL. *)
Definition fills {A} (n : addr) (i : nat) (m : M A) : Prop :=
  ∀ c s a s' w fs,
    node_fields s n = Some fs → fs !! i = Some None →
    m c s = Some (a, s', w) →
    ∃ fs', node_fields s' n = Some fs'
           ∧ ∀ (j : nat) v, fs !! j = Some (Some v) → fs' !! j = Some (Some v).

Lemma fills_heap_kept {A} n i (m : M A) : heap_kept m → fills n i m.
Proof.
  intros Hm c s a s' w fs Hn Hf Hrun. exists fs. split; [|done].
  unfold node_fields in *. by rewrite (Hm _ _ _ _ _ Hrun).
Qed.

Lemma fills_bind {A B} n i (m : M A) (k : A → M B) :
  heap_kept m → (∀ a, fills n i (k a)) → fills n i (m ≫= k).
Proof.
  intros Hm Hk c s b s' w fs Hn Hf (a & s1 & w1 & w2 & H1 & H2 & _)%bind_inv.
  apply (Hk a c s1 b s' w2 fs); [|done|done].
  unfold node_fields in *. by rewrite (Hm _ _ _ _ _ H1).
Qed.

Lemma fills_write {A} n i v (k : M A) :
  heap_kept k → fills n i (write (SlotField n i) v ;; k).
Proof.
  intros Hk c s a s' w fs Hn Hf Hrun.
  destruct (write_field_run n fs i v c s Hn) as (s1 & Hw & Hn1 & _);
    [by eapply lookup_lt_Some|].
  rewrite (bind_quiet _ _ _ _ _ _ Hw) in Hrun.
  exists (<[i := v]> fs). split.
  - unfold node_fields in *. by rewrite (Hk _ _ _ _ _ Hrun).
  - intros j y Hj. rewrite list_lookup_insert_ne; [done|]. intros <-. congruence.
Qed.

(** Read the field; leave the heap alone if it is filled, fill it or leave
    it if it is not. *)
Lemma read_then_keeps {A} n i (k : ptr → M A) :
  (∀ f, f ≠ None → heap_kept (k f)) → fills n i (k None) →
  keeps n (f ← read (SlotField n i); k f).
Proof.
  intros Hfilled Hnull c s a s' w Hrun fs Hn.
  destruct (fs !! i) as [f|] eqn:Hf;
    [|by rewrite (bind_undefined _ _ _ _ (read_field_none _ _ _ c s Hn Hf)) in Hrun].
  rewrite (bind_quiet _ _ _ _ _ _ (read_field_run _ _ _ _ c s Hn Hf)) in Hrun.
  destruct f as [x|].
  - exists fs. split; [|done]. unfold node_fields in *.
    by rewrite (Hfilled (Some x) ltac:(done) _ _ _ _ _ Hrun).
  - by apply (Hnull c s a s' w fs).
Qed.

Lemma heap_kept_warn_duplicate name : heap_kept (warn_duplicate_attribute name).
Proof. apply heap_kept_warning. Qed.

Lemma set_string_attribute_keeps n i attr :
  keeps n (set_string_attribute (SlotField n i) attr).
Proof.
  unfold set_string_attribute. apply read_then_keeps.
  - intros f Hf. rewrite bool_decide_eq_true_2 by done. apply heap_kept_warn_duplicate.
  - rewrite bool_decide_eq_false_2 by (intros H; by apply H).
    apply fills_write, heap_kept_ret.
Qed.

Lemma set_integer_attribute_keeps n i attr :
  keeps n (set_integer_attribute (SlotField n i) attr).
Proof.
  unfold set_integer_attribute. apply read_then_keeps.
  - intros f Hf. rewrite bool_decide_eq_true_2 by done. apply heap_kept_warn_duplicate.
  - rewrite bool_decide_eq_false_2 by (intros H; by apply H).
    apply fills_bind; [apply heap_kept_parse_integer|intros [r v]].
    destruct (negb (r =? 0)); [apply fills_heap_kept, heap_kept_ret|].
    apply fills_write, heap_kept_ret.
Qed.

Lemma set_DoxBool_attribute_keeps n i attr :
  keeps n (set_DoxBool_attribute (SlotField n i) attr).
Proof.
  unfold set_DoxBool_attribute. apply read_then_keeps.
  - intros f Hf. rewrite bool_decide_eq_true_2 by done. apply heap_kept_warn_duplicate.
  - rewrite bool_decide_eq_false_2 by (intros H; by apply H).
    destruct (C.streq _ "yes"); [apply fills_write, heap_kept_ret|].
    destruct (C.streq _ "no"); [apply fills_write, heap_kept_ret|].
    apply fills_heap_kept, heap_kept_bind;
      [apply heap_kept_error_format|intros; apply heap_kept_ret].
Qed.

Lemma code_keeps n (r : Z) : keeps n (if negb (r =? 0) then ret (-1) else ret 1).
Proof. destruct (negb _); apply keeps_ret. Qed.

Lemma handle_attr_keeps S n b attr : keeps n (handle_attr S n b attr).
Proof.
  unfold handle_attr. cbv zeta.
  assert (Hparsed : ∀ parse : string → M ptr, (∀ x, heap_kept (parse x)) →
            keeps n (f ← read (SlotField n (attr_field b));
                     if bool_decide (f ≠ None)
                     then r ← warn_duplicate_attribute (attr_py_name b);
                          if negb (r =? 0) then ret (-1) else ret 1
                     else v ← parse (snd attr);
                          write (SlotField n (attr_field b)) v ;;
                          if bool_decide (v = None) then ret (-1) else ret 1)).
  { intros parse Hp. apply read_then_keeps.
    - intros f Hf. rewrite bool_decide_eq_true_2 by done.
      apply heap_kept_bind; [apply heap_kept_warn_duplicate|].
      intros r. destruct (negb _); apply heap_kept_ret.
    - rewrite bool_decide_eq_false_2 by (intros H; by apply H).
      apply fills_bind; [apply Hp|intros v].
      apply fills_write. destruct (bool_decide _); apply heap_kept_ret. }
  destruct (attr_ty b).
  - apply keeps_bind; [apply set_string_attribute_keeps|apply code_keeps].
  - apply keeps_bind; [apply set_integer_attribute_keeps|apply code_keeps].
  - apply keeps_bind; [apply set_DoxBool_attribute_keeps|apply code_keeps].
  - apply Hparsed. intros x. apply heap_kept_parse_enum.
  - apply Hparsed. intros x. apply heap_kept_parse_char_enum.
Qed.

Lemma node_class_attr_keeps S t n code attr : keeps n (node_class_attr S t n code attr).
Proof.
  unfold node_class_attr. destruct (find _ _); [apply handle_attr_keeps|apply keeps_ret].
Qed.

Lemma warn_code_keeps n name :
  keeps n (w ← warn_unexpected_attribute name;
           if negb (w =? 0) then ret (-1) else ret 0).
Proof.
  apply keeps_heap_kept, heap_kept_bind; [apply heap_kept_warning|].
  intros w. destruct (negb _); apply heap_kept_ret.
Qed.

Lemma start_attributes_keeps S t n attrs : keeps n (start_attributes S t n attrs).
Proof.
  induction attrs as [|attr attrs IH]; [apply keeps_ret|].
  simpl. apply keeps_bind; [|intros r; destruct (negb _); [apply keeps_ret|apply IH]].
  destruct (has_attributes t); [|apply warn_code_keeps].
  apply keeps_bind; [apply keeps_heap_kept, heap_kept_lift|intros code].
  apply keeps_bind; [apply node_class_attr_keeps|intros r].
  destruct (t_other_attr_error t).
  - destruct (r <? 0); [apply keeps_ret|].
    destruct (r =? 0); [apply warn_code_keeps|apply keeps_ret].
  - destruct (r <? 0); apply keeps_ret.
Qed.

Section Duplicates.

Context (S : schema) (t : type_desc) (n : addr) (c : context) (a : attribute_ref).

Hypothesis Hdefault : warnings_raise c = false.
Hypothesis Hcase :
  find (λ x, attr_code x =? attr_code a) (t_attributes t) = Some a.

Lemma setters_repeated s fs v attr :
  node_fields s n = Some fs →
  fs !! attr_field a = Some (Some v) →
  let w := Warning (line c) ("duplicate attribute " ++ quoted (fst attr)) in
  set_string_attribute (SlotField n (attr_field a)) attr c s = Some (0, s, [w])
  ∧ set_integer_attribute (SlotField n (attr_field a)) attr c s = Some (0, s, [w])
  ∧ set_DoxBool_attribute (SlotField n (attr_field a)) attr c s = Some (0, s, [w]).
Proof.
  intros Hn Hf w.
  pose proof (read_field_run _ _ _ _ c s Hn Hf) as Hread.
  unfold set_string_attribute, set_integer_attribute, set_DoxBool_attribute.
  rewrite !(bind_quiet _ _ _ _ _ _ Hread).
  rewrite bool_decide_eq_true_2 by done.
  by rewrite warn_duplicate_run.
Qed.

Lemma handle_repeated s fs v attr :
  node_fields s n = Some fs →
  fs !! attr_field a = Some (Some v) →
  handle_attr S n a attr c s = Some (1, s, [duplicate_warning c a attr]).
Proof.
  intros Hn Hf. unfold handle_attr, duplicate_warning, warned_name. cbv zeta.
  destruct (setters_repeated s fs v attr Hn Hf) as (Hs & Hi & Hb).
  pose proof (read_field_run _ _ _ _ c s Hn Hf) as Hread.
  destruct (attr_ty a).
  - by rewrite (bind_warn _ _ _ _ _ _ _ Hs).
  - by rewrite (bind_warn _ _ _ _ _ _ _ Hi).
  - by rewrite (bind_warn _ _ _ _ _ _ _ Hb).
  - rewrite (bind_quiet _ _ _ _ _ _ Hread).
    rewrite bool_decide_eq_true_2 by done.
    by rewrite (bind_warn _ _ _ _ _ _ _ (warn_duplicate_run _ c s Hdefault)).
  - rewrite (bind_quiet _ _ _ _ _ _ Hread).
    rewrite bool_decide_eq_true_2 by done.
    by rewrite (bind_warn _ _ _ _ _ _ _ (warn_duplicate_run _ c s Hdefault)).
Qed.

Lemma attr_repeated s fs v attr :
  node_fields s n = Some fs →
  fs !! attr_field a = Some (Some v) →
  node_class_attr S t n (attr_code a) attr c s
  = Some (1, s, [duplicate_warning c a attr]).
Proof.
  intros Hn Hf. unfold node_class_attr. rewrite Hcase.
  by apply (handle_repeated s fs v).
Qed.

Lemma start_attributes_repeated s fs v attr rest :
  has_attributes t = true →
  node_fields s n = Some fs →
  fs !! attr_field a = Some (Some v) →
  attribute_lookup S (fst attr) = Some (attr_code a) →
  start_attributes S t n (attr :: rest) c s
  = after_warning (duplicate_warning c a attr) (start_attributes S t n rest c s).
Proof.
  intros Hattrs Hn Hf Hlook. simpl. rewrite Hattrs.
  rewrite bind_run. rewrite (bind_quiet _ _ _ _ _ _ (lift_run _ _ c s Hlook)).
  rewrite (bind_warn _ _ _ _ _ _ _ (attr_repeated s fs v attr Hn Hf)).
  destruct (t_other_attr_error t); simpl;
    by destruct (start_attributes S t n rest c s) as [[[? ?] ?]|].
Qed.

Lemma start_attributes_first_string s fs name value rest :
  has_attributes t = true →
  attr_ty a = A_string →
  node_fields s n = Some fs →
  fs !! attr_field a = Some None →
  attribute_lookup S name = Some (attr_code a) →
  ∃ s1,
    start_attributes S t n ((name, value) :: rest) c s
    = start_attributes S t n rest c s1
    ∧ node_fields s1 n = Some (<[attr_field a := Some (VStr value)]> fs)
    ∧ fields_only s s1.
Proof.
  intros Hattrs Hty Hn Hf Hlook.
  destruct (write_field_run n fs (attr_field a) (Some (VStr value)) c s Hn)
    as (s1 & Hw & Hn1 & Ho1); [by eapply lookup_lt_Some|].
  exists s1. split; [|done].
  assert (Hset : set_string_attribute (SlotField n (attr_field a)) (name, value) c s
                 = Some (0, s1, [])).
  { unfold set_string_attribute.
    rewrite (bind_quiet _ _ _ _ _ _ (read_field_run _ _ _ _ c s Hn Hf)).
    rewrite bool_decide_eq_false_2 by (intros H; by apply H).
    simpl. by rewrite (bind_quiet _ _ _ _ _ _ Hw). }
  assert (Hattr : node_class_attr S t n (attr_code a) (name, value) c s
                  = Some (1, s1, [])).
  { unfold node_class_attr. rewrite Hcase. unfold handle_attr. cbv zeta.
    rewrite Hty. by rewrite (bind_quiet _ _ _ _ _ _ Hset). }
  simpl. rewrite Hattrs.
  rewrite (bind_quiet (_ ≫= _) _ c s 0 s1); [done|].
  rewrite (bind_quiet _ _ _ _ _ _ (lift_run _ _ c s Hlook)).
  rewrite (bind_quiet _ _ _ _ _ _ Hattr).
  by destruct (t_other_attr_error t).
Qed.

Lemma has_attributes_case : has_attributes t = true.
Proof.
  unfold has_attributes. destruct (t_attributes t); [done|].
  by rewrite bool_decide_eq_false_2.
Qed.

Lemma start_attributes_all_repeated s fs v name (vs : list string) :
  node_fields s n = Some fs →
  fs !! attr_field a = Some (Some v) →
  attribute_lookup S name = Some (attr_code a) →
  start_attributes S t n (map (pair name) vs) c s
  = Some (0, s, map (λ x, duplicate_warning c a (name, x)) vs).
Proof.
  intros Hn Hf Hlook. induction vs as [|x vs IH]; [done|].
  cbn [map]. rewrite (start_attributes_repeated s fs v (name, x)); try done.
  - by rewrite IH.
  - apply has_attributes_case.
Qed.

End Duplicates.

(** C6: with warnings not turned into errors, an occurrence of a recognized
    attribute whose field is already filled changes nothing and emits
    exactly one duplicate-attribute warning (and the loop goes on with the
    next attribute); no step of the attribute loop ever changes a filled
    field; so an attribute given 1 + k times keeps the value of its first
    occurrence and yields k such warnings. *)
Theorem duplicate_attribute_keeps_first_value
    (S : schema) (t : type_desc) (n : addr) (c : context) (a : attribute_ref) :
  warnings_raise c = false →
  find (λ x, attr_code x =? attr_code a) (t_attributes t) = Some a →
  (∀ s fs v attr rest,
     node_fields s n = Some fs →
     fs !! attr_field a = Some (Some v) →
     attribute_lookup S (fst attr) = Some (attr_code a) →
     node_class_attr S t n (attr_code a) attr c s
     = Some (1, s, [duplicate_warning c a attr])
     ∧ start_attributes S t n (attr :: rest) c s
       = after_warning (duplicate_warning c a attr) (start_attributes S t n rest c s))
  ∧ (∀ attrs s fs (j : nat) v r s' ws,
       node_fields s n = Some fs →
       fs !! j = Some (Some v) →
       start_attributes S t n attrs c s = Some (r, s', ws) →
       ∃ fs', node_fields s' n = Some fs' ∧ fs' !! j = Some (Some v))
  ∧ (∀ s fs name v0 (vs : list string),
       attr_ty a = A_string →
       node_fields s n = Some fs →
       fs !! attr_field a = Some None →
       attribute_lookup S name = Some (attr_code a) →
       ∃ s',
         start_attributes S t n ((name, v0) :: map (pair name) vs) c s
         = Some (0, s',
                 replicate (length vs)
                   (Warning (line c) ("duplicate attribute " ++ quoted name)))
         ∧ node_fields s' n = Some (<[attr_field a := Some (VStr v0)]> fs)).
Proof.
  intros Hdefault Hcase. split_and!.
  - intros s fs v attr rest Hn Hf Hlook. split.
    + by apply (attr_repeated S t n c a Hdefault Hcase s fs v).
    + apply (start_attributes_repeated S t n c a Hdefault Hcase s fs v); try done.
      by apply (has_attributes_case t a).
  - intros attrs s fs j v r s' ws Hn Hf Hrun.
    destruct (start_attributes_keeps S t n attrs c s r s' ws Hrun fs Hn)
      as (fs' & Hn' & Hkeep).
    exists fs'. split; [done|]. by apply Hkeep.
  - intros s fs name v0 vs Hty Hn Hf Hlook.
    destruct (start_attributes_first_string S t n c a Hcase s fs name v0
                (map (pair name) vs)) as (s1 & -> & Hn1 & _);
      try done; [by apply (has_attributes_case t a)|].
    exists s1. split; [|done].
    rewrite (start_attributes_all_repeated S t n c a Hdefault Hcase s1
               (<[attr_field a := Some (VStr v0)]> fs) (VStr v0));
      try done.
    + do 2 f_equal. unfold duplicate_warning, warned_name. rewrite Hty. simpl.
      induction vs as [|x vs IH]; [done|]. simpl. by rewrite IH.
    + apply list_lookup_insert_eq. by eapply lookup_lt_Some.
Qed.

Lemma duplicate_attribute_keeps_first_value_witness :
  (node_class_attr Example.schema Example.point 0 2 ("label", "b")
     (Context 4 None false) (Samples.point_node [None; None; Some (VStr "a")])
   = Some (1, Samples.point_node [None; None; Some (VStr "a")],
           [Warning 4 ("duplicate attribute " ++ quoted "label")]))
  ∧ (∃ s',
       start_attributes Example.schema Example.point 0
         [("label", "a"); ("label", "b"); ("label", "c")]
         (Context 4 None false) (Samples.point_node [None; None; None])
       = Some (0, s',
               [Warning 4 ("duplicate attribute " ++ quoted "label");
                Warning 4 ("duplicate attribute " ++ quoted "label")])
       ∧ node_fields s' 0 = Some [None; None; Some (VStr "a")])
  ∧ (∀ r s' ws,
       start_attributes Example.schema Example.point 0
         [("x", "1"); ("label", "b"); ("x", "2")]
         (Context 4 None false) (Samples.point_node [None; None; Some (VStr "a")])
       = Some (r, s', ws) →
       ∃ fs', node_fields s' 0 = Some fs' ∧ fs' !! 2%nat = Some (Some (VStr "a"))).
Proof.
  destruct (duplicate_attribute_keeps_first_value Example.schema Example.point
              0%nat (Context 4 None false)
              (AttributeRef "label" 2 "label" 2 2 A_string true))
    as (A & B & C); [reflexivity|reflexivity|].
  split_and!.
  - apply (A (Samples.point_node [None; None; Some (VStr "a")])
             [None; None; Some (VStr "a")] (VStr "a") ("label", "b") []);
      [reflexivity|reflexivity|vm_compute; reflexivity].
  - apply (C (Samples.point_node [None; None; None]) [None; None; None]
             "label" "a" ["b"; "c"]);
      [reflexivity|reflexivity|reflexivity|vm_compute; reflexivity].
  - intros r s' ws Hrun.
    eapply B; [| |exact Hrun]; reflexivity.
Defined.

End AttributeProofs.

(** ** The character leaf *)

Module SpTypeProofs.

Import Py Schema Parser Api Spec Run FieldProofs AttributeProofs.

(** A slot that can be read can be written, and then holds what was
    written; nothing but the heap or the root value changes. *)
Lemma write_run_loaded p x v c s :
  load (heap s) (r_obj s) p = Some x →
  ∃ s', write p v c s = Some (tt, s', [])
        ∧ load (heap s') (r_obj s') p = Some v
        ∧ stack s' = stack s ∧ py_err s' = py_err s
        ∧ ignore_level s' = ignore_level s ∧ stopped s' = stopped s.
Proof.
  intros Hload.
  assert (Hobj : ∀ a o o', heap s !! a = Some o →
            store_obj (heap s) a o' = Some (<[a := o']> (heap s))).
  { intros a o o' Ha. unfold store_obj, Py.store.
    apply lookup_lt_Some in Ha. apply Nat.ltb_lt in Ha. by rewrite Ha. }
  assert (Hstore : ∀ (l : list ptr) (i : nat) y, l !! i = Some y →
            Py.store l i v = Some (<[i := v]> l)).
  { intros l i y Hl. unfold Py.store.
    apply lookup_lt_Some in Hl. apply Nat.ltb_lt in Hl. by rewrite Hl. }
  destruct p as [|a i|a i|a i]; simpl in Hload.
  - exists (set_r_obj v s). split; [by apply write_run|done].
  - destruct (heap s !! a) as [o|] eqn:Ho; [|done]. simpl in Hload.
    destruct (obj_fields o) as [fs|] eqn:Hfs; [|done]. simpl in Hload.
    assert (∃ o', with_fields o (<[i := v]> fs) = Some o'
                  ∧ obj_fields o' = Some (<[i := v]> fs)) as (o' & Ho' & Hfs').
    { destruct o; try done; simpl; eauto. }
    exists (set_heap (<[a := o']> (heap s)) s). split; [|split; [|done]].
    + apply write_run. simpl. rewrite Ho. simpl. rewrite Hfs. simpl.
      rewrite (Hstore _ _ _ Hload). simpl. rewrite Ho'. simpl.
      by rewrite (Hobj _ _ _ Ho).
    + simpl. rewrite list_lookup_insert_eq by (by eapply lookup_lt_Some).
      simpl. rewrite Hfs'. simpl.
      apply list_lookup_insert_eq. by eapply lookup_lt_Some.
  - destruct (heap s !! a) as [o|] eqn:Ho; [|done]. simpl in Hload.
    destruct (as_frozen_list o) as [fl|] eqn:Hfl; [|done]. simpl in Hload.
    set (fl' := FrozenList (capacity fl) (<[i := v]> (content fl))).
    assert (∃ o', with_frozen_list o fl' = Some o'
                  ∧ as_frozen_list o' = Some fl') as (o' & Ho' & Hfl').
    { destruct o; try done; simpl; eauto. }
    exists (set_heap (<[a := o']> (heap s)) s). split; [|split; [|done]].
    + apply write_run. simpl. rewrite Ho. simpl. rewrite Hfl. simpl.
      rewrite (Hstore _ _ _ Hload). simpl. fold fl'. rewrite Ho'. simpl.
      by rewrite (Hobj _ _ _ Ho).
    + simpl. rewrite list_lookup_insert_eq by (by eapply lookup_lt_Some).
      simpl. rewrite Hfl'. simpl.
      apply list_lookup_insert_eq. by eapply lookup_lt_Some.
  - destruct (heap s !! a) as [o|] eqn:Ho; [|done]. simpl in Hload.
    destruct o as [|v0 v1| | |]; try done.
    destruct i as [|[|i]]; [| |done].
    + exists (set_heap (<[a := OTaggedValue v v1]> (heap s)) s).
      split; [|split; [|done]].
      * apply write_run. simpl. rewrite Ho. simpl. by rewrite (Hobj _ _ _ Ho).
      * simpl. by rewrite list_lookup_insert_eq by (by eapply lookup_lt_Some).
    + exists (set_heap (<[a := OTaggedValue v0 v]> (heap s)) s).
      split; [|split; [|done]].
      * apply write_run. simpl. rewrite Ho. simpl. by rewrite (Hobj _ _ _ Ho).
      * simpl. by rewrite list_lookup_insert_eq by (by eapply lookup_lt_Some).
Qed.

Lemma non_whitespace_terminated rest : non_whitespace rest (-1) = 0.
Proof. reflexivity. Qed.

Lemma parse_integer_ok value c s :
  (strtol value).2 = false →
  parse_integer value c s = Some ((0, sp_value value), s, []).
Proof.
  unfold parse_integer, sp_value. destruct (strtol value) as [[v rest] errno].
  simpl. by intros ->.
Qed.

Lemma parse_integer_range value c s :
  (strtol value).2 = true →
  parse_integer value c s
  = Some ((-1, sp_value value),
          tokenizer_error c s, []).
Proof.
  unfold parse_integer, sp_value. destruct (strtol value) as [[v rest] errno].
  simpl. intros ->. cbn [orb].
  by rewrite (bind_quiet _ _ _ _ _ _ (set_parse_error_run _ c s)).
Qed.

Section Attributes.

Context (c : context).
Hypothesis Hdefault : warnings_raise c = false.

Lemma sp_warning_run name s :
  (if negb (C.streq name "value") then warn_unexpected_attribute name else ret 0) c s
  = Some (0, s, sp_warnings c [(name, "")]).
Proof.
  unfold sp_warnings. simpl. destruct (C.streq name "value"); simpl; [done|].
  unfold warn_unexpected_attribute, set_parse_warning. rewrite bind_run. simpl.
  by rewrite Hdefault.
Qed.

Lemma bind_warns {A B} (m : M A) (k : A → M B) s a s' ws :
  m c s = Some (a, s', ws) →
  (m ≫= k) c s
  = match k a c s' with
    | Some (b, s'', ws') => Some (b, s'', (ws ++ ws')%list)
    | None => None
    end.
Proof. intros H. by rewrite bind_run, H. Qed.

Lemma spType_attributes_ok attrs :
  ∀ ch s,
    forallb (λ a, sp_value_ok (snd a)) attrs = true →
    spType_attributes attrs ch c s
    = Some ((0, sp_char attrs ch), s, sp_warnings c attrs).
Proof.
  induction attrs as [|[name value] attrs IH]; intros ch s Hok; [done|].
  simpl in Hok. apply andb_true_iff in Hok as [Hv Hok].
  unfold sp_value_ok in Hv. apply andb_true_iff in Hv as [Hv Hhi].
  apply andb_true_iff in Hv as [Herr Hlo]. apply negb_true_iff in Herr.
  cbn [spType_attributes fst snd].
  rewrite (bind_warns _ _ _ _ _ _ (sp_warning_run name s)). simpl (negb (0 =? 0)).
  cbv iota. rewrite (bind_quiet _ _ _ _ _ _ (parse_integer_ok value c s Herr)).
  simpl (negb (0 =? 0)). cbv iota.
  replace ((sp_value value <? 0) || (127 <? sp_value value)) with false
    by (symmetry; apply orb_false_iff; split; [apply Z.ltb_ge|apply Z.ltb_ge]; lia).
  rewrite IH by done. unfold sp_warnings. simpl. by rewrite app_nil_r.
Qed.

Lemma spType_attributes_rejected pre name value post :
  ∀ ch s,
    forallb (λ a, sp_value_ok (snd a)) pre = true →
    sp_value_ok value = false →
    ∃ ch',
      spType_attributes (pre ++ (name, value) :: post)%list ch c s
      = Some ((-1, ch'),
              tokenizer_error c s,
              sp_warnings c (pre ++ [(name, value)])%list).
Proof.
  induction pre as [|[n0 v0] pre IH]; intros ch s Hok Hbad.
  - change ([] ++ (name, value) :: post)%list with ((name, value) :: post).
    cbn [spType_attributes fst snd].
    rewrite (bind_warns _ _ _ _ _ _ (sp_warning_run name s)). simpl (negb (0 =? 0)).
    cbv iota. unfold sp_value_ok in Hbad.
    destruct (strtol value).2 eqn:Herr.
    + rewrite (bind_quiet _ _ _ _ _ _ (parse_integer_range value c s Herr)).
      simpl. exists ch. unfold sp_warnings. simpl. by rewrite app_nil_r.
    + rewrite (bind_quiet _ _ _ _ _ _ (parse_integer_ok value c s Herr)).
      simpl (negb (0 =? 0)). cbv iota. simpl in Hbad.
      replace ((sp_value value <? 0) || (127 <? sp_value value)) with true.
      * rewrite (bind_quiet _ _ _ _ _ _ (set_parse_error_run _ c s)).
        exists ch. unfold sp_warnings. simpl. by rewrite !app_nil_r.
      * symmetry. apply andb_false_iff in Hbad as [H|H].
        -- apply Z.leb_gt in H. apply orb_true_iff. left. by apply Z.ltb_lt.
        -- apply Z.leb_gt in H. apply orb_true_iff. right. by apply Z.ltb_lt.
  - simpl in Hok. apply andb_true_iff in Hok as [Hv Hok].
    unfold sp_value_ok in Hv. apply andb_true_iff in Hv as [Hv Hhi].
    apply andb_true_iff in Hv as [Herr Hlo]. apply negb_true_iff in Herr.
    change (((n0, v0) :: pre) ++ (name, value) :: post)%list
      with ((n0, v0) :: (pre ++ (name, value) :: post))%list.
    cbn [spType_attributes fst snd].
    rewrite (bind_warns _ _ _ _ _ _ (sp_warning_run n0 s)). simpl (negb (0 =? 0)).
    cbv iota. rewrite (bind_quiet _ _ _ _ _ _ (parse_integer_ok v0 c s Herr)).
    simpl (negb (0 =? 0)). cbv iota.
    replace ((sp_value v0 <? 0) || (127 <? sp_value v0)) with false
      by (symmetry; apply orb_false_iff; split; [apply Z.ltb_ge|apply Z.ltb_ge]; lia).
    destruct (IH (sp_value v0) s Hok Hbad) as (ch' & ->).
    exists ch'. unfold sp_warnings. simpl. by rewrite app_nil_r.
Qed.

End Attributes.

(** The part of [node_start_spType] after the attributes. *)
Lemma spType_store (c : context) (s : parse_state) (dest : slot) (prev : ptr)
    (a : string) (ch : Z) :
  load (heap s) (r_obj s) dest = Some prev →
  prev = None ∧ a = "" ∨ prev = Some (VStr a) →
  ∃ s',
    (d ← read dest;
     r' ← (if bool_decide (d = None)
           then write dest (Some (VStr (char_string ch))) ;; ret 0
           else append_str_obj dest (char_string ch));
     if negb (r' =? 0) then ret (-1)
     else push_callbacks (ParseCallbacks None Null Null Null) ;; ret 1) c s
    = Some (1, s', [])
    ∧ load (heap s') (r_obj s') dest = Some (Some (VStr (a ++ char_string ch)))
    ∧ stack s' = leaf_frame :: stack s
    ∧ py_err s' = py_err s.
Proof.
  intros Hload Hprev.
  destruct (write_run_loaded dest prev (Some (VStr (a ++ char_string ch))) c s Hload)
    as (s1 & Hw & Hl1 & Hst & Herr & _).
  exists (set_stack (leaf_frame :: stack s1) s1).
  split; [|split; [done|split; [by simpl; rewrite Hst|done]]].
  rewrite (bind_quiet _ _ _ _ _ _ (read_run _ _ c s Hload)).
  destruct Hprev as [ [-> ->] | -> ].
  - rewrite bool_decide_eq_true_2 by done.
    rewrite (bind_quiet _ _ c s 0 s1); [done|].
    by rewrite (bind_quiet _ _ _ _ _ _ Hw).
  - rewrite bool_decide_eq_false_2 by done.
    rewrite (bind_quiet _ _ c s 0 s1); [done|].
    unfold append_str_obj.
    rewrite (bind_quiet _ _ _ _ _ _ (read_run _ _ c s Hload)).
    by rewrite (bind_quiet _ _ _ _ _ _ Hw).
Qed.

(** C9: [node_start_spType] does not require the "value" attribute: without
    attributes it succeeds and stores the string of one space, or appends a
    space to the string already in the destination.  With attributes, the
    value of every one of them, whatever its name, is read as an integer
    and checked against [0,127]: when all pass, the character is the one of
    the last attribute and each attribute not called "value" has produced a
    warning; the first value that does not pass makes the function fail
    with the error of [set_parse_error] ([tokenizer_error]), which is the
    ParseError with the text of the parser's error code and the line
    unless an exception was pending. *)
Theorem spType_reads_every_attribute
    (c : context) (s : parse_state) (dest : slot) :
  warnings_raise c = false →
  (load (heap s) (r_obj s) dest = Some None →
   ∃ s',
     node_start_spType dest [] c s = Some (1, s', [])
     ∧ load (heap s') (r_obj s') dest = Some (Some (VStr " "))
     ∧ stack s' = leaf_frame :: stack s)
  ∧ (∀ a,
     load (heap s) (r_obj s) dest = Some (Some (VStr a)) →
     ∃ s',
       node_start_spType dest [] c s = Some (1, s', [])
       ∧ load (heap s') (r_obj s') dest = Some (Some (VStr (a ++ " ")))
       ∧ stack s' = leaf_frame :: stack s)
  ∧ (∀ attrs prev a,
     load (heap s) (r_obj s) dest = Some prev →
     prev = None ∧ a = "" ∨ prev = Some (VStr a) →
     forallb (λ x, sp_value_ok (snd x)) attrs = true →
     ∃ s',
       node_start_spType dest attrs c s = Some (1, s', sp_warnings c attrs)
       ∧ load (heap s') (r_obj s') dest
         = Some (Some (VStr (a ++ char_string (sp_char attrs 32))))
       ∧ stack s' = leaf_frame :: stack s)
  ∧ (∀ pre name value post,
     forallb (λ x, sp_value_ok (snd x)) pre = true →
     sp_value_ok value = false →
     node_start_spType dest (pre ++ (name, value) :: post)%list c s
     = Some (-1,
             tokenizer_error c s,
             sp_warnings c (pre ++ [(name, value)])%list))
  ∧ (py_err s = None →
     tokenizer_error c s
     = set_py_err (Some (ParseError (error_string c) (Some (line c)))) s).
Proof.
  intros Hdefault.
  assert (Hgen : ∀ attrs prev a,
     load (heap s) (r_obj s) dest = Some prev →
     prev = None ∧ a = "" ∨ prev = Some (VStr a) →
     forallb (λ x, sp_value_ok (snd x)) attrs = true →
     ∃ s',
       node_start_spType dest attrs c s = Some (1, s', sp_warnings c attrs)
       ∧ load (heap s') (r_obj s') dest
         = Some (Some (VStr (a ++ char_string (sp_char attrs 32))))
       ∧ stack s' = leaf_frame :: stack s).
  { intros attrs prev a Hload Hprev Hok.
    destruct (spType_store c s dest prev a (sp_char attrs 32) Hload Hprev)
      as (s' & Hrun & Hl & Hst & _).
    exists s'. split; [|done]. unfold node_start_spType.
    rewrite (bind_warns c _ _ _ _ _ _ (spType_attributes_ok c Hdefault attrs 32 s Hok)).
    simpl (negb (0 =? 0)). cbv iota. rewrite Hrun. by rewrite app_nil_r. }
  split_and!.
  - intros Hload. destruct (Hgen [] None "" Hload) as (s' & ? & ? & ?); eauto.
  - intros a Hload. destruct (Hgen [] (Some (VStr a)) a Hload) as (s' & ? & ? & ?); eauto.
  - exact Hgen.
  - intros pre name value post Hok Hbad. unfold node_start_spType.
    destruct (spType_attributes_rejected c Hdefault pre name value post 32 s Hok Hbad)
      as (ch' & Hrun).
    rewrite (bind_warns c _ _ _ _ _ _ Hrun). simpl. by rewrite app_nil_r.
  - intros Hnone. unfold tokenizer_error, raised_by_call. by rewrite Hnone.
Qed.

Lemma spType_reads_every_attribute_witness :
  (∃ s',
     node_start_spType SlotRoot [] (Context 2 None false) Samples.fresh
     = Some (1, s', [])
     ∧ load (heap s') (r_obj s') SlotRoot = Some (Some (VStr " "))
     ∧ stack s' = leaf_frame :: stack Samples.fresh)
  ∧ (∃ s',
       node_start_spType SlotRoot [("value", "66"); ("other", "65")]
         (Context 2 None false) Samples.fresh
       = Some (1, s', [Warning 2 ("unexpected attribute " ++ quoted "other")])
       ∧ load (heap s') (r_obj s') SlotRoot = Some (Some (VStr "A"))
       ∧ stack s' = leaf_frame :: stack Samples.fresh)
  ∧ node_start_spType SlotRoot [("other", "200"); ("value", "65")]
      (Context 2 None false) Samples.fresh
    = Some (-1, set_py_err (Some (ParseError None (Some 2))) Samples.fresh,
            [Warning 2 ("unexpected attribute " ++ quoted "other")]).
Proof.
  destruct (spType_reads_every_attribute (Context 2 None false) Samples.fresh SlotRoot)
    as (A & _ & B & C & _); [reflexivity|].
  split_and!.
  - apply A. reflexivity.
  - apply (B [("value", "66"); ("other", "65")] None "");
      [reflexivity|by left|vm_compute; reflexivity].
  - apply (C [] "other" "200" [("value", "65")]); vm_compute; reflexivity.
Defined.

End SpTypeProofs.

(** ** Unrecognized elements *)

Module IgnoreProofs.

Import Py Schema Parser Driver Api Spec Run FieldProofs AttributeProofs.

(** An action that only looks. *)
Definition silent {A} (m : M A) : Prop :=
  ∀ c s a s' w, m c s = Some (a, s', w) → s' = s ∧ w = [].

(** A handler that never answers 0. *)
Definition nonzero (m : M Z) : Prop :=
  ∀ c s r s' w, m c s = Some (r, s', w) → r ≠ 0.

(** A handler that has done nothing when it answers 0. *)
Definition zero_silent (m : M Z) : Prop :=
  ∀ c s s' w, m c s = Some (0, s', w) → s' = s ∧ w = [].

Lemma silent_ret {A} (a : A) : silent (ret a).
Proof. by intros c s a' s' w [= _ <- <-]. Qed.

Lemma silent_lift {A} (o : option A) : silent (lift o).
Proof. destruct o; [apply silent_ret|done]. Qed.

Lemma silent_get : silent get.
Proof. by intros c s a' s' w [= _ <- <-]. Qed.

Lemma silent_bind {A B} (m : M A) (k : A → M B) :
  silent m → (∀ a, silent (k a)) → silent (m ≫= k).
Proof.
  intros Hm Hk c s b s' w (a & s1 & w1 & w2 & H1 & H2 & ->)%bind_inv.
  destruct (Hm _ _ _ _ _ H1) as [-> ->].
  by destruct (Hk _ _ _ _ _ _ H2) as [-> ->].
Qed.

Lemma silent_read p : silent (read p).
Proof. apply silent_bind; [apply silent_get|intros; apply silent_lift]. Qed.

Lemma silent_top_callbacks : silent top_callbacks.
Proof.
  apply silent_bind; [apply silent_get|intros s].
  destruct (stack s); [done|apply silent_ret].
Qed.

Lemma silent_top_node : silent top_node.
Proof.
  apply silent_bind; [apply silent_top_callbacks|intros cb].
  apply silent_bind; [apply silent_lift|intros p].
  apply silent_bind; [apply silent_read|intros v].
  destruct v as [[]|]; try done. apply silent_ret.
Qed.

Lemma nonzero_bind {A} (m : M A) (k : A → M Z) :
  (∀ a, nonzero (k a)) → nonzero (m ≫= k).
Proof.
  intros Hk c s r s' w (a & s1 & w1 & w2 & H1 & H2 & _)%bind_inv.
  by eapply Hk.
Qed.

Lemma nonzero_ret (r : Z) : r ≠ 0 → nonzero (ret r).
Proof. by intros Hr c s r' s' w [= <- _ _]. Qed.

Lemma nonzero_ub : nonzero ub.
Proof. by intros c s r s' w. Qed.

Lemma nonzero_code (r : Z) (k : M Z) :
  nonzero k → nonzero (if negb (r =? 0) then ret (-1) else k).
Proof. intros Hk. destruct (negb _); [by apply nonzero_ret|done]. Qed.

Lemma nonzero_zero_silent m : nonzero m → zero_silent m.
Proof. intros Hm c s s' w H. by destruct (Hm _ _ _ _ _ H). Qed.

Lemma zero_silent_bind {A} (m : M A) (k : A → M Z) :
  silent m → (∀ a, zero_silent (k a)) → zero_silent (m ≫= k).
Proof.
  intros Hm Hk c s s' w (a & s1 & w1 & w2 & H1 & H2 & ->)%bind_inv.
  destruct (Hm _ _ _ _ _ H1) as [-> ->]. by apply (Hk a c).
Qed.

Lemma zero_silent_ret (r : Z) : zero_silent (ret r).
Proof. by intros c s s' w [= _ <- <-]. Qed.

(** Try [m]; if it answers 0, go on with [k]. *)
Lemma zero_silent_else (m k : M Z) :
  zero_silent m → zero_silent k →
  zero_silent (r ← m; if negb (r =? 0) then ret r else k).
Proof.
  intros Hm Hk c s s' w (r & s1 & w1 & w2 & H1 & H2 & ->)%bind_inv.
  destruct (r =? 0) eqn:Hr; simpl in H2.
  - apply Z.eqb_eq in Hr as ->. destruct (Hm _ _ _ _ H1) as [-> ->].
    by apply (Hk c).
  - injection H2 as -> _ _. by rewrite Z.eqb_refl in Hr.
Qed.

(** The functions that start an element answer 1 or -1. *)
Lemma nonzero_node_start_string dest attr : nonzero (node_start_string dest attr).
Proof.
  apply nonzero_bind. intros r. apply nonzero_code.
  do 2 (apply nonzero_bind; intros). by apply nonzero_ret.
Qed.

Lemma nonzero_node_start_empty dest attr : nonzero (node_start_empty dest attr).
Proof.
  apply nonzero_bind. intros r. apply nonzero_code.
  do 2 (apply nonzero_bind; intros). by apply nonzero_ret.
Qed.

Lemma nonzero_node_start_spType dest attr : nonzero (node_start_spType dest attr).
Proof.
  apply nonzero_bind. intros [r ch]. apply nonzero_code.
  apply nonzero_bind. intros d. apply nonzero_bind. intros r'. apply nonzero_code.
  apply nonzero_bind. intros. by apply nonzero_ret.
Qed.

Lemma nonzero_node_class_start S ti t dest attr :
  nonzero (node_class_start S ti t dest attr).
Proof.
  do 4 (apply nonzero_bind; intros). apply nonzero_code.
  apply nonzero_bind. intros r'. apply nonzero_code.
  apply nonzero_bind. intros. by apply nonzero_ret.
Qed.

Lemma nonzero_node_start S ty dest attr : nonzero (node_start S ty dest attr).
Proof.
  destruct ty; simpl.
  - apply nonzero_node_start_string.
  - apply nonzero_node_start_empty.
  - apply nonzero_node_start_spType.
  - apply nonzero_bind. intros t. apply nonzero_node_class_start.
Qed.

Lemma nonzero_child_case S n ch attr : nonzero (child_case S n ch attr).
Proof.
  unfold child_case. destruct (child_is_list ch).
  - apply nonzero_bind. intros f. destruct f as [[]|]; try apply nonzero_ub.
    apply nonzero_bind. intros. apply nonzero_node_start.
  - apply nonzero_bind. intros f. destruct (bool_decide _).
    + apply nonzero_bind. intros. by apply nonzero_ret.
    + apply nonzero_node_start.
Qed.

Lemma nonzero_content_case S t i cr attr : nonzero (content_case S t i cr attr).
Proof.
  unfold content_case. do 2 (apply nonzero_bind; intros).
  destruct (t_content_kind t).
  - apply nonzero_bind. intros. apply nonzero_node_start.
  - apply nonzero_bind. intros [d|]; [apply nonzero_node_start|by apply nonzero_ret].
  - apply nonzero_bind. intros. apply nonzero_node_start.
  - apply nonzero_bind. intros. apply nonzero_node_start.
Qed.

(** Induction on a type with its bases. *)
Lemma type_desc_bases_ind (P : type_desc → Prop) :
  (∀ t, Forall P (t_bases t) → P t) → ∀ t, P t.
Proof.
  intros H. fix IH 1. intros t. apply H.
  destruct t as [name bases le fc attrs children kind content oa text]. simpl.
  induction bases as [|b bases IHb]; constructor; [apply IH|apply IHb].
Qed.

Lemma zero_silent_node_class_child S (t : type_desc) :
  ∀ n e attr, zero_silent (node_class_child S t n e attr).
Proof.
  induction t as [t IHt] using type_desc_bases_ind. intros n e attr.
  destruct t as [name bases le fc attrs children kind content oa text].
  simpl in IHt. cbn [node_class_child t_bases t_children t_content].
  apply zero_silent_else.
  - induction bases as [|b bases IHb]; [apply zero_silent_ret|].
    inversion IHt as [|? ? Hb Hbs]; subst.
    destruct (has_children_or_content b); [|by apply IHb].
    apply zero_silent_else; [apply Hb|by apply IHb].
  - destruct (find _ children); [apply nonzero_zero_silent, nonzero_child_case|].
    destruct (find_index _ content) as [[i cr]|];
      [apply nonzero_zero_silent, nonzero_content_case|apply zero_silent_ret].
Qed.

Lemma zero_silent_toplevel_start S name attr : zero_silent (toplevel_start S name attr).
Proof.
  unfold toplevel_start.
  apply zero_silent_bind; [apply silent_top_callbacks|intros cb].
  apply zero_silent_bind; [apply silent_lift|intros e].
  destruct (find _ _); [|apply zero_silent_ret].
  apply nonzero_zero_silent. do 8 (apply nonzero_bind; intros).
  apply nonzero_node_class_start.
Qed.

(** A child handler that answers 0 has changed nothing and warned about
    nothing. *)
Lemma zero_silent_call_cs S f name attr : zero_silent (call_cs S f name attr).
Proof.
  destruct f; simpl; [apply zero_silent_toplevel_start|].
  apply zero_silent_bind; [apply silent_lift|intros t].
  unfold node_class_child_start.
  apply zero_silent_bind; [apply silent_top_node|intros n].
  apply zero_silent_bind; [apply silent_lift|intros e].
  apply zero_silent_node_class_child.
Qed.

Section Ignore.

Context (S : schema) (wr : bool).

Lemma handle_start_ignored ln name attrs s :
  ignore_level s ≠ 0 → stack s ≠ [] →
  handle S wr (ln, StartElement name attrs) s
  = Some (set_ignore_level (ignore_level s + 1) s, []).
Proof.
  intros Hl Hst. unfold handle. simpl. unfold start_element.
  rewrite (bind_quiet _ _ _ _ _ _ (get_run _ s)).
  destruct (stack s) as [|pc st] eqn:Hs; [done|].
  rewrite (bind_quiet _ _ _ _ _ _ (top_callbacks_run pc st _ s Hs)).
  by replace (ignore_level s =? 0) with false by (symmetry; by apply Z.eqb_neq).
Qed.

Lemma handle_end_ignored ln name s :
  ignore_level s ≠ 0 → stack s ≠ [] →
  handle S wr (ln, EndElement name) s
  = Some (set_ignore_level (ignore_level s - 1) s, []).
Proof.
  intros Hl Hst. unfold handle. simpl. unfold end_element.
  rewrite (bind_quiet _ _ _ _ _ _ (get_run _ s)).
  destruct (stack s) as [|pc st] eqn:Hs; [done|].
  rewrite (bind_quiet _ _ _ _ _ _ (top_callbacks_run pc st _ s Hs)).
  by replace (ignore_level s =? 0) with false by (symmetry; by apply Z.eqb_neq).
Qed.

Lemma handle_text_ignored ln str s :
  ignore_level s ≠ 0 → stack s ≠ [] →
  handle S wr (ln, CharacterData str) s = Some (s, []).
Proof.
  intros Hl Hst. unfold handle. simpl. unfold character_data.
  rewrite (bind_quiet _ _ _ _ _ _ (get_run _ s)).
  destruct (stack s) as [|pc st] eqn:Hs; [done|].
  rewrite (bind_quiet _ _ _ _ _ _ (top_callbacks_run pc st _ s Hs)).
  by replace (ignore_level s =? 0) with false by (symmetry; by apply Z.eqb_neq).
Qed.

Lemma deliver_cons e es s s1 w1 :
  stopped s = None → handle S wr e s = Some (s1, w1) →
  deliver S wr (e :: es) s
  = match deliver S wr es s1 with
    | Some (s2, w2) => Some (s2, (w1 ++ w2)%list)
    | None => None
    end.
Proof.
  intros Hst Hh. simpl. rewrite Hst, Hh. simpl.
  by destruct (deliver S wr es s1) as [[s2 w2]|].
Qed.

Lemma deliver_cons_quiet e es s s1 :
  stopped s = None → handle S wr e s = Some (s1, []) →
  deliver S wr (e :: es) s = deliver S wr es s1.
Proof.
  intros Hst Hh. rewrite (deliver_cons e es s s1 [] Hst Hh).
  by destruct (deliver S wr es s1) as [[s2 w2]|].
Qed.

Lemma ignore_level_restored s :
  set_ignore_level (ignore_level s + 1 - 1) (set_ignore_level (ignore_level s + 1) s) = s.
Proof. destruct s. unfold set_ignore_level. simpl. f_equal. lia. Qed.

Lemma handle_empty_ignored ln name attrs end_line s :
  ignore_level s ≠ 0 → ignore_level s + 1 ≠ 0 → stack s ≠ [] →
  handle S wr (ln, EmptyElement name attrs end_line) s = Some (s, []).
Proof.
  intros Hl Hl' Hst. destruct (stack s) as [|pc st] eqn:Hs; [done|].
  assert (Hstart : start_element S name attrs (handler_context wr ln) s
                   = Some (tt, set_ignore_level (ignore_level s + 1) s, [])).
  { unfold start_element. rewrite (bind_quiet _ _ _ _ _ _ (get_run _ s)).
    rewrite (bind_quiet _ _ _ _ _ _ (top_callbacks_run pc st _ s Hs)).
    by replace (ignore_level s =? 0) with false by (symmetry; by apply Z.eqb_neq). }
  assert (Hend : end_element S (handler_context wr end_line)
                   (set_ignore_level (ignore_level s + 1) s)
                 = Some (tt,
                         set_ignore_level (ignore_level s + 1 - 1)
                           (set_ignore_level (ignore_level s + 1) s),
                         [])).
  { unfold end_element. rewrite (bind_quiet _ _ _ _ _ _ (get_run _ _)).
    rewrite (bind_quiet _ _ _ _ _ _
               (top_callbacks_run pc st _ (set_ignore_level (ignore_level s + 1) s) Hs)).
    cbn [ignore_level set_ignore_level].
    by replace (ignore_level s + 1 =? 0) with false by (symmetry; by apply Z.eqb_neq). }
  rewrite ignore_level_restored in Hend.
  unfold handle. cbn [fst snd]. rewrite Hstart. cbn [mbind option_bind].
  by rewrite Hend.
Qed.

(** While the parser ignores a subtree, a balanced run of events leaves the
    state as it is. *)
Lemma ignore_balanced body :
  balanced body →
  ∀ s rest,
    0 < ignore_level s → stopped s = None → stack s ≠ [] →
    deliver S wr (body ++ rest)%list s = deliver S wr rest s.
Proof.
  induction 1 as [|ln str es Hes IH|ln name attrs end_line es Hes IH
                  |ln name attrs body ln' name' es Hb IHb Hes IHes];
    intros s rest Hl Hst Hstack.
  - done.
  - simpl app.
    rewrite (deliver_cons_quiet _ _ s s Hst); [by apply IH|].
    apply handle_text_ignored; [lia|done].
  - simpl app.
    rewrite (deliver_cons_quiet _ _ s s Hst); [by apply IH|].
    apply handle_empty_ignored; [lia|lia|done].
  - simpl app. rewrite <- app_assoc. simpl app.
    rewrite (deliver_cons_quiet _ _ s _ Hst
               (handle_start_ignored ln name attrs s ltac:(lia) Hstack)).
    rewrite IHb; [|simpl; lia|done|done].
    rewrite (deliver_cons_quiet _ _ _ s); [by apply IHes|done|].
    rewrite handle_end_ignored; [|simpl; lia|done].
    simpl ignore_level. by rewrite ignore_level_restored.
Qed.

End Ignore.

(** C7: under the default policy, when the top frame does not take an
    element, its start emits exactly one warning and puts the parser into
    ignore mode at level 1 with nothing else changed; the events of the
    subtree, however deep, and the matching end leave the state exactly as
    it was before the element, so whatever follows is handled as if the
    subtree were not there. *)
Theorem unrecognized_subtree_ignored
    (S : schema) (s : parse_state) (pc : parse_callbacks) (st : list parse_callbacks)
    (ln ln' : Z) (name name' : string) (attrs : list (string * string))
    (body rest : list (Z * event)) :
  stack s = pc :: st →
  ignore_level s = 0 →
  stopped s = None →
  unrecognized S pc name attrs (handler_context false ln) s →
  balanced body →
  handle S false (ln, StartElement name attrs) s
  = Some (set_ignore_level 1 s,
          [Warning ln ("unexpected element " ++ quoted name)])
  ∧ deliver S false ((ln, StartElement name attrs) :: body ++ [(ln', EndElement name')])%list s
    = Some (s, [Warning ln ("unexpected element " ++ quoted name)])
  ∧ deliver S false
      ((ln, StartElement name attrs) :: body ++ (ln', EndElement name') :: rest)%list s
    = with_warning (Warning ln ("unexpected element " ++ quoted name))
        (deliver S false rest s).
Proof.
  intros Hstack Hlevel Hstopped Hunrec Hbody.
  assert (Hcs : match cs_call pc with
                | Null => ret 0
                | Fn f => call_cs S f name attrs
                | Uninit => ub
                end (handler_context false ln) s = Some (0, s, [])).
  { destruct Hunrec as [->|(f & s' & ws & -> & Hrun)]; [done|].
    by destruct (zero_silent_call_cs S f name attrs _ _ _ _ Hrun) as [-> ->]. }
  assert (Hstart : handle S false (ln, StartElement name attrs) s
                   = Some (set_ignore_level 1 s,
                           [Warning ln ("unexpected element " ++ quoted name)])).
  { unfold handle. simpl. unfold start_element.
    rewrite (bind_quiet _ _ _ _ _ _ (get_run _ s)).
    rewrite (bind_quiet _ _ _ _ _ _ (top_callbacks_run pc st _ s Hstack)).
    rewrite Hlevel. simpl (negb (0 =? 0)). cbv iota.
    by rewrite (bind_quiet _ _ _ _ _ _ Hcs). }
  assert (Hgen : ∀ tail,
            deliver S false
              ((ln, StartElement name attrs) :: body ++ (ln', EndElement name') :: tail)%list s
            = with_warning (Warning ln ("unexpected element " ++ quoted name))
                (deliver S false tail s)).
  { intros tail. rewrite (deliver_cons S false _ _ s _ _ Hstopped Hstart).
    rewrite ignore_balanced; [|done|simpl; lia|done|by simpl; rewrite Hstack].
    rewrite (deliver_cons_quiet S false _ _ _ s); [done|done|].
    rewrite handle_end_ignored; [|done|by simpl; rewrite Hstack].
    simpl. destruct s. unfold set_ignore_level. simpl in *. by subst. }
  split; [done|]. split; [|apply Hgen].
  by rewrite (Hgen []).
Qed.

Lemma unrecognized_subtree_ignored_witness :
  handle Example.schema false (2, StartElement "junk" [("k", "v")]) Samples.in_doc
  = Some (set_ignore_level 1 Samples.in_doc,
          [Warning 2 ("unexpected element " ++ quoted "junk")])
  ∧ deliver Example.schema false
      ((2, StartElement "junk" [("k", "v")])
       :: [(3, StartElement "deep" []); (3, CharacterData "x"); (4, EndElement "deep")]
       ++ [(5, EndElement "junk")])%list
      Samples.in_doc
    = Some (Samples.in_doc, [Warning 2 ("unexpected element " ++ quoted "junk")])
  ∧ deliver Example.schema false
      ((2, StartElement "junk" [("k", "v")])
       :: [(3, StartElement "deep" []); (3, CharacterData "x"); (4, EndElement "deep")]
       ++ (5, EndElement "junk")
       :: [(6, StartElement "name" []); (6, CharacterData "n"); (6, EndElement "name")])%list
      Samples.in_doc
    = with_warning (Warning 2 ("unexpected element " ++ quoted "junk"))
        (deliver Example.schema false
           [(6, StartElement "name" []); (6, CharacterData "n"); (6, EndElement "name")]
           Samples.in_doc).
Proof.
  apply (unrecognized_subtree_ignored Example.schema Samples.in_doc
           (ParseCallbacks (Some (SlotTagged 0 1)) (Fn (node_class_child_start_fn 1))
              Null (Fn (node_class_finish_fn 1)))
           [ParseCallbacks (Some SlotRoot) (Fn toplevel_start_fn) Uninit Uninit]
           2 5 "junk" "junk" [("k", "v")]
           [(3, StartElement "deep" []); (3, CharacterData "x"); (4, EndElement "deep")]
           [(6, StartElement "name" []); (6, CharacterData "n"); (6, EndElement "name")]).
  - reflexivity.
  - reflexivity.
  - reflexivity.
  - right. exists (node_class_child_start_fn 1), Samples.in_doc, [].
    split; [reflexivity|vm_compute; reflexivity].
  - apply (balanced_element 3 "deep" [] [(3, CharacterData "x")] 4 "deep" []);
      repeat constructor.
Defined.

End IgnoreProofs.

(** ** The root element *)

Module RootProofs.

Import Py Schema Parser Driver Api Spec Run IgnoreProofs.

Section Documents.

Context (S : schema) (wr : bool) (XML_Parser : Type) (create : XML_Parser)
  (set_encoding : XML_Parser → XML_Parser)
  (XML_Parse : XML_Parser → string → bool → XML_Parser * list (Z * event) * XML_Status).

(** A document that fits one chunk is parsed by one call of [XML_Parse]. *)
Lemma parse_str_one_chunk doc p' es status s1 ws :
  C.strlen doc ≤ EXPAT_CHUNK_SIZE →
  XML_Parse create doc true = (p', es, status) →
  deliver S wr es initial_state = Some (s1, ws) →
  stopped s1 = None →
  parse_str_loop S wr XML_Parser XML_Parse (String.length doc) doc create initial_state
  = Some (match status with XML_STATUS_OK => 0 | XML_STATUS_ERROR _ _ => -1 end,
          match status with
          | XML_STATUS_OK => s1
          | XML_STATUS_ERROR _ _ => raise_expat_error status s1
          end,
          ws).
Proof.
  intros Hlen Hparse Hrun Hgo.
  assert (Hsmall : (EXPAT_CHUNK_SIZE <? C.strlen doc) = false) by (apply Z.ltb_ge; lia).
  destruct (String.length doc); cbn [parse_str_loop]; rewrite Hsmall;
    unfold xml_parse; rewrite Hparse, Hrun; cbn [mbind option_bind]; rewrite Hgo;
    by destruct status.
Qed.

End Documents.

(** C4, as the code has it: a document that the tokenizer refuses, as it
    does at the start tag of a second root element, is a hard error with
    the tokenizer's message and line and no value returned; and a document
    that ends without a root value is a hard error with the message
    "document without a recognized root element".  The handlers left no
    exception and did not stop the parser. *)
Theorem root_errors_end_the_parse
    (S : schema) (wr : bool) (XML_Parser : Type) (create : XML_Parser)
    (set_encoding : XML_Parser → XML_Parser)
    (XML_Parse : XML_Parser → string → bool → XML_Parser * list (Z * event) * XML_Status)
    (doc : string) (p' : XML_Parser) (es : list (Z * event)) (status : XML_Status)
    (s1 : parse_state) (ws : list warning) :
  C.strlen doc ≤ EXPAT_CHUNK_SIZE →
  XML_Parse create doc true = (p', es, status) →
  deliver S wr es initial_state = Some (s1, ws) →
  stopped s1 = None →
  py_err s1 = None →
  (∀ msg ln,
     status = XML_STATUS_ERROR msg ln →
     parse S wr XML_Parser create set_encoding XML_Parse (EXPAT_SOURCE_STR (PyBytes doc))
     = Some (Result None (heap s1) (Some (ParseError msg (Some ln))), ws))
  ∧ (status = XML_STATUS_OK →
     r_obj s1 = None →
     parse S wr XML_Parser create set_encoding XML_Parse (EXPAT_SOURCE_STR (PyBytes doc))
     = Some (Result None (heap s1)
               (Some (ParseError (Some "document without a recognized root element")
                        None)),
             ws)).
Proof.
  intros Hlen Hparse Hrun Hgo Hnone.
  pose proof (parse_str_one_chunk S wr XML_Parser create XML_Parse doc p' es status s1 ws
                Hlen Hparse Hrun Hgo) as Hloop.
  split.
  - intros msg ln ->. unfold parse, parse_str. rewrite Hloop.
    cbn [mbind option_bind]. unfold raise_expat_error. rewrite Hnone. reflexivity.
  - intros -> Hroot. unfold parse, parse_str. rewrite Hloop.
    cbn [mbind option_bind]. cbn [Z.eqb negb]. rewrite bool_decide_true by done.
    unfold call_parse_error. by rewrite Hnone.
Qed.

Lemma root_errors_end_the_parse_witness :
  (∃ h ws,
     parse Example.schema false unit tt id Samples.expat_two_roots
       (EXPAT_SOURCE_STR (PyBytes Samples.two_roots))
     = Some (Result None h (Some (ParseError (Some "junk after document element") (Some 1))),
             ws))
  ∧ parse Example.schema false unit tt id Example.glyph_parse
      (EXPAT_SOURCE_STR (PyBytes "?a/"))
    = Some (Result None []
              (Some (ParseError (Some "document without a recognized root element") None)),
            [Warning 1 ("unexpected element " ++ quoted "junk")]).
Proof.
  split.
  - edestruct (root_errors_end_the_parse Example.schema false unit tt id
                 Samples.expat_two_roots Samples.two_roots)
      as [A _];
      [by vm_compute|reflexivity|vm_compute; reflexivity|reflexivity|reflexivity|].
    eexists _, _. apply A. reflexivity.
  - edestruct (root_errors_end_the_parse Example.schema false unit tt id
                 Example.glyph_parse "?a/")
      as [_ B];
      [by vm_compute|reflexivity|vm_compute; reflexivity|reflexivity|reflexivity|].
    apply B; reflexivity.
Defined.

(** C4, with the message "cannot have more than one root element", does not
    hold: the document with two root elements is refused with the
    tokenizer's message.  [toplevel_start] is not called for the second
    element. *)
Lemma second_root_has_the_message_of_the_tokenizer :
  ∃ res ws,
    parse Example.schema false unit tt id Samples.expat_two_roots
      (EXPAT_SOURCE_STR (PyBytes Samples.two_roots)) = Some (res, ws)
    ∧ returned res = None
    ∧ raised res = Some (ParseError (Some "junk after document element") (Some 1))
    ∧ raised res ≠ Some (ParseError (Some "cannot have more than one root element") (Some 1)).
Proof.
  eexists _, _. split; [vm_compute; reflexivity|]. by repeat split.
Qed.

(** X7: a document whose only top-level element is not a declared root ends
    with the error "document without a recognized root element" and no
    value. *)
Lemma unrecognized_root_reported
    (S : schema) (XML_Parser : Type) (create : XML_Parser)
    (set_encoding : XML_Parser → XML_Parser)
    (XML_Parse : XML_Parser → string → bool → XML_Parser * list (Z * event) * XML_Status)
    (doc : string) (p' : XML_Parser) (ln ln' : Z) (name name' : string)
    (attrs : list (string * string)) (body : list (Z * event)) (e : Z) :
  C.strlen doc ≤ EXPAT_CHUNK_SIZE →
  XML_Parse create doc true
  = (p', ((ln, StartElement name attrs) :: body ++ [(ln', EndElement name')])%list,
     XML_STATUS_OK) →
  element_lookup S name = Some e →
  find (λ r, root_code r =? e) (root_elements S) = None →
  balanced body →
  parse S false XML_Parser create set_encoding XML_Parse (EXPAT_SOURCE_STR (PyBytes doc))
  = Some (Result None []
            (Some (ParseError (Some "document without a recognized root element") None)),
          [Warning ln ("unexpected element " ++ quoted name)]).
Proof.
  intros Hlen Hparse Hlook Hroot Hbody.
  assert (Hcs : call_cs S toplevel_start_fn name attrs (handler_context false ln)
                   initial_state
                 = Some (0, initial_state, [])).
  { simpl. unfold toplevel_start.
    rewrite (bind_quiet _ _ _ _ _ _ (top_callbacks_run _ _ _ initial_state eq_refl)).
    rewrite (bind_quiet _ _ _ _ _ _ (lift_run _ _ _ _ Hlook)).
    by rewrite Hroot. }
  assert (Hstart : handle S false (ln, StartElement name attrs) initial_state
                   = Some (set_ignore_level 1 initial_state,
                           [Warning ln ("unexpected element " ++ quoted name)])).
  { unfold handle. cbn [snd fst]. unfold start_element.
    rewrite (bind_quiet _ _ _ _ _ _ (get_run _ initial_state)).
    rewrite (bind_quiet _ _ _ _ _ _ (top_callbacks_run _ _ _ initial_state eq_refl)).
    cbn [ignore_level initial_state cs_call]. simpl (negb (0 =? 0)). cbv iota.
    by rewrite (bind_quiet _ _ _ _ _ _ Hcs). }
  assert (Hrun : deliver S false
                   ((ln, StartElement name attrs) :: body ++ [(ln', EndElement name')])%list
                   initial_state
                 = Some (initial_state,
                         [Warning ln ("unexpected element " ++ quoted name)])).
  { rewrite (deliver_cons S false _ _ initial_state _ _ eq_refl Hstart).
    rewrite ignore_balanced; [|done|simpl; lia|done|done].
    rewrite (deliver_cons_quiet S false _ _ _ initial_state); [done|done|].
    by rewrite handle_end_ignored. }
  unfold parse, parse_str.
  assert (Hloop : parse_str_loop S false XML_Parser XML_Parse (String.length doc) doc
                    create initial_state
                  = Some (0, initial_state,
                          [Warning ln ("unexpected element " ++ quoted name)])).
  { assert (Hsmall : (EXPAT_CHUNK_SIZE <? C.strlen doc) = false) by (apply Z.ltb_ge; lia).
    destruct (String.length doc); cbn [parse_str_loop]; rewrite Hsmall;
      unfold xml_parse; rewrite Hparse, Hrun; done. }
  by rewrite Hloop.
Qed.

Lemma unrecognized_root_reported_witness :
  parse Example.schema false unit tt id Example.glyph_parse
    (EXPAT_SOURCE_STR (PyBytes "?a/"))
  = Some (Result None []
            (Some (ParseError (Some "document without a recognized root element") None)),
          [Warning 1 ("unexpected element " ++ quoted "junk")]).
Proof.
  apply (unrecognized_root_reported Example.schema unit tt id Example.glyph_parse
           "?a/" tt 1 1 "junk" "" [] [(1, CharacterData "a")] 11).
  - by vm_compute.
  - reflexivity.
  - reflexivity.
  - reflexivity.
  - repeat constructor.
Defined.

(** X19: when warnings are raised as exceptions, an empty-element tag at the
    top level that is not a declared root element has undefined behaviour.
    Its start handler raises the warning "unexpected element" and stops the
    parser without a new frame; the tokenizer still calls the end handler,
    which, not being in an ignored subtree, calls through the [f_call] of
    the top frame.  That is the frame that [parse] pushes, of which it
    assigns [value] and [cs_call] only. *)
Theorem unrecognized_empty_root_is_undefined
    (S : schema) (XML_Parser : Type) (create : XML_Parser)
    (set_encoding : XML_Parser → XML_Parser)
    (XML_Parse : XML_Parser → string → bool → XML_Parser * list (Z * event) * XML_Status)
    (doc : string) (p' : XML_Parser) (ln end_line : Z) (name : string)
    (attrs : list (string * string)) (es : list (Z * event)) (status : XML_Status)
    (e : Z) :
  C.strlen doc ≤ EXPAT_CHUNK_SIZE →
  XML_Parse create doc true = (p', (ln, EmptyElement name attrs end_line) :: es, status) →
  element_lookup S name = Some e →
  find (λ r, root_code r =? e) (root_elements S) = None →
  ∃ s1,
    start_element S name attrs (handler_context true ln) initial_state = Some (tt, s1, [])
    ∧ py_err s1 = Some (ParseWarning ln ("unexpected element " ++ quoted name))
    ∧ stopped s1 = Some ln
    ∧ ignore_level s1 = 0
    ∧ f_call <$> head (stack s1) = Some Uninit
    ∧ end_element S (handler_context true end_line) s1 = None
    ∧ parse S true XML_Parser create set_encoding XML_Parse (EXPAT_SOURCE_STR (PyBytes doc))
      = None.
Proof.
  intros Hlen Hparse Hlook Hroot.
  assert (Hcs : call_cs S toplevel_start_fn name attrs (handler_context true ln)
                   initial_state
                 = Some (0, initial_state, [])).
  { simpl. unfold toplevel_start.
    rewrite (bind_quiet _ _ _ _ _ _ (top_callbacks_run _ _ _ initial_state eq_refl)).
    rewrite (bind_quiet _ _ _ _ _ _ (lift_run _ _ _ _ Hlook)).
    by rewrite Hroot. }
  set (s1 := set_stopped (Some ln)
               (set_py_err (Some (ParseWarning ln ("unexpected element " ++ quoted name)))
                  initial_state)).
  assert (Hstart : start_element S name attrs (handler_context true ln) initial_state
                   = Some (tt, s1, [])).
  { unfold start_element.
    rewrite (bind_quiet _ _ _ _ _ _ (get_run _ initial_state)).
    rewrite (bind_quiet _ _ _ _ _ _ (top_callbacks_run _ _ _ initial_state eq_refl)).
    cbn [ignore_level initial_state cs_call]. simpl (negb (0 =? 0)). cbv iota.
    by rewrite (bind_quiet _ _ _ _ _ _ Hcs). }
  assert (Hend : end_element S (handler_context true end_line) s1 = None).
  { unfold end_element.
    rewrite (bind_quiet _ _ _ _ _ _ (get_run _ s1)).
    by rewrite (bind_quiet _ _ _ _ _ _ (top_callbacks_run _ _ _ s1 eq_refl)). }
  exists s1. split_and!; try done.
  unfold parse, parse_str.
  assert (Hsmall : (EXPAT_CHUNK_SIZE <? C.strlen doc) = false) by (apply Z.ltb_ge; lia).
  assert (Hloop : parse_str_loop S true XML_Parser XML_Parse (String.length doc) doc
                    create initial_state
                  = None).
  { destruct (String.length doc); cbn [parse_str_loop]; rewrite Hsmall;
      unfold xml_parse; rewrite Hparse; cbn [deliver];
      rewrite bool_decide_false by (by intros []);
      unfold handle; cbn [fst snd]; rewrite Hstart; cbn [mbind option_bind];
      by rewrite Hend. }
  by rewrite Hloop.
Qed.

Lemma unrecognized_empty_root_is_undefined_witness :
  parse Example.schema true unit tt id Samples.expat_empty_junk
    (EXPAT_SOURCE_STR (PyBytes Samples.empty_junk))
  = None.
Proof.
  edestruct (unrecognized_empty_root_is_undefined Example.schema unit tt id
               Samples.expat_empty_junk Samples.empty_junk)
    as (s1 & _ & _ & _ & _ & _ & _ & A);
    [by vm_compute|reflexivity|reflexivity|reflexivity|].
  exact A.
Defined.

End RootProofs.

(** ** Chunked input *)

Module ChunkProofs.

Import Py Schema Parser Driver Api Spec Run.

Lemma store_store {A} (l : list A) i x y l1 :
  Py.store l i x = Some l1 → Py.store l1 i y = Py.store l i y.
Proof.
  unfold Py.store. destruct (i <? length l)%nat eqn:Hi; [|done].
  intros [= <-]. rewrite length_insert, Hi. by rewrite list_insert_insert_eq.
Qed.

Lemma store_lookup {A} (l : list A) i x l1 :
  Py.store l i x = Some l1 → l1 !! i = Some x.
Proof.
  unfold Py.store. destruct (i <? length l)%nat eqn:Hi; [|done].
  intros [= <-]. apply list_lookup_insert_eq. by apply Nat.ltb_lt.
Qed.

(** Writing twice to a slot is writing the second value. *)
Lemma store_slot_twice s p v1 v2 s1 :
  store_slot s p v1 = Some s1 → store_slot s1 p v2 = store_slot s p v2.
Proof.
  destruct p as [|a i|a i|a i]; simpl.
  - by intros [= <-].
  - destruct (heap s !! a) as [o|] eqn:Ho; [|done]. simpl.
    destruct (obj_fields o) as [fs|] eqn:Hfs; [|done]. simpl.
    destruct (Py.store fs i v1) as [fs1|] eqn:Hst; [|done]. simpl.
    destruct (with_fields o fs1) as [o1|] eqn:Ho1; [|done]. simpl.
    destruct (store_obj (heap s) a o1) as [h1|] eqn:Hh1; [|done]. simpl.
    intros [= <-]. simpl.
    pose proof (store_lookup _ _ _ _ Hh1) as Hl. rewrite Hl. simpl.
    assert (obj_fields o1 = Some fs1) as -> by (destruct o; simplify_eq/=; done).
    simpl. rewrite (store_store _ _ _ _ _ Hst).
    destruct (Py.store fs i v2) as [fs2|]; [|done]. simpl.
    assert (with_fields o1 fs2 = with_fields o fs2) as ->
      by (destruct o; simplify_eq/=; done).
    destruct (with_fields o fs2) as [o2|]; [|done]. simpl.
    unfold store_obj in *. by rewrite (store_store _ _ _ _ _ Hh1).
  - destruct (heap s !! a) as [o|] eqn:Ho; [|done]. simpl.
    destruct (as_frozen_list o) as [fl|] eqn:Hfl; [|done]. simpl.
    destruct (Py.store (content fl) i v1) as [c1|] eqn:Hst; [|done]. simpl.
    destruct (with_frozen_list o _) as [o1|] eqn:Ho1; [|done]. simpl.
    destruct (store_obj (heap s) a o1) as [h1|] eqn:Hh1; [|done]. simpl.
    intros [= <-]. simpl.
    pose proof (store_lookup _ _ _ _ Hh1) as Hl. rewrite Hl. simpl.
    assert (as_frozen_list o1 = Some (FrozenList (capacity fl) c1)) as ->
      by (destruct o; simplify_eq/=; done).
    simpl. rewrite (store_store _ _ _ _ _ Hst).
    destruct (Py.store (content fl) i v2) as [c2|]; [|done]. simpl.
    assert (with_frozen_list o1 (FrozenList (capacity fl) c2)
            = with_frozen_list o (FrozenList (capacity fl) c2)) as ->
      by (destruct o; simplify_eq/=; done).
    destruct (with_frozen_list o (FrozenList (capacity fl) c2)) as [o2|]; [|done].
    simpl. unfold store_obj in *. by rewrite (store_store _ _ _ _ _ Hh1).
  - destruct (heap s !! a) as [o|] eqn:Ho; [|done]. simpl.
    destruct o as [|w0 w1| | |]; try done.
    destruct i as [|[|i]]; [| |done]; simpl;
      (destruct (store_obj (heap s) a _) as [h1|] eqn:Hh1; [|done]); simpl;
      intros [= <-]; simpl;
      pose proof (store_lookup _ _ _ _ Hh1) as Hl; rewrite Hl; simpl;
      unfold store_obj in *; by rewrite (store_store _ _ _ _ _ Hh1).
Qed.

Lemma store_slot_load s p v s1 :
  store_slot s p v = Some s1 → load (heap s1) (r_obj s1) p = Some v.
Proof.
  destruct p as [|a i|a i|a i]; simpl.
  - by intros [= <-].
  - destruct (heap s !! a) as [o|] eqn:Ho; [|done]. simpl.
    destruct (obj_fields o) as [fs|] eqn:Hfs; [|done]. simpl.
    destruct (Py.store fs i v) as [fs1|] eqn:Hst; [|done]. simpl.
    destruct (with_fields o fs1) as [o1|] eqn:Ho1; [|done]. simpl.
    destruct (store_obj (heap s) a o1) as [h1|] eqn:Hh1; [|done]. simpl.
    intros [= <-]. simpl. rewrite (store_lookup _ _ _ _ Hh1). simpl.
    assert (obj_fields o1 = Some fs1) as -> by (destruct o; simplify_eq/=; done).
    simpl. by apply (store_lookup _ _ _ _ Hst).
  - destruct (heap s !! a) as [o|] eqn:Ho; [|done]. simpl.
    destruct (as_frozen_list o) as [fl|] eqn:Hfl; [|done]. simpl.
    destruct (Py.store (content fl) i v) as [c1|] eqn:Hst; [|done]. simpl.
    destruct (with_frozen_list o _) as [o1|] eqn:Ho1; [|done]. simpl.
    destruct (store_obj (heap s) a o1) as [h1|] eqn:Hh1; [|done]. simpl.
    intros [= <-]. simpl. rewrite (store_lookup _ _ _ _ Hh1). simpl.
    assert (as_frozen_list o1 = Some (FrozenList (capacity fl) c1)) as ->
      by (destruct o; simplify_eq/=; done).
    simpl. by apply (store_lookup _ _ _ _ Hst).
  - destruct (heap s !! a) as [o|] eqn:Ho; [|done]. simpl.
    destruct o as [|w0 w1| | |]; try done.
    destruct i as [|[|i]]; [| |done]; simpl;
      (destruct (store_obj (heap s) a _) as [h1|] eqn:Hh1; [|done]); simpl;
      intros [= <-]; simpl; by rewrite (store_lookup _ _ _ _ Hh1).
Qed.

(** What [write] does, as a function of the state. *)
Lemma write_eq p v c s :
  write p v c s
  = match store_slot s p v with Some s' => Some (tt, s', []) | None => None end.
Proof.
  unfold write. rewrite (bind_quiet _ _ _ _ _ _ (get_run c s)).
  destruct (store_slot s p v) as [s'|]; [|done].
  by rewrite (bind_quiet _ _ _ _ _ _ (lift_run _ _ c s eq_refl)).
Qed.

Lemma read_eq p c s :
  read p c s
  = match load (heap s) (r_obj s) p with Some v => Some (v, s, []) | None => None end.
Proof.
  unfold read. rewrite (bind_quiet _ _ _ _ _ _ (get_run c s)).
  by destruct (load _ _ _).
Qed.

(** Storing leaves the stack and the flags of the parser alone. *)
Lemma store_slot_frame s p v s1 :
  store_slot s p v = Some s1 →
  stack s1 = stack s ∧ ignore_level s1 = ignore_level s
  ∧ stopped s1 = stopped s ∧ py_err s1 = py_err s.
Proof.
  destruct p as [|a i|a i|a i]; simpl.
  - by intros [= <-].
  - destruct (heap s !! a) as [o|]; [|done]. simpl.
    destruct (obj_fields o) as [fs|]; [|done]. simpl.
    destruct (Py.store fs i v) as [fs1|]; [|done]. simpl.
    destruct (with_fields o fs1) as [o1|]; [|done]. simpl.
    destruct (store_obj (heap s) a o1) as [h1|]; [|done]. simpl.
    by intros [= <-].
  - destruct (heap s !! a) as [o|]; [|done]. simpl.
    destruct (as_frozen_list o) as [fl|]; [|done]. simpl.
    destruct (Py.store (content fl) i v) as [c1|]; [|done]. simpl.
    destruct (with_frozen_list o _) as [o1|]; [|done]. simpl.
    destruct (store_obj (heap s) a o1) as [h1|]; [|done]. simpl.
    by intros [= <-].
  - destruct (heap s !! a) as [o|]; [|done]. simpl.
    destruct (match o with OTaggedValue _ _ => _ | _ => _ end) as [o1|]; [|done].
    simpl. destruct (store_obj (heap s) a o1) as [h1|]; [|done]. simpl.
    by intros [= <-].
Qed.


(** *** Character data in two pieces *)

Lemma non_whitespace_loop_len s n len len' :
  0 ≤ len → 0 ≤ len' → non_whitespace_loop s n len = non_whitespace_loop s n len'.
Proof.
  intros Hl Hl'. revert s.
  induction n as [|n IH]; intros [|ch s]; simpl; try done.
  - by rewrite (proj2 (Z.leb_le _ _) Hl), (proj2 (Z.leb_le _ _) Hl').
  - destruct (is_blank ch); [apply IH|].
    by rewrite (proj2 (Z.leb_le _ _) Hl), (proj2 (Z.leb_le _ _) Hl').
Qed.

Lemma non_whitespace_loop_app a b len len' len'' :
  0 ≤ len → 0 ≤ len' → 0 ≤ len'' →
  non_whitespace_loop (a ++ b) (String.length a + String.length b) len
  = if non_whitespace_loop a (String.length a) len' =? 0
    then non_whitespace_loop b (String.length b) len''
    else 1.
Proof.
  intros Hl Hl' Hl''. induction a as [|ch a IH]; simpl.
  - by apply non_whitespace_loop_len.
  - destruct (is_blank ch); [apply IH|].
    rewrite (proj2 (Z.leb_le _ _) Hl), (proj2 (Z.leb_le _ _) Hl').
    by destruct (nat_of_ascii ch =? 0)%nat.
Qed.

Lemma strlen_app a b : C.strlen (a ++ b) = C.strlen a + C.strlen b.
Proof.
  unfold C.strlen. induction a as [|ch a IH]; simpl String.length; [lia|].
  rewrite !Nat2Z.inj_succ. simpl in IH. lia.
Qed.

Lemma non_whitespace_app a b :
  non_whitespace (a ++ b) (C.strlen (a ++ b))
  = if non_whitespace a (C.strlen a) =? 0 then non_whitespace b (C.strlen b) else 1.
Proof.
  unfold non_whitespace. rewrite strlen_app. unfold C.strlen.
  rewrite <- Nat2Z.inj_add, !Nat2Z.id.
  apply non_whitespace_loop_app; lia.
Qed.

Ltac run_M :=
  unfold mbind, M_bind, bind, get, lift, put, ask, modify, mret, M_ret, ret, ub.

Lemma node_string_text_state str c s :
  state_of (node_string_text str c s)
  = cb ← head (stack s);
    dest ← value cb;
    d ← load (heap s) (r_obj s) dest;
    match d with
    | None => s' ← store_slot s dest (Some (VStr str)); Some (0, s')
    | Some (VStr a) => s' ← store_slot s dest (Some (VStr (a ++ str))); Some (0, s')
    | Some _ => Some (-1, set_py_err (Some (TypeError "can only concatenate str")) s)
    end.
Proof.
  unfold node_string_text, top_callbacks, read, write, PyErr_SetObject. run_M.
  destruct (stack s) as [|cb st]; [done|]. simpl.
  destruct (value cb) as [dest|]; [|done]. simpl.
  destruct (load (heap s) (r_obj s) dest) as [d|]; [|done]. simpl.
  destruct d as [[]|]; try done; by destruct (store_slot s dest _).
Qed.

Lemma top_node_state c s :
  top_node c s
  = cb ← head (stack s);
    p ← value cb;
    v ← load (heap s) (r_obj s) p;
    match v with
    | Some (VRef a) => Some (a, s, [])
    | _ => None
    end.
Proof.
  unfold top_node, top_callbacks, read. run_M.
  destruct (stack s) as [|cb st]; [done|]. simpl.
  destruct (value cb) as [p|]; [|done]. simpl.
  destruct (load (heap s) (r_obj s) p) as [v|]; [|done]. simpl.
  by destruct v as [[]|].
Qed.

Lemma node_list_base_state a c s :
  node_list_base a c s
  = match heap s !! a with
    | Some (ONodeList _ fl _) => Some (fl, s, [])
    | _ => None
    end.
Proof.
  unfold node_list_base, get_obj. run_M.
  destruct (heap s !! a) as [o|]; [|done]. simpl.
  by destruct o.
Qed.

Lemma append_str_obj_state dest src c s :
  state_of (append_str_obj dest src c s)
  = d ← load (heap s) (r_obj s) dest;
    match d with
    | Some (VStr a) => s' ← store_slot s dest (Some (VStr (a ++ src))); Some (0, s')
    | _ => None
    end.
Proof.
  unfold append_str_obj, read, write. run_M.
  destruct (load (heap s) (r_obj s) dest) as [d|]; [|done]. simpl.
  destruct d as [[]|]; try done. by destruct (store_slot s dest _).
Qed.

Lemma push_object_state a o cap c s :
  push_object a o cap c s
  = ob ← heap s !! a;
    fl ← as_frozen_list ob;
    ob' ← with_frozen_list ob (frozen_list_push_object fl o cap);
    h ← store_obj (heap s) a ob';
    Some (SlotContent a (size fl), set_heap h s, []).
Proof.
  unfold push_object, get_frozen_list, put_frozen_list, put_obj, get_obj. run_M.
  destruct (heap s !! a) as [ob|] eqn:Ha; [|done]. simpl.
  destruct (as_frozen_list ob) as [fl|]; [|done]. simpl.
  rewrite Ha. simpl.
  destruct (with_frozen_list ob _) as [ob'|]; [|done]. simpl.
  by destruct (store_obj (heap s) a ob').
Qed.

Lemma node_list_common_text_state str c s :
  state_of (node_list_common_text str c s)
  = '(a, _, _) ← top_node c s;
    match heap s !! a with
    | Some (ONodeList cls fl fs) =>
        if negb (size fl =? 0)%nat && is_str (mjoin (last_content fl)) then
          state_of (append_str_obj (SlotContent a (size fl - 1)) str c s)
        else
          h ← store_obj (heap s) a
                (ONodeList cls
                   (frozen_list_push_object fl (Some (VStr str)) NODE_LIST_INITIAL_CAPACITY)
                   fs);
          Some (0, set_heap h s)
    | _ => None
    end.
Proof.
  unfold node_list_common_text. unfold mbind at 1 2, M_bind at 1 2, bind at 1 2.
  rewrite top_node_state.
  destruct (head (stack s)) as [cb|]; [|done]. simpl.
  destruct (value cb) as [p|]; [|done]. simpl.
  destruct (load (heap s) (r_obj s) p) as [[[]|]|]; try done. simpl.
  rewrite node_list_base_state.
  destruct (heap s !! a) as [[]|] eqn:Ha; try done.
  destruct (negb (size base =? 0)%nat && is_str (mjoin (last_content base))).
  - by destruct (append_str_obj _ _ _ _) as [[[] ?]|].
  - unfold mbind, M_bind, bind. rewrite push_object_state, Ha. simpl.
    by destruct (store_obj (heap s) a _).
Qed.

(** A handler for text leaves the frames and the flags as they are. *)
Lemma call_t_frame f str c s r s1 :
  state_of (call_t f str c s) = Some (r, s1) →
  stack s1 = stack s ∧ ignore_level s1 = ignore_level s ∧ stopped s1 = stopped s.
Proof.
  destruct f; simpl.
  - rewrite node_string_text_state.
    destruct (head (stack s)) as [cb|]; [|done]. simpl.
    destruct (value cb) as [p|]; [|done]. simpl.
    destruct (load (heap s) (r_obj s) p) as [d|]; [|done]. simpl.
    destruct d as [[]|]; try (by intros [= <- <-]);
      (destruct (store_slot s p _) as [s'|] eqn:Hs; [|done]); simpl;
      intros [= <- <-]; apply store_slot_frame in Hs; tauto.
  - rewrite node_list_common_text_state, top_node_state.
    destruct (head (stack s)) as [cb|]; [|done]. simpl.
    destruct (value cb) as [p|]; [|done]. simpl.
    destruct (load (heap s) (r_obj s) p) as [[[]|]|]; try done. simpl.
    destruct (heap s !! a) as [[]|] eqn:Ha; try done.
    destruct (negb (size base =? 0)%nat && is_str (mjoin (last_content base))).
    + rewrite append_str_obj_state.
      destruct (load (heap s) (r_obj s) _) as [[[]|]|]; try done.
      cbn [mbind option_bind].
      destruct (store_slot s _ _) as [s'|] eqn:Hs; [|done]. simpl.
      intros [= <- <-]; apply store_slot_frame in Hs; tauto.
    + destruct (store_obj (heap s) a _) as [h|]; [|done]. simpl.
      by intros [= <- <-].
Qed.

(** Whether a store is defined does not depend on the value stored. *)
Lemma store_slot_undefined s p v v' :
  store_slot s p v = None → store_slot s p v' = None.
Proof.
  destruct p as [|a i|a i|a i]; simpl; [done|..];
    (destruct (heap s !! a) as [o|] eqn:Ho; [|done]); simpl.
  - destruct (obj_fields o) as [fs|] eqn:Hfs; [|done]. simpl.
    unfold Py.store at 1 2. destruct (i <? length fs)%nat; [|done]. simpl.
    assert (∀ fs', ∃ o', with_fields o fs' = Some o') as Hw
      by (intros fs'; destruct o; simplify_eq/=; eauto).
    destruct (Hw (<[i:=v]> fs)) as [o1 ->]. destruct (Hw (<[i:=v']> fs)) as [o2 ->].
    simpl. unfold store_obj, Py.store. by destruct (a <? length (heap s))%nat.
  - destruct (as_frozen_list o) as [fl|] eqn:Hfl; [|done]. simpl.
    unfold Py.store at 1 2. destruct (i <? length (content fl))%nat; [|done]. simpl.
    assert (∀ fl', ∃ o', with_frozen_list o fl' = Some o') as Hw
      by (intros fl'; destruct o; simplify_eq/=; eauto).
    destruct (Hw (FrozenList (capacity fl) (<[i:=v]> (content fl)))) as [o1 ->].
    destruct (Hw (FrozenList (capacity fl) (<[i:=v']> (content fl)))) as [o2 ->].
    simpl. unfold store_obj, Py.store. by destruct (a <? length (heap s))%nat.
  - destruct o as [|w0 w1| | |]; try done.
    destruct i as [|[|i]]; [| |done]; simpl;
      unfold store_obj, Py.store; by destruct (a <? length (heap s))%nat.
Qed.

(** Pushing onto the list of a node leaves what the slots held. *)
Lemma push_keeps_loads h h1 r a cls fl fs v cap p x :
  h !! a = Some (ONodeList cls fl fs) →
  store_obj h a (ONodeList cls (frozen_list_push_object fl v cap) fs) = Some h1 →
  load h r p = Some x → load h1 r p = Some x.
Proof.
  intros Ha Hst. unfold store_obj, Py.store in Hst.
  destruct (a <? length h)%nat eqn:Hlt; [|done]. apply Nat.ltb_lt in Hlt.
  injection Hst as <-.
  destruct p as [|a' i|a' i|a' i]; simpl; [done|..];
    (destruct (decide (a' = a)) as [->|Hne];
     [rewrite list_lookup_insert_eq by done; rewrite Ha; simpl
     |by rewrite list_lookup_insert_ne by done]); try done.
  apply lookup_app_l_Some.
Qed.

Lemma string_app_assoc (a b c : string) : (a ++ b) ++ c = a ++ (b ++ c).
Proof. induction a as [|ch a IH]; simpl; [done|by rewrite IH]. Qed.

(** A store through one slot leaves what every other slot holds. *)
Lemma store_slot_load_ne s q v s1 p :
  store_slot s q v = Some s1 → p ≠ q →
  load (heap s1) (r_obj s1) p = load (heap s) (r_obj s) p.
Proof.
  intros Hst Hne.
  destruct q as [|a i|a i|a i]; simpl in Hst.
  - injection Hst as <-. by destruct p.
  - destruct (heap s !! a) as [o|] eqn:Ho; [|done]. simpl in Hst.
    destruct (obj_fields o) as [fs|] eqn:Hfs; [|done]. simpl in Hst.
    unfold Py.store in Hst. destruct (i <? length fs)%nat eqn:Hi; [|done].
    simpl in Hst. destruct (with_fields o _) as [o1|] eqn:Ho1; [|done].
    simpl in Hst. unfold store_obj, Py.store in Hst.
    destruct (a <? length (heap s))%nat eqn:Ha; [|done]. apply Nat.ltb_lt in Ha.
    injection Hst as <-. simpl.
    destruct p as [|a' j|a' j|a' j]; simpl; [done|..];
      (destruct (decide (a' = a)) as [->|Hna];
       [rewrite list_lookup_insert_eq by done; rewrite Ho; simpl
       |by rewrite list_lookup_insert_ne by done]).
    + destruct o; simplify_eq/=; apply list_lookup_insert_ne; congruence.
    + by destruct o; simplify_eq/=.
    + by destruct o; simplify_eq/=.
  - destruct (heap s !! a) as [o|] eqn:Ho; [|done]. simpl in Hst.
    destruct (as_frozen_list o) as [fl|] eqn:Hfl; [|done]. simpl in Hst.
    unfold Py.store in Hst. destruct (i <? length (content fl))%nat eqn:Hi; [|done].
    simpl in Hst. destruct (with_frozen_list o _) as [o1|] eqn:Ho1; [|done].
    simpl in Hst. unfold store_obj, Py.store in Hst.
    destruct (a <? length (heap s))%nat eqn:Ha; [|done]. apply Nat.ltb_lt in Ha.
    injection Hst as <-. simpl.
    destruct p as [|a' j|a' j|a' j]; simpl; [done|..];
      (destruct (decide (a' = a)) as [->|Hna];
       [rewrite list_lookup_insert_eq by done; rewrite Ho; simpl
       |by rewrite list_lookup_insert_ne by done]).
    + by destruct o; simplify_eq/=.
    + destruct o; simplify_eq/=; apply list_lookup_insert_ne; congruence.
    + by destruct o; simplify_eq/=.
  - destruct (heap s !! a) as [o|] eqn:Ho; [|done]. simpl in Hst.
    destruct o as [|w0 w1| | |]; try done.
    destruct i as [|[|i]]; [| |done]; simpl in Hst; unfold store_obj, Py.store in Hst;
      (destruct (a <? length (heap s))%nat eqn:Ha; [|done]); apply Nat.ltb_lt in Ha;
      injection Hst as <-; simpl;
      (destruct p as [|a' j|a' j|a' j]; simpl; [done|..];
       (destruct (decide (a' = a)) as [->|Hna];
        [rewrite list_lookup_insert_eq by done; rewrite Ho; simpl
        |by rewrite list_lookup_insert_ne by done]); try done;
       by destruct j as [|[|j]]).
Qed.

(** Text handed to a text handler in two pieces is text handed over in
    one: where the first piece is refused, the whole is refused the same
    way. *)
Lemma node_string_text_split a b c s :
  match state_of (node_string_text a c s) with
  | None => state_of (node_string_text (a ++ b) c s) = None
  | Some (r, s1) =>
      if r =? 0
      then state_of (node_string_text b c s1) = state_of (node_string_text (a ++ b) c s)
      else state_of (node_string_text (a ++ b) c s) = Some (r, s1)
  end.
Proof.
  rewrite !(node_string_text_state _ c s).
  destruct (head (stack s)) as [cb|] eqn:Hcb; [|done]. cbn [mbind option_bind].
  destruct (value cb) as [p|] eqn:Hp; [|done]. cbn [mbind option_bind].
  destruct (load (heap s) (r_obj s) p) as [d|] eqn:Hd; [|done]. cbn [mbind option_bind].
  assert (Hsecond : ∀ x s1,
            store_slot s p (Some (VStr x)) = Some s1 →
            state_of (node_string_text b c s1)
            = s' ← store_slot s p (Some (VStr (x ++ b))); Some (0, s')).
  { intros x s1 Hs. rewrite node_string_text_state.
    destruct (store_slot_frame _ _ _ _ Hs) as (-> & _).
    rewrite Hcb. cbn [mbind option_bind]. rewrite Hp. cbn [mbind option_bind].
    rewrite (store_slot_load _ _ _ _ Hs). cbn [mbind option_bind].
    by rewrite (store_slot_twice _ _ _ _ _ Hs). }
  destruct d as [[]|]; try done.
  - destruct (store_slot s p (Some (VStr (s0 ++ a)))) as [s1|] eqn:Hs;
      cbn [mbind option_bind].
    + change (0 =? 0) with true. cbv iota.
      rewrite (Hsecond _ _ Hs). by rewrite string_app_assoc.
    + by rewrite (store_slot_undefined _ _ _ (Some (VStr (s0 ++ a ++ b))) Hs).
  - destruct (store_slot s p (Some (VStr a))) as [s1|] eqn:Hs; cbn [mbind option_bind].
    + change (0 =? 0) with true. cbv iota. by rewrite (Hsecond _ _ Hs).
    + by rewrite (store_slot_undefined _ _ _ (Some (VStr (a ++ b))) Hs).
Qed.

Lemma last_content_push fl v cap :
  size (frozen_list_push_object fl v cap) = S (size fl)
  ∧ last_content (frozen_list_push_object fl v cap) = Some v.
Proof.
  unfold last_content, size, frozen_list_push_object. simpl.
  rewrite length_app. simpl. split; [lia|].
  replace (length (content fl) + 1 - 1)%nat with (length (content fl) + 0)%nat by lia.
  by rewrite lookup_app_r, Nat.add_comm, Nat.add_sub by lia.
Qed.

Lemma node_list_common_text_split a b c s :
  match state_of (node_list_common_text a c s) with
  | None => state_of (node_list_common_text (a ++ b) c s) = None
  | Some (r, s1) =>
      if r =? 0
      then state_of (node_list_common_text b c s1)
           = state_of (node_list_common_text (a ++ b) c s)
      else state_of (node_list_common_text (a ++ b) c s) = Some (r, s1)
  end.
Proof.
  rewrite !(node_list_common_text_state _ c s), top_node_state.
  destruct (head (stack s)) as [cb|] eqn:Hcb; [|done]. cbn [mbind option_bind].
  destruct (value cb) as [p|] eqn:Hp; [|done]. cbn [mbind option_bind].
  destruct (load (heap s) (r_obj s) p) as [[[| | | | | | | |n]|]|] eqn:Hd; try done.
  cbn [mbind option_bind].
  destruct (heap s !! n) as [[| | |cls fl fs|]|] eqn:Hn; try done.
  destruct (negb (size fl =? 0)%nat && is_str (mjoin (last_content fl))) eqn:Hlast.
  - (* the last item is a string: both pieces are appended to it *)
    rewrite !append_str_obj_state.
    set (q := SlotContent n (size fl - 1)).
    destruct (load (heap s) (r_obj s) q) as [[[]|]|] eqn:Hq; try done.
    cbn [mbind option_bind].
    destruct (store_slot s q (Some (VStr (s0 ++ a)))) as [s1|] eqn:Hs;
      cbn [mbind option_bind];
      [|by rewrite (store_slot_undefined _ _ _ (Some (VStr (s0 ++ a ++ b))) Hs)].
    change (0 =? 0) with true. cbv iota.
    rewrite node_list_common_text_state, top_node_state.
    destruct (store_slot_frame _ _ _ _ Hs) as (-> & _).
    rewrite Hcb. cbn [mbind option_bind]. rewrite Hp. cbn [mbind option_bind].
    assert (p ≠ q) as Hpq by (intros ->; congruence).
    rewrite (store_slot_load_ne _ _ _ _ _ Hs Hpq), Hd. cbn [mbind option_bind].
    pose proof (store_slot_load _ _ _ _ Hs) as Hq1.
    pose proof (store_slot_twice _ _ _ (Some (VStr ((s0 ++ a) ++ b))) _ Hs) as Htw.
    simpl in Hs. rewrite Hn in Hs. simpl in Hs.
    unfold Py.store in Hs. destruct (size fl - 1 <? length (content fl))%nat; [|done].
    simpl in Hs. unfold store_obj, Py.store in Hs.
    destruct (n <? length (heap s))%nat eqn:Hlt; [|done]. apply Nat.ltb_lt in Hlt.
    injection Hs as <-. cbn [heap set_heap].
    rewrite list_lookup_insert_eq by done.
    replace (size (FrozenList (capacity fl) (<[(size fl - 1)%nat:=Some (VStr (s0 ++ a))]>
                                              (content fl))))
      with (size fl) by (unfold size; simpl; by rewrite length_insert).
    assert (is_str (mjoin (last_content
              (FrozenList (capacity fl)
                 (<[(size fl - 1)%nat:=Some (VStr (s0 ++ a))]> (content fl))))) = true)
      as Hstr.
    { unfold last_content. simpl. unfold size. simpl. rewrite length_insert.
      simpl in Hq1. rewrite list_lookup_insert_eq in Hq1 by done. simpl in Hq1.
      unfold size in Hq1. by rewrite Hq1. }
    rewrite Hstr. apply andb_prop in Hlast as [-> _]. cbn [andb].
    rewrite append_str_obj_state. fold q. rewrite Hq1. cbn [mbind option_bind].
    rewrite Htw. by rewrite string_app_assoc.
  - (* a new string item is pushed, and the second piece appended to it *)
    assert (Hlt : (n < length (heap s))%nat) by (eapply lookup_lt_Some; eauto).
    assert (Hstore : ∀ o, store_obj (heap s) n o = Some (<[n:=o]> (heap s))).
    { intros o. unfold store_obj, Py.store. by rewrite (proj2 (Nat.ltb_lt _ _) Hlt). }
    rewrite !Hstore. cbn [mbind option_bind].
    change (0 =? 0) with true. cbv iota.
    set (h1 := <[n:=ONodeList cls
                       (frozen_list_push_object fl (Some (VStr a)) NODE_LIST_INITIAL_CAPACITY)
                       fs]> (heap s)).
    assert (Hh1 : h1 !! n = Some (ONodeList cls
                    (frozen_list_push_object fl (Some (VStr a)) NODE_LIST_INITIAL_CAPACITY)
                    fs))
      by (by apply list_lookup_insert_eq).
    rewrite node_list_common_text_state, top_node_state.
    change (stack (set_heap h1 s)) with (stack s).
    change (heap (set_heap h1 s)) with h1.
    change (r_obj (set_heap h1 s)) with (r_obj s).
    rewrite Hcb. cbn [mbind option_bind]. rewrite Hp. cbn [mbind option_bind].
    rewrite (push_keeps_loads (heap s) h1 (r_obj s) n cls fl fs (Some (VStr a))
               NODE_LIST_INITIAL_CAPACITY p _ Hn (Hstore _) Hd).
    cbn [mbind option_bind]. rewrite Hh1.
    destruct (last_content_push fl (Some (VStr a)) NODE_LIST_INITIAL_CAPACITY)
      as [Hsize Hlc].
    rewrite Hsize, Hlc. cbn [Nat.eqb negb andb mjoin option_join is_str].
    replace (S (size fl) - 1)%nat with (size fl) by lia.
    rewrite append_str_obj_state.
    change (heap (set_heap h1 s)) with h1.
    change (r_obj (set_heap h1 s)) with (r_obj s).
    assert (Hq : load h1 (r_obj s) (SlotContent n (size fl)) = Some (Some (VStr a))).
    { cbn [load]. rewrite Hh1. cbn [mbind option_bind as_frozen_list].
      unfold frozen_list_push_object. cbn [content]. unfold size.
      replace (length (content fl)) with (length (content fl) + 0)%nat at 1 by lia.
      by rewrite lookup_app_r, Nat.add_comm, Nat.add_sub by lia. }
    rewrite Hq. cbn [mbind option_bind].
    cbn [store_slot]. change (heap (set_heap h1 s)) with h1. rewrite Hh1.
    cbn [mbind option_bind as_frozen_list].
    unfold Py.store at 1. unfold frozen_list_push_object at 1 2 3. cbn [content capacity].
    rewrite length_app. cbn [length].
    replace (size fl <? length (content fl) + 1)%nat with true
      by (symmetry; apply Nat.ltb_lt; unfold size; lia).
    cbn [mbind option_bind with_frozen_list]. unfold store_obj, Py.store.
    replace (n <? length h1)%nat with true
      by (symmetry; apply Nat.ltb_lt; unfold h1; by rewrite length_insert).
    cbn [mbind option_bind].
    unfold h1. rewrite list_insert_insert_eq. unfold frozen_list_push_object.
    unfold set_heap. cbn [stack ignore_level heap r_obj py_err stopped content].
    unfold size.
    assert (<[length (content fl):=Some (VStr (a ++ b))]>
              (content fl ++ [Some (VStr a)])%list
            = (content fl ++ [Some (VStr (a ++ b))])%list) as ->; [|done].
    pose proof (insert_app_r (content fl) [Some (VStr a)] 0 (Some (VStr (a ++ b)))) as Hi.
    by rewrite Nat.add_0_r in Hi.
Qed.

Lemma call_t_split f a b c s :
  match state_of (call_t f a c s) with
  | None => state_of (call_t f (a ++ b) c s) = None
  | Some (r, s1) =>
      if r =? 0
      then state_of (call_t f b c s1) = state_of (call_t f (a ++ b) c s)
      else state_of (call_t f (a ++ b) c s) = Some (r, s1)
  end.
Proof.
  destruct f; [apply node_string_text_split|apply node_list_common_text_split].
Qed.

Lemma character_data_state str c s :
  snd <$> state_of (character_data str c s) = text_step str c s.
Proof.
  unfold character_data, text_step, top_callbacks, XML_StopParser, set_parse_warning,
    PyErr_SetObject, tell. run_M.
  destruct (stack s) as [|pc st]; [done|]. cbn [head option_bind].
  destruct (negb (ignore_level s =? 0)); [done|].
  destruct (t_call pc) as [|f|]; [| |done].
  - destruct (negb (non_whitespace str (C.strlen str) =? 0)); [|done].
    cbn [andb]. by destruct (warnings_raise c).
  - destruct (call_t f str c s) as [[[r s1] w]|]; [|done]. cbn [state_of option_bind].
    by destruct (negb (r =? 0)).
Qed.

Lemma text_step_split a b c s :
  stopped s = None →
  match text_step a c s with
  | None => text_step (a ++ b) c s = None
  | Some s1 =>
      match stopped s1 with
      | Some _ => text_step (a ++ b) c s = Some s1
      | None => text_step b c s1 = text_step (a ++ b) c s
      end
  end.
Proof.
  intros Hstop. unfold text_step at 1 2 3 5.
  destruct (head (stack s)) as [pc|] eqn:Hpc; [|done]. cbn [mbind option_bind].
  destruct (negb (ignore_level s =? 0)) eqn:Hlevel.
  { rewrite Hstop. unfold text_step. rewrite Hpc. cbn [mbind option_bind].
    by rewrite Hlevel. }
  destruct (t_call pc) as [|f|] eqn:Hf; [| |done].
  - rewrite !non_whitespace_app.
    destruct (non_whitespace a (C.strlen a) =? 0) eqn:Ha; cbn [negb andb].
    + rewrite Hstop. unfold text_step. rewrite Hpc. cbn [mbind option_bind].
      by rewrite Hlevel, Hf, ?non_whitespace_app, ?Ha.
    + change (negb (1 =? 0)) with true. cbn [andb].
      destruct (warnings_raise c) eqn:Hwr; [done|].
      rewrite Hstop. unfold text_step. rewrite Hpc. cbn [mbind option_bind].
      rewrite Hlevel, Hf, ?Hwr.
      by rewrite ?andb_false_r.
  - pose proof (call_t_split f a b c s) as Hsplit.
    pose proof (call_t_frame f a c s) as Hframe.
    destruct (state_of (call_t f a c s)) as [[r s1]|]; cbn [mbind option_bind];
      [|by rewrite Hsplit].
    destruct (Hframe r s1 eq_refl) as (Hst1 & Hl1 & Hsp1).
    destruct (r =? 0) eqn:Hr; cbn [negb].
    + rewrite Hsp1, Hstop. unfold text_step. rewrite Hst1, Hpc. cbn [mbind option_bind].
      by rewrite Hl1, Hlevel, Hf, Hsplit.
    + cbn [stopped set_stopped]. rewrite Hsplit. cbn [mbind option_bind].
      by rewrite Hr.
Qed.

(** *** Runs of handler calls *)

Section Runs.

Variable S : schema.
Variable wr : bool.

Lemma handle_text_state l str s :
  fst <$> handle S wr (l, CharacterData str) s = text_step str (handler_context wr l) s.
Proof.
  rewrite <- character_data_state. unfold handle. cbn [fst snd].
  by destruct (character_data str _ s) as [[[[] s1] w]|].
Qed.

Lemma deliver_stopped es s :
  stopped s ≠ None → deliver S wr es s = Some (s, []).
Proof. intros Hs. destruct es; [done|]. simpl. by rewrite bool_decide_true. Qed.

Lemma deliver_state_cons e es s :
  fst <$> deliver S wr (e :: es) s
  = if bool_decide (stopped s ≠ None) then Some s
    else s1 ← fst <$> handle S wr e s; fst <$> deliver S wr es s1.
Proof.
  simpl. destruct (bool_decide (stopped s ≠ None)); [done|].
  destruct (handle S wr e s) as [[s1 w1]|]; [|done]. simpl.
  by destruct (deliver S wr es s1) as [[s2 w2]|].
Qed.

Lemma deliver_state_app es1 es2 s :
  fst <$> deliver S wr (es1 ++ es2)%list s
  = s1 ← fst <$> deliver S wr es1 s; fst <$> deliver S wr es2 s1.
Proof.
  revert s. induction es1 as [|e es1 IH]; intros s; [done|].
  change ((e :: es1) ++ es2)%list with (e :: (es1 ++ es2))%list.
  rewrite !deliver_state_cons.
  destruct (bool_decide (stopped s ≠ None)) eqn:Hs.
  - apply bool_decide_eq_true in Hs. simpl. by rewrite deliver_stopped.
  - destruct (fst <$> handle S wr e s) as [s1|]; [|done]. simpl. apply IH.
Qed.

(** Character data cut in two on one line is handled as the whole. *)
Lemma text_split l a b rest s :
  same_state (deliver S wr ((l, CharacterData a) :: (l, CharacterData b) :: rest) s)
    (deliver S wr ((l, CharacterData (a ++ b)) :: rest) s).
Proof.
  unfold same_state. rewrite !deliver_state_cons.
  destruct (bool_decide (stopped s ≠ None)) eqn:Hs; [done|].
  apply bool_decide_eq_false in Hs.
  assert (stopped s = None) as Hstop by (by destruct (stopped s); [destruct Hs|]).
  rewrite !handle_text_state.
  pose proof (text_step_split a b (handler_context wr l) s Hstop) as Hsplit.
  destruct (text_step a (handler_context wr l) s) as [s1|]; [|by rewrite Hsplit].
  cbn [mbind option_bind]. rewrite deliver_state_cons.
  destruct (stopped s1) as [ln|] eqn:Hs1.
  - rewrite bool_decide_true by done. rewrite Hsplit. cbn [mbind option_bind].
    by rewrite deliver_stopped by (by rewrite Hs1).
  - rewrite bool_decide_false by (by intros []). rewrite handle_text_state.
    by rewrite Hsplit.
Qed.

Lemma same_state_cons e es es' :
  (∀ s, same_state (deliver S wr es s) (deliver S wr es' s)) →
  ∀ s, same_state (deliver S wr (e :: es) s) (deliver S wr (e :: es') s).
Proof.
  intros H s. unfold same_state in *. rewrite !deliver_state_cons.
  destruct (bool_decide (stopped s ≠ None)); [done|].
  destruct (fst <$> handle S wr e s) as [s1|]; [|done]. apply H.
Qed.

(** Putting the pieces of character data together changes nothing. *)
Lemma deliver_coalesce es :
  ∀ s, same_state (deliver S wr es s) (deliver S wr (coalesce es) s).
Proof.
  induction es as [|[l e] es IH]; intros s; [done|].
  cbn [coalesce]. unfold join.
  assert (Hcons : same_state (deliver S wr ((l, e) :: es) s)
                    (deliver S wr ((l, e) :: coalesce es) s))
    by (by apply same_state_cons).
  destruct e as [name attrs|name|a|name attrs el]; try done.
  destruct (coalesce es) as [|[l' [name attrs|name|b|name attrs el]] rest]; try done.
  destruct (l =? l') eqn:Hl; [|done].
  apply Z.eqb_eq in Hl as <-.
  unfold same_state in *. rewrite Hcons. apply text_split.
Qed.

End Runs.

(** *** The two drivers *)

Section Drivers.

Variable S : schema.
Variable wr : bool.
Variable XML_Parser : Type.
Variable XML_Parse : XML_Parser → string → bool → XML_Parser * list (Z * event) * XML_Status.

(** One call of [XML_Parse] followed by what the rest of the calls amounts
    to. *)
Lemma settle_cons p chunk final feeds s :
  settle S wr (tokenize XML_Parser XML_Parse p ((chunk, final) :: feeds)) s
  = let '(p', es, status) := XML_Parse p chunk final in
    s1 ← fst <$> deliver S wr es s;
    match stopped s1 with
    | Some ln => Some (-1, raise_expat_error (XML_STATUS_ERROR XML_ERROR_ABORTED ln) s1)
    | None =>
        match status with
        | XML_STATUS_OK => settle S wr (tokenize XML_Parser XML_Parse p' feeds) s1
        | XML_STATUS_ERROR _ _ => Some (-1, raise_expat_error status s1)
        end
    end.
Proof.
  cbn [tokenize]. destruct (XML_Parse p chunk final) as [[p' es] status].
  destruct status as [|msg ln]; [|done].
  destruct (tokenize XML_Parser XML_Parse p' feeds) as [es' status'].
  unfold settle. cbn [fst snd]. rewrite deliver_state_app.
  destruct (fst <$> deliver S wr es s) as [s1|]; [|done]. cbn [mbind option_bind].
  destruct (stopped s1) as [ln|] eqn:Hs1; [|done].
  rewrite deliver_stopped by (by rewrite Hs1). cbn [fmap option_fmap option_map fst].
  cbn [mbind option_bind]. by rewrite Hs1.
Qed.

Lemma settle_nil p s :
  settle S wr (tokenize XML_Parser XML_Parse p []) s
  = match stopped s with
    | Some ln => Some (-1, raise_expat_error (XML_STATUS_ERROR XML_ERROR_ABORTED ln) s)
    | None => Some (0, s)
    end.
Proof. done. Qed.

(** [parse_file] is the calls of [XML_Parse] on what [read] returned, the
    last one with nothing and [isFinal] set. *)
Lemma parse_file_settle reads :
  Forall (λ c, 0 < C.strlen c ≤ EXPAT_BUFFER_SIZE) reads →
  ∀ p s,
    state_of (parse_file S wr XML_Parser XML_Parse reads p s)
    = settle S wr (tokenize XML_Parser XML_Parse p (feed reads "")) s.
Proof.
  induction 1 as [|c reads [Hpos Hmax] _ IH]; intros p s.
  - unfold feed. cbn [map app]. rewrite settle_cons. cbn [parse_file].
    change (EXPAT_BUFFER_SIZE <? C.strlen "") with false. cbv iota.
    change (C.strlen "" =? 0) with true. unfold xml_parse.
    destruct (XML_Parse p "" true) as [[p' es] status].
    destruct (deliver S wr es s) as [[s1 w]|]; [|done].
    cbn [fmap option_fmap option_map fst mbind option_bind].
    destruct (stopped s1) as [ln|] eqn:Hs1; [done|].
    destruct status; [|done]. rewrite settle_nil. by rewrite Hs1.
  - unfold feed. cbn [map app]. rewrite settle_cons. cbn [parse_file].
    replace (EXPAT_BUFFER_SIZE <? C.strlen c) with false by (symmetry; apply Z.ltb_ge; lia).
    cbv iota.
    replace (C.strlen c =? 0) with false by (symmetry; apply Z.eqb_neq; lia).
    unfold xml_parse.
    destruct (XML_Parse p c false) as [[p' es] status].
    destruct (deliver S wr es s) as [[s1 w]|]; [|done].
    cbn [fmap option_fmap option_map fst mbind option_bind].
    destruct (stopped s1) as [ln|] eqn:Hs1; [done|].
    destruct status; [|done]. rewrite <- IH. cbn [mbind option_bind].
    by destruct (parse_file S wr XML_Parser XML_Parse reads p' s1) as [[[r s2] w2]|].
Qed.

Lemma length_drop_string n str :
  String.length (drop_string n str) = (String.length str - n)%nat.
Proof.
  revert str. induction n as [|n IH]; intros [|ch str]; simpl; done.
Qed.

Lemma take_drop_string n str : take_string n str ++ drop_string n str = str.
Proof.
  revert str. induction n as [|n IH]; intros [|ch str]; simpl; try done.
  by rewrite IH.
Qed.

(** [parse_str] is the calls of [XML_Parse] on the pieces of the string;
    as many iterations as the string has bytes are enough. *)
Lemma parse_str_loop_settle fuel :
  ∀ str p s,
    (String.length str ≤ fuel)%nat →
    state_of (parse_str_loop S wr XML_Parser XML_Parse fuel str p s)
    = settle S wr
        (tokenize XML_Parser XML_Parse p
           (feed (str_chunks fuel str).1 (str_chunks fuel str).2)) s.
Proof.
  assert (Hlast : ∀ str p s,
            state_of
              ('(p', s', w, status) ← xml_parse S wr XML_Parser XML_Parse p str true s;
               match status with
               | XML_STATUS_ERROR _ _ => Some (-1, raise_expat_error status s', w)
               | XML_STATUS_OK => Some (0, s', w)
               end)
            = settle S wr (tokenize XML_Parser XML_Parse p (feed [] str)) s).
  { intros str p s. unfold feed. cbn [map app]. rewrite settle_cons. unfold xml_parse.
    destruct (XML_Parse p str true) as [[p' es] status].
    destruct (deliver S wr es s) as [[s1 w]|]; [|done].
    cbn [fmap option_fmap option_map fst mbind option_bind].
    destruct (stopped s1) as [ln|] eqn:Hs1; [done|].
    destruct status; [|done]. rewrite settle_nil. by rewrite Hs1. }
  induction fuel as [|fuel IH]; intros str p s Hlen.
  - cbn [parse_str_loop str_chunks].
    replace (EXPAT_CHUNK_SIZE <? C.strlen str) with false
      by (symmetry; apply Z.ltb_ge; unfold C.strlen, EXPAT_CHUNK_SIZE; lia).
    apply Hlast.
  - cbn [parse_str_loop str_chunks].
    destruct (EXPAT_CHUNK_SIZE <? C.strlen str) eqn:Hbig; [|apply Hlast].
    set (n := Z.to_nat EXPAT_CHUNK_SIZE).
    assert (String.length (drop_string n str) ≤ fuel)%nat as Hrest.
    { rewrite length_drop_string. apply Z.ltb_lt in Hbig.
      unfold C.strlen, EXPAT_CHUNK_SIZE in Hbig. subst n. unfold EXPAT_CHUNK_SIZE. lia. }
    specialize (IH (drop_string n str)).
    destruct (str_chunks fuel (drop_string n str)) as [cs last]. cbn [fst snd] in *.
    unfold feed. cbn [map app]. rewrite settle_cons. unfold xml_parse.
    destruct (XML_Parse p (take_string n str) false) as [[p' es] status].
    destruct (deliver S wr es s) as [[s1 w]|]; [|done].
    cbn [fmap option_fmap option_map fst mbind option_bind].
    destruct (stopped s1) as [ln|] eqn:Hs1; [done|].
    destruct status; [|done]. unfold feed in IH. rewrite <- (IH p' s1 Hrest).
    cbn [mbind option_bind].
    by destruct (parse_str_loop S wr XML_Parser XML_Parse fuel _ p' s1) as [[[r s2] w2]|].
Qed.


Lemma concat_cons (x : string) (xs : list string) :
  String.concat "" (x :: xs) = x ++ String.concat "" xs.
Proof.
  destruct xs as [|y xs]; [|done]. simpl.
  induction x as [|ch x IH]; simpl; [done|by rewrite <- IH].
Qed.

Lemma fed_file reads : fed (feed reads "") = String.concat "" reads.
Proof.
  unfold fed, feed. rewrite map_app, map_map. cbn [map fst].
  induction reads as [|c reads IH]; [done|].
  cbn [map app]. by rewrite !concat_cons, IH.
Qed.

Lemma fed_str fuel :
  ∀ str, fed (feed (str_chunks fuel str).1 (str_chunks fuel str).2) = str.
Proof.
  induction fuel as [|fuel IH]; intros str; cbn [str_chunks];
    (destruct (EXPAT_CHUNK_SIZE <? C.strlen str); [|done]); [done|].
  specialize (IH (drop_string (Z.to_nat EXPAT_CHUNK_SIZE) str)).
  destruct (str_chunks fuel _) as [cs last]. cbn [fst snd] in *.
  unfold fed, feed in *. cbn [map app fst]. rewrite concat_cons, IH.
  apply take_drop_string.
Qed.

(** Tokenizations that agree up to the cutting of character data settle
    the same. *)
Lemma settle_coalesce tok1 tok2 s :
  coalesce tok1.1 = coalesce tok2.1 → tok1.2 = tok2.2 →
  settle S wr tok1 s = settle S wr tok2 s.
Proof.
  intros Hes Hst. unfold settle.
  rewrite (deliver_coalesce S wr tok1.1 s), (deliver_coalesce S wr tok2.1 s).
  by rewrite Hes, Hst.
Qed.

End Drivers.


(** *** A tokenizer that cuts text at the end of a chunk *)

Lemma join_join l a b es :
  join (l, CharacterData (a ++ b)) es
  = join (l, CharacterData a) (join (l, CharacterData b) es).
Proof.
  destruct es as [|[l' [name attrs|name|c|name attrs el]] rest]; cbn [join].
  - by rewrite Z.eqb_refl.
  - by rewrite Z.eqb_refl.
  - by rewrite Z.eqb_refl.
  - destruct (l =? l') eqn:Hl; cbn [join]; rewrite ?Hl, ?Z.eqb_refl; [|done].
    by rewrite string_app_assoc.
  - by rewrite Z.eqb_refl.
Qed.

Lemma coalesce_join_app e es es' :
  coalesce (join e es ++ es')%list = join e (coalesce (es ++ es')%list).
Proof.
  destruct e as [l [name attrs|name|a|name attrs el]]; try done.
  destruct es as [|[l' [name attrs|name|b|name attrs el]] rest]; try done.
  cbn [join]. destruct (l =? l') eqn:Hl; [|done].
  apply Z.eqb_eq in Hl as <-. cbn [app coalesce]. apply join_join.
Qed.

Lemma coalesce_app_l es es' :
  coalesce (coalesce es ++ es')%list = coalesce (es ++ es')%list.
Proof.
  induction es as [|e es IH]; [done|].
  cbn [coalesce app]. by rewrite coalesce_join_app, IH.
Qed.

Lemma coalesce_idemp es : coalesce (coalesce es) = coalesce es.
Proof.
  pose proof (coalesce_app_l es []) as H. by rewrite !app_nil_r in H.
Qed.

Lemma coalesce_app_r es es' :
  coalesce (es ++ coalesce es')%list = coalesce (es ++ es')%list.
Proof.
  induction es as [|e es IH]; [apply coalesce_idemp|].
  cbn [coalesce app]. by rewrite IH.
Qed.

Lemma list_ascii_of_string_app a b :
  list_ascii_of_string (a ++ b)
  = (list_ascii_of_string a ++ list_ascii_of_string b)%list.
Proof. induction a as [|ch a IH]; simpl; [done|by rewrite IH]. Qed.

Lemma run_parse_tokenize feeds :
  (tokenize unit Samples.run_parse tt feeds).2 = XML_STATUS_OK
  ∧ coalesce (tokenize unit Samples.run_parse tt feeds).1
    = coalesce (map Example.glyph (list_ascii_of_string (fed feeds))).
Proof.
  induction feeds as [|[chunk final] feeds [IHst IHes]]; [done|].
  cbn [tokenize Samples.run_parse].
  destruct (tokenize unit Samples.run_parse tt feeds) as [es status].
  cbn [fst snd] in *. split; [done|].
  unfold fed in *. cbn [map fst]. rewrite concat_cons, list_ascii_of_string_app, map_app.
  rewrite coalesce_app_l, <- coalesce_app_r, IHes. apply coalesce_app_r.
Qed.

Lemma run_parse_chunking : chunking_invariant unit Samples.run_parse tt.
Proof.
  intros chunks1 last1 chunks2 last2 Hfed.
  destruct (run_parse_tokenize (feed chunks1 last1)) as [-> ->].
  destruct (run_parse_tokenize (feed chunks2 last2)) as [-> ->].
  by rewrite Hfed.
Qed.

(** C2: if the tokenizer makes the same handler calls, up to where runs of
    character data are cut, and ends with the same status however the
    document is cut into chunks, then [parse] on a file whose [read] returns
    the document in pieces of at most [EXPAT_BUFFER_SIZE] bytes returns the
    same value, leaves the same objects and raises the same error as
    [parse] on the whole document as one [bytes] or [bytearray] object.
    (A warning for unexpected character data that does not raise may be
    issued once per piece.) *)
Theorem chunked_file_same_as_buffer
    (S : schema) (wr : bool) (XML_Parser : Type) (create : XML_Parser)
    (set_encoding : XML_Parser → XML_Parser)
    (XML_Parse : XML_Parser → string → bool → XML_Parser * list (Z * event) * XML_Status)
    (reads : list string) :
  chunking_invariant XML_Parser XML_Parse create →
  Forall (λ c, 0 < C.strlen c ≤ EXPAT_BUFFER_SIZE) reads →
  same_outcome
    (parse S wr XML_Parser create set_encoding XML_Parse (EXPAT_SOURCE_FILE reads))
    (parse S wr XML_Parser create set_encoding XML_Parse
       (EXPAT_SOURCE_STR (PyBytes (String.concat "" reads))))
  ∧ same_outcome
      (parse S wr XML_Parser create set_encoding XML_Parse (EXPAT_SOURCE_FILE reads))
      (parse S wr XML_Parser create set_encoding XML_Parse
         (EXPAT_SOURCE_STR (PyByteArray (String.concat "" reads)))).
Proof.
  intros Hinv Hreads.
  set (doc := String.concat "" reads).
  assert (Hsame : state_of (parse_file S wr XML_Parser XML_Parse reads create initial_state)
                  = state_of (parse_str_loop S wr XML_Parser XML_Parse (String.length doc)
                                doc create initial_state)).
  { rewrite parse_file_settle by done. rewrite parse_str_loop_settle by done.
    destruct (Hinv reads "" (str_chunks (String.length doc) doc).1
                (str_chunks (String.length doc) doc).2) as [Hes Hst].
    { by rewrite fed_file, fed_str. }
    by apply settle_coalesce. }
  assert (Hout : ∀ x y : option (Z * parse_state * list warning),
            state_of x = state_of y →
            same_outcome
              ('(r, s, w) ← x;
               if negb (r =? 0) then Some (Result None (heap s) (py_err s), w)
               else if bool_decide (r_obj s = None) then
                 let '(pending, exc) :=
                   call_parse_error (py_err s)
                     (Some "document without a recognized root element") None in
                 Some (Result None (heap s)
                         (match exc with Some e => Some e | None => pending end), w)
               else Some (Result (r_obj s) (heap s) (py_err s), w))
              ('(r, s, w) ← y;
               if negb (r =? 0) then Some (Result None (heap s) (py_err s), w)
               else if bool_decide (r_obj s = None) then
                 let '(pending, exc) :=
                   call_parse_error (py_err s)
                     (Some "document without a recognized root element") None in
                 Some (Result None (heap s)
                         (match exc with Some e => Some e | None => pending end), w)
               else Some (Result (r_obj s) (heap s) (py_err s), w))).
  { intros [[[r s] w]|] [[[r' s'] w']|]; simpl; try done.
    intros [= <- <-]. unfold same_outcome. simpl.
    destruct (negb (r =? 0)); [done|].
    destruct (bool_decide (r_obj s = None)); [|done].
    by destruct (call_parse_error _ _ _) as [pending exc]. }
  split; apply Hout, Hsame.
Qed.


Lemma chunked_file_same_as_buffer_witness :
  same_outcome
    (parse Example.schema false unit tt id Samples.run_parse
       (EXPAT_SOURCE_FILE ["DP/Nab"; "cd//"]))
    (parse Example.schema false unit tt id Samples.run_parse
       (EXPAT_SOURCE_STR (PyBytes (String.concat "" ["DP/Nab"; "cd//"]))))
  ∧ same_outcome
      (parse Example.schema false unit tt id Samples.run_parse
         (EXPAT_SOURCE_FILE ["DP/Nab"; "cd//"]))
      (parse Example.schema false unit tt id Samples.run_parse
         (EXPAT_SOURCE_STR (PyByteArray (String.concat "" ["DP/Nab"; "cd//"])))).
Proof.
  apply (chunked_file_same_as_buffer Example.schema false unit tt id Samples.run_parse
           ["DP/Nab"; "cd//"] run_parse_chunking).
  repeat (constructor; [unfold C.strlen, EXPAT_BUFFER_SIZE; simpl; lia|]).
  constructor.
Defined.

End ChunkProofs.

(** ** Lookups that are defined *)

Module LookupProofs.

Import NameResolver Py Schema Api Spec NameResolverProofs.

Lemma char_value_unsigned c : 0 ≤ C.char_value false c ≤ 255.
Proof.
  unfold C.char_value, C.byte_value. simpl.
  pose proof (N_ascii_bounded c). lia.
Qed.

Lemma char_value_key_ok cs c key :
  key_ok cs (String c key) = true →
  0 ≤ C.char_value cs c ≤ 255 ∧ key_ok cs key = true.
Proof.
  unfold key_ok. destruct cs; simpl.
  - intros [Hc Hk]%andb_true_iff. split; [|done].
    pose proof (char_value_ascii7 true c Hc). lia.
  - intros _. split; [apply char_value_unsigned|done].
Qed.

Section Tables.

Variable cs : bool.
Variable h : hash_info.
Hypothesis Hsalts : salts_ok h = true.
Hypothesis Hg : g_ok h = true.

Lemma salts_facts :
  forallb ascii7 (list_ascii_of_string (salt1 h)) = true
  ∧ forallb ascii7 (list_ascii_of_string (salt2 h)) = true
  ∧ String.length (salt1 h) = String.length (salt2 h)
  ∧ Z.of_nat (String.length (salt1 h)) ≤ 65536.
Proof.
  unfold salts_ok in Hsalts.
  repeat (apply andb_true_iff in Hsalts as [Hsalts ?]).
  split_and!; try done.
  - by apply Nat.eqb_eq.
  - by apply Z.leb_le in H.
Qed.

Lemma g_facts :
  0 < g_length h ∧ ∀ i x, g h !! i = Some x → 0 ≤ x < 2 ^ 30.
Proof.
  unfold g_ok in Hg. apply andb_true_iff in Hg as [Hne Hall]. split.
  - unfold g_length. destruct (g h); [done|]. simpl length. lia.
  - intros i x Hx. rewrite forallb_forall in Hall.
    apply list_elem_of_lookup_2, list_elem_of_In, Hall in Hx.
    apply andb_true_iff in Hx as [H1%Z.leb_le H2%Z.ltb_lt]. lia.
Qed.

(** The checksums of a key stay inside [int] and are not negative. *)
Lemma hash_loop_defined key :
  key_ok cs key = true →
  ∀ (i : nat) (f1 f2 : Z),
    0 ≤ f1 ≤ Z.of_nat i * 32385 → 0 ≤ f2 ≤ Z.of_nat i * 32385 →
    (i ≤ String.length (salt1 h))%nat →
    ∃ f1' f2', hash_loop cs h key i f1 f2 = Some (f1', f2') ∧ 0 ≤ f1' ∧ 0 ≤ f2'.
Proof.
  destruct salts_facts as (Hs1 & Hs2 & Heq & Hlen).
  induction key as [|k key IH]; intros Hkey i f1 f2 Hf1 Hf2 Hi; simpl.
  - exists f1, f2. split; [done|lia].
  - unfold salt_length, C.strlen.
    destruct (Z.of_nat i <? Z.of_nat (String.length (salt1 h))) eqn:Hlt;
      [|exists f1, f2; split; [done|lia]].
    apply Z.ltb_lt in Hlt.
    destruct (char_value_key_ok cs k key Hkey) as [Hk Hkey'].
    destruct (literal_at_ascii cs (salt1 h) Hs1 i) as (a & -> & Ha); [lia|].
    destruct (literal_at_ascii cs (salt2 h) Hs2 i) as (b & -> & Hb); [lia|].
    simpl.
    rewrite (int_of_in_range (f1 + a * C.char_value cs k))
      by (unfold C.INT_MIN, C.INT_MAX; nia).
    simpl.
    rewrite (int_of_in_range (f2 + b * C.char_value cs k))
      by (unfold C.INT_MIN, C.INT_MAX; nia).
    simpl. apply IH; [done|nia|nia|lia].
Qed.

(** For checksums that are not negative the index is inside the table. *)
Lemma hash_index_defined f1 f2 :
  0 ≤ f1 → 0 ≤ f2 →
  ∃ i, hash_index h f1 f2 = Some i ∧ 0 ≤ i < g_length h.
Proof.
  intros Hf1 Hf2. destruct g_facts as [Hlen Hrange].
  unfold hash_index, C.rem.
  replace (g_length h =? 0) with false by (symmetry; apply Z.eqb_neq; lia).
  simpl.
  pose proof (Z.rem_bound_pos f1 (g_length h) Hf1 Hlen) as Hr1.
  pose proof (Z.rem_bound_pos f2 (g_length h) Hf2 Hlen) as Hr2.
  assert (Hidx : ∀ r, 0 ≤ r < g_length h → ∃ x, C.index (g h) r = Some x ∧ 0 ≤ x < 2 ^ 30).
  { intros r Hr. unfold C.index.
    replace (r <? 0) with false by (symmetry; apply Z.ltb_ge; lia).
    destruct (g h !! Z.to_nat r) as [x|] eqn:Hx.
    - exists x. split; [done|]. by eapply Hrange.
    - apply lookup_ge_None in Hx. unfold g_length in Hr. lia. }
  destruct (Hidx _ Hr1) as (g1 & -> & Hg1). destruct (Hidx _ Hr2) as (g2 & -> & Hg2).
  simpl. rewrite int_of_in_range by (unfold C.INT_MIN, C.INT_MAX; lia). simpl.
  eexists. split; [done|]. apply Z.rem_bound_pos; lia.
Qed.

(** The loop of [py_field_lookup] on a key that fits the salts. *)
Lemma py_field_loop_defined (buffer : list N) :
  ∀ (i : nat) (f1 f2 : Z),
    (i + length buffer ≤ String.length (salt1 h))%nat →
    0 ≤ f1 ≤ Z.of_nat i * 16129 → 0 ≤ f2 ≤ Z.of_nat i * 16129 →
    py_field_loop cs h buffer i f1 f2 = Some None
    ∨ ∃ f1' f2', py_field_loop cs h buffer i f1 f2 = Some (Some (f1', f2'))
                 ∧ 0 ≤ f1' ∧ 0 ≤ f2'.
Proof.
  destruct salts_facts as (Hs1 & Hs2 & Heq & Hlen).
  induction buffer as [|c buffer IH]; intros i f1 f2 Hi Hf1 Hf2; simpl in *.
  - right. exists f1, f2. split; [done|lia].
  - destruct (127 <? c)%N eqn:Hc; [by left|]. apply N.ltb_ge in Hc.
    destruct (literal_at_ascii cs (salt1 h) Hs1 i) as (a & -> & Ha); [lia|].
    destruct (literal_at_ascii cs (salt2 h) Hs2 i) as (b & -> & Hb); [lia|].
    simpl.
    assert (0 ≤ Z.of_N c ≤ 127) by lia.
    assert (Z.of_nat i < 65536) by lia.
    rewrite (int_of_in_range (f1 + a * Z.of_N c)) by (unfold C.INT_MIN, C.INT_MAX; nia).
    simpl.
    rewrite (int_of_in_range (f2 + b * Z.of_N c)) by (unfold C.INT_MIN, C.INT_MAX; nia).
    simpl. apply IH; [lia|nia|nia].
Qed.

End Tables.

Lemma index_in_range {A} (names : list A) (i : Z) :
  0 ≤ i < Z.of_nat (length names) →
  ∃ n, C.index names i = Some n ∧ names !! Z.to_nat i = Some n.
Proof.
  intros Hi. unfold C.index.
  replace (i <? 0) with false by (symmetry; apply Z.ltb_ge; lia).
  destruct (names !! Z.to_nat i) as [n|] eqn:Hn; [by exists n|].
  apply lookup_ge_None in Hn. lia.
Qed.

(** X1: the lookup generated by the [hash_lookup] macro is defined on every
    key whose bytes keep their value as [char], with salts and displacements
    as the schema compiler makes them: it answers [default], or an index at
    which [names] holds the key. *)
Theorem hash_lookup_defined_on_plain_keys
    (cs : bool) (h : hash_info) (names : list string) (default : Z) (key : string) :
  salts_ok h = true → g_ok h = true → key_ok cs key = true →
  ∃ r, hash_lookup cs (Some h) names default key = Some r
       ∧ (r = default
          ∨ (0 ≤ r < Z.of_nat (length names) ∧ names !! Z.to_nat r = Some key)).
Proof.
  intros Hs Hg Hkey. unfold hash_lookup.
  destruct (hash_loop_defined cs h Hs key Hkey 0 0 0) as (f1 & f2 & -> & Hf1 & Hf2);
    [lia|lia|lia|].
  simpl. destruct (hash_index_defined h Hg f1 f2 Hf1 Hf2) as (i & -> & Hi). simpl.
  destruct (i <? Z.of_nat (length names)) eqn:Hlt; [|by exists default; split; [|left]].
  apply Z.ltb_lt in Hlt.
  destruct (index_in_range names i) as (n & -> & Hn); [lia|]. simpl.
  destruct (C.streq key n) eqn:Heq; [|by exists default; split; [|left]].
  apply String.eqb_eq in Heq as ->.
  exists i. split; [done|]. right. split; [lia|done].
Qed.

Lemma hash_lookup_defined_on_plain_keys_witness :
  ∃ r, hash_lookup true (Some Example.e_table) Example.e_names 99 "point" = Some r
       ∧ (r = 99
          ∨ (0 ≤ r < Z.of_nat (length Example.e_names)
             ∧ Example.e_names !! Z.to_nat r = Some "point")).
Proof.
  apply (hash_lookup_defined_on_plain_keys true Example.e_table Example.e_names 99 "point");
    reflexivity.
Defined.

(** X2: [py_field_lookup] is defined on every key: it answers
    [PY_FIELD_OTHER], or the index of the field name that the key spells. *)
Theorem py_field_lookup_defined
    (cs : bool) (h : hash_info) (names : list string) (other : Z) (key : list N) :
  salts_ok h = true → g_ok h = true →
  ∃ r, py_field_lookup cs h names other key = Some r
       ∧ (r = other
          ∨ (0 ≤ r < Z.of_nat (length names)
             ∧ ∃ n, names !! Z.to_nat r = Some n ∧ key = code_points n)).
Proof.
  intros Hs Hg. unfold py_field_lookup.
  destruct (salt_length h <? Z.of_nat (length key)) eqn:Hlen;
    [by exists other; split; [|left]|].
  apply Z.ltb_ge in Hlen. unfold salt_length, C.strlen in Hlen.
  destruct (py_field_loop_defined cs h Hs key 0 0 0) as [->|(f1 & f2 & -> & Hf1 & Hf2)];
    [simpl; lia|lia|lia|by exists other; split; [|left]|].
  simpl. destruct (hash_index_defined h Hg f1 f2 Hf1 Hf2) as (i & -> & Hi). simpl.
  destruct (i <? Z.of_nat (length names)) eqn:Hlt; [|by exists other; split; [|left]].
  apply Z.ltb_lt in Hlt.
  destruct (index_in_range names i) as (n & -> & Hn); [lia|]. simpl.
  unfold compare_with_ascii. destruct (bool_decide _) eqn:Heq;
    [|by exists other; split; [|left]].
  apply bool_decide_eq_true in Heq.
  exists i. split; [done|]. right. split; [lia|]. by exists n.
Qed.

Lemma py_field_lookup_defined_witness :
  ∃ r, py_field_lookup true Example.f_table Example.f_names 99 (code_points "title")
       = Some r
       ∧ (r = 99
          ∨ (0 ≤ r < Z.of_nat (length Example.f_names)
             ∧ ∃ n, Example.f_names !! Z.to_nat r = Some n
                    ∧ code_points "title" = code_points n)).
Proof.
  apply (py_field_lookup_defined true Example.f_table Example.f_names 99
           (code_points "title"));
    reflexivity.
Defined.

Lemma find_str_in_array_from_spec str array :
  ∀ i, 0 ≤ i →
    (find_str_in_array_from str array i = -1 ∧ str ∉ array)
    ∨ (i ≤ find_str_in_array_from str array i
       ∧ array !! Z.to_nat (find_str_in_array_from str array i - i) = Some str
       ∧ ∀ j, (j < Z.to_nat (find_str_in_array_from str array i - i))%nat →
              array !! j ≠ Some str).
Proof.
  induction array as [|a array IH]; intros i Hi; simpl.
  - left. split; [done|]. by intros ?%elem_of_nil.
  - destruct (C.streq str a) eqn:Heq.
    + apply String.eqb_eq in Heq as ->. right. rewrite Z.sub_diag. simpl.
      split; [lia|]. split; [done|]. intros j Hj. lia.
    + apply String.eqb_neq in Heq.
      destruct (IH (i + 1)) as [[Hr Hnot]|(Hle & Hat & Hfirst)]; [lia|..].
      * left. split; [done|]. intros [?|?]%elem_of_cons; done.
      * right. split; [lia|].
        set (r := find_str_in_array_from str array (i + 1)) in *.
        replace (Z.to_nat (r - i)) with (Datatypes.S (Z.to_nat (r - (i + 1)))) by lia.
        split; [done|]. intros [|j] Hj; simpl; [congruence|].
        apply Hfirst. lia.
Qed.

(** X3: without hash parameters the lookup is [find_str_in_array]: it
    answers the first index at which [names] holds the key, and -1, not the
    [default] of the macro, when the key is not among the names. *)
Theorem linear_lookup_first_or_minus_one
    (cs : bool) (names : list string) (default : Z) (key : string) :
  ∃ r, hash_lookup cs None names default key = Some r
       ∧ ((r = -1 ∧ key ∉ names)
          ∨ (0 ≤ r
             ∧ names !! Z.to_nat r = Some key
             ∧ ∀ j, (j < Z.to_nat r)%nat → names !! j ≠ Some key)).
Proof.
  exists (find_str_in_array key names). split; [done|].
  unfold find_str_in_array.
  destruct (find_str_in_array_from_spec key names 0) as [?|(H1 & H2 & H3)]; [lia|by left|].
  right. rewrite Z.sub_0_r in *. done.
Qed.

End LookupProofs.

(** ** Integers in attributes *)

Module IntegerProofs.

Import Py Schema Parser Driver Spec Run.

Lemma digit_value_is_digit c :
  is_digit c = true → digit_value c = Some (Z.of_nat (nat_of_ascii c) - 48).
Proof. unfold is_digit, digit_value. by intros ->. Qed.

Lemma read_digits_app ds rest :
  all_digits ds = true → starts_with_digit rest = false →
  ∀ acc,
    read_digits (ds ++ rest) acc
    = (foldl (λ acc c, acc * 10 + (Z.of_nat (nat_of_ascii c) - 48)) acc
         (list_ascii_of_string ds),
       rest).
Proof.
  intros Hds Hrest. induction ds as [|ch ds IH]; intros acc; simpl.
  - destruct rest as [|ch rest]; [done|]. simpl in *.
    destruct (digit_value ch); [|done].
    by rewrite bool_decide_true in Hrest.
  - simpl in Hds. apply andb_true_iff in Hds as [Hch Hds].
    rewrite (digit_value_is_digit _ Hch). by apply IH.
Qed.

Lemma number_not_negative l :
  forallb is_digit l = true →
  ∀ acc, 0 ≤ acc →
    0 ≤ foldl (λ acc c, acc * 10 + (Z.of_nat (nat_of_ascii c) - 48)) acc l.
Proof.
  induction l as [|x l IH]; intros Hl acc Hacc; [done|].
  simpl in *. apply andb_true_iff in Hl as [Hx Hl]. apply IH; [done|].
  unfold is_digit in Hx. apply andb_true_iff in Hx as [H1%Nat.leb_le H2%Nat.leb_le].
  lia.
Qed.

Lemma digit_not_space ch : is_digit ch = true → isspace ch = false.
Proof.
  unfold is_digit, isspace. intros [H1%Nat.leb_le H2%Nat.leb_le]%andb_true_iff.
  apply orb_false_iff. split; [apply Nat.eqb_neq; lia|].
  apply andb_false_iff. right. apply Nat.leb_gt. lia.
Qed.

Lemma digit_not_sign {A} ch (s : string) (minus plus other : A) :
  is_digit ch = true →
  match String ch s with
  | String "-" _ => minus
  | String "+" _ => plus
  | _ => other
  end = other.
Proof. by destruct ch as [[] [] [] [] [] [] [] []]. Qed.

(** What [strtol] makes of digits followed by something else. *)
Lemma strtol_digits ds rest :
  ds ≠ "" → all_digits ds = true → starts_with_digit rest = false →
  strtol (ds ++ rest)
  = if C.LONG_MAX <? number ds then (C.LONG_MAX, rest, true) else (number ds, rest, false).
Proof.
  intros Hne Hds Hrest. destruct ds as [|ch ds]; [done|].
  pose proof (read_digits_app (String ch ds) rest Hds Hrest 0) as Hread.
  pose proof (number_not_negative _ Hds 0 ltac:(lia)) as Hpos.
  fold (number (String ch ds)) in Hread, Hpos.
  assert (is_digit ch = true) as Hch
    by (simpl in Hds; by apply andb_true_iff in Hds as [? _]).
  unfold strtol. change (String ch ds ++ rest) with (String ch (ds ++ rest)) in *.
  cbn [skip_space]. rewrite (digit_not_space _ Hch).
  rewrite (digit_not_sign ch (ds ++ rest) (true, _) (false, _) (false, _) Hch)
    by done.
  cbn [starts_with_digit]. rewrite (digit_value_is_digit _ Hch).
  rewrite bool_decide_true by done. rewrite Hread.
  replace (number (String ch ds) <? C.LONG_MIN) with false
    by (symmetry; apply Z.ltb_ge; unfold C.LONG_MIN; lia).
  by destruct (C.LONG_MAX <? number (String ch ds)).
Qed.

(** X4: an integer attribute takes the digits its value starts with and
    ignores whatever follows them: the test of the rest of the value is made
    with length -1 and finds nothing. *)
Theorem integer_attribute_ignores_what_follows
    (field : slot) (name ds rest : string) (c : context) (s s' : parse_state) :
  ds ≠ "" → all_digits ds = true → starts_with_digit rest = false →
  number ds ≤ C.LONG_MAX →
  load (heap s) (r_obj s) field = Some None →
  store_slot s field (Some (VLong (number ds))) = Some s' →
  set_integer_attribute field (name, ds ++ rest) c s = Some (0, s', []).
Proof.
  intros Hne Hds Hrest Hmax Hload Hstore. unfold set_integer_attribute.
  rewrite (bind_quiet _ _ _ _ _ _ (read_run _ _ _ _ Hload)).
  rewrite bool_decide_false by (by intros []).
  cbn [snd]. unfold parse_integer. rewrite (strtol_digits _ _ Hne Hds Hrest).
  replace (C.LONG_MAX <? number ds) with false by (symmetry; apply Z.ltb_ge; lia).
  cbn [orb negb]. change (non_whitespace rest (-1) =? 0) with true. cbn [negb].
  rewrite (bind_quiet _ _ _ _ _ _ (ret_run _ _ _)).
  change (negb (0 =? 0)) with false. cbv iota.
  by rewrite (bind_quiet _ _ _ _ _ _ (write_run _ _ _ _ _ Hstore)).
Qed.

Lemma integer_attribute_ignores_what_follows_witness :
  set_integer_attribute (SlotField 0 0) ("x", "12" ++ "px") (handler_context false 7)
    (Samples.point_node [None; None; None])
  = Some (0, Samples.point_node [Some (VLong 12); None; None], []).
Proof.
  apply (integer_attribute_ignores_what_follows (SlotField 0 0) "x" "12" "px");
    (reflexivity || discriminate || (vm_compute; discriminate)).
Defined.

(** X5: an integer attribute whose digits exceed the range of [long] is
    refused, and the error raised does not say "cannot parse integer": its
    message is the text of the parser's error code, which is none while a
    handler runs ([tokenizer_error]: the ParseError with that message and
    the line, [SystemError] if an exception was pending). *)
Theorem integer_attribute_out_of_range
    (field : slot) (name ds rest : string) (wr : bool) (ln : Z) (s : parse_state) :
  ds ≠ "" → all_digits ds = true → starts_with_digit rest = false →
  C.LONG_MAX < number ds →
  load (heap s) (r_obj s) field = Some None →
  set_integer_attribute field (name, ds ++ rest) (handler_context wr ln) s
  = Some (-1, tokenizer_error (handler_context wr ln) s, []).
Proof.
  intros Hne Hds Hrest Hmax Hload. unfold set_integer_attribute.
  rewrite (bind_quiet _ _ _ _ _ _ (read_run _ _ _ _ Hload)).
  rewrite bool_decide_false by (by intros []).
  cbn [snd]. unfold parse_integer. rewrite (strtol_digits _ _ Hne Hds Hrest).
  replace (C.LONG_MAX <? number ds) with true by (symmetry; apply Z.ltb_lt; lia).
  cbn [orb]. rewrite bind_run.
  by rewrite (bind_quiet _ _ _ _ _ _ (set_parse_error_run _ _ s)).
Qed.

Lemma integer_attribute_out_of_range_witness :
  set_integer_attribute (SlotField 0 0) ("x", "9223372036854775808" ++ "")
    (handler_context false 7) (Samples.point_node [None; None; None])
  = Some (-1,
          set_py_err (Some (ParseError None (Some 7)))
            (Samples.point_node [None; None; None]),
          []).
Proof.
  apply (integer_attribute_out_of_range (SlotField 0 0) "x" "9223372036854775808" "");
    (reflexivity || discriminate || (vm_compute; reflexivity)).
Defined.

End IntegerProofs.

(** ** What [parse] returns *)

Module DriverProofs.

Import Py Schema Parser Driver Api Spec Run.

Section Results.

Variable S : schema.
Variable wr : bool.
Variable XML_Parser : Type.
Variable XML_Parse : XML_Parser → string → bool → XML_Parser * list (Z * event) * XML_Status.

Lemma raise_expat_error_sets msg ln s :
  py_err (raise_expat_error (XML_STATUS_ERROR msg ln) s) ≠ None.
Proof.
  unfold raise_expat_error. destruct (py_err s) eqn:He; [by rewrite He|done].
Qed.

Lemma parse_file_failure reads :
  ∀ p s r s' w,
    parse_file S wr XML_Parser XML_Parse reads p s = Some (r, s', w) →
    r ≠ 0 → py_err s' ≠ None.
Proof.
  induction reads as [|c reads IH]; intros p s r s' w; cbn [parse_file].
  - change (EXPAT_BUFFER_SIZE <? C.strlen "") with false. cbv iota.
    destruct (xml_parse S wr XML_Parser XML_Parse p "" _ s) as [[[[p' s1] w1] status]|];
      [|done].
    cbn [mbind option_bind]. destruct status as [|msg ln]; intros [= <- <- <-] Hr;
      [done|apply raise_expat_error_sets].
  - destruct (EXPAT_BUFFER_SIZE <? C.strlen c); [by intros [= <- <- <-] _|].
    destruct (xml_parse S wr XML_Parser XML_Parse p c _ s) as [[[[p' s1] w1] status]|];
      [|done].
    cbn [mbind option_bind].
    destruct status as [|msg ln]; [|intros [= <- <- <-] _; apply raise_expat_error_sets].
    destruct (C.strlen c =? 0); [by intros [= <- <- <-]|].
    destruct (parse_file S wr XML_Parser XML_Parse reads p' s1) as [[[r2 s2] w2]|] eqn:Hrest;
      [|done].
    cbn [mbind option_bind]. intros [= <- <- <-] Hr. by eapply IH.
Qed.

Lemma parse_str_loop_failure fuel :
  ∀ str p s r s' w,
    parse_str_loop S wr XML_Parser XML_Parse fuel str p s = Some (r, s', w) →
    r ≠ 0 → py_err s' ≠ None.
Proof.
  assert (Hlast : ∀ str p s r s' w,
            ('(p', s', w, status) ← xml_parse S wr XML_Parser XML_Parse p str true s;
             match status with
             | XML_STATUS_ERROR _ _ => Some (-1, raise_expat_error status s', w)
             | XML_STATUS_OK => Some (0, s', w)
             end) = Some (r, s', w) →
            r ≠ 0 → py_err s' ≠ None).
  { intros str p s r s' w.
    destruct (xml_parse S wr XML_Parser XML_Parse p str true s)
      as [[[[p' s1] w1] status]|]; [|done].
    cbn [mbind option_bind]. destruct status as [|msg ln]; intros [= <- <- <-] Hr;
      [done|apply raise_expat_error_sets]. }
  induction fuel as [|fuel IH]; intros str p s r s' w; cbn [parse_str_loop].
  - destruct (EXPAT_CHUNK_SIZE <? C.strlen str); [done|apply Hlast].
  - destruct (EXPAT_CHUNK_SIZE <? C.strlen str); [|apply Hlast].
    destruct (xml_parse S wr XML_Parser XML_Parse p _ false s)
      as [[[[p' s1] w1] status]|]; [|done].
    cbn [mbind option_bind].
    destruct status as [|msg ln]; [|intros [= <- <- <-] _; apply raise_expat_error_sets].
    destruct (parse_str_loop S wr XML_Parser XML_Parse fuel _ p' s1)
      as [[[r2 s2] w2]|] eqn:Hrest; [|done].
    cbn [mbind option_bind]. intros [= <- <- <-] Hr. by eapply IH.
Qed.

End Results.

(** X6: [parse] never returns NULL without an exception set: whatever the
    source and whatever the tokenizer does, a result without a value has the
    error indicator set. *)
Theorem null_result_has_exception
    (S : schema) (wr : bool) (XML_Parser : Type) (create : XML_Parser)
    (set_encoding : XML_Parser → XML_Parser)
    (XML_Parse : XML_Parser → string → bool → XML_Parser * list (Z * event) * XML_Status)
    (source : expat_source) (res : result) (ws : list warning) :
  parse S wr XML_Parser create set_encoding XML_Parse source = Some (res, ws) →
  returned res = None →
  raised res ≠ None.
Proof.
  unfold parse. intros Hparse Hnull.
  assert (Hfail : ∀ r s w,
            match source with
            | EXPAT_SOURCE_STR data =>
                parse_str S wr XML_Parser set_encoding XML_Parse data create initial_state
            | EXPAT_SOURCE_FILE reads =>
                parse_file S wr XML_Parser XML_Parse reads create initial_state
            end = Some (r, s, w) →
            r ≠ 0 → py_err s ≠ None).
  { intros r s w. destruct source as [data|reads].
    - destruct data as [str|str|str|]; cbn [parse_str];
        try apply parse_str_loop_failure.
      by intros [= <- <- <-] _.
    - apply parse_file_failure. }
  destruct (match source with
            | EXPAT_SOURCE_STR data => _
            | EXPAT_SOURCE_FILE reads => _
            end) as [[[r s] w]|]; [|done].
  specialize (Hfail r s w eq_refl). cbn [mbind option_bind] in Hparse.
  destruct (negb (r =? 0)) eqn:Hr.
  - injection Hparse as <- <-. cbn [raised]. apply Hfail.
    intros ->. done.
  - destruct (bool_decide (r_obj s = None)) eqn:Hroot.
    + unfold call_parse_error in Hparse.
      destruct (py_err s); by injection Hparse as <- <-.
    + injection Hparse as <- <-. cbn [returned] in Hnull.
      by apply bool_decide_eq_false in Hroot.
Qed.

Lemma null_result_has_exception_witness :
  ∃ res ws,
    parse Example.schema false unit tt id Samples.run_parse
      (EXPAT_SOURCE_FILE ["Dx"; "y/"]) = Some (res, ws)
    ∧ returned res = None
    ∧ raised res ≠ None.
Proof.
  eexists _, _. split; [vm_compute; reflexivity|]. split; [reflexivity|].
  eapply (null_result_has_exception Example.schema false unit tt id Samples.run_parse
            (EXPAT_SOURCE_FILE ["Dx"; "y/"]));
    [vm_compute; reflexivity|reflexivity].
Defined.

(** X9: the text of a [ParseError] without a line number is "Error: None"
    whatever its message, and with a line number it has the line and the
    message. *)
Theorem parse_error_text_drops_message_without_line (message : option string) :
  parse_error_tp_str (parse_error_args message None) = Done "Error: None"
  ∧ ∀ (m : string) (l : Z),
      parse_error_tp_str (parse_error_args (Some m) (Some l))
      = Done ("Error on line " ++ NilZero.string_of_int (Z.to_int l) ++ ": " ++ m).
Proof. by destruct message. Qed.

End DriverProofs.

(** ** Objects made from Python *)

Module ConstructorProofs.

Import Py Schema Api Spec.

(** *** [FrozenList(iterable)] *)

Lemma push_all (cap : nat) (items : list val) :
  (0 < cap)%nat →
  ∀ fl,
    (size fl ≤ capacity fl)%nat →
    content (foldl (λ l v, frozen_list_push_object l (Some v) cap) fl items)
    = (content fl ++ (Some <$> items))%list
    ∧ (size (foldl (λ l v, frozen_list_push_object l (Some v) cap) fl items)
       ≤ capacity (foldl (λ l v, frozen_list_push_object l (Some v) cap) fl items))%nat.
Proof.
  intros Hcap. induction items as [|v items IH]; intros fl Hfl; simpl.
  - by rewrite app_nil_r.
  - destruct (IH (frozen_list_push_object fl (Some v) cap)) as [Hc Hs].
    + unfold frozen_list_push_object, size in *. simpl. rewrite length_app. simpl.
      destruct (length (content fl) =? capacity fl)%nat eqn:Hfull.
      * apply Nat.eqb_eq in Hfull.
        destruct (capacity fl =? 0)%nat eqn:Hzero; [apply Nat.eqb_eq in Hzero|
                                                     apply Nat.eqb_neq in Hzero]; lia.
      * apply Nat.eqb_neq in Hfull. lia.
    + split; [|done]. rewrite Hc. simpl. by rewrite <- app_assoc.
Qed.

Section Filling.

Variable py : interpreter.

(** What [frozen_list_fill] makes of an empty list. *)
Lemma frozen_list_fill_spec h arg h0 len :
  PyObject_Size py h arg = (h0, len) →
  (len = Some 0%nat → frozen_list_fill py h init_frozen_list arg = Done (h0, init_frozen_list))
  ∧ (len ≠ Some 0%nat →
     (∀ e, PyObject_iterate py h0 arg = Raised e →
           frozen_list_fill py h init_frozen_list arg = Raised e)
     ∧ (∀ h1 items,
          PyObject_iterate py h0 arg = Done (h1, items) →
          ∃ fl, frozen_list_fill py h init_frozen_list arg = Done (h1, fl)
                ∧ content fl = Some <$> items
                ∧ (size fl ≤ capacity fl)%nat)).
Proof.
  intros Hsize. unfold frozen_list_fill. rewrite Hsize. split.
  - by intros ->.
  - intros Hlen.
    set (n := match len with
              | Some n => n
              | None => Parser.NODE_LIST_INITIAL_CAPACITY
              end).
    assert (Hn : (0 < n)%nat).
    { unfold n. destruct len as [[|m]|]; [done|lia|].
      unfold Parser.NODE_LIST_INITIAL_CAPACITY. lia. }
    replace (n =? 0)%nat with false by (symmetry; apply Nat.eqb_neq; lia).
    split.
    + by intros e ->.
    + intros h1 items ->. cbn [mbind outcome_bind obind].
      destruct (push_all n items Hn init_frozen_list) as [Hc Hs]; [done|].
      eexists. split; [done|]. by split.
Qed.

End Filling.

(** X10: [FrozenList(arg)] holds the items that the iteration of [arg]
    yields, in order: its length is their number, item [i] is the [i]-th of
    them, an index outside raises [IndexError], and its size does not
    exceed its capacity.  An exception of the iteration is the
    constructor's.  An argument whose length is 0 is not iterated: the list
    is empty whatever the iteration would yield. *)
Theorem frozen_list_holds_its_items
    (py : interpreter) (h h0 : heap) (arg : val) (len : option nat) :
  PyObject_Size py h arg = (h0, len) →
  (len = Some 0%nat →
   frozen_list_tp_new py h [arg] []
   = Done ((h0 ++ [OFrozenList init_frozen_list])%list, length h0))
  ∧ (len ≠ Some 0%nat →
     (∀ e, PyObject_iterate py h0 arg = Raised e →
           frozen_list_tp_new py h [arg] [] = Raised e)
     ∧ (∀ h1 items,
          PyObject_iterate py h0 arg = Done (h1, items) →
          ∃ fl,
            frozen_list_tp_new py h [arg] []
            = Done ((h1 ++ [OFrozenList fl])%list, length h1)
            ∧ content fl = Some <$> items
            ∧ (size fl ≤ capacity fl)%nat
            ∧ frozen_list_size (h1 ++ [OFrozenList fl])%list (length h1)
              = Some (Z.of_nat (length items))
            ∧ ∀ i : Z,
                frozen_list_item (h1 ++ [OFrozenList fl])%list (length h1) i
                = if (i <? 0) || (Z.of_nat (length items) <=? i)
                  then Raised (IndexError "index out of range")
                  else of_option (items !! Z.to_nat i))).
Proof.
  intros Hsize.
  destruct (frozen_list_fill_spec py h arg h0 len Hsize) as [Hzero Hfill].
  unfold frozen_list_tp_new. cbn [length Nat.eqb negb lookup list_lookup of_option].
  cbn [mbind outcome_bind obind]. split.
  - intros Hlen. by rewrite (Hzero Hlen).
  - intros Hlen. destruct (Hfill Hlen) as [Hraised Hdone]. split.
    + intros e He. by rewrite (Hraised e He).
    + intros h1 items Hit. destruct (Hdone h1 items Hit) as (fl & Hrun & Hc & Hs).
      exists fl. rewrite Hrun. cbn [mbind outcome_bind obind].
      assert (Hat : frozen_list_at (h1 ++ [OFrozenList fl])%list (length h1) = Some fl).
      { unfold frozen_list_at. rewrite lookup_app_r by lia. by rewrite Nat.sub_diag. }
      assert (Hsz : size fl = length items).
      { unfold size. by rewrite Hc, length_fmap. }
      split_and!; try done.
      * unfold frozen_list_size. rewrite Hat. simpl. by rewrite Hsz.
      * intros i. unfold frozen_list_item. rewrite Hat. simpl. rewrite Hsz.
        destruct ((i <? 0) || (Z.of_nat (length items) <=? i)); [done|].
        rewrite Hc, list_lookup_fmap. by destruct (items !! Z.to_nat i).
Qed.

Lemma frozen_list_holds_its_items_witness :
  (∃ fl,
     frozen_list_tp_new Samples.interp [] [VSeq [VLong 7; VStr "a"]] []
     = Done ([OFrozenList fl], 0%nat)
     ∧ content fl = [Some (VLong 7); Some (VStr "a")]
     ∧ frozen_list_item [OFrozenList fl] 0 1 = Done (VStr "a")
     ∧ frozen_list_item [OFrozenList fl] 0 2 = Raised (IndexError "index out of range"))
  ∧ frozen_list_tp_new Samples.interp [] [VSeq []] []
    = Done ([OFrozenList init_frozen_list], 0%nat)
  ∧ frozen_list_tp_new Samples.interp [] [VLong 3] []
    = Raised (TypeError "'int' object is not iterable").
Proof.
  destruct (frozen_list_holds_its_items Samples.interp [] []
              (VSeq [VLong 7; VStr "a"]) (Some 2%nat) eq_refl) as [_ A].
  destruct (A ltac:(discriminate)) as [_ A'].
  destruct (A' [] [VLong 7; VStr "a"] eq_refl) as (fl & Hnew & Hc & _ & _ & Hitem).
  destruct (frozen_list_holds_its_items Samples.interp [] [] (VSeq []) (Some 0%nat) eq_refl)
    as [B _].
  destruct (frozen_list_holds_its_items Samples.interp [] [] (VLong 3) None eq_refl)
    as [_ C].
  destruct (C ltac:(discriminate)) as [C' _].
  split; [|split].
  - exists fl. split; [exact Hnew|]. split; [exact Hc|].
    split; [exact (Hitem 1)|exact (Hitem 2)].
  - exact (B eq_refl).
  - exact (C' _ eq_refl).
Defined.

(** *** The length hint of an iterator *)

(** X11: the length hint of an iterator is exact: it is the number of items
    that the iterator still yields, and 0 once it is exhausted. *)
Theorem length_hint_counts_what_is_left
    (h : heap) (a it : addr) (fl : frozen_list) (vs : list val) (i fuel : nat) :
  frozen_list_at h a = Some fl →
  content fl = Some <$> vs →
  h !! it = Some (cursor a (length vs) i) →
  (i ≤ length vs)%nat →
  (length vs - i < fuel)%nat →
  ∃ h' out,
    drain fuel h it = Some (h', out)
    ∧ out = drop i vs
    ∧ frozen_list_itr_length_hint h it = Some (Z.of_nat (length out))
    ∧ frozen_list_itr_length_hint h' it = Some 0.
Proof.
  intros Ha Hc Hit Hi Hfuel.
  assert (Hsz : size fl = length vs) by (unfold size; by rewrite Hc, length_fmap).
  exists (<[it := cursor a (length vs) (length vs)]> h), (drop i vs).
  split; [|split; [done|split]].
  - apply (FrozenListProofs.drain_from vs a it fl Hc (length vs - i) i fuel h);
      [done|done|lia|done].
  - unfold frozen_list_itr_length_hint. rewrite Hit. unfold cursor. simpl.
    rewrite length_drop.
    destruct (i =? length vs)%nat eqn:Heq.
    + apply Nat.eqb_eq in Heq. f_equal. lia.
    + rewrite Ha. simpl. rewrite Hsz.
      rewrite (proj2 (Nat.leb_le _ _) Hi). f_equal. lia.
  - unfold frozen_list_itr_length_hint.
    rewrite list_lookup_insert_eq by (by eapply lookup_lt_Some).
    unfold cursor. simpl. by rewrite Nat.eqb_refl.
Qed.

Lemma length_hint_counts_what_is_left_witness :
  ∃ h' out,
    drain 5 [OFrozenList (FrozenList 5 [Some (VLong 1); Some (VLong 2); Some (VLong 3)]);
             cursor 0 3 1] 1
    = Some (h', out)
    ∧ out = drop 1 [VLong 1; VLong 2; VLong 3]
    ∧ frozen_list_itr_length_hint
        [OFrozenList (FrozenList 5 [Some (VLong 1); Some (VLong 2); Some (VLong 3)]);
         cursor 0 3 1] 1
      = Some (Z.of_nat (length out))
    ∧ frozen_list_itr_length_hint h' 1 = Some 0.
Proof.
  apply (length_hint_counts_what_is_left
           [OFrozenList (FrozenList 5 [Some (VLong 1); Some (VLong 2); Some (VLong 3)]);
            cursor 0 3 1]
           0 1 (FrozenList 5 [Some (VLong 1); Some (VLong 2); Some (VLong 3)])
           [VLong 1; VLong 2; VLong 3] 1 5);
    (reflexivity || (simpl; lia)).
Defined.

(** *** Node constructors *)

Lemma grows_refl fs : grows fs fs.
Proof. by split. Qed.

Lemma grows_trans fs1 fs2 fs3 : grows fs1 fs2 → grows fs2 fs3 → grows fs1 fs3.
Proof. intros [H1 H2] [H3 H4]. split; [congruence|]. intros i H. by apply H4, H2. Qed.

Lemma grows_insert fs i v : grows fs (<[i := Some v]> fs).
Proof.
  split; [by rewrite length_insert|]. intros j [w Hj].
  destruct (decide (i = j)) as [->|Hne].
  - exists v. apply list_lookup_insert_eq. by eapply lookup_lt_Some.
  - exists w. by rewrite list_lookup_insert_ne.
Qed.

Lemma insert_set (fs : list ptr) i v :
  (i < length fs)%nat → ∃ w, <[i := Some v]> fs !! i = Some (Some w).
Proof. intros Hi. exists v. by apply list_lookup_insert_eq. Qed.

Lemma kept_refl fs : kept fs fs.
Proof. by split. Qed.

Lemma kept_trans fs1 fs2 fs3 : kept fs1 fs2 → kept fs2 fs3 → kept fs1 fs3.
Proof. intros [H1 H2] [H3 H4]. split; [congruence|]. intros i w H. by apply H4, H2. Qed.

(** A value stored in a field that was NULL. *)
Lemma kept_insert (fs : list ptr) i v : fs !! i = Some None → kept fs (<[i := Some v]> fs).
Proof.
  intros Hnone. split; [by rewrite length_insert|]. intros j w Hj.
  rewrite list_lookup_insert_ne; [done|]. intros ->. congruence.
Qed.

Lemma kept_grows fs fs' : kept fs fs' → grows fs fs'.
Proof. intros [Hl Hk]. split; [done|]. intros i [v Hv]. exists v. by apply Hk. Qed.

Lemma lists_kept_refl h : lists_kept h h.
Proof. by intros a fl. Qed.

Lemma lists_kept_trans h1 h2 h3 : lists_kept h1 h2 → lists_kept h2 h3 → lists_kept h1 h3.
Proof. intros H12 H23 a fl H. by apply H23, H12. Qed.

Lemma lists_kept_app h ext : lists_kept h (h ++ ext)%list.
Proof.
  intros a fl. unfold frozen_list_at. destruct (h !! a) as [o|] eqn:Ho; [|done].
  by rewrite (lookup_app_l_Some _ _ _ _ Ho).
Qed.

Lemma instance_kept h h' v :
  lists_kept h h' → is_frozen_list_instance h v = true → is_frozen_list_instance h' v = true.
Proof.
  intros Hk. destruct v; try done. simpl. intros [fl Hfl]%bool_decide_eq_true.
  apply bool_decide_eq_true. exists fl. by apply Hk.
Qed.

Lemma new_attributes_end_sets t refs :
  ∀ fs fs',
    new_attributes_end t fs refs = Done fs' →
    kept fs fs'
    ∧ Forall (λ a, ∃ v, fs' !! attr_field a = Some (Some v)) refs
    ∧ (∀ a, a ∈ refs → fs !! attr_field a = Some None →
            fs' !! attr_field a = Some (Some VNone)).
Proof.
  induction refs as [|a refs IH]; intros fs fs'; simpl.
  - intros [= <-]. split; [apply kept_refl|]. split; [constructor|].
    intros a Ha. by apply elem_of_nil in Ha.
  - destruct (fs !! attr_field a) as [f|] eqn:Hf; [|done].
    cbn [of_option mbind outcome_bind obind].
    case_bool_decide as Hnone.
    + subst f. destruct (attr_optional a); [|done]. intros Hrest.
      destruct (IH _ _ Hrest) as (Hk & Hall & Hdef).
      assert (Hhere : fs' !! attr_field a = Some (Some VNone)).
      { apply Hk, list_lookup_insert_eq. by eapply lookup_lt_Some. }
      split; [eapply kept_trans; [by apply kept_insert|done]|].
      split; [constructor; [by eexists|done]|].
      intros b [->|Hb]%elem_of_cons Hbn; [done|].
      destruct (decide (attr_field b = attr_field a)) as [Heq|Hne];
        [by rewrite Heq|].
      apply Hdef; [done|]. by rewrite list_lookup_insert_ne.
    + destruct f as [v|]; [|done]. intros Hrest.
      destruct (IH _ _ Hrest) as (Hk & Hall & Hdef). split; [done|].
      split; [constructor; [|done]; exists v; by apply Hk|].
      intros b [->|Hb]%elem_of_cons Hbn; [congruence|by apply Hdef].
Qed.

Lemma new_children_end_sets t refs :
  ∀ h fs h' fs',
    new_children_end t h fs refs = Done (fs', h') →
    kept fs fs'
    ∧ (∃ ext, h' = (h ++ ext)%list)
    ∧ Forall (λ c, ∃ v, fs' !! child_field c = Some (Some v)) refs
    ∧ (NoDup (child_field <$> refs) →
       ∀ c, c ∈ refs → fs !! child_field c = Some None →
         if child_is_list c
         then ∃ r, fs' !! child_field c = Some (Some (VRef r))
                   ∧ h' !! r = Some (OFrozenList init_frozen_list)
         else fs' !! child_field c = Some (Some VNone)).
Proof.
  induction refs as [|c refs IH]; intros h fs h' fs'; simpl.
  - intros [= <- <-]. split; [apply kept_refl|].
    split; [exists []; by rewrite app_nil_r|]. split; [constructor|].
    intros _ c Hc. by apply elem_of_nil in Hc.
  - destruct (fs !! child_field c) as [f|] eqn:Hf; [|done].
    cbn [of_option mbind outcome_bind obind].
    case_bool_decide as Hnone.
    + subst f.
      assert (Hlt : (child_field c < length fs)%nat) by (by eapply lookup_lt_Some).
      destruct (child_is_list c) eqn:Hlist.
      * intros Hrest. destruct (IH _ _ _ _ Hrest) as (Hk & [ext ->] & Hall & Hdef).
        assert (Hhere : fs' !! child_field c = Some (Some (VRef (length h)))).
        { by apply Hk, list_lookup_insert_eq. }
        split; [eapply kept_trans; [by apply kept_insert|done]|].
        split; [exists (OFrozenList init_frozen_list :: ext); by rewrite <- app_assoc|].
        split; [constructor; [by eexists|done]|].
        intros [Hnotin Hnd]%NoDup_cons b [->|Hb]%elem_of_cons Hbn.
        -- rewrite Hlist. exists (length h). split; [done|].
           rewrite <- app_assoc. rewrite lookup_app_r by lia. by rewrite Nat.sub_diag.
        -- apply (Hdef Hnd b Hb). rewrite list_lookup_insert_ne; [done|].
           intros Heq. apply Hnotin. rewrite Heq. by apply list_elem_of_fmap_2.
      * destruct (child_min_items c =? 0)%nat; [|done].
        intros Hrest. destruct (IH _ _ _ _ Hrest) as (Hk & Hext & Hall & Hdef).
        assert (Hhere : fs' !! child_field c = Some (Some VNone)).
        { by apply Hk, list_lookup_insert_eq. }
        split; [eapply kept_trans; [by apply kept_insert|done]|].
        split; [done|]. split; [constructor; [by eexists|done]|].
        intros [Hnotin Hnd]%NoDup_cons b [->|Hb]%elem_of_cons Hbn.
        -- by rewrite Hlist.
        -- apply (Hdef Hnd b Hb). rewrite list_lookup_insert_ne; [done|].
           intros Heq. apply Hnotin. rewrite Heq. by apply list_elem_of_fmap_2.
    + destruct f as [v|]; [|done]. intros Hrest.
      destruct (IH _ _ _ _ Hrest) as (Hk & Hext & Hall & Hdef). split; [done|].
      split; [done|]. split; [constructor; [|done]; exists v; by apply Hk|].
      intros [Hnotin Hnd]%NoDup_cons b [->|Hb]%elem_of_cons Hbn;
        [congruence|by apply Hdef].
Qed.

(** The positional arguments land in the first fields. *)
Lemma assign_down_spec (args : list val) (start_i : nat) (k : nat) :
  ∀ fs fs',
    assign_down k fs args start_i = Some fs' →
    length fs' = length fs
    ∧ (∀ i, (i < k)%nat →
         ∃ v, args !! (i + start_i)%nat = Some v ∧ fs' !! i = Some (Some v))
    ∧ (∀ i, (k ≤ i)%nat → fs' !! i = fs !! i).
Proof.
  induction k as [|k IH]; intros fs fs'; simpl.
  - intros [= <-]. split; [done|]. split; [intros i Hi; lia|done].
  - destruct (args !! (k + start_i)%nat) as [a|] eqn:Ha; [|done]. simpl.
    unfold Py.store. destruct (k <? length fs)%nat eqn:Hk; [|done]. simpl.
    apply Nat.ltb_lt in Hk. intros Hrun.
    destruct (IH _ _ Hrun) as (Hlen & Hset & Hrest).
    rewrite length_insert in Hlen. split; [done|]. split.
    + intros i Hi. destruct (decide (i = k)) as [->|Hne]; [|apply Hset; lia].
      exists a. split; [done|]. rewrite Hrest by lia. by apply list_lookup_insert_eq.
    + intros i Hi. rewrite Hrest by lia. apply list_lookup_insert_ne. lia.
Qed.

Lemma set_fields_spec (t : type_desc) (args : list val) (start_i : nat) fs1 :
  node_class_new_set_fields t (replicate (t_field_count t) None) args start_i = Some fs1 →
  length fs1 = t_field_count t
  ∧ ∀ i, (i < t_field_count t)%nat →
      ((i + start_i < length args)%nat →
       ∃ v, args !! (i + start_i)%nat = Some v ∧ fs1 !! i = Some (Some v))
      ∧ (¬ (i + start_i < length args)%nat → fs1 !! i = Some None).
Proof.
  unfold node_class_new_set_fields.
  destruct (0 <? length args - start_i)%nat eqn:Hc.
  - apply Nat.ltb_lt in Hc. intros Hrun.
    destruct (assign_down_spec _ _ _ _ _ Hrun) as (Hlen & Hset & Hrest).
    rewrite length_replicate in Hlen. split; [done|]. intros i Hi. split.
    + intros Harg. apply Hset.
      destruct (length args - start_i <? t_field_count t)%nat; lia.
    + intros Harg. rewrite Hrest; [by apply lookup_replicate_2|].
      destruct (length args - start_i <? t_field_count t)%nat eqn:Hlt;
        [lia|apply Nat.ltb_ge in Hlt; lia].
  - apply Nat.ltb_ge in Hc. intros [= <-]. split; [apply length_replicate|].
    intros i Hi. split; [lia|]. intros _. by apply lookup_replicate_2.
Qed.

Section Keywords.

Variable py : interpreter.
Variable S : schema.
Variable t : type_desc.

Hypothesis Hpy : keeps_lists py.

Lemma frozen_list_fill_lists_kept h fl v h1 fl' :
  frozen_list_fill py h fl v = Done (h1, fl') → lists_kept h h1.
Proof.
  unfold frozen_list_fill. destruct (Hpy h v) as [Hsize _].
  destruct (PyObject_Size py h v) as [h0 len]. cbn [fst] in Hsize.
  destruct (_ =? 0)%nat; [by intros [= <- <-]|].
  destruct (PyObject_iterate py h0 v) as [[h2 items]| |] eqn:Hit; try done.
  cbn [mbind outcome_bind obind]. intros [= <- <-].
  eapply lists_kept_trans; [done|]. by apply (proj2 (Hpy h0 v) h2 items).
Qed.

(** What one keyword does: it sets the field of its code, which was NULL. *)
Lemma set_kw_field_spec h fs f v r fs' h' :
  node_class_new_set_kw_field py t h fs f v = Done (r, fs', h') →
  (r = 0 ∧ field_target t f = None ∧ fs' = fs ∧ h' = h)
  ∨ (∃ i l w,
       field_target t f = Some (i, l)
       ∧ fs !! i = Some None
       ∧ fs' = <[i := Some w]> fs
       ∧ lists_kept h h'
       ∧ if (l : bool)
         then is_frozen_list_instance h' w = true
              ∧ (is_frozen_list_instance h v = true → w = v)
         else w = v).
Proof.
  assert (Hplain : ∀ i name,
            node_set_py_field h fs i v name = Done (r, fs', h') →
            fs !! i = Some None ∧ fs' = <[i := Some v]> fs ∧ h' = h).
  { intros i name. unfold node_set_py_field.
    destruct (fs !! i) as [[w|]|]; try done. cbn [of_option mbind outcome_bind obind].
    rewrite bool_decide_false by (by intros []). by intros [= <- <- <-]. }
  unfold node_class_new_set_kw_field, field_target.
  destruct (find _ (t_attributes t)) as [a|].
  { intros (Hnone & -> & ->)%Hplain. right. exists (attr_field a), false, v.
    split_and!; try done. apply lists_kept_refl. }
  destruct (find _ (t_children t)) as [c|]; [|intros [= <- <- <-]; by left].
  cbn [mbind option_bind]. destruct (child_is_list c).
  - unfold node_set_py_field_frozen_list.
    destruct (fs !! child_field c) as [[w|]|] eqn:Hf; try done.
    cbn [of_option mbind outcome_bind obind].
    rewrite bool_decide_false by (by intros []).
    destruct (is_frozen_list_instance h v) eqn:Hinst.
    + intros [= <- <- <-]. right. exists (child_field c), true, v.
      split_and!; try done. apply lists_kept_refl.
    + destruct (frozen_list_fill py h init_frozen_list v) as [[h1 fl]| |] eqn:Hfill;
        try done.
      cbn [mbind outcome_bind obind]. intros [= <- <- <-]. right.
      exists (child_field c), true, (VRef (length h1)).
      split_and!; try done.
      * eapply lists_kept_trans; [by eapply frozen_list_fill_lists_kept|].
        apply lists_kept_app.
      * apply bool_decide_eq_true. exists fl. unfold frozen_list_at.
        rewrite lookup_app_r by lia. by rewrite Nat.sub_diag.
  - intros (Hnone & -> & ->)%Hplain. right. exists (child_field c), false, v.
    split_and!; try done. apply lists_kept_refl.
Qed.

(** What the keywords do, one after the other. *)
Lemma new_set_kw_fields_spec kwds :
  ∀ h fs fs' h',
    new_set_kw_fields py S t h fs kwds = Done (fs', h') →
    kept fs fs'
    ∧ lists_kept h h'
    ∧ (∀ i, (∀ key v l, (key, v) ∈ kwds → kw_target S t key ≠ Some (i, l)) →
            fs' !! i = fs !! i)
    ∧ (∀ key v, (key, v) ∈ kwds →
         ∃ i l w,
           kw_target S t key = Some (i, l)
           ∧ fs' !! i = Some (Some w)
           ∧ if (l : bool)
             then is_frozen_list_instance h' w = true
                  ∧ (is_frozen_list_instance h v = true → w = v)
             else w = v).
Proof.
  induction kwds as [|[key v] kwds IH]; intros h fs fs' h'; simpl.
  - intros [= <- <-]. split; [apply kept_refl|]. split; [apply lists_kept_refl|].
    split; [done|]. intros key v Hin. by apply elem_of_nil in Hin.
  - destruct (field_lookup S key) as [f|] eqn:Hkey; [|done].
    cbn [of_option mbind outcome_bind obind].
    destruct (node_class_new_set_kw_field py t h fs f v) as [[[r fs1] h1]| |] eqn:Hset;
      try done.
    cbn [mbind outcome_bind obind].
    destruct (set_kw_field_spec _ _ _ _ _ _ _ Hset)
      as [(-> & _)|(i & l & w & Htarget & Hnone & -> & Hh & Hw)]; [done|].
    destruct (r =? 0); [done|]. intros Hrest.
    destruct (IH _ _ _ _ Hrest) as (Hk & Hh' & Hother & Hkw).
    assert (Hlt : (i < length fs)%nat) by (by eapply lookup_lt_Some).
    assert (Hhere : kw_target S t key = Some (i, l))
      by (unfold kw_target; by rewrite Hkey).
    split; [eapply kept_trans; [by apply kept_insert|done]|].
    split; [by eapply lists_kept_trans|]. split.
    + intros j Hj. rewrite Hother.
      * apply list_lookup_insert_ne. intros ->.
        by apply (Hj key v l); [apply list_elem_of_here|].
      * intros key' v' l' Hin. apply (Hj key' v' l'). by apply list_elem_of_further.
    + intros key' v' [[= -> ->]|Hin]%elem_of_cons.
      * exists i, l, w. split; [done|].
        split; [by apply Hk, list_lookup_insert_eq|].
        destruct l; [|done]. destruct Hw as [Hinst Hsame].
        split; [by eapply instance_kept|done].
      * destruct (Hkw key' v' Hin) as (i' & l' & w' & Ht' & Hw' & Hrel).
        exists i', l', w'. split; [done|]. split; [done|].
        destruct l'; [|done]. destruct Hrel as [Hinst Hsame].
        split; [done|]. intros Hv. apply Hsame. by eapply instance_kept.
Qed.

End Keywords.

Lemma node_class_new_fields_end_spec t h fs h' fs' :
  node_class_new_fields_end t h fs = Done (fs', h') →
  kept fs fs'
  ∧ (∃ ext, h' = (h ++ ext)%list)
  ∧ Forall (λ a, ∃ v, fs' !! attr_field a = Some (Some v)) (t_attributes t)
  ∧ Forall (λ c, ∃ v, fs' !! child_field c = Some (Some v)) (t_children t)
  ∧ (fields_distinct t →
     (∀ a, a ∈ t_attributes t → fs !! attr_field a = Some None →
           fs' !! attr_field a = Some (Some VNone))
     ∧ (∀ c, c ∈ t_children t → fs !! child_field c = Some None →
          if child_is_list c
          then ∃ r, fs' !! child_field c = Some (Some (VRef r))
                    ∧ h' !! r = Some (OFrozenList init_frozen_list)
          else fs' !! child_field c = Some (Some VNone))).
Proof.
  unfold node_class_new_fields_end.
  destruct (new_attributes_end t fs (t_attributes t)) as [fs1| |] eqn:Ha; try done.
  cbn [mbind outcome_bind obind]. intros Hc.
  destruct (new_attributes_end_sets _ _ _ _ Ha) as (Hk1 & Hall1 & Hdef1).
  destruct (new_children_end_sets _ _ _ _ _ _ Hc) as (Hk2 & Hext & Hall2 & Hdef2).
  split; [by eapply kept_trans|]. split; [done|].
  split; [eapply Forall_impl; [apply Hall1|]; intros a [v Hv]; exists v; by apply Hk2|].
  split; [done|]. intros Hnd. unfold fields_distinct in Hnd.
  apply NoDup_app in Hnd as (Hnda & Hdisj & Hndc). split.
  - intros a Hin Hnone. by apply Hk2, Hdef1.
  - intros c Hin Hnone. apply (Hdef2 Hndc c Hin).
    assert (Hsame : ∀ i, (∀ a, a ∈ t_attributes t → attr_field a ≠ i) →
              fs1 !! i = fs !! i).
    { clear -Ha. revert fs fs1 Ha.
      induction (t_attributes t) as [|a refs IH]; intros fs fs1; simpl.
      - by intros [= <-].
      - intros Hrun i Hi.
        destruct (fs !! attr_field a) as [f|] eqn:Hf; [|done].
        cbn [of_option mbind outcome_bind obind] in Hrun.
        assert (Hne : attr_field a ≠ i) by (apply Hi; apply list_elem_of_here).
        assert (Hrest : ∀ b, b ∈ refs → attr_field b ≠ i)
          by (intros b Hb; apply Hi; by apply list_elem_of_further).
        case_bool_decide.
        + destruct (attr_optional a); [|done].
          rewrite (IH _ _ Hrun i Hrest). by apply list_lookup_insert_ne.
        + by apply (IH _ _ Hrun i Hrest). }
    rewrite Hsame; [done|]. intros a Ha' Heq.
    apply (Hdisj (child_field c)); [|by apply list_elem_of_fmap_2].
    rewrite <- Heq. by apply list_elem_of_fmap_2.
Qed.

Lemma same_field_same_child (refs : list child_ref) (c c' : child_ref) :
  NoDup (child_field <$> refs) → c ∈ refs → c' ∈ refs →
  child_field c = child_field c' → c = c'.
Proof.
  induction refs as [|x refs IH]; [by intros _ Hc%elem_of_nil|].
  simpl. intros [Hnotin Hnd]%NoDup_cons [->|Hc]%elem_of_cons [->|Hc']%elem_of_cons Heq.
  - done.
  - destruct Hnotin. rewrite Heq. by apply list_elem_of_fmap_2.
  - destruct Hnotin. rewrite <- Heq. by apply list_elem_of_fmap_2.
  - by apply IH.
Qed.

(** Whether a field is the field of a repeated child can be read off any
    attribute or child that has the field. *)
Lemma is_list_field_spec (t : type_desc) :
  fields_distinct t →
  (∀ a, a ∈ t_attributes t → is_list_field t (attr_field a) = false)
  ∧ (∀ c, c ∈ t_children t → is_list_field t (child_field c) = child_is_list c).
Proof.
  intros (Hnda & Hdisj & Hndc)%NoDup_app. unfold is_list_field. split.
  - intros a Ha. apply not_true_is_false. intros (c & Hc & Hb)%existsb_exists.
    apply andb_true_iff in Hb as [_ Heq%Nat.eqb_eq]. apply list_elem_of_In in Hc.
    apply (Hdisj (attr_field a)); [by apply list_elem_of_fmap_2|].
    rewrite <- Heq. by apply list_elem_of_fmap_2.
  - intros c Hc. destruct (child_is_list c) eqn:Hlist.
    + apply existsb_exists. exists c. split; [by apply list_elem_of_In|].
      by rewrite Hlist, Nat.eqb_refl.
    + apply not_true_is_false. intros (c' & Hc' & Hb)%existsb_exists.
      apply andb_true_iff in Hb as [Hl Heq%Nat.eqb_eq]. apply list_elem_of_In in Hc'.
      rewrite (same_field_same_child _ c' c Hndc Hc' Hc Heq) in Hl. congruence.
Qed.

(** X12: the fields of a node that a constructor returns.  There are
    [FIELD_COUNT] of them and none is NULL.  A positional argument is
    stored as it is in the field of its position.  The value of a keyword
    is stored as it is in the field of the keyword, or, in the field of a
    repeated child, as a [FrozenList]: the value itself when it is one.  A
    field that is given no value is [None], and a new empty [FrozenList]
    when it is the field of a repeated child. *)
Theorem constructed_node_has_every_field
    (py : interpreter) (S : schema) (t : type_desc) (h : heap) (args : list val)
    (kwds : list (list N * val)) (h' : heap) (a : addr) :
  keeps_lists py →
  fields_covered t = true →
  fields_distinct t →
  node_class_tp_new py S t h args kwds = Done (h', a) →
  ∃ n fields,
    h' !! a = Some n
    ∧ obj_fields n = Some fields
    ∧ length fields = t_field_count t
    ∧ Forall (λ f : ptr, f ≠ None) fields
    ∧ (∀ (i : nat) v,
         (i < t_field_count t)%nat →
         args !! (i + first_field_arg t)%nat = Some v →
         fields !! i = Some (Some v))
    ∧ (∀ key v,
         (key, v) ∈ kwds →
         ∃ i l w,
           kw_target S t key = Some (i, l)
           ∧ fields !! i = Some (Some w)
           ∧ if (l : bool)
             then is_frozen_list_instance h' w = true
                  ∧ (is_frozen_list_instance h v = true → w = v)
             else w = v)
    ∧ (∀ i : nat,
         (i < t_field_count t)%nat →
         ¬ given S t args kwds i →
         if is_list_field t i
         then ∃ r, fields !! i = Some (Some (VRef r))
                   ∧ h' !! r = Some (OFrozenList init_frozen_list)
         else fields !! i = Some (Some VNone)).
Proof.
  intros Hpy Hcov Hnd. unfold node_class_tp_new.
  destruct (_ <? _) eqn:Hmax; [done|]. apply Z.ltb_ge in Hmax.
  destruct (t_list_e t && _) eqn:Hpos; [done|].
  destruct (if t_list_e t then _ else Done (h, init_frozen_list))
    as [[h0 base]| |] eqn:Hbase; try done.
  cbn [mbind outcome_bind obind].
  assert (Hh0 : lists_kept h h0).
  { destruct (t_list_e t); [|injection Hbase as <- <-; apply lists_kept_refl].
    destruct (args !! 0%nat) as [a0|]; [|done].
    cbn [of_option mbind outcome_bind obind] in Hbase.
    by eapply frozen_list_fill_lists_kept. }
  destruct (t_field_count t =? 0)%nat eqn:Hzero.
  - cbn [mbind outcome_bind obind]. intros [= <- <-]. apply Nat.eqb_eq in Hzero.
    assert (Hkw : kwds = []).
    { destruct kwds; [done|]. simpl in Hmax. rewrite Hzero in Hmax.
      destruct (t_list_e t); simpl in *; [apply Z.ltb_ge in Hpos|]; lia. }
    exists (if t_list_e t
            then ONodeList (CLASS_ (t_name t)) base (replicate (t_field_count t) None)
            else ONodeTagonly (CLASS_ (t_name t)) (replicate (t_field_count t) None)),
      (replicate (t_field_count t) None).
    split; [by rewrite lookup_app_r, Nat.sub_diag by lia|].
    split; [by destruct (t_list_e t)|].
    split; [by rewrite length_replicate|]. rewrite Hzero.
    split; [constructor|]. split; [intros i v Hi; lia|].
    split; [|intros i Hi; lia].
    intros key v Hin. rewrite Hkw in Hin. by apply elem_of_nil in Hin.
  - destruct (node_class_new_set_fields t _ args _) as [fs1|] eqn:H1; [|done].
    cbn [of_option mbind outcome_bind obind].
    destruct (new_set_kw_fields py S t h0 fs1 kwds) as [[fs2 h2]| |] eqn:H2; try done.
    cbn [mbind outcome_bind obind].
    destruct (node_class_new_fields_end t h2 fs2) as [[fs3 h3]| |] eqn:H3; try done.
    cbn [mbind outcome_bind obind]. intros [= <- <-].
    destruct (set_fields_spec _ _ _ _ H1) as (Hlen1 & Hpositional).
    destruct (new_set_kw_fields_spec py S t Hpy _ _ _ _ _ H2)
      as (Hk2 & Hh2 & Hother & Hkw).
    destruct (node_class_new_fields_end_spec _ _ _ _ _ H3)
      as (Hk3 & [ext ->] & Hattrs & Hchildren & Hdefault).
    destruct (Hdefault Hnd) as [Hdefa Hdefc].
    destruct (is_list_field_spec t Hnd) as [Hkinda Hkindc].
    assert (Hlen : length fs3 = t_field_count t).
    { destruct Hk3 as [-> _]. destruct Hk2 as [-> _]. done. }
    assert (Hcovered : ∀ i, (i < t_field_count t)%nat →
              (∃ x, x ∈ t_attributes t ∧ attr_field x = i)
              ∨ (∃ x, x ∈ t_children t ∧ child_field x = i)).
    { intros i Hi. unfold fields_covered in Hcov. rewrite forallb_forall in Hcov.
      specialize (Hcov i). rewrite in_seq in Hcov.
      destruct (orb_prop _ _ (Hcov ltac:(lia))) as [Hex|Hex];
        apply existsb_exists in Hex as (x & Hin & Heq); apply Nat.eqb_eq in Heq;
        apply list_elem_of_In in Hin; [left|right]; by exists x. }
    exists (if t_list_e t
            then ONodeList (CLASS_ (t_name t)) base fs3
            else ONodeTagonly (CLASS_ (t_name t)) fs3), fs3.
    split; [by rewrite lookup_app_r, Nat.sub_diag by lia|].
    split; [by destruct (t_list_e t)|]. split; [done|]. split; [|split; [|split]].
    + apply Forall_lookup. intros i f Hi Hnone. subst f.
      assert (i < t_field_count t)%nat as Hlt
        by (rewrite <- Hlen; by eapply lookup_lt_Some).
      rewrite Forall_forall in Hattrs. rewrite Forall_forall in Hchildren.
      destruct (Hcovered i Hlt) as [(x & Hin & <-)|(x & Hin & <-)];
        [destruct (Hattrs x Hin) as [v Hv]|destruct (Hchildren x Hin) as [v Hv]];
        congruence.
    + intros i v Hi Harg. unfold first_field_arg in Harg.
      destruct (Hpositional i Hi) as [Hset _].
      destruct Hset as (v' & Hv' & Hfs1); [by eapply lookup_lt_Some|].
      rewrite Harg in Hv'. injection Hv' as <-.
      by apply Hk3, Hk2.
    + intros key v Hin. destruct (Hkw key v Hin) as (i & l & w & Ht & Hw & Hrel).
      exists i, l, w. split; [done|]. split; [by apply Hk3|].
      destruct l; [|done]. destruct Hrel as [Hinst Hsame]. split.
      * eapply instance_kept; [|exact Hinst].
        rewrite <- app_assoc. apply lists_kept_app.
      * intros Hv. apply Hsame. by eapply instance_kept.
    + intros i Hi Hnot.
      assert (Hnone : fs2 !! i = Some None).
      { rewrite Hother.
        - apply (Hpositional i Hi). intros Harg. apply Hnot. by left.
        - intros key v l Hin Ht. apply Hnot. right. by exists key, v, l. }
      destruct (Hcovered i Hi) as [(x & Hin & <-)|(x & Hin & <-)].
      * rewrite (Hkinda x Hin). by apply Hdefa.
      * rewrite (Hkindc x Hin). pose proof (Hdefc x Hin Hnone) as Hdef.
        destruct (child_is_list x); [|done]. destruct Hdef as (r & Hr & Hat).
        exists r. split; [done|]. by apply lookup_app_l_Some.
Qed.

Lemma interp_keeps_lists : keeps_lists Samples.interp.
Proof.
  intros h v. split; [apply lists_kept_refl|]. intros h1 items.
  destruct v; try done. intros [= <- _]. apply lists_kept_refl.
Qed.

Lemma constructed_node_has_every_field_witness :
  ∃ n,
    [ONodeTagonly (CLASS_ "point") [Some (VLong 3); Some (VLong 4); Some VNone]] !! 0%nat
    = Some n
    ∧ obj_fields n = Some [Some (VLong 3); Some (VLong 4); Some VNone].
Proof.
  destruct (constructed_node_has_every_field Samples.interp Example.schema Example.point
              [] [VLong 3] [(code_points "y", VLong 4)]
              [ONodeTagonly (CLASS_ "point") [Some (VLong 3); Some (VLong 4); Some VNone]]
              0%nat interp_keeps_lists eq_refl)
    as (n & fields & Hn & Hfields & _); [|reflexivity|].
  - unfold fields_distinct. vm_compute.
    repeat (apply NoDup_cons; split; [Run.not_in_list|]). by apply NoDup_nil.
  - exists n. split; [done|]. injection Hn as <-. reflexivity.
Defined.

(** X17: an attribute field that is passed by position and again by the
    first keyword is refused: the constructor of a node class that is not a
    list raises the [TypeError] "received more than one value for" the
    field, whatever the other keywords are. *)
Theorem field_passed_twice_is_refused
    (py : interpreter) (S : schema) (t : type_desc) (h : heap) (args : list val)
    (key : list N) (v : val) (kwds : list (list N * val)) (f : Z) (a : attribute_ref) :
  t_list_e t = false →
  (length args + Datatypes.S (length kwds) ≤ t_field_count t)%nat →
  field_lookup S key = Some f →
  find (λ a, attr_py_field a =? f) (t_attributes t) = Some a →
  (attr_field a < length args)%nat →
  node_class_tp_new py S t h args ((key, v) :: kwds) = Raised (DupField (attr_py_name a)).
Proof.
  intros Hlist Hcount Hkey Hfind Hfield. unfold node_class_tp_new. rewrite Hlist.
  cbn [length andb].
  replace (_ <? _) with false by (symmetry; apply Z.ltb_ge; lia).
  cbn [mbind outcome_bind obind].
  replace (t_field_count t =? 0)%nat with false by (symmetry; apply Nat.eqb_neq; lia).
  destruct (node_class_new_set_fields t (replicate (t_field_count t) None) args 0)
    as [fs1|] eqn:H1.
  - destruct (set_fields_spec _ _ _ _ H1) as (_ & Hpositional).
    destruct (Hpositional (attr_field a) ltac:(lia)) as [Hset _].
    destruct Hset as (x & _ & Hx); [lia|].
    cbn [of_option mbind outcome_bind obind new_set_kw_fields]. rewrite Hkey.
    cbn [of_option mbind outcome_bind obind]. unfold node_class_new_set_kw_field.
    rewrite Hfind. unfold node_set_py_field. rewrite Hx.
    cbn [of_option mbind outcome_bind obind]. by rewrite bool_decide_true.
  - exfalso. revert H1. unfold node_class_new_set_fields. rewrite Nat.sub_0_r.
    replace (0 <? length args)%nat with true by (symmetry; apply Nat.ltb_lt; lia).
    replace (length args <? t_field_count t)%nat with true
      by (symmetry; apply Nat.ltb_lt; lia).
    assert (Hdef : ∀ k fs, (k ≤ length fs)%nat → (k ≤ length args)%nat →
              assign_down k fs args 0 ≠ None).
    { induction k as [|k IH]; intros fs Hk Ha; simpl; [done|].
      destruct (lookup_lt_is_Some_2 args (k + 0)) as [x ->]; [lia|]. simpl.
      unfold Py.store. rewrite (proj2 (Nat.ltb_lt _ _)) by lia. simpl.
      apply IH; [rewrite length_insert; lia|lia]. }
    apply Hdef; [rewrite length_replicate; lia|lia].
Qed.

Lemma field_passed_twice_is_refused_witness :
  node_class_tp_new Samples.interp Example.schema Example.point [] [VLong 3]
    [(code_points "x", VLong 4); (code_points "y", VLong 5)]
  = Raised (DupField "x").
Proof.
  apply (field_passed_twice_is_refused Samples.interp Example.schema Example.point []
           [VLong 3] (code_points "x") (VLong 4) [(code_points "y", VLong 5)] 0
           (AttributeRef "x" 0 "x" 0 0 A_integer false));
    (reflexivity || (simpl; lia)).
Defined.

End ConstructorProofs.

(** ** String elements *)

Module StringProofs.

Import Py Schema Parser Driver Api Spec Run ChunkProofs.

(** Storing what a slot holds changes nothing. *)
Lemma store_slot_same s p v :
  load (heap s) (r_obj s) p = Some v → store_slot s p v = Some s.
Proof.
  assert (Hput : ∀ a o, heap s !! a = Some o → store_obj (heap s) a o = Some (heap s)).
  { intros a o Ho. unfold store_obj, Py.store.
    rewrite (proj2 (Nat.ltb_lt _ _) (lookup_lt_Some _ _ _ Ho)).
    by rewrite list_insert_id. }
  assert (Hs : set_heap (heap s) s = s) by (by destruct s).
  destruct p as [|a i|a i|a i]; simpl.
  - intros [= <-]. by destruct s.
  - destruct (heap s !! a) as [o|] eqn:Ho; [|done]. simpl.
    destruct (obj_fields o) as [fs|] eqn:Hfs; [|done]. simpl. intros Hi.
    unfold Py.store. rewrite (proj2 (Nat.ltb_lt _ _) (lookup_lt_Some _ _ _ Hi)).
    simpl. rewrite list_insert_id by done.
    assert (with_fields o fs = Some o) as -> by (destruct o; simplify_eq/=; done).
    simpl. rewrite (Hput _ _ Ho). simpl. by rewrite Hs.
  - destruct (heap s !! a) as [o|] eqn:Ho; [|done]. simpl.
    destruct (as_frozen_list o) as [fl|] eqn:Hfl; [|done]. simpl. intros Hi.
    unfold Py.store. rewrite (proj2 (Nat.ltb_lt _ _) (lookup_lt_Some _ _ _ Hi)).
    simpl. rewrite list_insert_id by done.
    assert (with_frozen_list o (FrozenList (capacity fl) (content fl)) = Some o) as ->
      by (destruct o; simplify_eq/=; by destruct fl).
    simpl. rewrite (Hput _ _ Ho). simpl. by rewrite Hs.
  - destruct (heap s !! a) as [o|] eqn:Ho; [|done]. simpl.
    destruct o as [|w0 w1| | |]; try done.
    destruct i as [|[|i]]; [| |done]; intros [= <-]; simpl;
      rewrite (Hput _ _ Ho); simpl; by rewrite Hs.
Qed.

Lemma store_slot_set_stack st s p v :
  store_slot (set_stack st s) p v = set_stack st <$> store_slot s p v.
Proof.
  destruct p as [|a i|a i|a i]; simpl; [done|..];
    (destruct (heap s !! a) as [o|]; [|done]); simpl.
  - destruct (obj_fields o) as [fs|]; [|done]. simpl.
    destruct (Py.store fs i v) as [fs1|]; [|done]. simpl.
    destruct (with_fields o fs1) as [o1|]; [|done]. simpl.
    by destruct (store_obj (heap s) a o1).
  - destruct (as_frozen_list o) as [fl|]; [|done]. simpl.
    destruct (Py.store (content fl) i v) as [c1|]; [|done]. simpl.
    destruct (with_frozen_list o _) as [o1|]; [|done]. simpl.
    by destruct (store_obj (heap s) a o1).
  - destruct (match o with OTaggedValue _ _ => _ | _ => _ end) as [o1|]; [|done].
    simpl. by destruct (store_obj (heap s) a o1).
Qed.

Lemma store_slot_defined s p v v' s1 :
  store_slot s p v = Some s1 → ∃ s2, store_slot s p v' = Some s2.
Proof.
  intros Hs. destruct (store_slot s p v') as [s2|] eqn:Hs'; [by exists s2|].
  by rewrite (store_slot_undefined _ _ _ v Hs') in Hs.
Qed.

Lemma string_app_nil (a : string) : a ++ "" = a.
Proof. induction a as [|ch a IH]; simpl; [done|by rewrite IH]. Qed.

Section Strings.

Variable S : schema.
Variable wr : bool.
Variable dest : slot.
Variable st : list parse_callbacks.

Lemma handle_string_text l t s p a s' :
  stack s = string_frame dest :: st → ignore_level s = 0 →
  load (heap s) (r_obj s) dest = Some p → collected p = Some a →
  store_slot s dest (Some (VStr (a ++ t))) = Some s' →
  handle S wr (l, CharacterData t) s = Some (s', []).
Proof.
  intros Hst Hl Hload Hp Hstore. unfold handle. cbn [fst snd]. unfold character_data.
  rewrite (bind_quiet _ _ _ _ _ _ (get_run _ s)).
  rewrite (bind_quiet _ _ _ _ _ _ (top_callbacks_run _ _ _ s Hst)).
  rewrite Hl. change (negb (0 =? 0)) with false. cbv iota. cbn [t_call string_frame].
  assert (Hcall : call_t node_string_text_fn t (handler_context wr l) s
                  = Some (0, s', [])).
  { cbn [call_t]. unfold node_string_text.
    rewrite (bind_quiet _ _ _ _ _ _ (top_callbacks_run _ _ _ s Hst)).
    cbn [value string_frame].
    rewrite (bind_quiet _ _ _ _ _ _ (lift_run _ _ _ _ eq_refl)).
    rewrite (bind_quiet _ _ _ _ _ _ (read_run _ _ _ _ Hload)).
    destruct p as [[]|]; simplify_eq/=;
      by rewrite (bind_quiet _ _ _ _ _ _ (write_run _ _ _ _ _ Hstore)). }
  by rewrite (bind_quiet _ _ _ _ _ _ Hcall).
Qed.

Lemma handle_string_end l name s p a s' :
  stack s = string_frame dest :: st → ignore_level s = 0 →
  load (heap s) (r_obj s) dest = Some p → collected p = Some a →
  store_slot s dest (Some (VStr a)) = Some s' →
  handle S wr (l, EndElement name) s = Some (set_stack st s', []).
Proof.
  intros Hst Hl Hload Hp Hstore. unfold handle. cbn [fst snd]. unfold end_element.
  rewrite (bind_quiet _ _ _ _ _ _ (get_run _ s)).
  rewrite (bind_quiet _ _ _ _ _ _ (top_callbacks_run _ _ _ s Hst)).
  rewrite Hl. change (negb (0 =? 0)) with false. cbv iota. cbn [f_call string_frame].
  assert (Hcall : call_f S node_string_end_fn (handler_context wr l) s
                  = Some (0, s', [])).
  { cbn [call_f]. unfold node_string_end.
    rewrite (bind_quiet _ _ _ _ _ _ (top_callbacks_run _ _ _ s Hst)).
    cbn [value string_frame].
    rewrite (bind_quiet _ _ _ _ _ _ (lift_run _ _ _ _ eq_refl)).
    rewrite (bind_quiet _ _ _ _ _ _ (read_run _ _ _ _ Hload)).
    destruct p as [[]|]; simplify_eq/=.
    - rewrite (store_slot_same _ _ _ Hload) in Hstore. by injection Hstore as <-.
    - by rewrite (bind_quiet _ _ _ _ _ _ (write_run _ _ _ _ _ Hstore)). }
  rewrite (bind_quiet _ _ _ _ _ _ Hcall).
  change (negb (0 =? 0)) with false. cbv iota.
  rewrite (bind_quiet _ _ _ _ _ _ (ret_run _ _ _)).
  unfold pop_callbacks. rewrite (bind_quiet _ _ _ _ _ _ (get_run _ s')).
  destruct (store_slot_frame _ _ _ _ Hstore) as (-> & _). by rewrite Hst.
Qed.

(** The character data of a string element, in however many pieces, and
    its end. *)
Lemma string_run (texts : list (Z * string)) l name :
  ∀ s p a s',
    stack s = string_frame dest :: st → ignore_level s = 0 → stopped s = None →
    load (heap s) (r_obj s) dest = Some p → collected p = Some a →
    store_slot s dest (Some (VStr (a ++ String.concat "" (map snd texts)))) = Some s' →
    deliver S wr (map (λ t, (t.1, CharacterData t.2)) texts ++ [(l, EndElement name)])%list s
    = Some (set_stack st s', []).
Proof.
  induction texts as [|[lt t] texts IH]; intros s p a s' Hst Hl Hstop Hload Hp Hstore.
  - cbn [map app String.concat] in *. rewrite string_app_nil in Hstore.
    cbn [deliver]. rewrite bool_decide_false by (by rewrite Hstop; intros []).
    by rewrite (handle_string_end _ _ _ _ _ _ Hst Hl Hload Hp Hstore).
  - cbn [map app fst snd] in *. rewrite concat_cons in Hstore.
    destruct (store_slot_defined _ _ _ (Some (VStr (a ++ t))) _ Hstore) as [s1 Hs1].
    cbn [deliver]. rewrite bool_decide_false by (by rewrite Hstop; intros []).
    rewrite (handle_string_text _ _ _ _ _ _ Hst Hl Hload Hp Hs1).
    cbn [mbind option_bind].
    destruct (store_slot_frame _ _ _ _ Hs1) as (Hst1 & Hl1 & Hstop1 & _).
    rewrite (IH s1 (Some (VStr (a ++ t))) (a ++ t) s'); [done|congruence..| | |].
    + by apply store_slot_load in Hs1.
    + done.
    + rewrite (store_slot_twice _ _ _ _ _ Hs1). by rewrite string_app_assoc.
Qed.

End Strings.

(** X13: a string element becomes the text between its tags:
    [node_start_string] clears the destination and pushes a frame, every
    piece of character data is appended, and the end of the element leaves
    the concatenation of the pieces, the empty string if there was none, and
    removes the frame. *)
Theorem string_element_is_its_text
    (S : schema) (wr : bool) (dest : slot) (texts : list (Z * string))
    (l0 l : Z) (name : string) (s s1 s2 : parse_state) :
  ignore_level s = 0 → stopped s = None →
  store_slot s dest None = Some s1 →
  store_slot s dest (Some (VStr (String.concat "" (map snd texts)))) = Some s2 →
  node_start_string dest [] (handler_context wr l0) s
  = Some (1, set_stack (string_frame dest :: stack s) s1, [])
  ∧ deliver S wr
      (map (λ t, (t.1, CharacterData t.2)) texts ++ [(l, EndElement name)])%list
      (set_stack (string_frame dest :: stack s) s1)
    = Some (s2, []).
Proof.
  intros Hl Hstop Hs1 Hs2.
  destruct (store_slot_frame _ _ _ _ Hs1) as (Hst1 & Hl1 & Hstop1 & _).
  destruct (store_slot_frame _ _ _ _ Hs2) as (Hst2 & _).
  split.
  - unfold node_start_string. cbn [unexpected_attributes].
    rewrite (bind_quiet _ _ _ _ _ _ (ret_run _ _ _)).
    change (negb (0 =? 0)) with false. cbv iota.
    rewrite (bind_quiet _ _ _ _ _ _ (write_run _ _ _ _ _ Hs1)).
    unfold push_callbacks, modify. rewrite bind_run. cbn. by rewrite Hst1.
  - rewrite (string_run S wr dest (stack s) texts l name _ None "" (set_stack (string_frame dest :: stack s) s2)).
    + destruct s2. unfold set_stack. simpl in *. by rewrite Hst2.
    + done.
    + unfold set_stack. cbn [ignore_level]. congruence.
    + unfold set_stack. cbn [stopped]. congruence.
    + unfold set_stack. cbn [heap r_obj]. by apply store_slot_load in Hs1.
    + done.
    + rewrite store_slot_set_stack, (store_slot_twice _ _ _ _ _ Hs1). cbn [append].
      by rewrite Hs2.
Qed.

Lemma string_element_is_its_text_witness :
  node_start_string (SlotField 0 1) [] (handler_context false 3)
    (Samples.doc_node [] None None)
  = Some (1,
          set_stack (string_frame (SlotField 0 1) :: stack (Samples.doc_node [] None None))
            (Samples.doc_node [] None None),
          [])
  ∧ deliver Example.schema false
      (map (λ t, (t.1, CharacterData t.2)) [(3, "Hello, "); (4, "world")]
       ++ [(4, EndElement "title")])%list
      (set_stack (string_frame (SlotField 0 1) :: stack (Samples.doc_node [] None None))
         (Samples.doc_node [] None None))
    = Some (Samples.doc_node [] (Some (VStr "Hello, world")) None, []).
Proof.
  apply (string_element_is_its_text Example.schema false (SlotField 0 1)
           [(3, "Hello, "); (4, "world")] 3 4 "title"
           (Samples.doc_node [] None None));
    reflexivity.
Defined.

End StringProofs.

(** ** Children and enumerations *)

Module ElementProofs.

Import NameResolver Py Schema Parser Driver Api Spec Run NameResolverProofs LookupProofs.

Lemma top_node_run cb st p n c s :
  stack s = cb :: st → value cb = Some p →
  load (heap s) (r_obj s) p = Some (Some (VRef n)) →
  top_node c s = Some (n, s, []).
Proof.
  intros Hst Hp Hload. unfold top_node.
  rewrite (bind_quiet _ _ _ _ _ _ (top_callbacks_run _ _ _ s Hst)).
  rewrite (bind_quiet _ _ _ _ _ _ (lift_run _ _ _ _ Hp)).
  by rewrite (bind_quiet _ _ _ _ _ _ (read_run _ _ _ _ Hload)).
Qed.

(** Bases without children or content leave the element to the type. *)
Lemma node_class_child_own_case S (t : type_desc) n e attr c s :
  Forall (λ b, has_children_or_content b = false) (t_bases t) →
  node_class_child S t n e attr c s
  = match find (λ ch, child_code ch =? e) (t_children t) with
    | Some ch => child_case S n ch attr c s
    | None =>
        match find_index (λ cr, content_code cr =? e) (t_content t) with
        | Some (i, cr) => content_case S t i cr attr c s
        | None => Some (0, s, [])
        end
    end.
Proof.
  destruct t as [name bases le fc attrs children kind content oa text].
  cbn [node_class_child t_bases t_children t_content]. intros Hbases.
  match goal with
  | |- (?m ≫= _) c s = _ => assert (m c s = Some (0, s, [])) as Hrun
  end.
  { induction bases as [|b bases IH]; [done|].
    inversion Hbases as [|? ? Hb Hbs]; subst. rewrite Hb. by apply IH. }
  rewrite (bind_quiet _ _ _ _ _ _ Hrun). change (negb (0 =? 0)) with false. cbv iota.
  destruct (find _ children); [done|]. by destruct (find_index _ content) as [[i cr]|].
Qed.

(** X14: a child that may occur once and occurs again is refused: the start
    of the second occurrence sets the error "... cannot appear more than
    once in this context" and stops the parser, with nothing else changed.
    The error is the ParseError with that text and the line unless an
    exception was pending ([validation_error]). *)
Theorem repeated_single_child_stops_parse
    (S : schema) (wr : bool) (ti : nat) (t : type_desc) (p : slot) (n : addr)
    (tc : fnptr text_callback) (fc : fnptr finish_callback)
    (st : list parse_callbacks) (ln : Z) (name : string)
    (attrs : list (string * string)) (e : Z) (ch : child_ref) (v : val)
    (s : parse_state) :
  stack s = ParseCallbacks (Some p) (Fn (node_class_child_start_fn ti)) tc fc :: st →
  ignore_level s = 0 →
  types S !! ti = Some t →
  Forall (λ b, has_children_or_content b = false) (t_bases t) →
  load (heap s) (r_obj s) p = Some (Some (VRef n)) →
  element_lookup S name = Some e →
  find (λ ch, child_code ch =? e) (t_children t) = Some ch →
  child_is_list ch = false →
  load (heap s) (r_obj s) (SlotField n (child_field ch)) = Some (Some v) →
  handle S wr (ln, StartElement name attrs) s
  = Some (set_stopped (Some ln)
            (validation_error (handler_context wr ln)
               (quoted (child_name ch) ++ " cannot appear more than once in this context")
               s),
          []).
Proof.
  intros Hst Hl Ht Hbases Hnode Hlook Hfind Hsingle Hfield.
  unfold handle. cbn [fst snd]. unfold start_element.
  rewrite (bind_quiet _ _ _ _ _ _ (get_run _ s)).
  rewrite (bind_quiet _ _ _ _ _ _ (top_callbacks_run _ _ _ s Hst)).
  rewrite Hl. change (negb (0 =? 0)) with false. cbv iota. cbn [cs_call].
  assert (Hcall : call_cs S (node_class_child_start_fn ti) name attrs
                    (handler_context wr ln) s
                  = Some (-1,
                          validation_error (handler_context wr ln)
                            (quoted (child_name ch)
                             ++ " cannot appear more than once in this context") s,
                          [])).
  { cbn [call_cs]. rewrite (bind_quiet _ _ _ _ _ _ (lift_run _ _ _ _ Ht)).
    unfold node_class_child_start.
    rewrite (bind_quiet _ _ _ _ _ _ (top_node_run _ _ _ _ _ s Hst eq_refl Hnode)).
    rewrite (bind_quiet _ _ _ _ _ _ (lift_run _ _ _ _ Hlook)).
    rewrite node_class_child_own_case by done. rewrite Hfind.
    unfold child_case. rewrite Hsingle.
    rewrite (bind_quiet _ _ _ _ _ _ (read_run _ _ _ _ Hfield)).
    rewrite bool_decide_true by done.
    unfold raise_duplicate_element_error.
    by rewrite (bind_quiet _ _ _ _ _ _ (set_parse_error_format_run _ _ _)). }
  by rewrite (bind_quiet _ _ _ _ _ _ Hcall).
Qed.

Lemma repeated_single_child_stops_parse_witness :
  handle Example.schema false (9, StartElement "name" [])
    (set_stack [ParseCallbacks (Some SlotRoot) (Fn (node_class_child_start_fn 1))
                  Null (Fn (node_class_finish_fn 1))]
       (Samples.doc_node [] None (Some (VStr "n"))))
  = Some (set_stopped (Some 9)
            (validation_error (handler_context false 9)
               (quoted "name" ++ " cannot appear more than once in this context")
               (set_stack [ParseCallbacks (Some SlotRoot) (Fn (node_class_child_start_fn 1))
                             Null (Fn (node_class_finish_fn 1))]
                  (Samples.doc_node [] None (Some (VStr "n"))))),
          []).
Proof.
  apply (repeated_single_child_stops_parse Example.schema false 1 Example.doc SlotRoot 0
           Null (Fn (node_class_finish_fn 1)) [] 9 "name" [] 3
           (ChildRef "name" 3 "name" 5 2 false 1 T_string) (VStr "n"));
    (reflexivity || by constructor).
Defined.

(** What a lookup with -1 for the unknown answers. *)
Lemma hash_lookup_result cs hash names key :
  lookup_ok cs hash key = true →
  ∃ r, hash_lookup cs hash names (-1) key = Some r
       ∧ (r = -1 ∨ (0 ≤ r ∧ names !! Z.to_nat r = Some key)).
Proof.
  destruct hash as [h|]; cbn [lookup_ok hash_lookup].
  - intros [[Hs Hg]%andb_true_iff Hkey]%andb_true_iff.
    destruct (hash_loop_defined cs h Hs key Hkey 0 0 0) as (f1 & f2 & -> & Hf1 & Hf2);
      [lia|lia|lia|].
    simpl. destruct (hash_index_defined h Hg f1 f2 Hf1 Hf2) as (i & -> & Hi). simpl.
    destruct (i <? Z.of_nat (length names)) eqn:Hlt; [|by exists (-1); split; [|left]].
    apply Z.ltb_lt in Hlt.
    destruct (index_in_range names i) as (n & -> & Hn); [lia|]. simpl.
    destruct (C.streq key n) eqn:Heq; [|by exists (-1); split; [|left]].
    apply String.eqb_eq in Heq as ->.
    exists i. split; [done|]. right. split; [lia|done].
  - intros _. exists (find_str_in_array key names). split; [done|].
    unfold find_str_in_array.
    destruct (find_str_in_array_from_spec key names 0) as [[? _]|(H1 & H2 & _)];
      [lia|by left|].
    right. by rewrite Z.sub_0_r in *.
Qed.

(** X15: the value of an enumeration attribute is the member whose name in
    the document is the value, or the value is refused with the error that
    names it; nothing else is changed.  The error is the ParseError with
    that text and the line unless an exception was pending
    ([validation_error]). *)
Theorem enum_value_is_the_named_member
    (S : schema) (e : nat) (d : enum_desc) (str : string) (c : context)
    (s : parse_state) :
  enums S !! e = Some d →
  lookup_ok (char_signed S) (enum_hash d) str = true →
  (∃ i, 0 ≤ i
        ∧ enum_value_str d !! Z.to_nat i = Some str
        ∧ parse_enum S e str c s = Some (Some (VEnumValue e i), s, []))
  ∨ parse_enum S e str c s
    = Some (None,
            validation_error c
              (quoted str ++ " is not one of the allowed enumeration values") s,
            []).
Proof.
  intros He Hok. unfold parse_enum.
  rewrite (bind_quiet _ _ _ _ _ _ (lift_run _ _ _ _ He)).
  unfold enum_value_lookup.
  destruct (hash_lookup_result (char_signed S) (enum_hash d) (enum_value_str d) str Hok)
    as (r & Hr & [->|[Hpos Hname]]);
    rewrite (bind_quiet _ _ _ _ _ _ (lift_run _ _ _ _ Hr)).
  - right. change (-1 <? 0) with true. cbv iota.
    unfold raise_invalid_enum_error.
    by rewrite (bind_quiet _ _ _ _ _ _ (set_parse_error_format_run _ _ _)).
  - left. exists r. replace (r <? 0) with false by (symmetry; apply Z.ltb_ge; lia).
    done.
Qed.

Lemma enum_value_is_the_named_member_witness :
  (∃ i, 0 ≤ i
        ∧ enum_value_str (EnumDesc "DoxProtectionKind" None
                            ["public"; "protected"; "private"]) !! Z.to_nat i
          = Some "protected"
        ∧ parse_enum Samples.with_enum 0 "protected" (handler_context false 2)
            Samples.fresh
          = Some (Some (VEnumValue 0 i), Samples.fresh, []))
  ∨ parse_enum Samples.with_enum 0 "protected" (handler_context false 2) Samples.fresh
    = Some (None,
            validation_error (handler_context false 2)
              (quoted "protected" ++ " is not one of the allowed enumeration values")
              Samples.fresh,
            []).
Proof.
  apply (enum_value_is_the_named_member Samples.with_enum 0
           (EnumDesc "DoxProtectionKind" None ["public"; "protected"; "private"])
           "protected" (handler_context false 2) Samples.fresh);
    reflexivity.
Defined.

End ElementProofs.

(** ** Failure and the error indicator *)

Module ErrorProofs.

Import NameResolver Py Schema Parser Driver Api Spec Run.

Lemma bind_split {A B} (m : M A) (k : A → M B) c s b s' w :
  (m ≫= k) c s = Some (b, s', w) →
  ∃ a s1 w1 w2, m c s = Some (a, s1, w1) ∧ k a c s1 = Some (b, s', w2).
Proof.
  rewrite bind_run. destruct (m c s) as [[[a s1] w1]|]; [|done].
  destruct (k a c s1) as [[[b' s2] w2]|] eqn:Hk; [|done].
  intros [= <- <- <-]. by exists a, s1, w1, w2.
Qed.

Lemma raises_kept {A} (bad : A → bool) (m : M A) : raises_on bad m → err_kept m.
Proof.
  intros H c s a s' w Hm. destruct (H _ _ _ _ _ Hm) as [He Hs]. split; [|done].
  intros ?. apply He. by left.
Qed.

Lemma sets_raises {A} (bad : A → bool) (m : M A) : always_sets m → raises_on bad m.
Proof. intros H c s a s' w Hm. destruct (H _ _ _ _ _ Hm) as [He Hs]. by split. Qed.

Lemma sets_kept {A} (m : M A) : always_sets m → err_kept m.
Proof. intros H. by eapply raises_kept, (sets_raises (λ _, false)). Qed.

Lemma err_kept_bind {A B} (m : M A) (k : A → M B) :
  err_kept m → (∀ a, err_kept (k a)) → err_kept (m ≫= k).
Proof.
  intros Hm Hk c s b s' w Hrun.
  destruct (bind_split _ _ _ _ _ _ _ Hrun) as (a & s1 & w1 & w2 & H1 & H2).
  destruct (Hm _ _ _ _ _ H1) as [He1 Hs1]. destruct (Hk _ _ _ _ _ _ H2) as [He2 Hs2].
  split; [auto|congruence].
Qed.

Lemma raises_bind {A B} (bad : B → bool) (m : M A) (k : A → M B) :
  err_kept m → (∀ a, raises_on bad (k a)) → raises_on bad (m ≫= k).
Proof.
  intros Hm Hk c s b s' w Hrun.
  destruct (bind_split _ _ _ _ _ _ _ Hrun) as (a & s1 & w1 & w2 & H1 & H2).
  destruct (Hm _ _ _ _ _ H1) as [He1 Hs1]. destruct (Hk _ _ _ _ _ _ H2) as [He2 Hs2].
  split; [|congruence]. intros [He|Hb]; apply He2; [left; auto|by right].
Qed.

(** The result of [m] is tested: after a bad result the continuation only
    has to keep the error. *)
Lemma raises_check {A B} (badm : A → bool) (bad : B → bool) (m : M A) (k : A → M B) :
  raises_on badm m →
  (∀ a, badm a = false → raises_on bad (k a)) →
  (∀ a, badm a = true → err_kept (k a)) →
  raises_on bad (m ≫= k).
Proof.
  intros Hm Hgood Hbad c s b s' w Hrun.
  destruct (bind_split _ _ _ _ _ _ _ Hrun) as (a & s1 & w1 & w2 & H1 & H2).
  destruct (Hm _ _ _ _ _ H1) as [He1 Hs1].
  destruct (badm a) eqn:Ha.
  - destruct (Hbad _ Ha _ _ _ _ _ H2) as [He2 Hs2]. split; [|congruence].
    intros _. apply He2, He1. by right.
  - destruct (Hgood _ Ha _ _ _ _ _ H2) as [He2 Hs2]. split; [|congruence].
    intros [He|Hb]; apply He2; [left; apply He1; by left|by right].
Qed.

Lemma sets_bind {A B} (m : M A) (k : A → M B) :
  always_sets m → (∀ a, err_kept (k a)) → always_sets (m ≫= k).
Proof.
  intros Hm Hk c s b s' w Hrun.
  destruct (bind_split _ _ _ _ _ _ _ Hrun) as (a & s1 & w1 & w2 & H1 & H2).
  destruct (Hm _ _ _ _ _ H1) as [He1 Hs1]. destruct (Hk _ _ _ _ _ _ H2) as [He2 Hs2].
  split; [auto|congruence].
Qed.

Lemma err_kept_ret {A} (a : A) : err_kept (ret a).
Proof. by intros c s a' s' w [= <- <- <-]. Qed.

Lemma err_kept_ub {A} : err_kept (@ub A).
Proof. by intros c s a s' w. Qed.

Lemma err_kept_lift {A} (o : option A) : err_kept (lift o).
Proof. destruct o; [apply err_kept_ret|apply err_kept_ub]. Qed.

Lemma err_kept_get : err_kept get.
Proof. by intros c s a s' w [= <- <- <-]. Qed.

Lemma err_kept_ask : err_kept ask.
Proof. by intros c s a s' w [= <- <- <-]. Qed.

Lemma err_kept_tell x : err_kept (tell x).
Proof. by intros c s a s' w [= <- <- <-]. Qed.

Lemma raises_ret {A} (bad : A → bool) (a : A) : bad a = false → raises_on bad (ret a).
Proof.
  intros Ha c s a' s' w [= <- <- <-]. split; [|done]. intros [He|Hb]; [done|congruence].
Qed.

Lemma raises_ub {A} (bad : A → bool) : raises_on bad (@ub A).
Proof. by intros c s a s' w. Qed.

Lemma err_kept_modify f :
  (∀ s, py_err (f s) = py_err s ∧ stopped (f s) = stopped s) → err_kept (modify f).
Proof. intros Hf c s a s' w [= <- <- <-]. destruct (Hf s) as [-> ->]. done. Qed.

Lemma err_kept_read p : err_kept (read p).
Proof.
  intros c s a s' w. rewrite ChunkProofs.read_eq.
  destruct (load _ _ _); [|done]. by intros [= <- <- <-].
Qed.

Lemma err_kept_write p v : err_kept (write p v).
Proof.
  intros c s a s' w. rewrite ChunkProofs.write_eq.
  destruct (store_slot s p v) as [s1|] eqn:Hs; [|done]. intros [= <- <- <-].
  destruct (ChunkProofs.store_slot_frame _ _ _ _ Hs) as (_ & _ & -> & ->). done.
Qed.

Lemma err_kept_alloc o : err_kept (alloc o).
Proof. by intros c s a s' w [= <- <- <-]. Qed.

Lemma err_kept_get_obj a : err_kept (get_obj a).
Proof. apply err_kept_bind; [apply err_kept_get|intros; apply err_kept_lift]. Qed.

Lemma err_kept_put_obj a o : err_kept (put_obj a o).
Proof.
  intros c s x s' w. unfold put_obj. rewrite (bind_quiet _ _ _ _ _ _ (get_run c s)).
  destruct (store_obj (heap s) a o) as [h|]; [|done].
  rewrite (bind_quiet _ _ _ _ _ _ (lift_run _ _ c s eq_refl)).
  by intros [= <- <- <-].
Qed.

Lemma err_kept_get_frozen_list a : err_kept (get_frozen_list a).
Proof. apply err_kept_bind; [apply err_kept_get_obj|intros; apply err_kept_lift]. Qed.

Lemma err_kept_put_frozen_list a fl : err_kept (put_frozen_list a fl).
Proof.
  apply err_kept_bind; [apply err_kept_get_obj|intros].
  apply err_kept_bind; [apply err_kept_lift|intros; apply err_kept_put_obj].
Qed.

Lemma err_kept_top_callbacks : err_kept top_callbacks.
Proof.
  apply err_kept_bind; [apply err_kept_get|intros s].
  destruct (stack s); [apply err_kept_ub|apply err_kept_ret].
Qed.

Lemma err_kept_push_callbacks cb : err_kept (push_callbacks cb).
Proof. by apply err_kept_modify. Qed.

Lemma err_kept_pop_callbacks : err_kept pop_callbacks.
Proof.
  intros c s a s' w. unfold pop_callbacks.
  rewrite (bind_quiet _ _ _ _ _ _ (get_run c s)).
  destruct (stack s); [done|]. by intros [= <- <- <-].
Qed.

Lemma sets_PyErr_SetObject e : always_sets (PyErr_SetObject e).
Proof. by intros c s a s' w [= <- <- <-]. Qed.

Lemma sets_parse_error msg : always_sets (set_parse_error msg).
Proof. intros c s a s' w. rewrite set_parse_error_run. by intros [= <- <- <-]. Qed.

Lemma sets_parse_error_format msg : always_sets (set_parse_error_format msg).
Proof.
  intros c s a s' w. rewrite set_parse_error_format_run. by intros [= <- <- <-].
Qed.

(** A warning answers a code other than 0 only when it was raised as an
    exception. *)
Lemma raises_parse_warning msg : raises_on is_failure (set_parse_warning msg).
Proof.
  intros c s r s' w. unfold set_parse_warning. rewrite bind_run. simpl.
  destruct (warnings_raise c); simpl; intros [= <- <- <-]; (split; [|done]);
    [done|].
  by intros [?|?].
Qed.

Create HintDb kept_db.
Create HintDb sets_db.
Create HintDb raises_db.

#[local] Hint Resolve err_kept_ret err_kept_ub err_kept_lift err_kept_get err_kept_ask
  err_kept_tell err_kept_read err_kept_write err_kept_alloc err_kept_get_obj
  err_kept_put_obj err_kept_get_frozen_list err_kept_put_frozen_list
  err_kept_top_callbacks err_kept_push_callbacks err_kept_pop_callbacks : kept_db.
#[local] Hint Resolve sets_PyErr_SetObject sets_parse_error sets_parse_error_format
  : sets_db.
#[local] Hint Resolve raises_parse_warning raises_ub : raises_db.

(** One step of a proof that a computation keeps the error indicator. *)
Ltac kept_step :=
  first
    [ solve [auto with kept_db]
    | solve [eapply raises_kept; auto with raises_db]
    | solve [apply sets_kept; auto with sets_db]
    | apply err_kept_bind; [|intros ?]
    | match goal with
      | |- err_kept (if ?b then _ else _) => destruct b
      | |- err_kept (match ?x with _ => _ end) => destruct x
      end ].
Ltac kept := repeat kept_step.

Lemma sets_raise_missing_attribute name : always_sets (raise_missing_attribute_error name).
Proof. apply sets_parse_error_format. Qed.
Lemma sets_raise_duplicate_element name : always_sets (raise_duplicate_element_error name).
Proof. apply sets_parse_error_format. Qed.
Lemma sets_raise_missing_element name : always_sets (raise_missing_element_error name).
Proof. apply sets_parse_error_format. Qed.
Lemma sets_raise_empty_list_element name :
  always_sets (raise_empty_list_element_error name).
Proof. apply sets_parse_error_format. Qed.
Lemma sets_raise_invalid_enum v : always_sets (raise_invalid_enum_error v).
Proof. apply sets_parse_error_format. Qed.
Lemma sets_raise_invalid_char_enum ch allowed :
  always_sets (raise_invalid_char_enum_error ch allowed).
Proof. apply sets_parse_error_format. Qed.

#[local] Hint Resolve sets_raise_missing_attribute sets_raise_duplicate_element
  sets_raise_missing_element sets_raise_empty_list_element sets_raise_invalid_enum
  sets_raise_invalid_char_enum : sets_db.

(** The common shapes of a test of a result code. *)
Lemma raises_guard {B} (bad : B → bool) (m : M Z) (x : B) (k : Z → M B) :
  raises_on is_failure m →
  (∀ r, raises_on bad (k r)) →
  raises_on bad (r ← m; if negb (r =? 0) then ret x else k r).
Proof.
  intros Hm Hk. eapply raises_check; [apply Hm|..]; intros r Hr;
    unfold is_failure in Hr; rewrite Hr; [apply Hk|apply err_kept_ret].
Qed.

Lemma raises_guard_negative {B} (bad : B → bool) (m : M Z) (x : B) (k : Z → M B) :
  raises_on is_negative m →
  (∀ r, raises_on bad (k r)) →
  raises_on bad (r ← m; if r <? 0 then ret x else k r).
Proof.
  intros Hm Hk. eapply raises_check; [apply Hm|..]; intros r Hr;
    unfold is_negative in Hr; rewrite Hr; [apply Hk|apply err_kept_ret].
Qed.

Lemma raises_guard_pair {B} (bad : B → bool) (m : M (Z * Z)) (x : Z → B)
    (k : Z → Z → M B) :
  raises_on first_nonzero m →
  (∀ r v, raises_on bad (k r v)) →
  raises_on bad ('(r, v) ← m; if negb (r =? 0) then ret (x v) else k r v).
Proof.
  intros Hm Hk. eapply raises_check; [apply Hm|..]; intros [r v] Hr;
    unfold first_nonzero in Hr; cbn [fst] in Hr; rewrite Hr;
    [apply Hk|apply err_kept_ret].
Qed.

Lemma raises_after_sets {A B} (bad : B → bool) (m : M A) (k : A → M B) :
  always_sets m → (∀ a, err_kept (k a)) → raises_on bad (m ≫= k).
Proof. intros Hm Hk. by apply sets_raises, sets_bind. Qed.

(** One step of a proof that a computation sets the error when it fails. *)
Ltac raises_step :=
  first
    [ solve [auto with raises_db]
    | apply raises_ret; reflexivity
    | apply raises_after_sets; [solve [auto with sets_db]|intros ?; solve [kept]]
    | apply raises_guard; [solve [auto with raises_db]|intros ?]
    | apply raises_guard_negative; [solve [auto with raises_db]|intros ?]
    | apply (raises_guard_pair _ _ (λ _, _)); [solve [auto with raises_db]|intros ? ?]
    | apply raises_bind; [solve [kept]|intros ?]
    | match goal with
      | |- raises_on _ (if ?b then _ else _) => destruct b
      | |- raises_on _ (match ?x with _ => _ end) => destruct x
      end ].
Ltac raises := repeat raises_step.

(** *** The leaves *)

Lemma raises_warn_unexpected name : raises_on is_failure (warn_unexpected_attribute name).
Proof. apply raises_parse_warning. Qed.

Lemma raises_warn_duplicate name : raises_on is_failure (warn_duplicate_attribute name).
Proof. apply raises_parse_warning. Qed.

#[local] Hint Resolve raises_warn_unexpected raises_warn_duplicate : raises_db.

Lemma raises_parse_integer str : raises_on first_nonzero (parse_integer str).
Proof.
  unfold parse_integer. destruct (strtol str) as [[v rest] errno].
  destruct (errno || _); raises.
Qed.
#[local] Hint Resolve raises_parse_integer : raises_db.

Lemma raises_set_string_attribute field attr :
  raises_on is_failure (set_string_attribute field attr).
Proof. unfold set_string_attribute. raises. Qed.

Lemma raises_set_integer_attribute field attr :
  raises_on is_failure (set_integer_attribute field attr).
Proof.
  unfold set_integer_attribute. raises.
Qed.

Lemma raises_set_DoxBool_attribute field attr :
  raises_on is_failure (set_DoxBool_attribute field attr).
Proof. unfold set_DoxBool_attribute. raises. Qed.

#[local] Hint Resolve raises_set_string_attribute raises_set_integer_attribute
  raises_set_DoxBool_attribute : raises_db.

Lemma raises_append_str_obj dest src : raises_on is_failure (append_str_obj dest src).
Proof. unfold append_str_obj. raises. Qed.

Lemma raises_node_string_text str : raises_on is_failure (node_string_text str).
Proof. unfold node_string_text. raises. Qed.

Lemma raises_node_string_end : raises_on is_failure node_string_end.
Proof. unfold node_string_end. raises. Qed.

Lemma raises_unexpected_attributes attr :
  raises_on is_failure (unexpected_attributes attr).
Proof. induction attr as [|a attr IH]; cbn [unexpected_attributes]; raises. Qed.

#[local] Hint Resolve raises_append_str_obj raises_node_string_text
  raises_node_string_end raises_unexpected_attributes : raises_db.

Lemma raises_node_start_string dest attr :
  raises_on is_negative (node_start_string dest attr).
Proof. unfold node_start_string. raises. Qed.

Lemma raises_node_start_empty dest attr :
  raises_on is_negative (node_start_empty dest attr).
Proof. unfold node_start_empty. raises. Qed.

Lemma raises_spType_attributes attr :
  ∀ ch, raises_on first_nonzero (spType_attributes attr ch).
Proof.
  induction attr as [|a attr IH]; intros ch; cbn [spType_attributes]; [raises|].
  eapply (raises_check is_failure).
  - destruct (negb _); raises.
  - intros r Hr. unfold is_failure in Hr. rewrite Hr.
    eapply raises_check; [apply raises_parse_integer|..]; intros [r' v] Hr';
      unfold first_nonzero in Hr'; cbn [fst] in Hr'; rewrite Hr'; [|kept].
    destruct (_ || _); [raises|apply IH].
  - intros r Hr. unfold is_failure in Hr. rewrite Hr. kept.
Qed.
#[local] Hint Resolve raises_spType_attributes : raises_db.

Lemma raises_node_start_spType dest attr :
  raises_on is_negative (node_start_spType dest attr).
Proof.
  unfold node_start_spType.
  eapply raises_check; [apply raises_spType_attributes|..]; intros [r ch] Hr;
    unfold first_nonzero in Hr; cbn [fst] in Hr; rewrite Hr; [|kept].
  apply raises_bind; [kept|intros d].
  eapply (raises_check is_failure).
  - destruct (bool_decide _); raises.
  - intros r' Hr'. unfold is_failure in Hr'. rewrite Hr'. raises.
  - intros r' Hr'. unfold is_failure in Hr'. rewrite Hr'. kept.
Qed.

#[local] Hint Resolve raises_node_start_string raises_node_start_empty
  raises_node_start_spType : raises_db.

(** *** Lists and tuple rows *)

Lemma err_kept_top_node : err_kept top_node.
Proof. unfold top_node. kept. Qed.

Lemma err_kept_node_list_base a : err_kept (node_list_base a).
Proof. unfold node_list_base. kept. Qed.

Lemma err_kept_push_object a o cap : err_kept (push_object a o cap).
Proof. unfold push_object. kept. Qed.

#[local] Hint Resolve err_kept_top_node err_kept_node_list_base err_kept_push_object
  : kept_db.

Lemma err_kept_push_tagged_value names name a cap :
  err_kept (frozen_list_push_tagged_value names name a cap).
Proof. unfold frozen_list_push_tagged_value. kept. Qed.

Lemma err_kept_last_tuple_item fl : err_kept (last_tuple_item fl).
Proof. unfold last_tuple_item. kept. Qed.

Lemma err_kept_field_name names i : err_kept (field_name names i).
Proof. unfold field_name. kept. Qed.

#[local] Hint Resolve err_kept_push_tagged_value err_kept_last_tuple_item
  err_kept_field_name : kept_db.

Lemma err_kept_last_field_is_null fl i : err_kept (last_field_is_null fl i).
Proof.
  unfold last_field_is_null. apply err_kept_bind; [kept|intros [t fs]]. kept.
Qed.
#[local] Hint Resolve err_kept_last_field_is_null : kept_db.

Lemma raises_node_list_common_text str :
  raises_on is_failure (node_list_common_text str).
Proof. unfold node_list_common_text. raises. Qed.

Lemma raises_push_tuple_item i size names cls a cap :
  raises_on null_result (frozen_list_push_tuple_item i size names cls a cap).
Proof.
  unfold frozen_list_push_tuple_item. raises.
Qed.

Lemma raises_check_complete_tuple size names a :
  raises_on is_failure (frozen_list_check_complete_tuple size names a).
Proof.
  unfold frozen_list_check_complete_tuple. raises.
Qed.

#[local] Hint Resolve raises_node_list_common_text raises_push_tuple_item
  raises_check_complete_tuple : raises_db.

(** *** The generated classes *)

Section Classes.

Variable S : schema.

Lemma raises_parse_enum e str : raises_on null_result (parse_enum S e str).
Proof. unfold parse_enum. raises. Qed.

Lemma raises_parse_char_enum e str : raises_on null_result (parse_char_enum S e str).
Proof. unfold parse_char_enum. raises. Qed.

Lemma raises_handle_attr n a attr : raises_on is_negative (handle_attr S n a attr).
Proof.
  assert (Hparsed : ∀ parse : string → M ptr,
            (∀ str, raises_on null_result (parse str)) →
            raises_on is_negative
              (f ← read (SlotField n (attr_field a));
               if bool_decide (f ≠ None) then
                 r ← warn_duplicate_attribute (attr_py_name a);
                 if negb (r =? 0) then ret (-1) else ret 1
               else
                 v ← parse (snd attr);
                 write (SlotField n (attr_field a)) v ;;
                 if bool_decide (v = None) then ret (-1) else ret 1)).
  { intros parse Hparse. apply raises_bind; [kept|intros f].
    destruct (bool_decide (f ≠ None)); [raises|].
    eapply raises_check; [apply Hparse|..]; intros [v|] Hv; try done; [raises|kept]. }
  unfold handle_attr. destruct (attr_ty a); try (by raises).
  - apply Hparsed, raises_parse_enum.
  - apply Hparsed, raises_parse_char_enum.
Qed.

Lemma raises_node_class_attr t n i attr :
  raises_on is_negative (node_class_attr S t n i attr).
Proof.
  unfold node_class_attr. destruct (find _ _); [apply raises_handle_attr|raises].
Qed.

Lemma raises_attr_end_loop n refs : raises_on is_failure (attr_end_loop n refs).
Proof. induction refs as [|a refs IH]; cbn [attr_end_loop]; raises. Qed.

Lemma raises_node_class_attr_end t n : raises_on is_failure (node_class_attr_end t n).
Proof. apply raises_attr_end_loop. Qed.

#[local] Hint Resolve raises_node_class_attr raises_node_class_attr_end : raises_db.

Lemma raises_start_attributes t n attr :
  raises_on is_failure (start_attributes S t n attr).
Proof.
  induction attr as [|a attr IH]; cbn [start_attributes]; [raises|].
  apply raises_guard; [|intros _; apply IH].
  destruct (has_attributes t); [|raises].
  apply raises_bind; [kept|intros i].
  destruct (t_other_attr_error t); raises.
Qed.

Lemma err_kept_create_child_lists n refs : err_kept (create_child_lists n refs).
Proof. induction refs as [|c refs IH]; cbn [create_child_lists]; kept. Qed.

#[local] Hint Resolve raises_start_attributes : raises_db.
#[local] Hint Resolve err_kept_create_child_lists : kept_db.

Lemma raises_node_class_start ti t dest attr :
  raises_on is_negative (node_class_start S ti t dest attr).
Proof.
  unfold node_class_start. do 3 (apply raises_bind; [kept|intros ?]).
  apply raises_guard; [destruct (_ || _); raises|intros _].
  apply raises_guard; [destruct (has_attributes t); raises|intros _].
  raises.
Qed.
#[local] Hint Resolve raises_node_class_start : raises_db.

Lemma raises_node_start ty dest attr : raises_on is_negative (node_start S ty dest attr).
Proof. destruct ty; cbn [node_start]; raises. Qed.
#[local] Hint Resolve raises_node_start : raises_db.

Lemma raises_child_case n ch attr : raises_on is_negative (child_case S n ch attr).
Proof. unfold child_case. raises. Qed.

Lemma raises_content_case t i cr attr :
  raises_on is_negative (content_case S t i cr attr).
Proof.
  unfold content_case. do 2 (apply raises_bind; [kept|intros ?]).
  destruct (t_content_kind t); try (by raises).
  eapply raises_check; [apply raises_push_tuple_item|..]; intros [d|] Hd; try done;
    [raises|kept].
Qed.

Lemma raises_node_class_child (t : type_desc) :
  ∀ n e attr, raises_on is_negative (node_class_child S t n e attr).
Proof.
  induction t as [t IHt] using IgnoreProofs.type_desc_bases_ind. intros n e attr.
  destruct t as [name bases le fc attrs children kind content oa text].
  simpl in IHt. cbn [node_class_child t_bases t_children t_content].
  eapply (raises_check is_negative).
  - induction bases as [|b bases IHb]; [raises|].
    inversion IHt as [|? ? Hb Hbs]; subst.
    destruct (has_children_or_content b); [|by apply IHb].
    eapply (raises_check is_negative); [apply Hb|..]; intros r Hr.
    + destruct (negb (r =? 0)); [by apply raises_ret|by apply IHb].
    + destruct (negb (r =? 0)); [apply err_kept_ret|eapply raises_kept; by apply IHb].
  - intros r Hr. destruct (negb (r =? 0)); [by apply raises_ret|].
    destruct (find _ children); [apply raises_child_case|].
    destruct (find_index _ content) as [[i cr]|]; [apply raises_content_case|raises].
  - intros r Hr. destruct (negb (r =? 0)); [apply err_kept_ret|].
    destruct (find _ children); [eapply raises_kept, raises_child_case|].
    destruct (find_index _ content) as [[i cr]|];
      [eapply raises_kept, raises_content_case|kept].
Qed.

Lemma raises_toplevel_start name attr :
  raises_on is_negative (toplevel_start S name attr).
Proof. unfold toplevel_start. raises. Qed.

Lemma raises_call_cs f name attr : raises_on is_negative (call_cs S f name attr).
Proof.
  destruct f; cbn [call_cs]; [apply raises_toplevel_start|].
  apply raises_bind; [kept|intros t]. unfold node_class_child_start.
  do 2 (apply raises_bind; [kept|intros ?]). apply raises_node_class_child.
Qed.

Lemma raises_finish_fields_loop n refs : raises_on is_failure (finish_fields_loop n refs).
Proof. induction refs as [|c refs IH]; cbn [finish_fields_loop]; raises. Qed.
#[local] Hint Resolve raises_finish_fields_loop : raises_db.

Lemma raises_node_class_finish t : raises_on is_failure (node_class_finish t).
Proof.
  unfold node_class_finish. apply raises_bind; [kept|intros n].
  apply raises_guard; [destruct (has_children t); [apply raises_finish_fields_loop|raises]|].
  intros _. raises.
Qed.

Lemma raises_call_f f : raises_on is_failure (call_f S f).
Proof.
  destruct f; cbn [call_f]; [apply raises_node_string_end|].
  apply raises_bind; [kept|intros t]. apply raises_node_class_finish.
Qed.

Lemma raises_call_t f str : raises_on is_failure (call_t f str).
Proof. destruct f; cbn [call_t]; raises. Qed.

(** *** The handlers *)

Lemma stop_run c s : XML_StopParser c s = Some (tt, set_stopped (Some (line c)) s, []).
Proof. reflexivity. Qed.

Lemma stop_ok_kept (m : M unit) : err_kept m → stop_ok m.
Proof.
  intros Hm c s s' w Hrun. destruct (Hm _ _ _ _ _ Hrun) as [He Hs]. split; [|done].
  intros Hnone Hstop. by rewrite Hs in Hstop.
Qed.

Lemma stop_ok_bind {A} (m : M A) (k : A → M unit) :
  err_kept m → (∀ a, stop_ok (k a)) → stop_ok (m ≫= k).
Proof.
  intros Hm Hk c s s' w Hrun.
  destruct (bind_split _ _ _ _ _ _ _ Hrun) as (a & s1 & w1 & w2 & H1 & H2).
  destruct (Hm _ _ _ _ _ H1) as [He1 Hs1]. destruct (Hk _ _ _ _ _ H2) as [Hstop He2].
  split; [|auto]. intros Hnone. apply Hstop. congruence.
Qed.

(** After a result that stands for failure the parser is stopped with the
    exception set; after another the handler goes on. *)
Lemma stop_ok_check (bad : Z → bool) (m : M Z) (k : Z → M unit) :
  raises_on bad m →
  (∀ r, bad r = false → stop_ok (k r)) →
  stop_ok (r ← m; if bad r then XML_StopParser else k r).
Proof.
  intros Hm Hk c s s' w Hrun.
  destruct (bind_split _ _ _ _ _ _ _ Hrun) as (r & s1 & w1 & w2 & H1 & H2).
  destruct (Hm _ _ _ _ _ H1) as [He1 Hs1].
  destruct (bad r) eqn:Hr.
  - rewrite stop_run in H2. injection H2 as <- <-. cbn [py_err set_stopped].
    split; intros; apply He1; by right.
  - destruct (Hk r Hr _ _ _ _ H2) as [Hstop He2]. split.
    + intros Hnone. apply Hstop. congruence.
    + intros He. apply He2, He1. by left.
Qed.

Lemma stop_ok_start_element name attrs : stop_ok (start_element S name attrs).
Proof.
  unfold start_element. apply stop_ok_bind; [kept|intros s0].
  apply stop_ok_bind; [kept|intros pc].
  destruct (negb (ignore_level s0 =? 0)); [by apply stop_ok_kept, err_kept_modify|].
  apply (stop_ok_check is_negative).
  - destruct (cs_call pc); [by apply raises_ret|apply raises_call_cs|apply raises_ub].
  - intros r _. destruct (negb (r =? 0)); [apply stop_ok_kept, err_kept_ret|].
    apply (stop_ok_check is_failure); [apply raises_parse_warning|].
    intros w _. by apply stop_ok_kept, err_kept_modify.
Qed.

Lemma stop_ok_end_element : stop_ok (end_element S).
Proof.
  unfold end_element. apply stop_ok_bind; [kept|intros s0].
  apply stop_ok_bind; [kept|intros pc].
  destruct (negb (ignore_level s0 =? 0)); [by apply stop_ok_kept, err_kept_modify|].
  intros c s s' w Hrun.
  destruct (bind_split _ _ _ _ _ _ _ Hrun) as (r & s1 & w1 & w2 & H1 & H2).
  destruct (bind_split _ _ _ _ _ _ _ H2) as ([] & s2 & w3 & w4 & H3 & H4).
  assert (Hf : raises_on is_failure
                 match f_call pc with
                 | Null => ret 0
                 | Fn f => call_f S f
                 | Uninit => ub
                 end)
    by (destruct (f_call pc); [by apply raises_ret|apply raises_call_f|apply raises_ub]).
  destruct (Hf _ _ _ _ _ H1) as [He1 Hs1].
  destruct (err_kept_pop_callbacks _ _ _ _ _ H4) as [He4 Hs4].
  destruct (negb (r =? 0)) eqn:Hr.
  - rewrite stop_run in H3. injection H3 as <- <-. cbn [py_err set_stopped] in *.
    split; intros; apply He4, He1; by right.
  - injection H3 as <- <-. split.
    + intros Hnone Hstop. rewrite Hs4, Hs1 in Hstop. done.
    + intros He. apply He4, He1. by left.
Qed.

(** The end handler does not let a stopped parser go on. *)
Lemma end_element_stays_stopped c s s' w :
  end_element S c s = Some (tt, s', w) → stopped s ≠ None → stopped s' ≠ None.
Proof.
  unfold end_element. intros Hrun Hstopped.
  destruct (bind_split _ _ _ _ _ _ _ Hrun) as (s0 & sa & wa & wb & Ha & Hb).
  destruct (err_kept_get _ _ _ _ _ Ha) as [_ Hsa].
  destruct (bind_split _ _ _ _ _ _ _ Hb) as (pc & sb & wc & wd & Hc & Hd).
  destruct (err_kept_top_callbacks _ _ _ _ _ Hc) as [_ Hsb].
  destruct (negb (ignore_level s0 =? 0)).
  - injection Hd as <- _. cbn [stopped set_ignore_level]. congruence.
  - destruct (bind_split _ _ _ _ _ _ _ Hd) as (r & s1 & w1 & w2 & H1 & H2).
    destruct (bind_split _ _ _ _ _ _ _ H2) as ([] & s2 & w3 & w4 & H3 & H4).
    assert (Hf : raises_on is_failure
                   match f_call pc with
                   | Null => ret 0
                   | Fn f => call_f S f
                   | Uninit => ub
                   end)
      by (destruct (f_call pc); [by apply raises_ret|apply raises_call_f|apply raises_ub]).
    destruct (Hf _ _ _ _ _ H1) as [_ Hs1].
    destruct (err_kept_pop_callbacks _ _ _ _ _ H4) as [_ Hs4].
    destruct (negb (r =? 0)).
    + rewrite stop_run in H3. injection H3 as <- <-. by rewrite Hs4.
    + injection H3 as <- <-. congruence.
Qed.

Lemma stop_ok_character_data str : stop_ok (character_data str).
Proof.
  unfold character_data. apply stop_ok_bind; [kept|intros s0].
  apply stop_ok_bind; [kept|intros pc].
  destruct (negb (ignore_level s0 =? 0)); [apply stop_ok_kept, err_kept_ret|].
  destruct (t_call pc) as [|f|].
  - destruct (negb (non_whitespace _ _ =? 0)); [|apply stop_ok_kept, err_kept_ret].
    apply (stop_ok_check is_failure); [apply raises_parse_warning|].
    intros w _. apply stop_ok_kept, err_kept_ret.
  - apply (stop_ok_check is_failure); [apply raises_call_t|].
    intros r _. apply stop_ok_kept, err_kept_ret.
  - apply stop_ok_kept, err_kept_ub.
Qed.

Lemma handle_stop_ok wr e s s' w :
  handle S wr e s = Some (s', w) →
  (stopped s = None → stopped s' ≠ None → py_err s' ≠ None)
  ∧ (py_err s ≠ None → py_err s' ≠ None).
Proof.
  unfold handle. destruct e as [ln [name attrs|name|str|name attrs end_line]];
    cbn [fst snd].
  - destruct (start_element _ _ _ _ _) as [[[[] s1] w1]|] eqn:Hrun; [|done].
    cbn [mbind option_bind]. intros [= <- <-].
    by eapply stop_ok_start_element.
  - destruct (end_element _ _ _) as [[[[] s1] w1]|] eqn:Hrun; [|done].
    cbn [mbind option_bind]. intros [= <- <-].
    by eapply stop_ok_end_element.
  - destruct (character_data _ _ _) as [[[[] s1] w1]|] eqn:Hrun; [|done].
    cbn [mbind option_bind]. intros [= <- <-].
    by eapply stop_ok_character_data.
  - destruct (start_element _ _ _ _ _) as [[[[] s1] w1]|] eqn:Hstart; [|done].
    cbn [mbind option_bind].
    destruct (end_element _ _ _) as [[[[] s2] w2]|] eqn:Hend; [|done].
    cbn [mbind option_bind]. intros [= <- <-].
    destruct (stop_ok_start_element _ _ _ _ _ _ Hstart) as [Hstop1 He1].
    destruct (stop_ok_end_element _ _ _ _ Hend) as [Hstop2 He2].
    split; [|auto]. intros Hnone Hstop.
    destruct (stopped s1) eqn:Hs1; [apply He2, Hstop1; congruence|by apply Hstop2].
Qed.

(** Whatever the events, the handlers stop the parser only with the error
    indicator set. *)
Lemma deliver_stop_ok wr (es : list (Z * event)) :
  ∀ s s' ws,
    deliver S wr es s = Some (s', ws) →
    stopped s = None →
    stopped s' ≠ None →
    py_err s' ≠ None.
Proof.
  induction es as [|e es IH]; intros s s' ws; cbn [deliver].
  - by intros [= <- <-] ->.
  - intros Hrun Hnone. rewrite bool_decide_false in Hrun by (by rewrite Hnone; intros []).
    destruct (handle S wr e s) as [[s1 w1]|] eqn:Hh; [|done].
    cbn [mbind option_bind] in Hrun.
    destruct (deliver S wr es s1) as [[s2 w2]|] eqn:Hd; [|done].
    cbn [mbind option_bind] in Hrun. injection Hrun as <- <-.
    destruct (handle_stop_ok wr e s s1 w1 Hh) as [Hstop _].
    destruct (stopped s1) as [ln|] eqn:Hs1.
    + rewrite (ChunkProofs.deliver_stopped S wr es s1 ltac:(congruence)) in Hd.
      injection Hd as <- <-. intros _. by apply Hstop.
    + by eapply IH.
Qed.

End Classes.

(** X16: the parser is stopped only with an exception set: whatever the
    events, if the handlers stop the parser, the error indicator is set, so
    the error "parsing aborted" of the tokenizer never replaces theirs. *)
Theorem stopped_parser_has_exception
    (S : schema) (wr : bool) (es : list (Z * event)) (s s' : parse_state)
    (ws : list warning) :
  deliver S wr es s = Some (s', ws) →
  stopped s = None →
  stopped s' ≠ None →
  py_err s' ≠ None.
Proof. apply deliver_stop_ok. Qed.

Lemma stopped_parser_has_exception_witness :
  py_err (set_stopped (Some 1)
            (set_py_err (Some (ParseWarning 1 "unexpected character data"))
               Samples.in_doc)) ≠ None.
Proof.
  apply (stopped_parser_has_exception Example.schema true
           [(1, StartElement "doc" []); (1, CharacterData "x"); (1, EndElement "")]
           initial_state _ []);
    [reflexivity|reflexivity|discriminate].
Defined.

(** X8: when the handlers stop the parser, [parse] returns NULL with the
    exception that they left.  The handlers are those that Expat calls,
    the end handler of an empty-element tag after a stop in its start
    handler among them, and they run without undefined behaviour.  There
    is always such an exception, so the error "parsing aborted" of the
    tokenizer is never the one raised. *)
Theorem stopped_parse_raises_what_the_handler_raised
    (S : schema) (wr : bool) (XML_Parser : Type) (create : XML_Parser)
    (set_encoding : XML_Parser → XML_Parser)
    (XML_Parse : XML_Parser → string → bool → XML_Parser * list (Z * event) * XML_Status)
    (doc : string) (p' : XML_Parser) (es : list (Z * event)) (status : XML_Status)
    (s1 : parse_state) (ws : list warning) :
  C.strlen doc ≤ EXPAT_CHUNK_SIZE →
  XML_Parse create doc true = (p', es, status) →
  deliver S wr es initial_state = Some (s1, ws) →
  stopped s1 ≠ None →
  ∃ e,
    py_err s1 = Some e
    ∧ parse S wr XML_Parser create set_encoding XML_Parse (EXPAT_SOURCE_STR (PyBytes doc))
      = Some (Result None (heap s1) (Some e), ws).
Proof.
  intros Hlen Hparse Hrun Hstop.
  pose proof (deliver_stop_ok S wr es _ _ _ Hrun eq_refl Hstop) as Herr.
  destruct (py_err s1) as [e|] eqn:He; [|done]. exists e. split; [done|].
  destruct (stopped s1) as [ln|] eqn:Hs; [|done].
  unfold parse, parse_str.
  assert (Hsmall : (EXPAT_CHUNK_SIZE <? C.strlen doc) = false) by (apply Z.ltb_ge; lia).
  assert (Hloop : parse_str_loop S wr XML_Parser XML_Parse (String.length doc) doc
                    create initial_state
                  = Some (-1,
                          raise_expat_error (XML_STATUS_ERROR XML_ERROR_ABORTED ln) s1,
                          ws)).
  { destruct (String.length doc); cbn [parse_str_loop]; rewrite Hsmall;
      unfold xml_parse; rewrite Hparse, Hrun; cbn [mbind option_bind];
      by rewrite Hs. }
  rewrite Hloop. cbn [mbind option_bind]. change (negb (-1 =? 0)) with true. cbv iota.
  unfold raise_expat_error, XML_ERROR_ABORTED. by rewrite !He.
Qed.

Lemma stopped_parse_raises_what_the_handler_raised_witness :
  ∃ s1,
    deliver Example.schema true
      [(1, StartElement "doc" []); (1, EmptyElement "point" [("z", "5")] 1)]
      initial_state
    = Some (s1, [])
    ∧ parse Example.schema true unit tt id Samples.expat_stray_attribute
        (EXPAT_SOURCE_STR (PyBytes Samples.stray_attribute))
      = Some (Result None (heap s1) (Some SystemError), []).
Proof.
  eexists. split; [vm_compute; reflexivity|].
  edestruct (stopped_parse_raises_what_the_handler_raised Example.schema true unit tt id
               Samples.expat_stray_attribute Samples.stray_attribute)
    as (e & He & Hparse);
    [by vm_compute|reflexivity|vm_compute; reflexivity|discriminate|].
  injection He as <-. exact Hparse.
Defined.

End ErrorProofs.

(** ** The frames of the open elements *)

Module FrameProofs.

Import NameResolver Py Schema Parser Driver Api Spec Run.

Lemma frames_kept_bind {A B} (m : M A) (k : A → M B) :
  frames_kept m → (∀ a, frames_kept (k a)) → frames_kept (m ≫= k).
Proof.
  intros Hm Hk c s b s' w Hrun.
  destruct (ErrorProofs.bind_split _ _ _ _ _ _ _ Hrun) as (a & s1 & w1 & w2 & H1 & H2).
  destruct (Hm _ _ _ _ _ H1) as [Hs1 Hi1]. destruct (Hk _ _ _ _ _ _ H2) as [Hs2 Hi2].
  split; congruence.
Qed.

Lemma frames_kept_ret {A} (a : A) : frames_kept (ret a).
Proof. by intros c s a' s' w [= <- <- <-]. Qed.

Lemma frames_kept_ub {A} : frames_kept (@ub A).
Proof. by intros c s a s' w. Qed.

Lemma frames_kept_lift {A} (o : option A) : frames_kept (lift o).
Proof. destruct o; [apply frames_kept_ret|apply frames_kept_ub]. Qed.

Lemma frames_kept_get : frames_kept get.
Proof. by intros c s a s' w [= <- <- <-]. Qed.

Lemma frames_kept_ask : frames_kept ask.
Proof. by intros c s a s' w [= <- <- <-]. Qed.

Lemma frames_kept_tell x : frames_kept (tell x).
Proof. by intros c s a s' w [= <- <- <-]. Qed.

Lemma frames_kept_read p : frames_kept (read p).
Proof.
  intros c s a s' w. rewrite ChunkProofs.read_eq.
  destruct (load _ _ _); [|done]. by intros [= <- <- <-].
Qed.

Lemma frames_kept_write p v : frames_kept (write p v).
Proof.
  intros c s a s' w. rewrite ChunkProofs.write_eq.
  destruct (store_slot s p v) as [s1|] eqn:Hs; [|done]. intros [= <- <- <-].
  destruct (ChunkProofs.store_slot_frame _ _ _ _ Hs) as (-> & -> & _). done.
Qed.

Lemma frames_kept_alloc o : frames_kept (alloc o).
Proof. by intros c s a s' w [= <- <- <-]. Qed.

Lemma frames_kept_put_obj a o : frames_kept (put_obj a o).
Proof.
  intros c s x s' w. unfold put_obj. rewrite (bind_quiet _ _ _ _ _ _ (get_run c s)).
  destruct (store_obj (heap s) a o) as [h|]; [|done].
  rewrite (bind_quiet _ _ _ _ _ _ (lift_run _ _ c s eq_refl)).
  by intros [= <- <- <-].
Qed.

Lemma frames_kept_PyErr_SetObject e : frames_kept (PyErr_SetObject e).
Proof. by intros c s a s' w [= <- <- <-]. Qed.

Lemma frames_kept_raise_parse_error message lineno :
  frames_kept (raise_parse_error message lineno).
Proof. intros c s a s' w. rewrite raise_parse_error_run. by intros [= <- <- <-]. Qed.

Lemma frames_kept_set_parse_error msg : frames_kept (set_parse_error msg).
Proof. intros c s a s' w. rewrite set_parse_error_run. by intros [= <- <- <-]. Qed.

Lemma frames_kept_set_parse_error_format msg : frames_kept (set_parse_error_format msg).
Proof.
  intros c s a s' w. rewrite set_parse_error_format_run. by intros [= <- <- <-].
Qed.

Lemma frames_kept_set_parse_warning msg : frames_kept (set_parse_warning msg).
Proof.
  intros c s r s' w. unfold set_parse_warning. rewrite bind_run. simpl.
  by destruct (warnings_raise c); simpl; intros [= <- <- <-].
Qed.

Lemma frames_kept_stop : frames_kept XML_StopParser.
Proof. by intros c s a s' w [= <- <- <-]. Qed.

Create HintDb frames_db.

#[local] Hint Resolve frames_kept_ret frames_kept_ub frames_kept_lift frames_kept_get
  frames_kept_ask frames_kept_tell frames_kept_read frames_kept_write frames_kept_alloc
  frames_kept_put_obj frames_kept_PyErr_SetObject frames_kept_raise_parse_error
  frames_kept_set_parse_error
  frames_kept_set_parse_error_format frames_kept_set_parse_warning frames_kept_stop
  : frames_db.

Ltac head_of t := lazymatch t with ?f _ => head_of f | _ => t end.

(** One step of a proof that a computation keeps the frames: the
    definitions that are not recursive are unfolded. *)
Ltac frames_step :=
  first
    [ solve [auto with frames_db]
    | apply frames_kept_bind; [|intros ?]
    | match goal with
      | |- frames_kept (if ?b then _ else _) => destruct b
      | |- frames_kept (match ?x with _ => _ end) => destruct x
      | |- frames_kept ?m => let h := head_of m in progress unfold h
      end ].
Ltac frames := repeat frames_step.

Lemma frames_kept_unexpected_attributes attr : frames_kept (unexpected_attributes attr).
Proof. induction attr as [|a attr IH]; cbn [unexpected_attributes]; frames. Qed.

Lemma frames_kept_parse_integer str : frames_kept (parse_integer str).
Proof. frames. Qed.
#[local] Hint Resolve frames_kept_unexpected_attributes frames_kept_parse_integer
  : frames_db.

Lemma frames_kept_spType_attributes attr : ∀ ch, frames_kept (spType_attributes attr ch).
Proof.
  induction attr as [|a attr IH]; intros ch; cbn [spType_attributes]; frames.
Qed.
#[local] Hint Resolve frames_kept_spType_attributes : frames_db.

Lemma frames_kept_top_node : frames_kept top_node.
Proof. frames. Qed.

Lemma frames_kept_push_object a o cap : frames_kept (push_object a o cap).
Proof. frames. Qed.

Lemma frames_kept_node_list_common_text str : frames_kept (node_list_common_text str).
Proof. frames. Qed.

Lemma frames_kept_node_string_text str : frames_kept (node_string_text str).
Proof. frames. Qed.

Lemma frames_kept_node_string_end : frames_kept node_string_end.
Proof. frames. Qed.

Lemma frames_kept_push_tuple_item i size names cls a cap :
  frames_kept (frozen_list_push_tuple_item i size names cls a cap).
Proof. frames. Qed.

Lemma frames_kept_push_tagged_value names name a cap :
  frames_kept (frozen_list_push_tagged_value names name a cap).
Proof. frames. Qed.

Lemma frames_kept_check_complete_tuple size names a :
  frames_kept (frozen_list_check_complete_tuple size names a).
Proof. frames. Qed.

Lemma frames_kept_top_callbacks : frames_kept top_callbacks.
Proof. frames. Qed.

#[local] Hint Resolve frames_kept_top_callbacks frames_kept_top_node frames_kept_push_object
  frames_kept_node_list_common_text frames_kept_node_string_text
  frames_kept_node_string_end frames_kept_push_tuple_item frames_kept_push_tagged_value
  frames_kept_check_complete_tuple : frames_db.

(** *** The start functions *)

Lemma pushes_bind {A} (m : M A) (k : A → M Z) :
  frames_kept m → (∀ a, pushes_one (k a)) → pushes_one (m ≫= k).
Proof.
  intros Hm Hk c s r s' w Hrun.
  destruct (ErrorProofs.bind_split _ _ _ _ _ _ _ Hrun) as (a & s1 & w1 & w2 & H1 & H2).
  destruct (Hm _ _ _ _ _ H1) as [Hs1 Hi1].
  destruct (Hk _ _ _ _ _ _ H2) as (Hi2 & Hzero & Hpos).
  rewrite <- Hs1, <- Hi1. done.
Qed.

Lemma pushes_ret r : r ≤ 0 → pushes_one (ret r).
Proof.
  intros Hr c s r' s' w [= <- <- <-]. split; [done|]. split; [done|]. intros ?. lia.
Qed.

Lemma pushes_ub : pushes_one ub.
Proof. by intros c s r s' w. Qed.

Lemma pushes_push (cb : parse_callbacks) (m : M unit) :
  frames_kept m → pushes_one (push_callbacks cb ;; m ;; ret 1).
Proof.
  intros Hm c s r s' w Hrun.
  destruct (ErrorProofs.bind_split _ _ _ _ _ _ _ Hrun) as ([] & s1 & w1 & w2 & H1 & H2).
  injection H1 as <- <-.
  destruct (ErrorProofs.bind_split _ _ _ _ _ _ _ H2) as ([] & s2 & w3 & w4 & H3 & H4).
  injection H4 as <- <- <-. destruct (Hm _ _ _ _ _ H3) as [-> ->].
  split; [done|]. split; [done|]. intros _. by exists cb.
Qed.

Lemma pushes_push_ret (cb : parse_callbacks) : pushes_one (push_callbacks cb ;; ret 1).
Proof.
  intros c s r s' w [= <- <- <-]. split; [done|]. split; [done|]. intros _. by exists cb.
Qed.

(** The first of two start functions that answers decides: the second is
    tried after the answer 0, with the frames as they were. *)
Lemma pushes_first (m : M Z) (k : M Z) :
  pushes_one m → pushes_one k →
  pushes_one (r ← m; if negb (r =? 0) then ret r else k).
Proof.
  intros Hm Hk c s r s' w Hrun.
  destruct (ErrorProofs.bind_split _ _ _ _ _ _ _ Hrun) as (a & s1 & w1 & w2 & H1 & H2).
  destruct (Hm _ _ _ _ _ H1) as (Hi1 & Hzero & Hpos).
  destruct (a =? 0) eqn:Ha; cbn [negb] in H2.
  - apply Z.eqb_eq in Ha. rewrite <- (Hzero Ha), <- Hi1. by eapply Hk.
  - injection H2 as <- <- <-. done.
Qed.

Ltac pushes_step :=
  first
    [ apply pushes_ret; lia
    | apply pushes_ub
    | apply pushes_push_ret
    | apply pushes_push; solve [frames]
    | apply pushes_bind; [solve [frames]|intros ?]
    | match goal with
      | |- pushes_one (if ?b then _ else _) => destruct b
      | |- pushes_one (match ?x with _ => _ end) => destruct x
      end ].
Ltac pushes := repeat pushes_step.

Lemma pushes_node_start_string dest attr : pushes_one (node_start_string dest attr).
Proof. unfold node_start_string. pushes. Qed.

Lemma pushes_node_start_empty dest attr : pushes_one (node_start_empty dest attr).
Proof. unfold node_start_empty. pushes. Qed.

Lemma pushes_node_start_spType dest attr : pushes_one (node_start_spType dest attr).
Proof. unfold node_start_spType. pushes. Qed.

Section Classes.

Variable S : schema.

Lemma frames_kept_parse_enum e str : frames_kept (parse_enum S e str).
Proof. frames. Qed.

Lemma frames_kept_parse_char_enum e str : frames_kept (parse_char_enum S e str).
Proof. frames. Qed.

#[local] Hint Resolve frames_kept_parse_enum frames_kept_parse_char_enum : frames_db.

Lemma frames_kept_handle_attr n a attr : frames_kept (handle_attr S n a attr).
Proof. frames. Qed.
#[local] Hint Resolve frames_kept_handle_attr : frames_db.

Lemma frames_kept_attr_end_loop n refs : frames_kept (attr_end_loop n refs).
Proof. induction refs as [|a refs IH]; cbn [attr_end_loop]; frames. Qed.
#[local] Hint Resolve frames_kept_attr_end_loop : frames_db.

Lemma frames_kept_start_attributes t n attr : frames_kept (start_attributes S t n attr).
Proof. induction attr as [|a attr IH]; cbn [start_attributes]; frames. Qed.

Lemma frames_kept_create_child_lists n refs : frames_kept (create_child_lists n refs).
Proof. induction refs as [|c refs IH]; cbn [create_child_lists]; frames. Qed.

Lemma frames_kept_finish_fields_loop n refs : frames_kept (finish_fields_loop n refs).
Proof. induction refs as [|c refs IH]; cbn [finish_fields_loop]; frames. Qed.

#[local] Hint Resolve frames_kept_start_attributes frames_kept_create_child_lists
  frames_kept_finish_fields_loop : frames_db.

Lemma pushes_node_class_start ti t dest attr :
  pushes_one (node_class_start S ti t dest attr).
Proof. unfold node_class_start. pushes. Qed.

Lemma pushes_node_start ty dest attr : pushes_one (node_start S ty dest attr).
Proof.
  destruct ty; cbn [node_start];
    [apply pushes_node_start_string|apply pushes_node_start_empty
    |apply pushes_node_start_spType|].
  apply pushes_bind; [frames|intros t]. apply pushes_node_class_start.
Qed.

Lemma pushes_child_case n ch attr : pushes_one (child_case S n ch attr).
Proof.
  unfold child_case. destruct (child_is_list ch).
  - apply pushes_bind; [frames|intros f].
    destruct f as [[| | | | | | | |fl]|]; try apply pushes_ub.
    apply pushes_bind; [frames|intros d]. apply pushes_node_start.
  - apply pushes_bind; [frames|intros f]. destruct (bool_decide _).
    + apply pushes_bind; [frames|intros ?]. apply pushes_ret. lia.
    + apply pushes_node_start.
Qed.

Lemma pushes_content_case t i cr attr : pushes_one (content_case S t i cr attr).
Proof.
  unfold content_case. do 2 (apply pushes_bind; [frames|intros ?]).
  destruct (t_content_kind t).
  all: apply pushes_bind; [frames|intros d]; try apply pushes_node_start.
  destruct d; [apply pushes_node_start|apply pushes_ret; lia].
Qed.

Lemma pushes_node_class_child (t : type_desc) :
  ∀ n e attr, pushes_one (node_class_child S t n e attr).
Proof.
  induction t as [t IHt] using IgnoreProofs.type_desc_bases_ind. intros n e attr.
  destruct t as [name bases le fc attrs children kind content oa text].
  simpl in IHt. cbn [node_class_child t_bases t_children t_content].
  apply pushes_first.
  - induction bases as [|b bases IHb]; [apply pushes_ret; lia|].
    inversion IHt as [|? ? Hb Hbs]; subst.
    destruct (has_children_or_content b); [|by apply IHb].
    apply pushes_first; [apply Hb|by apply IHb].
  - destruct (find _ children); [apply pushes_child_case|].
    destruct (find_index _ content) as [[i cr]|];
      [apply pushes_content_case|apply pushes_ret; lia].
Qed.

Lemma pushes_toplevel_start name attr : pushes_one (toplevel_start S name attr).
Proof.
  unfold toplevel_start. do 2 (apply pushes_bind; [frames|intros ?]).
  destruct (find _ _); [|apply pushes_ret; lia].
  do 8 (apply pushes_bind; [frames|intros ?]). apply pushes_node_class_start.
Qed.

Lemma pushes_call_cs f name attr : pushes_one (call_cs S f name attr).
Proof.
  destruct f; cbn [call_cs]; [apply pushes_toplevel_start|].
  apply pushes_bind; [frames|intros t]. unfold node_class_child_start.
  do 2 (apply pushes_bind; [frames|intros ?]). apply pushes_node_class_child.
Qed.

Lemma frames_kept_call_f f : frames_kept (call_f S f).
Proof. destruct f; cbn [call_f]; frames. Qed.

Lemma frames_kept_call_t f str : frames_kept (call_t f str).
Proof. destruct f; cbn [call_t]; frames. Qed.

#[local] Hint Resolve frames_kept_call_t : frames_db.

(** *** The handlers *)

Variable wr : bool.

Lemma start_element_frames name attrs c s s' w :
  start_element S name attrs c s = Some (tt, s', w) →
  stopped s' = None →
  (∃ cb, stack s' = cb :: stack s ∧ ignore_level s = 0 ∧ ignore_level s' = 0)
  ∨ (stack s' = stack s ∧ ignore_level s' = ignore_level s + 1).
Proof.
  unfold start_element. rewrite (bind_quiet _ _ _ _ _ _ (get_run c s)).
  intros Hrun Hgo.
  destruct (ErrorProofs.bind_split _ _ _ _ _ _ _ Hrun) as (pc & s0 & w0 & w1 & H0 & H1).
  destruct (frames_kept_top_callbacks _ _ _ _ _ H0) as [Hst0 Hi0].
  assert (Hsame : s0 = s).
  { revert H0. unfold top_callbacks. rewrite (bind_quiet _ _ _ _ _ _ (get_run c s)).
    destruct (stack s); [done|]. by intros [= <- <- <-]. }
  subst s0. clear Hst0 Hi0 H0.
  destruct (ignore_level s =? 0) eqn:Hlevel; cbn [negb] in H1.
  - apply Z.eqb_eq in Hlevel.
    destruct (ErrorProofs.bind_split _ _ _ _ _ _ _ H1) as (r & s1 & w2 & w3 & H2 & H3).
    assert (Hcs : pushes_one match cs_call pc with
                             | Null => ret 0
                             | Fn f => call_cs S f name attrs
                             | Uninit => ub
                             end)
      by (destruct (cs_call pc);
          [by apply pushes_ret|apply pushes_call_cs|apply pushes_ub]).
    destruct (Hcs _ _ _ _ _ H2) as (Hi1 & Hzero & Hpos).
    destruct (r <? 0) eqn:Hneg.
    { injection H3 as <- <-. done. }
    apply Z.ltb_ge in Hneg.
    destruct (r =? 0) eqn:Hr; cbn [negb] in H3.
    + apply Z.eqb_eq in Hr.
      destruct (ErrorProofs.bind_split _ _ _ _ _ _ _ H3) as (x & s2 & w4 & w5 & H4 & H5).
      destruct (frames_kept_set_parse_warning _ _ _ _ _ _ H4) as [Hst2 Hi2].
      destruct (negb (x =? 0)); [injection H5 as <- <-; done|].
      injection H5 as <- <-. right. cbn [stack ignore_level set_ignore_level].
      rewrite Hst2, (Hzero Hr), Hlevel. done.
    + apply Z.eqb_neq in Hr. injection H3 as <- <-. left.
      destruct (Hpos ltac:(lia)) as [cb Hcb]. exists cb.
      rewrite Hi1. done.
  - injection H1 as <- <-. right. done.
Qed.

Lemma end_element_frames c s s' w :
  end_element S c s = Some (tt, s', w) →
  if ignore_level s =? 0
  then (∃ cb, stack s = cb :: stack s') ∧ ignore_level s' = 0
  else stack s' = stack s ∧ ignore_level s' = ignore_level s - 1.
Proof.
  unfold end_element. rewrite (bind_quiet _ _ _ _ _ _ (get_run c s)).
  intros Hrun.
  destruct (ErrorProofs.bind_split _ _ _ _ _ _ _ Hrun) as (pc & s0 & w0 & w1 & H0 & H1).
  assert (Hsame : s0 = s).
  { revert H0. unfold top_callbacks. rewrite (bind_quiet _ _ _ _ _ _ (get_run c s)).
    destruct (stack s); [done|]. by intros [= <- <- <-]. }
  subst s0. clear H0.
  destruct (ignore_level s =? 0) eqn:Hlevel; cbn [negb] in H1.
  - apply Z.eqb_eq in Hlevel.
    destruct (ErrorProofs.bind_split _ _ _ _ _ _ _ H1) as (r & s1 & w2 & w3 & H2 & H3).
    assert (Hf : frames_kept match f_call pc with
                             | Null => ret 0
                             | Fn f => call_f S f
                             | Uninit => ub
                             end)
      by (destruct (f_call pc);
          [apply frames_kept_ret|apply frames_kept_call_f|apply frames_kept_ub]).
    destruct (Hf _ _ _ _ _ H2) as [Hst1 Hi1].
    destruct (ErrorProofs.bind_split _ _ _ _ _ _ _ H3) as ([] & s2 & w4 & w5 & H4 & H5).
    assert (Hstop : stack s2 = stack s1 ∧ ignore_level s2 = ignore_level s1).
    { destruct (negb (r =? 0)); [by injection H4 as <- <-|by injection H4 as <- <-]. }
    destruct Hstop as [Hst2 Hi2].
    revert H5. unfold pop_callbacks. rewrite (bind_quiet _ _ _ _ _ _ (get_run c s2)).
    destruct (stack s2) as [|cb st] eqn:Hstack; [done|]. intros [= <- <-].
    cbn [stack ignore_level set_stack]. split; [|congruence].
    exists cb. congruence.
  - injection H1 as <- <-. done.
Qed.

Lemma frames_kept_character_data str : frames_kept (character_data str).
Proof. unfold character_data. frames. Qed.

(** What one event does to the frames when the parser goes on. *)
Lemma handle_frames e s s' w :
  handle S wr e s = Some (s', w) →
  stopped s' = None →
  match e.2 with
  | StartElement _ _ =>
      (∃ cb, stack s' = cb :: stack s ∧ ignore_level s = 0 ∧ ignore_level s' = 0)
      ∨ (stack s' = stack s ∧ ignore_level s' = ignore_level s + 1)
  | EndElement _ =>
      if ignore_level s =? 0
      then (∃ cb, stack s = cb :: stack s') ∧ ignore_level s' = 0
      else stack s' = stack s ∧ ignore_level s' = ignore_level s - 1
  | CharacterData _ => stack s' = stack s ∧ ignore_level s' = ignore_level s
  | EmptyElement _ _ _ =>
      0 ≤ ignore_level s → stack s' = stack s ∧ ignore_level s' = ignore_level s
  end.
Proof.
  unfold handle. destruct e as [ln [name attrs|name|str|name attrs end_line]];
    cbn [fst snd].
  - destruct (start_element _ _ _ _ _) as [[[[] s1] w1]|] eqn:Hrun; [|done].
    cbn [mbind option_bind]. intros [= <- <-] Hgo. by eapply start_element_frames.
  - destruct (end_element _ _ _) as [[[[] s1] w1]|] eqn:Hrun; [|done].
    cbn [mbind option_bind]. intros [= <- <-] Hgo. by eapply end_element_frames.
  - destruct (character_data _ _ _) as [[[[] s1] w1]|] eqn:Hrun; [|done].
    cbn [mbind option_bind]. intros [= <- <-] Hgo.
    by eapply frames_kept_character_data.
  - destruct (start_element _ _ _ _ _) as [[[[] s1] w1]|] eqn:Hstart; [|done].
    cbn [mbind option_bind].
    destruct (end_element _ _ _) as [[[[] s2] w2]|] eqn:Hend; [|done].
    cbn [mbind option_bind]. intros [= <- <-] Hgo Hlevel.
    assert (Hs1 : stopped s1 = None).
    { destruct (stopped s1) as [l|] eqn:Hs; [|done].
      destruct (ErrorProofs.end_element_stays_stopped S _ _ _ _ Hend); [|done].
      by rewrite Hs. }
    pose proof (end_element_frames _ _ _ _ Hend) as He.
    destruct (start_element_frames _ _ _ _ _ _ Hstart Hs1)
      as [(cb & Hst & Hi & Hi1)|[Hst Hi1]]; rewrite Hi1 in He.
    + cbn [Z.eqb] in He. destruct He as [[cb' Hpop] Hi2]. rewrite Hst in Hpop.
      split; congruence.
    + rewrite (proj2 (Z.eqb_neq _ _)) in He by lia. destruct He as [-> ->].
      split; [done|lia].
Qed.

Lemma deliver_not_stopped es s s' :
  fst <$> deliver S wr es s = Some s' → stopped s' = None → stopped s = None.
Proof.
  intros Hrun Hgo. destruct (stopped s) as [ln|] eqn:Hs; [|done].
  rewrite (ChunkProofs.deliver_stopped S wr es s) in Hrun by (by rewrite Hs).
  injection Hrun as <-. congruence.
Qed.

Lemma balanced_frames es :
  balanced es →
  ∀ s s',
    0 ≤ ignore_level s →
    fst <$> deliver S wr es s = Some s' →
    stopped s' = None →
    stack s' = stack s ∧ ignore_level s' = ignore_level s.
Proof.
  induction 1 as [|ln str es Hes IH|ln name attrs end_line es Hes IH
                  |ln name attrs body ln' name' es Hbody IHbody Hes IH];
    intros s s' Hlevel Hrun Hgo.
  - by injection Hrun as <-.
  - pose proof (deliver_not_stopped _ _ _ Hrun Hgo) as Hs.
    rewrite ChunkProofs.deliver_state_cons, bool_decide_false in Hrun
      by (by rewrite Hs; intros []).
    destruct (handle S wr (ln, CharacterData str) s) as [[s1 w1]|] eqn:Hh; [|done].
    cbn [fmap option_fmap option_map mbind option_bind fst] in Hrun.
    pose proof (deliver_not_stopped _ _ _ Hrun Hgo) as Hs1.
    destruct (handle_frames _ _ _ _ Hh Hs1) as [Hst1 Hi1].
    destruct (IH s1 s' ltac:(lia) Hrun Hgo) as [-> ->]. done.
  - pose proof (deliver_not_stopped _ _ _ Hrun Hgo) as Hs.
    rewrite ChunkProofs.deliver_state_cons, bool_decide_false in Hrun
      by (by rewrite Hs; intros []).
    destruct (handle S wr (ln, EmptyElement name attrs end_line) s) as [[s1 w1]|] eqn:Hh;
      [|done].
    cbn [fmap option_fmap option_map mbind option_bind fst] in Hrun.
    pose proof (deliver_not_stopped _ _ _ Hrun Hgo) as Hs1.
    destruct (handle_frames _ _ _ _ Hh Hs1 Hlevel) as [Hst1 Hi1].
    destruct (IH s1 s' ltac:(lia) Hrun Hgo) as [-> ->]. done.
  - pose proof (deliver_not_stopped _ _ _ Hrun Hgo) as Hs.
    change ((ln, StartElement name attrs) :: body ++ (ln', EndElement name') :: es)%list
      with ((ln, StartElement name attrs) :: (body ++ (ln', EndElement name') :: es))%list
      in Hrun.
    rewrite ChunkProofs.deliver_state_cons, bool_decide_false in Hrun
      by (by rewrite Hs; intros []).
    destruct (handle S wr (ln, StartElement name attrs) s) as [[s1 w1]|] eqn:Hh; [|done].
    cbn [fmap option_fmap option_map mbind option_bind fst] in Hrun.
    rewrite ChunkProofs.deliver_state_app in Hrun.
    destruct (fst <$> deliver S wr body s1) as [s2|] eqn:Hb; [|done].
    cbn [mbind option_bind] in Hrun.
    pose proof (deliver_not_stopped _ _ _ Hrun Hgo) as Hs2.
    pose proof (deliver_not_stopped _ _ _ Hb Hs2) as Hs1.
    rewrite ChunkProofs.deliver_state_cons, bool_decide_false in Hrun
      by (by rewrite Hs2; intros []).
    destruct (handle S wr (ln', EndElement name') s2) as [[s3 w3]|] eqn:Hh'; [|done].
    cbn [fmap option_fmap option_map mbind option_bind fst] in Hrun.
    pose proof (deliver_not_stopped _ _ _ Hrun Hgo) as Hs3.
    pose proof (handle_frames _ _ _ _ Hh Hs1) as Hstart.
    pose proof (handle_frames _ _ _ _ Hh' Hs3) as Hend.
    cbn [snd] in Hstart, Hend.
    destruct Hstart as [(cb & Hst1 & Hi & Hi1)|[Hst1 Hi1]].
    + destruct (IHbody s1 s2 ltac:(lia) Hb Hs2) as [Hst2 Hi2].
      rewrite Hi2, Hi1 in Hend. cbn [Z.eqb] in Hend.
      destruct Hend as [[cb' Hpop] Hi3].
      destruct (IH s3 s' ltac:(lia) Hrun Hgo) as [-> ->].
      split; [|congruence]. rewrite Hst2, Hst1 in Hpop. congruence.
    + destruct (IHbody s1 s2 ltac:(lia) Hb Hs2) as [Hst2 Hi2].
      rewrite Hi2, Hi1 in Hend.
      rewrite (proj2 (Z.eqb_neq _ _)) in Hend by lia.
      destruct Hend as [Hst3 Hi3].
      destruct (IH s3 s' ltac:(lia) Hrun Hgo) as [-> ->].
      split; [congruence|lia].
Qed.

End Classes.

(** X18: complete elements leave the parser where it was: after events
    that are text and elements opened and closed in pairs, with the parser
    not stopped, the frames of the open elements and the depth of the
    ignored subtree are those from before the events, whether the elements
    were recognized or not. *)
Theorem complete_elements_restore_frames
    (S : schema) (wr : bool) (es : list (Z * event)) (s s' : parse_state)
    (ws : list warning) :
  balanced es →
  0 ≤ ignore_level s →
  deliver S wr es s = Some (s', ws) →
  stopped s' = None →
  stack s' = stack s ∧ ignore_level s' = ignore_level s.
Proof.
  intros Hes Hlevel Hrun Hgo. apply (balanced_frames S wr es Hes s s' Hlevel); [|done].
  by rewrite Hrun.
Qed.

Lemma complete_elements_restore_frames_witness :
  ∃ s' ws,
    deliver Example.schema false
      [(2, StartElement "point" [("x", "1"); ("y", "2")]); (2, EndElement "");
       (3, CharacterData "?"); (4, StartElement "other" []); (4, EndElement "")]
      Samples.in_doc = Some (s', ws)
    ∧ stack s' = stack Samples.in_doc
    ∧ ignore_level s' = ignore_level Samples.in_doc.
Proof.
  eexists _, _. split; [reflexivity|].
  eapply (complete_elements_restore_frames Example.schema false
           [(2, StartElement "point" [("x", "1"); ("y", "2")]); (2, EndElement "");
            (3, CharacterData "?"); (4, StartElement "other" []); (4, EndElement "")]
           Samples.in_doc _ _).
  - apply (balanced_element 2 "point" [("x", "1"); ("y", "2")] [] 2 "").
    + apply balanced_nil.
    + apply balanced_text.
      apply (balanced_element 4 "other" [] [] 4 ""); apply balanced_nil.
  - simpl. lia.
  - reflexivity.
  - reflexivity.
Defined.

End FrameProofs.
